(* ===== verification/_CoqProject ===== *)
-Q . S2P
Prelude.v
GoStrings.v
StateMachine.v
Store.v
StoreFacts.v
Outbox.v
RelayLoop.v
Partner.v
Steps.v
Lease.v
RedisLease.v
Executor.v
SagaLog.v
StepsCorrect.v
ExecutorFacts.v
RunFacts.v
Legality.v
CascadeCorrect.v
Attempting.v
Returns.v
SagaInv.v
Worker.v
Api.v
ApiFacts.v
Frame.v
Scenario.v
Cooperation.v
Poller.v
SagaTheorems.v
RetryTheorems.v
Publishers.v
AuthToken.v
Http.v
Context.v
HttpFacts.v
Grpc.v
Settings.v
Boot.v
Flags.v
Sql.v
Migrations.v
PgStore.v
PgSim.v
PgTables.v
PgOps.v
PgSaga.v
PgFacts.v
PgScenario.v
Orchctl.v
OrchctlFacts.v
System.v
SystemTheorems.v
ServiceTheorems.v
Pool.v
Startup.v
Lifecycle.v
Concurrent.v
Durable.v
Bystanders.v
Races.v
Deviations.v
