(* ===== verification/Prelude.v ===== *)
(** * Transaction orchestrator: a verification library

    The program takes a purchase through a saga of six steps (policy, payment,
    screening, signing, broadcast, ledger), each a call to a partner service,
    and undoes the payment when a step fails.  This library models the Go
    packages below [src/] as functions and proves what the saga promises about
    money, records and progress, for any partners: what holds of one run, what
    holds of a process whose handlers and runs follow one another, what remains
    when their units of work interleave, and what an overlap on one saga breaks.

    ** The program and its model

    - [internal/statemachine]: file [StateMachine].  States, steps, the forward
      table; [legal] is the documented lifecycle as a relation and [rank] the
      measure of a run.
    - [internal/store] ([store.go]): file [Store].  Rows as records, the Go
      interfaces [Tx], [Store], [TxStore] as the class [Store], [MemStore] as a
      record of maps with one definition per method (Module [Mem]).  A unit of
      work ([RunInTx] closure) is a [Tx S A]; one that fails keeps its writes,
      as [MemStore.Rollback] does.  [StoreFacts] has the laws of [MemStore].
      ([pg.go]): file [PgStore] (Module [Pg]), every method as the SQL statements
      it sends; [Sql] has the schema of [migrations/0001_init.up.sql] as typed
      tables with their keys and references, the meaning of a statement on them,
      the class [Postgres] of servers with its laws, and a reference server.
    - [internal/partner]: file [Partner].  Requests, responses, the client
      interfaces as records of functions on a state [P] of the outside world,
      the stub; [Ext] adds the log of every partner call ([Call]) and the
      position in the sequence of runtime readings.
    - [internal/saga] ([*_step.go]): file [Steps]; ([saga.go]): file [Executor];
      ([confirm_poller.go]): file [Poller].  [Execute] and [Compensate] of each
      step, [Run] with its turn [run_iter], the retry loop, one attempt with
      its two units of work, the compensation cascade, the inline confirmation,
      the back-off.
    - [internal/lease] ([inmemory.go]): file [Lease], with the interface
      [LeaseManager] as a class whose release functions are handles;
      ([redis.go]): file [RedisLease] (Module [Rds]), one Redis command per step
      of the relation [fleet_step] over the goroutines of all replicas.
    - [internal/worker]: file [Worker].  Channels as lists with the capacity as
      a bound, FNV-1a partitions, [Submit], [Recover] (which leaves queued what
      it queued before it blocks), one receive-and-run of a
      worker, the control plane; file [Pool], [Start], the goroutines with
      their [select] and [Stop] with its wait group, as a step relation in which
      a receive and the run it leads to are two steps ([pool_step]), or in which
      the world changes in any way at any moment meanwhile ([any_step]).
    - [internal/api] and [internal/quotelocker]: file [Api].  The five handlers
      as functions from a decoded body to a status and a response value; file
      [Http], from a request to a reply: the routes of [Mux], the health checks,
      the request id, composed with the authentication.
    - [internal/logging], and the values a context carries: file [Context].
    - [internal/outbox] ([relay.go]): file [Outbox], and file [RelayLoop] for the
      loop, [Start] and [Stop]; ([publisher.go]): file [Publishers], with the
      Kafka writer as a parameter.
    - [internal/authtoken]: file [AuthToken]; HMAC, base64 and JSON are a class.
    - [internal/grpcclient]: file [Grpc]; generated clients, gRPC statuses and
      TLS files are classes.
    - [internal/config]: file [Settings]; [cmd/orchestrator/main.go]: files
      [Settings] (executor configuration), [Boot] (store, the stub in every
      client slot ([stubs]), partner dials),
      [Startup] ([run], from the environment to the server it serves) and
      [Lifecycle] ([main] and [run] with the listener, the signal, the stack of
      deferred calls ([defers], [unwind]), which of them return ([Ending]), and
      the exit code).
    - [internal/migrations] and [cmd/migrate]: file [Migrations].
    - [cmd/orchctl]: file [Orchctl], from the arguments to requests, output and
      exit code; the replay runs the executor of [Executor] on the stubs.
    - [GoStrings] models the functions of [strings] and [strconv] in use,
      [Flags] the package [flag].

    ** Effects

    A function body with effects is a [Go W A]: a transformer of a world [W]
    that returns, panics, or runs out of the fuel of an unbounded loop
    ([Diverged]).  The world of the executor is a store, the outside world with
    its call log, and the leases; [zoom] lifts a body to a larger world.
    Everything a body reads from the runtime (the clock, fresh ids, random
    numbers, whether [ctx.Done()] wins a [select]) is a reading of a sequence
    [env : nat -> Runtime] the theorems quantify over.  Errors are values
    ([error], [result]) with [errors.Is] on sentinels and [%w] wraps.

    ** The proofs

    - [SagaLog]: projections of the call log per transaction, [enabled] (what
      must precede a call), [gated] logs, and [evidence] (what the log and the
      payload hold for a saga in a given state).
    - [StepsCorrect], [ExecutorFacts], [RunFacts]: what a step, an attempt, the
      retry loop, the cascade and a turn can do, as relations ([executes],
      [once], [retried], [cascaded], [iterated]) that the executable
      definitions refine.
    - [Legality]: for arbitrary steps, records only move along [legal], with
      rising versions, and other transactions are untouched ([moved]).
    - [CascadeCorrect], [Attempting], [Returns], [SagaInv]: the invariant
      [sound] of a saga driven by the six steps, its preservation by every
      phase, and that a run ends.
    - [SagaTheorems], [RetryTheorems]: the properties of one run.
    - [Frame], [System]: many sagas in one world ([sys_ok]), what each handler
      does to it ([effect]), and the process as a transition relation
      ([sys_step]) over creations, reads, retries, compensations, worker turns,
      recoveries, stops and relay drains, each from its start to its end before
      the next.  [SystemTheorems] and [ServiceTheorems] hold in every state a
      process reaches whose handlers and worker turns follow one another so.
    - [Cooperation]: with partners that grant what they are asked a run
      completes, one turn per step; the replay's theorem rests on it.
    - [HttpFacts]: a request without a valid token changes nothing, and one with
      it reaches the handler its method and path name.
    - [PgSim], [PgTables], [PgOps]: the relation [represents] between tables and
      a [MemStore], and that each method of [PgStore] simulates the method of
      [MemStore] under it; [PgSaga] puts these together for the units of work of
      the saga ([pg_refines_memstore]), the creations that draw an [id] of their
      own, as the API's do, included.  [PgFacts]: creation, the five reads
      outside a unit of work, claims, opening; [PgScenario]: its witnesses on the reference server.
    - [OrchctlFacts]: the command against the server it talks to.
    - [Startup]: which environments make a process serve, and that what serves
      in development starts in an initial state of the transition relation.
    - [Pool]: no two goroutines of the pool run one saga, whatever else happens
      ([pool_exclusive]); a pool that is told to stop does when its runs return
      ([pool_stops]), and blocks in a concrete one that waits for the lease of
      another replica ([stop_blocks]).  [RelayLoop]: the relay is a
      first-in first-out queue ([relay_fifo]) and sends nothing twice however
      often it is started ([sent_once]); [drain_refined] links its steps to
      [drainOnce].  [Lifecycle]: parts close in exactly the reverse order of
      their opening when the closing calls return ([shutdown_order]), and the exit code follows from the start of [Startup]
      ([main_code]).
    - [Concurrent]: executors, cascades and handlers that interleave at their
      units of work or at single methods of the store.  [board_step] is what
      anybody may do with a snapshot read at any time before;
      [no_lost_update] is what the version checks make of it, and
      [executor_on_board] shows that runs and cascades of [Executor], on a store
      that others change between their units ([Shared]), keep to these steps.
      [Durable]: no record of a transaction is lost or taken back to an older
      version by any interleaving of the units of work of the program
      ([program_step], [records_durable]).  [Bystanders]: a run between whose
      units others work on other transactions does what it does alone
      ([run_unaffected]), so that it is the overlap on one saga that counts.
      [Races] has the runs in which this is not enough for the money: double
      captures, double refunds, a completed saga compensated.
    - [Scenario]: the concrete worlds of the witnesses.  [Deviations]: concrete
      behaviours that differ from what comments and documents say.

    ** Bounds and fuel

    [Run env e id owner pf fuel]: [fuel] bounds the turns of the loop and [pf]
    the polls of one confirmation.  [Run_ends] shows that nine turns are enough
    (each turn that goes on raises [rank], which is at most eight) and that
    [pf] polls are enough when the context ends within [pf] waits; the poller's
    bound is its deadline ([poller_returns]), and that of [NewPgStore] too
    ([NewPgStore_returns]).  Durations are [int64]
    nanoseconds with their wrap-around where the source multiplies or adds; the
    back-off's float64 arithmetic is exact below [2^53] ns and the theorem on
    it is stated there.

    ** What is not modelled

    In [System] a step of the process is a whole handler or worker turn, so what
    [SystemTheorems] says of money, calls and compensations is said of processes
    whose handlers and worker turns follow one another.  [Pool] shows that one
    pool does not run a saga twice at a time and [Bystanders] that a run is not
    affected by work on other transactions; [Races] has what happens when a manual
    compensation overlaps with a run of the same saga, a replica works on a stale
    or torn snapshot, or a unit of work is lost.  [Bystanders] is about
    the store; the state of the partners is any state, but in a run only the run
    itself calls them.
    In [Concurrent] others act before a unit of work or, for the torn reads of
    [Races], after one; not between reads that no unit separates.  The theorems on runs and
    on the process are about [MemStore]; for PostgreSQL the refinement is per
    unit of work and per read, not for whole runs.  A read of PostgreSQL outside a
    unit of work is a function of the server's state, and the columns no query
    reads are left out of the tables.  JSON texts are abstract: a request body is
    what the decoder made of it, a stored payload what [Unmarshal] answers.  The
    sockets and signals of [cmd/orchestrator] are what an [Ending] says, and the
    texts of log messages are left out.  The protobuf code is generated and not
    modelled.  PostgreSQL, Redis, Kafka, gRPC, HMAC and the HTTP client are
    classes or parameters with their documented behaviour. *)

From stdpp Require Export base tactics option list gmap strings.
From stdpp Require Import pretty.
From Stdlib Require Ascii.
From Stdlib Require Export ZArith Lia.
From Stdlib Require Export Sorting.Sorted.

Create HintDb orch.

(** ** Go errors

    An error value is a package-level sentinel ([var ErrX = errors.New(..)]),
    a fresh [errors.New(..)], or the result of [fmt.Errorf] with one [%w]
    verb, which keeps the wrapped error reachable for [errors.Is].  A
    sentinel is compared by identity in Go; the text of every sentinel of the
    program is distinct, so its text identifies it. *)

Inductive error :=
  | Sentinel (msg : string)
  | New (msg : string)
  | Wrap (pre : string) (inner : error) (post : string).

#[export] Instance error_eq_dec : EqDecision error.
Proof. solve_decision. Defined.

(** [err.Error()]. *)
Fixpoint Error (e : error) : string :=
  match e with
  | Sentinel m | New m => m
  | Wrap pre i post => pre +:+ Error i +:+ post
  end.

(** [errors.Is(e, target)] for a sentinel target named by its text. *)
Fixpoint errors_Is (e target : error) : bool :=
  match e, target with
  | Sentinel m, Sentinel m' => bool_decide (m = m')
  | Wrap _ i _, _ => errors_Is i target
  | _, _ => false
  end.

(** A Go result [(v, err)] whose value is meaningful only when [err == nil]. *)
Inductive result (A : Type) :=
  | Ok (a : A)
  | Err (e : error).
Arguments Ok {A} a.
Arguments Err {A} e.

#[export] Instance result_eq_dec {A} `{EqDecision A} : EqDecision (result A).
Proof. solve_decision. Defined.

Definition is_Ok {A} (r : result A) : bool := match r with Ok _ => true | Err _ => false end.

(** [err] of a result: [None] is Go's [nil]. *)
Definition err_of {A} (r : result A) : option error :=
  match r with Ok _ => None | Err e => Some e end.

(** ** Effects

    A Go function body is a state transformer over a world [W].  Control
    leaves a body in three ways: it returns, it panics, or the fuel given to
    one of its unbounded loops runs out ([Diverged], which no execution of
    the program shows and which the termination theorems exclude). *)

Inductive outcome (A : Type) :=
  | Returned (a : A)
  | Panicked
  | Diverged.
Arguments Returned {A} a.
Arguments Panicked {A}.
Arguments Diverged {A}.

Definition Go (W A : Type) : Type := W -> outcome A * W.

Definition ret {W A} (a : A) : Go W A := fun w => (Returned a, w).
Definition panic {W A} : Go W A := fun w => (Panicked, w).
Definition diverge {W A} : Go W A := fun w => (Diverged, w).

Definition bind {W A B} (m : Go W A) (k : A -> Go W B) : Go W B := fun w =>
  match m w with
  | (Returned a, w') => k a w'
  | (Panicked, w') => (Panicked, w')
  | (Diverged, w') => (Diverged, w')
  end.

(** [v, err := m; if err != nil { return err }; k v]. *)
Definition bind_err {W A B} (m : Go W (result A)) (k : A -> Go W (result B)) : Go W (result B) :=
  bind m (fun r => match r with Ok a => k a | Err e => ret (Err e) end).

Definition get {W} : Go W W := fun w => (Returned w, w).
Definition modify {W} (f : W -> W) : Go W unit := fun w => (Returned tt, f w).

Declare Scope go_scope.
Delimit Scope go_scope with go.
Notation "'let!' x ':=' m 'in' k" := (bind m (fun x => k))
  (at level 10, x pattern, m at level 100, k at level 200) : go_scope.
Notation "'let?' x ':=' m 'in' k" := (bind_err m (fun x => k))
  (at level 10, x pattern, m at level 100, k at level 200) : go_scope.
Notation "m ';;;' k" := (bind m (fun _ => k))
  (at level 199, right associativity) : go_scope.

Lemma bind_ret_l {W A B} (a : A) (k : A -> Go W B) w : bind (ret a) k w = k a w.
Proof. reflexivity. Qed.

Lemma bind_assoc {W A B C} (m : Go W A) (f : A -> Go W B) (g : B -> Go W C) w :
  bind (bind m f) g w = bind m (fun a => bind (f a) g) w.
Proof. unfold bind. by destruct (m w) as [[]?]. Qed.

(** A body run on a component of a larger world. *)
Definition zoom {W V A} (getv : W -> V) (setv : V -> W -> W) (m : Go V A) : Go W A :=
  fun w => let '(o, v) := m (getv w) in (o, setv v w).

(** [m] respects the relation [R] between the worlds before and after. *)
Definition respects {W A} (R : W -> W -> Prop) (m : Go W A) : Prop :=
  forall w, R w (snd (m w)).

Section respects.
Context {W : Type} (R : W -> W -> Prop) `{!PreOrder R}.

Lemma respects_ret {A} (a : A) : respects R (ret a).
Proof. intros w. reflexivity. Qed.

Lemma respects_panic {A} : respects R (@panic W A).
Proof. intros w. reflexivity. Qed.

Lemma respects_diverge {A} : respects R (@diverge W A).
Proof. intros w. reflexivity. Qed.

Lemma respects_get : respects R (@get W).
Proof. intros w. reflexivity. Qed.

Lemma respects_bind {A B} (m : Go W A) (k : A -> Go W B) :
respects R m -> (forall a, respects R (k a)) -> respects R (bind m k).
Proof.
intros Hm Hk w. unfold bind. specialize (Hm w).
destruct (m w) as [[a| |] w']; cbn in *; [|done..].
etrans; [exact Hm|apply Hk].
Qed.

Lemma respects_bind_err {A B} (m : Go W (result A)) (k : A -> Go W (result B)) :
respects R m -> (forall a, respects R (k a)) -> respects R (bind_err m k).
Proof.
intros Hm Hk. apply respects_bind; [done|].
intros [a|e]; [apply Hk|apply respects_ret].
Qed.
End respects.

#[export] Hint Resolve respects_ret respects_panic respects_diverge respects_get
  respects_bind respects_bind_err : orch.

(** ** Units of work

    The body of a [RunInTx] closure: it reads and writes the store and
    returns a result.  [let?] propagates an error, [let!] binds the result
    itself, which is how the source ignores one ([_ = ts.Op(..)]). *)

Definition Tx (S A : Type) : Type := S -> result A * S.

Definition tx_ret {S A} (a : A) : Tx S A := fun s => (Ok a, s).
Definition tx_fail {S A} (e : error) : Tx S A := fun s => (Err e, s).
Definition tx_bind {S A B} (m : Tx S A) (k : A -> Tx S B) : Tx S B := fun s =>
  match m s with (Ok a, s') => k a s' | (Err e, s') => (Err e, s') end.
Definition tx_try {S A B} (m : Tx S A) (k : result A -> Tx S B) : Tx S B := fun s =>
  let '(r, s') := m s in k r s'.

Declare Scope tx_scope.
Delimit Scope tx_scope with tx.
Notation "'let?' x ':=' m 'in' k" := (tx_bind m (fun x => k))
  (at level 10, x pattern, m at level 100, k at level 200) : tx_scope.
Notation "'let!' x ':=' m 'in' k" := (tx_try m (fun x => k))
  (at level 10, x pattern, m at level 100, k at level 200) : tx_scope.

(** ** The runtime

    What a Go body reads from outside the program at one point of its
    execution: the clock, fresh UUIDs (several may be drawn in one call),
    which branch a [select] on a timer and [ctx.Done()] takes ([Some err] is
    the [ctx.Done()] branch with [ctx.Err() = err]), and the random source. *)

Record Runtime := {
  rt_now : Z;
  rt_uuid : nat -> Z;
  rt_uuid_string : nat -> string;
  rt_ctx : option error;
  rt_rand : Z -> Z;
}.

(** Functions of the Go standard library the model does not spell out: the
    SHA-256 of a text as hexadecimal digits, and [strconv.Quote] (the [%q]
    verb). *)
Class GoStd := {
  sha256_hex : string -> string;
  strconv_quote : string -> string;
}.

(** ** Relations *)

Inductive star {A} (R : A -> A -> Prop) : A -> A -> Prop :=
  | star_refl a : star R a a
  | star_step a b c : R a b -> star R b c -> star R a c.

Lemma star_one {A} (R : A -> A -> Prop) a b : R a b -> star R a b.
Proof. intros. eapply star_step; [done|constructor]. Qed.

#[export] Instance star_preorder {A} (R : A -> A -> Prop) : PreOrder (star R).
Proof.
  split; [constructor|].
  intros a b c Hab. revert c. induction Hab; [done|].
  intros. eapply star_step; eauto.
Qed.

(** An invariant of a step relation holds along every run. *)
Lemma star_invariant {A} (R : A -> A -> Prop) (I : A -> Prop) a b :
  (forall x y, I x -> R x y -> I y) -> star R a b -> I a -> I b.
Proof. intros Hpres Hs. induction Hs; eauto. Qed.

#[export] Hint Resolve star_one : orch.
#[export] Hint Constructors star : orch.

(** ** Lists *)

(** The first element that satisfies [p], as a Go [for range] with an early
    return finds it. *)
Fixpoint find_first {A} (p : A -> bool) (l : list A) : option A :=
  match l with
  | [] => None
  | x :: l' => if p x then Some x else find_first p l'
  end.

(** Two elements of a list without duplicate keys that have the same key are
    the same. *)
Lemma nodup_key_inj {A K} (key : A -> K) (l : list A) x y :
  NoDup (map key l) -> x ∈ l -> y ∈ l -> key x = key y -> x = y.
Proof.
  intros Hn [i Hi]%list_elem_of_lookup_1 [j Hj]%list_elem_of_lookup_1 E.
  pose proof (list_lookup_fmap key l i) as Hki. pose proof (list_lookup_fmap key l j) as Hkj.
  rewrite Hi in Hki. rewrite Hj in Hkj. cbn in *. rewrite <- E in Hkj.
  assert (i = j) as ->; [|congruence]. by eapply NoDup_lookup.
Qed.

(** Replace the first element that satisfies [p]; [None] when there is none. *)
Fixpoint replace_first {A} (p : A -> bool) (y : A) (l : list A) : option (list A) :=
  match l with
  | [] => None
  | x :: l' => if p x then Some (y :: l') else cons x <$> replace_first p y l'
  end.

Section find_first.
Context {A : Type}.
Implicit Types (p q : A -> bool) (l : list A).

Lemma find_first_Some p l x : find_first p l = Some x -> x ∈ l /\ p x = true.
Proof.
induction l as [|y l IH]; cbn; [done|].
rewrite elem_of_cons. destruct (p y) eqn:E; intros H; simplify_eq; [by auto|].
destruct (IH H). by auto.
Qed.

Lemma find_first_None p l : find_first p l = None <-> forall x, x ∈ l -> p x = false.
Proof.
induction l as [|y l IH]; cbn; [split; [intros _ x Hx; inversion Hx|done]|].
destruct (p y) eqn:E; split.
- done.
- intros H. specialize (H y). rewrite H in E; [done|constructor].
- intros H x [->|?]%elem_of_cons; [done|]. by apply IH.
- intros H. apply IH. intros. apply H. by constructor.
Qed.

Lemma find_first_app p l k :
find_first p (l ++ k) = match find_first p l with Some x => Some x | None => find_first p k end.
Proof. induction l as [|y l IH]; cbn; [done|]. by destruct (p y). Qed.

Lemma replace_first_None p y l : replace_first p y l = None <-> find_first p l = None.
Proof.
induction l as [|x l IH]; cbn; [done|]. destruct (p x); [done|].
destruct (replace_first p y l); cbn; intuition congruence.
Qed.

(** After a replacement by an element that still matches, a search finds
  the new element. *)
Lemma find_replace_first p y l l' :
replace_first p y l = Some l' -> p y = true -> find_first p l' = Some y.
Proof.
revert l'. induction l as [|x l IH]; cbn; intros l' H Hy; [done|].
destruct (p x) eqn:E; simplify_eq; cbn; [by rewrite Hy|].
destruct (replace_first p y l) eqn:E'; simplify_eq/=. rewrite E. eauto.
Qed.

(** A search for something else is not affected. *)
Lemma find_replace_first_other p q y l l' :
replace_first p y l = Some l' -> q y = false ->
(forall x, p x = true -> q x = false) -> find_first q l' = find_first q l.
Proof.
revert l'. induction l as [|x l IH]; cbn; intros l' H Hy Hpq; [done|].
destruct (p x) eqn:E; simplify_eq; cbn.
- by rewrite Hy, (Hpq x E).
- destruct (replace_first p y l) eqn:E'; simplify_eq/=. by rewrite (IH _ eq_refl).
Qed.

Lemma replace_first_map {B} (f : A -> B) p y l l' :
replace_first p y l = Some l' -> (forall x, p x = true -> f x = f y) ->
map f l' = map f l.
Proof.
revert l'. induction l as [|x l IH]; cbn; intros l' H Hf; [done|].
destruct (p x) eqn:E; simplify_eq; cbn; [by rewrite (Hf x E)|].
destruct (replace_first p y l) eqn:E'; simplify_eq/=. by rewrite (IH _ eq_refl).
Qed.

Lemma replace_first_Forall (P : A -> Prop) p y l l' :
replace_first p y l = Some l' -> P y -> Forall P l -> Forall P l'.
Proof.
revert l'. induction l as [|x l IH]; cbn; intros l' H Hy Hl; [done|].
inversion Hl; subst. destruct (p x); simplify_eq; [by constructor|].
destruct (replace_first p y l) eqn:E'; simplify_eq/=. constructor; eauto.
Qed.
End find_first.

(** *** Sorting by a boolean order *)

Fixpoint insert_by {r} (leb : r -> r -> bool) (x : r) (l : list r) : list r :=
match l with
| [] => [x]
| y :: l' => if leb x y then x :: y :: l' else y :: insert_by leb x l'
end.

Definition sort_by {r} (leb : r -> r -> bool) (l : list r) : list r := foldr (insert_by leb) [] l.

Lemma insert_by_perm {r} leb (x : r) l : insert_by leb x l ≡ₚ x :: l.
Proof.
induction l as [|y l IH]; cbn; [done|]. destruct (leb x y); [done|]. rewrite IH. apply Permutation_swap.
Qed.

Lemma sort_by_perm {r} leb (l : list r) : sort_by leb l ≡ₚ l.
Proof. induction l as [|x l IH]; cbn; [done|]. by rewrite insert_by_perm, IH. Qed.

Lemma insert_by_sorted {r} (leb : r -> r -> bool) x l :
(forall a b, leb a b = true \/ leb b a = true) ->
Sorted (fun a b => leb a b = true) l -> Sorted (fun a b => leb a b = true) (insert_by leb x l).
Proof.
intros Htot. induction l as [|y l IH]; cbn; [by repeat constructor|]. intros Hs.
destruct (leb x y) eqn:E; [by constructor; [|constructor]|]. apply Sorted_inv in Hs as [Hs Hy].
constructor; [by apply IH|]. assert (leb y x = true) as Hyx by (destruct (Htot x y); congruence).
destruct l as [|z l]; cbn; [by constructor|].
by destruct (leb x z); constructor; [|inversion Hy].
Qed.

Lemma sort_by_sorted {r} (leb : r -> r -> bool) l :
(forall a b, leb a b = true \/ leb b a = true) -> Sorted (fun a b => leb a b = true) (sort_by leb l).
Proof.
intros Htot. induction l as [|x l IH]; cbn; [constructor|]. by apply insert_by_sorted.
Qed.

(** ** Strings and the formats of [fmt] *)

(** [fmt.Sprintf("%d", z)]. *)
Definition itoa (z : Z) : string := pretty z.

Fixpoint join (sep : string) (l : list string) : string :=
  match l with
  | [] => ""
  | [s] => s
  | s :: l' => s +:+ sep +:+ join sep l'
  end.

Definition bar : Ascii.ascii := Ascii.ascii_of_nat 124.

(** [s] holds no separator ['|']. *)
Fixpoint bar_free (s : string) : bool :=
  match s with
  | EmptyString => true
  | String c s' => negb (Ascii.eqb c bar) && bar_free s'
  end.

(** A text is cut in one way at its first separator. *)
Lemma bar_cut s1 s2 r1 r2 :
  bar_free s1 = true -> bar_free s2 = true ->
  s1 +:+ "|" +:+ r1 = s2 +:+ "|" +:+ r2 -> s1 = s2 /\ r1 = r2.
Proof.
  revert s2. induction s1 as [|c1 s1 IH]; intros [|c2 s2] H1 H2 E; cbn in *.
  - by simplify_eq.
  - injection E as <- _. done.
  - injection E as -> _. done.
  - injection E as <- E. apply andb_true_iff in H1 as [_ H1], H2 as [_ H2].
    destruct (IH s2 H1 H2 E) as [-> ->]. done.
Qed.

Lemma itoa_inj a b : itoa a = itoa b -> a = b.
Proof. apply (inj pretty). Qed.

(** ** Tactics *)

(** Case analysis on the scrutinee of a [match] in the goal or a hypothesis,
    with its equation, then simplification. *)
Ltac step_match :=
  match goal with
  | H : context [match ?x with _ => _ end] |- _ =>
      let E := fresh "E" in destruct x eqn:E; simplify_eq/=
  | |- context [match ?x with _ => _ end] =>
      let E := fresh "E" in destruct x eqn:E; simplify_eq/=
  end.

(** Prove [respects] goals by following the structure of the body. *)
Ltac solve_respects :=
  repeat first
    [ progress intros
    | apply respects_bind_err; [typeclasses eauto| |]
    | apply respects_bind; [typeclasses eauto| |]
    | apply respects_ret; typeclasses eauto
    | apply respects_panic; typeclasses eauto
    | apply respects_diverge; typeclasses eauto
    | apply respects_get; typeclasses eauto
    | progress eauto with orch
    | case_match ].
