(* ===== verification/GoStrings.v ===== *)
(** The functions of the Go packages [strings] and [strconv] the program uses,
    on byte strings. *)

From stdpp Require Import pretty.
From S2P Require Import Prelude.

Local Open Scope Z_scope.

(** ** Prefixes and substrings *)

(** What is left of [s] after the prefix [p]. *)
Fixpoint cut_prefix (p s : string) : option string :=
  match p, s with
  | EmptyString, _ => Some s
  | String a p', String b s' => if Ascii.eqb a b then cut_prefix p' s' else None
  | String _ _, EmptyString => None
  end.

Definition HasPrefix (s p : string) : bool :=
  match cut_prefix p s with Some _ => true | None => false end.

Definition TrimPrefix (s p : string) : string := default s (cut_prefix p s).

(** [strings.Contains]. *)
Fixpoint Contains (s sub : string) : bool :=
  HasPrefix s sub || match s with EmptyString => false | String _ s' => Contains s' sub end.

(** The text before the first byte [c] and the text after it: [s[:i]] and
    [s[i+1:]] for [i = strings.Index(s, c)]. *)
Fixpoint cut_byte (c : Ascii.ascii) (s : string) : option (string * string) :=
  match s with
  | EmptyString => None
  | String d s' =>
      if Ascii.eqb d c then Some ("", s')
      else match cut_byte c s' with
           | Some (a, b) => Some (String d a, b)
           | None => None
           end
  end.

(** [strings.Split] at a one-byte separator; never empty. *)
Fixpoint split_byte (c : Ascii.ascii) (s : string) : list string :=
  match s with
  | EmptyString => [""%string]
  | String d s' =>
      if Ascii.eqb d c then ""%string :: split_byte c s'
      else match split_byte c s' with
           | p :: ps => String d p :: ps
           | [] => [String d ""]
           end
  end.

Definition byte (n : nat) : Ascii.ascii := Ascii.ascii_of_nat n.
Definition comma := byte 44.
Definition dot := byte 46.
Definition ampersand := byte 38.
Definition question := byte 63.

(** ** [strings.TrimSpace]

    The UTF-8 encodings of the runes [unicode.IsSpace] accepts. *)
Definition spaces : list (list nat) :=
  ([[9]; [10]; [11]; [12]; [13]; [32]; [194; 133]; [194; 160]; [225; 154; 128];
    [226; 128; 128]; [226; 128; 129]; [226; 128; 130]; [226; 128; 131]; [226; 128; 132];
    [226; 128; 133]; [226; 128; 134]; [226; 128; 135]; [226; 128; 136]; [226; 128; 137];
    [226; 128; 138]; [226; 128; 168]; [226; 128; 169]; [226; 128; 175]; [226; 129; 159];
    [227; 128; 128]])%nat.

Fixpoint drop_bytes (p l : list nat) : option (list nat) :=
  match p, l with
  | [], _ => Some l
  | a :: p', b :: l' => if (a =? b)%nat then drop_bytes p' l' else None
  | _ :: _, [] => None
  end.

Fixpoint drop_one (encs : list (list nat)) (l : list nat) : option (list nat) :=
  match encs with
  | [] => None
  | p :: encs' => match drop_bytes p l with Some l' => Some l' | None => drop_one encs' l end
  end.

(** Every encoding has a byte, so the length is fuel enough. *)
Fixpoint drop_all (fuel : nat) (encs : list (list nat)) (l : list nat) : list nat :=
  match fuel with
  | O => l
  | S fuel' => match drop_one encs l with Some l' => drop_all fuel' encs l' | None => l end
  end.

Definition bytes_of (s : string) : list nat :=
  map Ascii.nat_of_ascii (String.list_ascii_of_string s).
Definition of_bytes (l : list nat) : string :=
  String.string_of_list_ascii (map Ascii.ascii_of_nat l).

Definition trim_left (l : list nat) : list nat := drop_all (length l) spaces l.
Definition trim_right (l : list nat) : list nat :=
  rev (drop_all (length l) (map (@rev nat) spaces) (rev l)).

Definition TrimSpace (s : string) : string := of_bytes (trim_right (trim_left (bytes_of s))).

(** ** [strconv.Atoi] *)

Definition digit_of (c : Ascii.ascii) : option Z :=
  let n := Z.of_nat (Ascii.nat_of_ascii c) in
  if (48 <=? n) && (n <=? 57) then Some (n - 48) else None.

Fixpoint digits_from (acc : Z) (s : string) : option Z :=
  match s with
  | EmptyString => Some acc
  | String c s' =>
      match digit_of c with
      | Some d => digits_from (10 * acc + d) s'
      | None => None
      end
  end.

Definition parse_digits (s : string) : option Z :=
  match s with EmptyString => None | _ => digits_from 0 s end.

(** An optional sign, decimal digits, and a value of the 64-bit [int]. *)
Definition Atoi (s : string) : option Z :=
  let v := match s with
           | EmptyString => None
           | String c s' =>
               if Ascii.eqb c (byte 45) then Z.opp <$> parse_digits s'
               else if Ascii.eqb c (byte 43) then parse_digits s'
               else parse_digits s
           end in
  match v with
  | Some n => if (- 2 ^ 63 <=? n) && (n <? 2 ^ 63) then Some n else None
  | None => None
  end.

(** ** Laws *)

#[local] Arguments Ascii.eqb : simpl never.
#[local] Arguments String.append !_ _ : simpl nomatch.

Lemma append_assoc a b c : (a +:+ b) +:+ c = a +:+ b +:+ c.
Proof. induction a as [|d a IH]; cbn; [done|]. by rewrite IH. Qed.

Lemma cut_prefix_app p s : cut_prefix p (p +:+ s) = Some s.
Proof. induction p as [|a p IH]; cbn; [done|]. by rewrite Ascii.eqb_refl. Qed.

Lemma TrimPrefix_app p s : TrimPrefix (p +:+ s) p = s.
Proof. unfold TrimPrefix. by rewrite cut_prefix_app. Qed.

Lemma cut_prefix_Some p s r : cut_prefix p s = Some r <-> s = p +:+ r.
Proof.
  split; [|intros ->; apply cut_prefix_app]. revert s.
  induction p as [|a p IH]; intros [|b s]; cbn; intros H; simplify_eq; try done.
  destruct (Ascii.eqb_spec a b) as [->|]; [|done]. by rewrite (IH _ H).
Qed.

Lemma HasPrefix_true s p : HasPrefix s p = true <-> exists r, s = p +:+ r.
Proof.
  unfold HasPrefix. destruct (cut_prefix p s) as [r|] eqn:E.
  - apply cut_prefix_Some in E. split; [by exists r|done].
  - split; [done|]. intros [r Hr]. apply cut_prefix_Some in Hr. by rewrite E in Hr.
Qed.

(** [s] holds no byte [c]. *)
Fixpoint free_of (c : Ascii.ascii) (s : string) : bool :=
  match s with
  | EmptyString => true
  | String d s' => negb (Ascii.eqb d c) && free_of c s'
  end.

Lemma split_byte_ne c s : split_byte c s <> [].
Proof.
  induction s as [|d s IH]; cbn; [done|]. destruct (Ascii.eqb d c); [done|].
  by destruct (split_byte c s).
Qed.

Lemma split_byte_free c s : free_of c s = true -> split_byte c s = [s].
Proof.
  induction s as [|d s IH]; cbn; [done|]. intros [Hd Hs]%andb_true_iff.
  apply negb_true_iff in Hd. by rewrite Hd, IH.
Qed.

Lemma split_byte_cons c a s :
  free_of c a = true -> split_byte c (a +:+ String c s) = a :: split_byte c s.
Proof.
  induction a as [|d a IH]; cbn; [by rewrite Ascii.eqb_refl|].
  intros [Hd Ha]%andb_true_iff. apply negb_true_iff in Hd. by rewrite Hd, IH.
Qed.

(** [strings.Split] undoes [strings.Join]. *)
Lemma split_join c (l : list string) :
  l <> [] -> Forall (fun s => free_of c s = true) l -> split_byte c (join (String c "") l) = l.
Proof.
  intros Hne Hf. induction Hf as [|s l Hs Hl IH]; [done|]. destruct l as [|s' l].
  - cbn. by apply split_byte_free.
  - change (join (String c "") (s :: s' :: l))
      with (s +:+ String c (join (String c "") (s' :: l))).
    rewrite split_byte_cons by done. by rewrite IH.
Qed.

Lemma join_split c s : join (String c "") (split_byte c s) = s.
Proof.
  induction s as [|d s IH]; [done|]. cbn [split_byte].
  pose proof (split_byte_ne c s) as Hne.
  destruct (Ascii.eqb_spec d c) as [->|Hd]; destruct (split_byte c s) as [|p ps]; try done.
  - change (join (String c "") (""%string :: p :: ps))
      with (String c (join (String c "") (p :: ps))). by rewrite IH.
  - destruct ps as [|q ps]; cbn in *; by rewrite IH.
Qed.

(** The parts of a split hold no separator. *)
Lemma split_byte_parts c s : Forall (fun p => free_of c p = true) (split_byte c s).
Proof.
  induction s as [|d s IH]; cbn [split_byte]; [by repeat constructor|].
  destruct (Ascii.eqb d c) eqn:E; [by constructor|].
  pose proof (split_byte_ne c s). destruct (split_byte c s) as [|p ps]; [done|].
  apply Forall_cons in IH as [Hp Hps]. constructor; [|done]. cbn. by rewrite E, Hp.
Qed.

(** *** [Atoi] reads what [fmt] writes *)

Lemma digit_of_char n : (n < 10)%N -> digit_of (pretty_N_char n) = Some (Z.of_N n).
Proof.
  intros Hn. rewrite <- (N2Nat.id n) in Hn |- *. generalize dependent (N.to_nat n).
  intros k Hk. assert (k < 10)%nat as Hk' by lia. clear Hk.
  by do 10 (destruct k as [|k]; [done|]); lia.
Qed.

Lemma digits_from_pretty (n : N) s :
  digits_from 0 (pretty_N_go n s) = digits_from (Z.of_N n) s.
Proof.
  revert s. induction (N.lt_wf_0 n) as [n _ IH]. intros s.
  destruct (decide (0 < n)%N) as [Hn|Hn].
  - rewrite pretty_N_go_step by done. rewrite IH by (apply N.div_lt; lia). cbn [digits_from].
    rewrite digit_of_char by (apply N.mod_lt; lia). f_equal.
    pose proof (N.div_mod' n 10). lia.
  - assert (n = 0%N) as -> by lia. by rewrite pretty_N_go_0.
Qed.

Lemma parse_digits_pretty (n : N) : parse_digits (pretty n) = Some (Z.of_N n).
Proof.
  unfold pretty, pretty_N. case_decide as Hn; [by subst|].
  pose proof (digits_from_pretty n "") as Hd. unfold parse_digits.
  destruct (pretty_N_go n "") eqn:E; [|exact Hd].
  cbn in Hd. injection Hd as Hd. lia.
Qed.

Lemma parse_digits_head c s z :
  parse_digits (String c s) = Some z -> Ascii.eqb c (byte 45) = false /\ Ascii.eqb c (byte 43) = false.
Proof.
  intros H. split; apply Ascii.eqb_neq; intros ->; cbn in H; discriminate.
Qed.

(** Parsing the text of an integer of the type [int] gives the integer. *)
Lemma Atoi_itoa z : - 2 ^ 63 <= z < 2 ^ 63 -> Atoi (itoa z) = Some z.
Proof.
  intros Hz. assert (forall s, parse_digits s = Some (Z.abs z) ->
    Atoi (if z <? 0 then "-" +:+ s else s) = Some z) as Hmain.
  { intros s Hs. destruct (Z.ltb_spec z 0) as [Hneg|Hpos].
    - unfold Atoi. cbn [String.append]. rewrite Ascii.eqb_refl, Hs. cbn [fmap option_fmap option_map].
      replace (- Z.abs z) with z by lia.
      destruct (Z.leb_spec (- 2 ^ 63) z), (Z.ltb_spec z (2 ^ 63)); done || lia.
    - destruct s as [|c s]; [done|]. destruct (parse_digits_head c s _ Hs) as [H1 H2].
      unfold Atoi. rewrite H1, H2, Hs. replace (Z.abs z) with z by lia.
      destruct (Z.leb_spec (- 2 ^ 63) z), (Z.ltb_spec z (2 ^ 63)); done || lia. }
  unfold itoa. destruct z as [|p|p].
  - done.
  - apply (Hmain (pretty (Npos p))). by rewrite parse_digits_pretty.
  - apply (Hmain (pretty (Npos p))). by rewrite parse_digits_pretty.
Qed.

Lemma cut_byte_free c s : free_of c s = true -> cut_byte c s = None.
Proof.
  induction s as [|d s IH]; [done|]. cbn [free_of cut_byte]. intros [Hd Hs]%andb_true_iff.
  apply negb_true_iff in Hd. by rewrite Hd, IH.
Qed.

Lemma cut_byte_app c a b : free_of c a = true -> cut_byte c (a +:+ String c b) = Some (a, b).
Proof.
  induction a as [|d a IH].
  - intros _. change (cut_byte c (String c b) = Some ("", b)). cbn [cut_byte].
    by rewrite Ascii.eqb_refl.
  - cbn [free_of]. intros [Hd Ha]%andb_true_iff. apply negb_true_iff in Hd.
    change (cut_byte c (String d (a +:+ String c b)) = Some (String d a, b)). cbn [cut_byte].
    by rewrite Hd, IH.
Qed.
