(* ===== verification/StateMachine.v ===== *)
(** The saga state machine ([internal/statemachine/statemachine.go]): states,
    steps, the forward table, [Transition], and the inductive relation that
    specifies it. *)

From S2P Require Import Prelude.

(** ** States and steps

    [State] and [Step] are string types in Go.  The named constants are the
    constructors; [StateOther s] and [StepOther s] stand for every other
    string ([""] is the zero value), so that the conversions from and to
    strings are total. *)

Inductive State :=
  | StateCreated
  | StatePolicyChecked
  | StatePaymentCaptured
  | StateKytScreened
  | StateSigned
  | StateBroadcasted
  | StateConfirmed
  | StateLedgered
  | StateCompleted
  | StateFailedCompensated
  | StateFailed
  | StateOther (s : string).

#[export] Instance State_eq_dec : EqDecision State.
Proof. solve_decision. Defined.

Inductive Step :=
  | StepPolicy
  | StepPayment
  | StepKyt
  | StepMpcSign
  | StepBroadcast
  | StepLedger
  | StepOther (s : string).

#[export] Instance Step_eq_dec : EqDecision Step.
Proof. solve_decision. Defined.

(** [string(s)]. *)
Definition State_string (s : State) : string :=
  match s with
  | StateCreated => "CREATED"
  | StatePolicyChecked => "POLICY_CHECKED"
  | StatePaymentCaptured => "PAYMENT_CAPTURED"
  | StateKytScreened => "KYT_SCREENED"
  | StateSigned => "SIGNED"
  | StateBroadcasted => "BROADCASTED"
  | StateConfirmed => "CONFIRMED"
  | StateLedgered => "LEDGERED"
  | StateCompleted => "COMPLETED"
  | StateFailedCompensated => "FAILED_COMPENSATED"
  | StateFailed => "FAILED"
  | StateOther s => s
  end.

Definition Step_string (s : Step) : string :=
  match s with
  | StepPolicy => "POLICY"
  | StepPayment => "PAYMENT"
  | StepKyt => "KYT"
  | StepMpcSign => "MPC_SIGN"
  | StepBroadcast => "BROADCAST"
  | StepLedger => "LEDGER"
  | StepOther s => s
  end.

(** [StepOrder]. *)
Definition StepOrder : list Step :=
  [StepPolicy; StepPayment; StepKyt; StepMpcSign; StepBroadcast; StepLedger].

(** [statemachine.Step(body.Step)]: the conversion from a string. *)
Definition Step_of_string (s : string) : Step :=
  default (StepOther s) (find_first (fun st => bool_decide (Step_string st = s)) StepOrder).

(** [State.Terminal]. *)
Definition Terminal (s : State) : bool :=
  match s with
  | StateCompleted | StateFailedCompensated | StateFailed => true
  | _ => false
  end.

(** [State.IsFailure]. *)
Definition IsFailure (s : State) : bool :=
  bool_decide (s = StateFailedCompensated) || bool_decide (s = StateFailed).

(** The loop of [StepAfter]: [cur] is [StepOrder[i]], its successor is
    returned when [i+1 < len(StepOrder)]. *)
Fixpoint step_after_in (s : Step) (order : list Step) : option Step :=
  match order with
  | cur :: ((nxt :: _) as rest) =>
      if bool_decide (cur = s) then Some nxt else step_after_in s rest
  | _ => None
  end.

Definition StepAfter (s : Step) : option Step := step_after_in s StepOrder.

Definition StateForStep (s : Step) : option State :=
  match s with
  | StepPolicy => Some StatePolicyChecked
  | StepPayment => Some StatePaymentCaptured
  | StepKyt => Some StateKytScreened
  | StepMpcSign => Some StateSigned
  | StepBroadcast => Some StateBroadcasted
  | StepLedger => Some StateLedgered
  | StepOther _ => None
  end.

Definition StepForState (s : State) : option Step :=
  match s with
  | StatePolicyChecked => Some StepPolicy
  | StatePaymentCaptured => Some StepPayment
  | StateKytScreened => Some StepKyt
  | StateSigned => Some StepMpcSign
  | StateBroadcasted => Some StepBroadcast
  | StateLedgered => Some StepLedger
  | _ => None
  end.

(** The happy-path table [forward]. *)
Definition forward (s : State) : option State :=
  match s with
  | StateCreated => Some StatePolicyChecked
  | StatePolicyChecked => Some StatePaymentCaptured
  | StatePaymentCaptured => Some StateKytScreened
  | StateKytScreened => Some StateSigned
  | StateSigned => Some StateBroadcasted
  | StateBroadcasted => Some StateConfirmed
  | StateConfirmed => Some StateLedgered
  | StateLedgered => Some StateCompleted
  | _ => None
  end.

Definition ErrIllegalTransition : error := Sentinel "statemachine: illegal transition".

(** [Transition] returns both values of the Go pair: the state it returns
    and the error, [None] for [nil]. *)
Definition Transition (cur nxt : State) : State * option error :=
  if Terminal cur then
    (cur, Some (Wrap "" ErrIllegalTransition (": " +:+ State_string cur +:+ " is terminal")))
  else if bool_decide (nxt = StateFailedCompensated) || bool_decide (nxt = StateFailed) then
    (nxt, None)
  else if match forward cur with Some want => bool_decide (nxt = want) | None => false end then
    (nxt, None)
  else
    (cur, Some (Wrap "" ErrIllegalTransition
                  (": " +:+ State_string cur +:+ " -> " +:+ State_string nxt))).

(** [MustTransition] panics on an illegal move. *)
Definition MustTransition {W} (cur nxt : State) : Go W State :=
  match Transition cur nxt with
  | (out, None) => ret out
  | (_, Some _) => panic
  end.

Definition ForwardTarget (cur : State) : option State := forward cur.

(** ** Specification *)

(** The lifecycle of the header comment of the Go package: the happy path,
    and a failure move out of every non-terminal state. *)
Inductive legal : State -> State -> Prop :=
  | legal_policy : legal StateCreated StatePolicyChecked
  | legal_payment : legal StatePolicyChecked StatePaymentCaptured
  | legal_kyt : legal StatePaymentCaptured StateKytScreened
  | legal_sign : legal StateKytScreened StateSigned
  | legal_broadcast : legal StateSigned StateBroadcasted
  | legal_confirm : legal StateBroadcasted StateConfirmed
  | legal_ledger : legal StateConfirmed StateLedgered
  | legal_complete : legal StateLedgered StateCompleted
  | legal_fail s t : Terminal s = false -> IsFailure t = true -> legal s t.

(** How far along its lifecycle a state is. *)
Definition rank (s : State) : nat :=
  match s with
  | StateCreated => 0
  | StatePolicyChecked => 1
  | StatePaymentCaptured => 2
  | StateKytScreened => 3
  | StateSigned => 4
  | StateBroadcasted => 5
  | StateConfirmed => 6
  | StateLedgered => 7
  | StateCompleted | StateFailedCompensated | StateFailed => 8
  | StateOther _ => 0
  end.

#[export] Hint Constructors legal : orch.

Lemma Transition_ok_legal cur nxt : snd (Transition cur nxt) = None -> legal cur nxt.
Proof.
  unfold Transition. destruct (Terminal cur) eqn:Ht; [done|].
  destruct (bool_decide (nxt = _) || bool_decide (nxt = _)) eqn:Hf.
  { intros _. by apply legal_fail. }
  destruct (forward cur) as [want|] eqn:Hw; cbn; [|done].
  destruct (bool_decide_reflect (nxt = want)) as [->|]; cbn; [|done].
  intros _. destruct cur; simplify_eq/=; constructor.
Qed.

Lemma legal_Transition cur nxt : legal cur nxt -> Transition cur nxt = (nxt, None).
Proof.
  destruct 1; try reflexivity.
  unfold Transition, IsFailure in *. rewrite H. by rewrite H0.
Qed.

Lemma legal_rank s t : legal s t -> rank s < rank t.
Proof.
  destruct 1 as [| | | | | | | |s t Hs Ht]; cbn; try lia.
  destruct s, t; cbn in *; try done; lia.
Qed.

Lemma legal_not_terminal s t : legal s t -> Terminal s = false.
Proof. by destruct 1. Qed.

Lemma star_legal_rank s t : star legal s t -> rank s <= rank t.
Proof. induction 1 as [|a b c Hab]; [lia|]. apply legal_rank in Hab. lia. Qed.

#[export] Hint Resolve Transition_ok_legal legal_not_terminal : orch.

(** C22: [Transition] accepts exactly the moves of the documented lifecycle. *)
Theorem Transition_iff_legal cur nxt :
  Transition cur nxt = (nxt, None) <-> legal cur nxt.
Proof.
  split; [|apply legal_Transition].
  intros H. apply Transition_ok_legal. by rewrite H.
Qed.
