(* ===== verification/Store.v ===== *)
(** The persistence boundary ([internal/store/store.go]): the row types, the
    [Store]/[TxStore] interfaces as a class, the in-memory implementation
    [MemStore], and its laws. *)

From S2P Require Import Prelude StateMachine.

Local Open Scope Z_scope.

(** ** Rows *)

Inductive StepStatus :=
  | StepPending | StepRunning | StepSucceeded | StepFailed
  | StepCompensating | StepCompensated.

#[export] Instance StepStatus_eq_dec : EqDecision StepStatus.
Proof. solve_decision. Defined.

Definition StepStatus_string (s : StepStatus) : string :=
  match s with
  | StepPending => "PENDING"
  | StepRunning => "RUNNING"
  | StepSucceeded => "SUCCEEDED"
  | StepFailed => "FAILED"
  | StepCompensating => "COMPENSATING"
  | StepCompensated => "COMPENSATED"
  end.

Inductive OutboxStatus := OutboxPending | OutboxInflight | OutboxPublished.

#[export] Instance OutboxStatus_eq_dec : EqDecision OutboxStatus.
Proof. solve_decision. Defined.

(** A value of a [map[string]any] payload. *)
Inductive any :=
  | AString (s : string)
  | ABool (b : bool)
  | AInt (z : Z)
  | ANil.

#[export] Instance any_eq_dec : EqDecision any.
Proof. solve_decision. Defined.

(** A payload map.  A nil map reads as an empty one and [EncodeJSON] writes
    both as [{}], so both are [∅]. *)
Abbreviation Payload := (gmap string any).

(** [v, _ := payload[key].(string)]. *)
Definition payload_string (p : Payload) (key : string) : string :=
  match p !! key with Some (AString s) => s | _ => "" end.

(** [payload[key]] as an [any]: nil when absent. *)
Definition payload_any (p : Payload) (key : string) : any := default ANil (p !! key).

(** [uuid.UUID]: 128 bits, [0] for the zero value. *)
Abbreviation UUID := Z.

Record Transaction := {
  tx_ID : UUID;
  tx_TxID : string;
  tx_UserID : string;
  tx_QuoteID : string;
  tx_Amount : string;
  tx_Asset : string;
  tx_Rail : string;
  tx_DestAddress : string;
  tx_Status : State;
  tx_CreatedAt : Z;
  tx_UpdatedAt : Z;
  tx_Version : Z;
}.

Record StepRow := {
  row_ID : UUID;
  row_TxID : string;
  row_StepName : Step;
  row_Status : StepStatus;
  row_Attempt : Z;
  row_StartedAt : option Z;
  row_FinishedAt : option Z;
  row_Error : string;
  row_IdempotencyKey : string;
}.

Record SagaState := {
  sg_ID : UUID;
  sg_TxID : string;
  sg_CurrentStep : Step;
  sg_State : State;
  sg_LeaseOwner : string;
  sg_LeaseExpiresAt : option Z;
  sg_Payload : Payload;
  sg_Version : Z;
}.

Record OutboxEvent := {
  ev_ID : UUID;
  ev_EventID : string;
  ev_TxID : string;
  ev_EventType : string;
  ev_Step : string;
  ev_Attempt : Z;
  ev_Payload : Payload;
  ev_CreatedAt : Z;
  ev_PublishedAt : option Z;
  ev_Status : OutboxStatus;
  ev_DedupKey : string;
}.

(** The zero value of a row, returned with an error. *)
Definition StepRow_zero : StepRow := {|
  row_ID := 0; row_TxID := ""; row_StepName := StepOther ""; row_Status := StepPending;
  row_Attempt := 0; row_StartedAt := None; row_FinishedAt := None; row_Error := "";
  row_IdempotencyKey := "" |}.

(** Field updates. *)
Definition tx_with_ID (t : Transaction) (id : UUID) : Transaction := {|
  tx_ID := id; tx_TxID := tx_TxID t; tx_UserID := tx_UserID t; tx_QuoteID := tx_QuoteID t;
  tx_Amount := tx_Amount t; tx_Asset := tx_Asset t; tx_Rail := tx_Rail t;
  tx_DestAddress := tx_DestAddress t; tx_Status := tx_Status t;
  tx_CreatedAt := tx_CreatedAt t; tx_UpdatedAt := tx_UpdatedAt t; tx_Version := tx_Version t |}.

Definition tx_with_status (t : Transaction) (st : State) (version updated : Z) : Transaction := {|
  tx_ID := tx_ID t; tx_TxID := tx_TxID t; tx_UserID := tx_UserID t; tx_QuoteID := tx_QuoteID t;
  tx_Amount := tx_Amount t; tx_Asset := tx_Asset t; tx_Rail := tx_Rail t;
  tx_DestAddress := tx_DestAddress t; tx_Status := st;
  tx_CreatedAt := tx_CreatedAt t; tx_UpdatedAt := updated; tx_Version := version |}.

Definition row_with_ID (r : StepRow) (id : UUID) : StepRow := {|
  row_ID := id; row_TxID := row_TxID r; row_StepName := row_StepName r;
  row_Status := row_Status r; row_Attempt := row_Attempt r; row_StartedAt := row_StartedAt r;
  row_FinishedAt := row_FinishedAt r; row_Error := row_Error r;
  row_IdempotencyKey := row_IdempotencyKey r |}.

Definition row_with_status (r : StepRow) (st : StepStatus) (err : string) : StepRow := {|
  row_ID := row_ID r; row_TxID := row_TxID r; row_StepName := row_StepName r;
  row_Status := st; row_Attempt := row_Attempt r; row_StartedAt := row_StartedAt r;
  row_FinishedAt := row_FinishedAt r; row_Error := err;
  row_IdempotencyKey := row_IdempotencyKey r |}.

Definition sg_with_ID (g : SagaState) (id : UUID) : SagaState := {|
  sg_ID := id; sg_TxID := sg_TxID g; sg_CurrentStep := sg_CurrentStep g; sg_State := sg_State g;
  sg_LeaseOwner := sg_LeaseOwner g; sg_LeaseExpiresAt := sg_LeaseExpiresAt g;
  sg_Payload := sg_Payload g; sg_Version := sg_Version g |}.

(** [newSaga := sg] followed by assignments to its step, state, payload and
    version. *)
Definition sg_advance (g : SagaState) (step : Step) (st : State) (p : Payload) (version : Z)
  : SagaState := {|
  sg_ID := sg_ID g; sg_TxID := sg_TxID g; sg_CurrentStep := step; sg_State := st;
  sg_LeaseOwner := sg_LeaseOwner g; sg_LeaseExpiresAt := sg_LeaseExpiresAt g;
  sg_Payload := p; sg_Version := version |}.

Definition ev_with_ID (e : OutboxEvent) (id : UUID) : OutboxEvent := {|
  ev_ID := id; ev_EventID := ev_EventID e; ev_TxID := ev_TxID e; ev_EventType := ev_EventType e;
  ev_Step := ev_Step e; ev_Attempt := ev_Attempt e; ev_Payload := ev_Payload e;
  ev_CreatedAt := ev_CreatedAt e; ev_PublishedAt := ev_PublishedAt e;
  ev_Status := ev_Status e; ev_DedupKey := ev_DedupKey e |}.

Definition ev_with_status (e : OutboxEvent) (st : OutboxStatus) (published : option Z)
  : OutboxEvent := {|
  ev_ID := ev_ID e; ev_EventID := ev_EventID e; ev_TxID := ev_TxID e;
  ev_EventType := ev_EventType e; ev_Step := ev_Step e; ev_Attempt := ev_Attempt e;
  ev_Payload := ev_Payload e; ev_CreatedAt := ev_CreatedAt e; ev_PublishedAt := published;
  ev_Status := st; ev_DedupKey := ev_DedupKey e |}.

(** ** Errors and keys *)

Definition ErrNotFound : error := Sentinel "store: not found".
Definition ErrConflict : error := Sentinel "store: version conflict".
Definition ErrDuplicate : error := Sentinel "store: duplicate".

(** [IdempotencyKey]: the hash of the key text. *)
Definition idempotency_text (txID : string) (step : Step) (attempt : Z) : string :=
  txID +:+ "|" +:+ Step_string step +:+ "|" +:+ itoa attempt.

Definition IdempotencyKey `{GoStd} (txID : string) (step : Step) (attempt : Z) : string :=
  sha256_hex (idempotency_text txID step attempt).

Definition DedupKey (txID eventType step : string) (attempt : Z) : string :=
  txID +:+ "|" +:+ eventType +:+ "|" +:+ step +:+ "|" +:+ itoa attempt.

(** ** The interface

    [Store S] is the Go [Store] interface together with the [TxStore] it
    hands to the closure of [RunInTx]; [S] is the state behind it.  A method
    that draws fresh ids in one of the implementations gets the readings of the
    runtime. *)

Class Store (S : Type) := {
  LoadTx : string -> S -> result Transaction;
  LoadSagaState : string -> S -> result SagaState;
  ListSteps : string -> S -> result (list StepRow);
  ListOutboxPending : nat -> S -> result (list OutboxEvent);
  ListInflightSagaIDs : S -> result (list string);
  RunInTx : forall {A}, Tx S A -> S -> result A * S;
  CreateTx : Runtime -> Transaction -> list StepRow -> SagaState -> list OutboxEvent -> Tx S unit;
  InsertStep : Runtime -> StepRow -> Tx S unit;
  UpdateStep : StepRow -> Tx S unit;
  LoadStep : string -> Step -> Z -> Tx S StepRow;
  UpdateTransactionStatus : Runtime -> string -> State -> Z -> Tx S unit;
  SaveSagaState : SagaState -> Tx S unit;
  TxLoadSagaState : string -> Tx S SagaState;
  AppendOutbox : Runtime -> list OutboxEvent -> Tx S unit;
  MarkOutboxPublished : list string -> Z -> Tx S unit;
  ClaimOutboxPending : nat -> Tx S (list OutboxEvent);
}.

(** ** [MemStore] *)

Record MemStore := {
  mem_txs : gmap string Transaction;
  mem_steps : gmap string (list StepRow);
  mem_sagas : gmap string SagaState;
  mem_outbox : list OutboxEvent;
}.

Definition set_txs (m : gmap string Transaction) (s : MemStore) : MemStore := {|
  mem_txs := m; mem_steps := mem_steps s; mem_sagas := mem_sagas s; mem_outbox := mem_outbox s |}.
Definition set_steps (m : gmap string (list StepRow)) (s : MemStore) : MemStore := {|
  mem_txs := mem_txs s; mem_steps := m; mem_sagas := mem_sagas s; mem_outbox := mem_outbox s |}.
Definition set_sagas (m : gmap string SagaState) (s : MemStore) : MemStore := {|
  mem_txs := mem_txs s; mem_steps := mem_steps s; mem_sagas := m; mem_outbox := mem_outbox s |}.
Definition set_outbox (l : list OutboxEvent) (s : MemStore) : MemStore := {|
  mem_txs := mem_txs s; mem_steps := mem_steps s; mem_sagas := mem_sagas s; mem_outbox := l |}.

Definition NewMemStore : MemStore :=
  {| mem_txs := ∅; mem_steps := ∅; mem_sagas := ∅; mem_outbox := [] |}.

(** [s.steps[txID]]: a missing key reads as the nil slice. *)
Definition rows_of (s : MemStore) (txID : string) : list StepRow :=
  default [] (mem_steps s !! txID).

Module Mem.

Definition LoadTx (txID : string) (s : MemStore) : result Transaction :=
  match mem_txs s !! txID with Some t => Ok t | None => Err ErrNotFound end.

Definition LoadSagaState (txID : string) (s : MemStore) : result SagaState :=
  match mem_sagas s !! txID with Some g => Ok g | None => Err ErrNotFound end.

Definition ListSteps (txID : string) (s : MemStore) : result (list StepRow) :=
  Ok (rows_of s txID).

Definition is_pending (e : OutboxEvent) : bool := bool_decide (ev_Status e = OutboxPending).

(** The loop of [ListOutboxPending]: [n] events are in [out] already; the
    bound is tested after each append. *)
Fixpoint list_pending (limit n : nat) (l : list OutboxEvent) : list OutboxEvent :=
  match l with
  | [] => []
  | e :: l' =>
      if is_pending e then
        e :: (if (limit <=? S n)%nat then [] else list_pending limit (S n) l')
      else list_pending limit n l'
  end.

Definition ListOutboxPending (limit : nat) (s : MemStore) : result (list OutboxEvent) :=
  Ok (list_pending limit 0 (mem_outbox s)).

(** The ids of the non-terminal sagas; Go ranges over the map in an order it
    does not define, [map_to_list] fixes one. *)
Definition ListInflightSagaIDs (s : MemStore) : result (list string) :=
  Ok ((map_to_list (mem_sagas s)) ≫= (fun '(id, g) =>
        if negb (Terminal (sg_State g)) then [id] else [])).

(** [BeginTx] takes no snapshot and [Rollback] undoes nothing: a closure that
    fails keeps the writes it made before it failed. *)
Definition Commit (s : MemStore) : result unit * MemStore := (Ok tt, s).
Definition Rollback (s : MemStore) : MemStore := s.

Definition RunInTx {A} (fn : Tx MemStore A) (s : MemStore) : result A * MemStore :=
  match fn s with
  | (Err e, s') => (Err e, Rollback s')
  | (Ok a, s') => match Commit s' with
                  | (Ok _, s'') => (Ok a, s'')
                  | (Err e, s'') => (Err e, s'')
                  end
  end.

(** [if x.ID == (uuid.UUID{}) { x.ID = NewID() }]. *)
Definition fresh_ID (rt : Runtime) (i : nat) (id : UUID) : UUID :=
  if id =? 0 then rt_uuid rt i else id.

Definition CreateTx (rt : Runtime) (t : Transaction) (steps : list StepRow) (saga : SagaState)
    (events : list OutboxEvent) : Tx MemStore unit := fun s =>
  match mem_txs s !! tx_TxID t with
  | Some _ => (Err ErrDuplicate, s)
  | None =>
      let id := tx_TxID t in
      let t' := tx_with_ID t (fresh_ID rt 0 (tx_ID t)) in
      let out := imap (fun i r => row_with_ID r (fresh_ID rt (1 + i) (row_ID r))) steps in
      let saga' := sg_with_ID saga (fresh_ID rt (1 + length steps) (sg_ID saga)) in
      let evs := imap (fun i e =>
                   ev_with_ID e (fresh_ID rt (2 + length steps + i) (ev_ID e))) events in
      (Ok tt, {| mem_txs := <[id := t']> (mem_txs s);
                 mem_steps := <[id := out]> (mem_steps s);
                 mem_sagas := <[id := saga']> (mem_sagas s);
                 mem_outbox := mem_outbox s ++ evs |})
  end.

(** [r.StepName == name && r.Attempt == attempt]. *)
Definition row_at (name : Step) (attempt : Z) (r : StepRow) : bool :=
  bool_decide (row_StepName r = name) && (row_Attempt r =? attempt).

Definition InsertStep (rt : Runtime) (row : StepRow) : Tx MemStore unit := fun s =>
  let id := row_TxID row in
  match find_first (row_at (row_StepName row) (row_Attempt row)) (rows_of s id) with
  | Some _ => (Err ErrDuplicate, s)
  | None =>
      let row' := row_with_ID row (fresh_ID rt 0 (row_ID row)) in
      (Ok tt, set_steps (<[id := rows_of s id ++ [row']]> (mem_steps s)) s)
  end.

(** The whole row is replaced: [m.s.steps[row.TxID][i] = row]. *)
Definition UpdateStep (row : StepRow) : Tx MemStore unit := fun s =>
  let id := row_TxID row in
  match replace_first (row_at (row_StepName row) (row_Attempt row)) row (rows_of s id) with
  | Some rows => (Ok tt, set_steps (<[id := rows]> (mem_steps s)) s)
  | None => (Err ErrNotFound, s)
  end.

Definition LoadStep (txID : string) (step : Step) (attempt : Z) : Tx MemStore StepRow := fun s =>
  match find_first (row_at step attempt) (rows_of s txID) with
  | Some r => (Ok r, s)
  | None => (Err ErrNotFound, s)
  end.

Definition UpdateTransactionStatus (rt : Runtime) (txID : string) (status : State) (version : Z)
  : Tx MemStore unit := fun s =>
  match mem_txs s !! txID with
  | None => (Err ErrNotFound, s)
  | Some t =>
      if negb (tx_Version t =? version) then (Err ErrConflict, s)
      else (Ok tt, set_txs (<[txID := tx_with_status t status (version + 1) (rt_now rt)]>
                              (mem_txs s)) s)
  end.

Definition SaveSagaState (saga : SagaState) : Tx MemStore unit := fun s =>
  match mem_sagas s !! sg_TxID saga with
  | None => (Err ErrNotFound, s)
  | Some cur =>
      if negb (sg_Version cur =? sg_Version saga - 1) then (Err ErrConflict, s)
      else (Ok tt, set_sagas (<[sg_TxID saga :=
                     sg_advance saga (sg_CurrentStep saga) (sg_State saga) (sg_Payload saga)
                       (sg_Version cur + 1)]> (mem_sagas s)) s)
  end.

Definition TxLoadSagaState (txID : string) : Tx MemStore SagaState := fun s =>
  (LoadSagaState txID s, s).

(** [ex.DedupKey == e.DedupKey] for some stored [ex] and some new [e]; the new
    events are not compared with each other. *)
Definition dedup_clash (stored events : list OutboxEvent) : bool :=
  existsb (fun e => existsb (fun ex => bool_decide (ev_DedupKey ex = ev_DedupKey e)) stored) events.

Definition AppendOutbox (events : list OutboxEvent) : Tx MemStore unit := fun s =>
  if dedup_clash (mem_outbox s) events then (Err ErrDuplicate, s)
  else (Ok tt, set_outbox (mem_outbox s ++ events) s).

(** One round of the outer loop of [MarkOutboxPublished]: the first event with
    this id is marked. *)
Fixpoint mark_published (id : string) (at_ : Z) (l : list OutboxEvent) : list OutboxEvent :=
  match l with
  | [] => []
  | e :: l' =>
      if bool_decide (ev_EventID e = id) then ev_with_status e OutboxPublished (Some at_) :: l'
      else e :: mark_published id at_ l'
  end.

Definition MarkOutboxPublished (eventIDs : list string) (at_ : Z) : Tx MemStore unit := fun s =>
  (Ok tt, set_outbox (fold_left (fun l id => mark_published id at_ l) eventIDs (mem_outbox s)) s).

(** The loop of [ClaimOutboxPending]: the claimed events, flipped to inflight,
    and the outbox it leaves. *)
Fixpoint claim_pending (limit n : nat) (l : list OutboxEvent)
  : list OutboxEvent * list OutboxEvent :=
  match l with
  | [] => ([], [])
  | e :: l' =>
      if is_pending e then
        let e' := ev_with_status e OutboxInflight (ev_PublishedAt e) in
        if (limit <=? S n)%nat then ([e'], e' :: l')
        else let '(out, rest) := claim_pending limit (S n) l' in (e' :: out, e' :: rest)
      else let '(out, rest) := claim_pending limit n l' in (out, e :: rest)
  end.

Definition ClaimOutboxPending (limit : nat) : Tx MemStore (list OutboxEvent) := fun s =>
  let '(out, rest) := claim_pending limit 0 (mem_outbox s) in
  (Ok out, set_outbox rest s).

End Mem.

#[export] Instance MemStore_Store : Store MemStore := {
  LoadTx := Mem.LoadTx;
  LoadSagaState := Mem.LoadSagaState;
  ListSteps := Mem.ListSteps;
  ListOutboxPending := Mem.ListOutboxPending;
  ListInflightSagaIDs := Mem.ListInflightSagaIDs;
  RunInTx := @Mem.RunInTx;
  CreateTx := Mem.CreateTx;
  InsertStep := Mem.InsertStep;
  UpdateStep := Mem.UpdateStep;
  LoadStep := Mem.LoadStep;
  UpdateTransactionStatus := Mem.UpdateTransactionStatus;
  SaveSagaState := Mem.SaveSagaState;
  TxLoadSagaState := Mem.TxLoadSagaState;
  AppendOutbox _ := Mem.AppendOutbox;
  MarkOutboxPublished := Mem.MarkOutboxPublished;
  ClaimOutboxPending := Mem.ClaimOutboxPending;
}.

(** ** Laws of [MemStore] *)

(** The row of a step attempt, as [LoadStep] finds it. *)
Definition row_of (s : MemStore) (txID : string) (step : Step) (attempt : Z) : option StepRow :=
  find_first (Mem.row_at step attempt) (rows_of s txID).

Definition row_key (r : StepRow) : Step * Z := (row_StepName r, row_Attempt r).

(** A write to the step rows leaves the other three tables alone. *)
Definition same_tables (s s' : MemStore) : Prop :=
  mem_txs s' = mem_txs s /\ mem_sagas s' = mem_sagas s /\ mem_outbox s' = mem_outbox s.

#[export] Instance same_tables_preorder : PreOrder same_tables.
Proof. split; [by intros s|]. intros x y z (?&?&?) (?&?&?). split_and!; congruence. Qed.

Lemma row_at_key step attempt r :
  Mem.row_at step attempt r = true <-> row_key r = (step, attempt).
Proof.
  unfold Mem.row_at, row_key. rewrite andb_true_iff, bool_decide_eq_true, Z.eqb_eq.
  split; [by intros [-> ->]|by intros [= -> ->]].
Qed.

Lemma row_at_self r : Mem.row_at (row_StepName r) (row_Attempt r) r = true.
Proof. by apply row_at_key. Qed.

(** Two searches for different attempts never match the same row. *)
Lemma row_at_ne step attempt step' attempt' r :
  (step, attempt) <> (step', attempt') ->
  Mem.row_at step attempt r = true -> Mem.row_at step' attempt' r = false.
Proof.
  intros Hne H1. apply not_true_iff_false. intros H2.
  apply row_at_key in H1, H2. congruence.
Qed.

Lemma rows_of_set_steps s id id' rows :
  rows_of (set_steps (<[id := rows]> (mem_steps s)) s) id' =
  if bool_decide (id = id') then rows else rows_of s id'.
Proof.
  unfold rows_of; cbn. case_bool_decide; subst; by simplify_map_eq.
Qed.

Lemma LoadStep_row_of txID step attempt s :
  Mem.LoadStep txID step attempt s =
  (match row_of s txID step attempt with Some r => Ok r | None => Err ErrNotFound end, s).
Proof. unfold Mem.LoadStep, row_of. by destruct (find_first _ _). Qed.

(** Does [row] answer a search for this attempt of this transaction? *)
Definition row_answers (row : StepRow) (id : string) (step : Step) (attempt : Z) : bool :=
  bool_decide (row_TxID row = id) && Mem.row_at step attempt row.

Lemma UpdateStep_spec row s :
  match row_of s (row_TxID row) (row_StepName row) (row_Attempt row) with
  | None => Mem.UpdateStep row s = (Err ErrNotFound, s)
  | Some _ => exists s', Mem.UpdateStep row s = (Ok tt, s') /\ same_tables s s' /\
      forall id n a, row_of s' id n a =
        if row_answers row id n a then Some row else row_of s id n a
  end.
Proof.
  unfold row_of at 1, Mem.UpdateStep.
  destruct (find_first _ _) as [r|] eqn:Hf.
  2:{ apply (replace_first_None _ row) in Hf. by rewrite Hf. }
  destruct (replace_first _ _ _) as [rows|] eqn:Hr.
  2:{ apply replace_first_None in Hr. congruence. }
  eexists; split_and!; [done|done|]. intros id n a.
  unfold row_of, row_answers. rewrite rows_of_set_steps.
  destruct (bool_decide_reflect (row_TxID row = id)) as [<-|]; cbn; [|done].
  destruct (Mem.row_at n a row) eqn:Hna.
  - apply row_at_key in Hna as Hk. unfold row_key in Hk. simplify_eq.
    by eapply find_replace_first; [|apply row_at_self].
  - eapply find_replace_first_other; [done|done|].
    intros x Hx. eapply row_at_ne; [|exact Hx].
    intros [= <- <-]. by rewrite row_at_self in Hna.
Qed.

Lemma InsertStep_spec rt row s :
  match row_of s (row_TxID row) (row_StepName row) (row_Attempt row) with
  | Some _ => Mem.InsertStep rt row s = (Err ErrDuplicate, s)
  | None => exists s' id0, Mem.InsertStep rt row s = (Ok tt, s') /\ same_tables s s' /\
      forall id n a, row_of s' id n a =
        if row_answers row id n a then Some (row_with_ID row id0) else row_of s id n a
  end.
Proof.
  unfold row_of at 1, Mem.InsertStep.
  destruct (find_first _ _) as [r|] eqn:Hf; [done|].
  eexists _, _; split_and!; [done|done|]. intros id n a.
  unfold row_of, row_answers. rewrite rows_of_set_steps.
  destruct (bool_decide_reflect (row_TxID row = id)) as [<-|]; cbn; [|done].
  rewrite find_first_app. cbn. change (Mem.row_at n a (row_with_ID row _)) with (Mem.row_at n a row).
  destruct (Mem.row_at n a row) eqn:Hna.
  - apply row_at_key in Hna. unfold row_key in Hna. simplify_eq. by rewrite Hf.
  - by destruct (find_first (Mem.row_at n a) _).
Qed.

Lemma UpdateTransactionStatus_spec rt id st v s :
  Mem.UpdateTransactionStatus rt id st v s =
  match mem_txs s !! id with
  | None => (Err ErrNotFound, s)
  | Some t => if tx_Version t =? v
      then (Ok tt, set_txs (<[id := tx_with_status t st (v + 1) (rt_now rt)]> (mem_txs s)) s)
      else (Err ErrConflict, s)
  end.
Proof.
  unfold Mem.UpdateTransactionStatus. destruct (mem_txs s !! id); [|done].
  by destruct (_ =? _).
Qed.

(** A saga write that succeeds stores the given snapshot: the version it
    computes is the one the caller put in. *)
Lemma SaveSagaState_spec g s :
  Mem.SaveSagaState g s =
  match mem_sagas s !! sg_TxID g with
  | None => (Err ErrNotFound, s)
  | Some cur => if sg_Version g =? sg_Version cur + 1
      then (Ok tt, set_sagas (<[sg_TxID g := g]> (mem_sagas s)) s)
      else (Err ErrConflict, s)
  end.
Proof.
  unfold Mem.SaveSagaState. destruct (mem_sagas s !! sg_TxID g) as [cur|]; [|done].
  destruct (Z.eqb_spec (sg_Version cur) (sg_Version g - 1)) as [E|E];
    destruct (Z.eqb_spec (sg_Version g) (sg_Version cur + 1)) as [E'|E']; try lia; cbn.
  - f_equal. f_equal. f_equal. destruct g; cbn in *. unfold sg_advance; cbn. by rewrite E'.
  - done.
Qed.

Lemma AppendOutbox_tables evs s :
  mem_txs (snd (Mem.AppendOutbox evs s)) = mem_txs s /\
  mem_sagas (snd (Mem.AppendOutbox evs s)) = mem_sagas s /\
  mem_steps (snd (Mem.AppendOutbox evs s)) = mem_steps s.
Proof. unfold Mem.AppendOutbox. by destruct (Mem.dedup_clash _ _). Qed.

(** *** Claiming outbox events *)

Definition inflight (e : OutboxEvent) : OutboxEvent :=
  ev_with_status e OutboxInflight (ev_PublishedAt e).

Lemma claim_pending_out limit n l :
  (n < limit)%nat ->
  fst (Mem.claim_pending limit n l) = inflight <$> take (limit - n) (List.filter Mem.is_pending l).
Proof.
  revert n. induction l as [|e l IH]; intros n Hn; cbn; [by rewrite take_nil|].
  destruct (Mem.is_pending e) eqn:Ep.
  - replace (limit - n)%nat with (S (limit - S n)) by lia. cbn.
    destruct (Nat.leb_spec limit (S n)) as [Hle|Hlt].
    + replace (limit - S n)%nat with 0%nat by lia. by rewrite take_0.
    + specialize (IH (S n) Hlt). destruct (Mem.claim_pending limit (S n) l). cbn in *. by f_equal.
  - specialize (IH n Hn). by destruct (Mem.claim_pending limit n l).
Qed.

Lemma claim_pending_rest limit n l :
  (n < limit)%nat ->
  List.filter Mem.is_pending (snd (Mem.claim_pending limit n l)) =
  drop (limit - n) (List.filter Mem.is_pending l).
Proof.
  revert n. induction l as [|e l IH]; intros n Hn; cbn; [by rewrite drop_nil|].
  destruct (Mem.is_pending e) eqn:Ep.
  - replace (limit - n)%nat with (S (limit - S n)) by lia. cbn.
    destruct (Nat.leb_spec limit (S n)) as [Hle|Hlt].
    + cbn. replace (limit - S n)%nat with 0%nat by lia. by rewrite drop_0.
    + specialize (IH (S n) Hlt). by destruct (Mem.claim_pending limit (S n) l).
  - specialize (IH n Hn). destruct (Mem.claim_pending limit n l). cbn in *. by rewrite Ep.
Qed.

Lemma claim_pending_ids {B} (f : OutboxEvent -> B) limit n l :
  (forall e, f (inflight e) = f e) ->
  map f (snd (Mem.claim_pending limit n l)) = map f l.
Proof.
  intros Hf. revert n. induction l as [|e l IH]; intros n; cbn; [done|].
  destruct (Mem.is_pending e).
  - fold (inflight e). destruct (limit <=? S n)%nat; cbn; [by rewrite Hf|].
    specialize (IH (S n)). destruct (Mem.claim_pending limit (S n) l). cbn in *.
    fold (inflight e). by rewrite Hf, IH.
  - specialize (IH n). destruct (Mem.claim_pending limit n l). cbn in *. by f_equal.
Qed.

#[global] Arguments Mem.CreateTx : simpl never.
#[global] Arguments Mem.InsertStep : simpl never.
#[global] Arguments Mem.UpdateStep : simpl never.
#[global] Arguments Mem.LoadStep : simpl never.
#[global] Arguments Mem.UpdateTransactionStatus : simpl never.
#[global] Arguments Mem.SaveSagaState : simpl never.
#[global] Arguments Mem.AppendOutbox : simpl never.
#[global] Arguments Mem.ClaimOutboxPending : simpl never.
#[global] Arguments Mem.MarkOutboxPublished : simpl never.
