(* ===== verification/StoreFacts.v ===== *)
(** The promises of [MemStore] as a component: a well-formedness invariant of
    every operation, optimistic concurrency, and the claims of the outbox. *)

From S2P Require Import Prelude StateMachine Store.

Local Open Scope Z_scope.

(** ** Well-formed stores *)

Record store_wf (s : MemStore) : Prop := {
  wf_tx : forall id t, mem_txs s !! id = Some t -> tx_TxID t = id;
  wf_sg : forall id g, mem_sagas s !! id = Some g -> sg_TxID g = id;
  wf_saga : forall id, is_Some (mem_txs s !! id) <-> is_Some (mem_sagas s !! id);
  wf_rows : forall id rows, mem_steps s !! id = Some rows ->
    Forall (fun r => row_TxID r = id) rows /\ NoDup (map row_key rows);
}.

(** ** The operations as steps *)

(** [CreateTx] is called with rows of the transaction it creates. *)
Record creation (t : Transaction) (steps : list StepRow) (g : SagaState) : Prop := {
  cr_saga : sg_TxID g = tx_TxID t;
  cr_rows : Forall (fun r => row_TxID r = tx_TxID t) steps;
  cr_keys : NoDup (map row_key steps);
}.

Inductive store_step : MemStore -> MemStore -> Prop :=
  | ss_create rt t steps g evs s : creation t steps g ->
      store_step s (snd (Mem.CreateTx rt t steps g evs s))
  | ss_insert rt row s : store_step s (snd (Mem.InsertStep rt row s))
  | ss_update row s : store_step s (snd (Mem.UpdateStep row s))
  | ss_status rt id st v s : store_step s (snd (Mem.UpdateTransactionStatus rt id st v s))
  | ss_saga g s : store_step s (snd (Mem.SaveSagaState g s))
  | ss_append evs s : store_step s (snd (Mem.AppendOutbox evs s))
  | ss_mark ids at_ s : store_step s (snd (Mem.MarkOutboxPublished ids at_ s))
  | ss_claim limit s : store_step s (snd (Mem.ClaimOutboxPending limit s)).

Lemma NewMemStore_wf : store_wf NewMemStore.
Proof. split; cbn; intros *; rewrite ?lookup_empty; done. Qed.

(** The rows of one transaction are replaced by well-formed ones. *)
Lemma set_steps_wf s id rows :
  store_wf s -> Forall (fun r => row_TxID r = id) rows -> NoDup (map row_key rows) ->
  store_wf (set_steps (<[id := rows]> (mem_steps s)) s).
Proof.
  intros [W1 W2 W3 W4] Hf Hn. split; cbn; [exact W1|exact W2|exact W3|].
  intros id' rows' Hr. destruct (decide (id = id')) as [<-|Hne].
  - rewrite lookup_insert_eq in Hr. by simplify_eq.
  - rewrite lookup_insert_ne in Hr by done. by apply W4.
Qed.

Lemma rows_of_wf s id :
  store_wf s -> Forall (fun r => row_TxID r = id) (rows_of s id) /\ NoDup (map row_key (rows_of s id)).
Proof.
  intros Hw. unfold rows_of. destruct (mem_steps s !! id) as [rows|] eqn:E; cbn.
  - by apply (wf_rows s Hw).
  - by split; constructor.
Qed.

(** Giving rows fresh ids changes neither their transaction nor their keys. *)
Lemma renumbered (f : nat -> UUID -> UUID) id steps :
  Forall (fun r => row_TxID r = id) steps ->
  let rows := imap (fun i r => row_with_ID r (f i (row_ID r))) steps in
  Forall (fun r => row_TxID r = id) rows /\ map row_key rows = map row_key steps.
Proof.
  intros Hs. revert f. induction Hs as [|r steps Hr Hs IH]; intros f; [done|].
  destruct (IH (fun i => f (S i))) as [Hf Hk]. split; cbn.
  - constructor; [exact Hr|exact Hf].
  - f_equal. exact Hk.
Qed.

Lemma CreateTx_wf rt t steps g evs s :
  creation t steps g -> store_wf s -> store_wf (snd (Mem.CreateTx rt t steps g evs s)).
Proof.
  intros [Cg Cr Ck] Hw. unfold Mem.CreateTx.
  destruct (mem_txs s !! tx_TxID t) eqn:E; cbn [snd]; [done|].
  set (rows := imap _ steps).
  assert (Forall (fun r => row_TxID r = tx_TxID t) rows /\ map row_key rows = map row_key steps)
    as [Hf Hk].
  { by apply (renumbered (fun i => Mem.fresh_ID rt (1 + i)%nat)). }
  pose proof (set_steps_wf s (tx_TxID t) rows Hw Hf) as [_ _ _ W4]; [by rewrite Hk|].
  destruct Hw as [W1 W2 W3 _]. split; cbn; [..|exact W4].
  - intros id' t' Ht. destruct (decide (tx_TxID t = id')) as [<-|Hne].
    + rewrite lookup_insert_eq in Ht. by simplify_eq.
    + rewrite lookup_insert_ne in Ht by done. by apply W1.
  - intros id' g' Hg. destruct (decide (tx_TxID t = id')) as [<-|Hne].
    + rewrite lookup_insert_eq in Hg. by simplify_eq.
    + rewrite lookup_insert_ne in Hg by done. by apply W2.
  - intros id'. destruct (decide (tx_TxID t = id')) as [<-|Hne].
    + rewrite !lookup_insert_eq. by split; eexists.
    + by rewrite !lookup_insert_ne.
Qed.

Lemma InsertStep_wf rt row s : store_wf s -> store_wf (snd (Mem.InsertStep rt row s)).
Proof.
  intros Hw. unfold Mem.InsertStep. destruct (find_first _ _) eqn:E; [done|]. cbn.
  destruct (rows_of_wf s (row_TxID row) Hw) as [Hf Hn]. apply set_steps_wf; [done|..].
  - by apply Forall_app_2; repeat constructor.
  - rewrite map_app. cbn. apply NoDup_app. split_and!; [done| |by apply NoDup_singleton].
    intros k (r&->&Hr)%list_elem_of_fmap Hk. apply list_elem_of_singleton in Hk.
    rewrite find_first_None in E. specialize (E r Hr).
    apply not_true_iff_false in E. apply E. by apply row_at_key.
Qed.

Lemma UpdateStep_wf row s : store_wf s -> store_wf (snd (Mem.UpdateStep row s)).
Proof.
  intros Hw. unfold Mem.UpdateStep.
  destruct (replace_first _ _ _) as [rows|] eqn:E; [|done]. cbn.
  destruct (rows_of_wf s (row_TxID row) Hw) as [Hf Hn]. apply set_steps_wf; [done|..].
  - by eapply replace_first_Forall.
  - erewrite (replace_first_map row_key); [exact Hn|exact E|].
    intros x Hx. by apply row_at_key in Hx.
Qed.

Lemma UpdateTransactionStatus_wf rt id st v s :
  store_wf s -> store_wf (snd (Mem.UpdateTransactionStatus rt id st v s)).
Proof.
  intros Hw. rewrite UpdateTransactionStatus_spec. destruct (mem_txs s !! id) as [t|] eqn:E; [|done].
  destruct (_ =? _); [|done]. destruct Hw as [W1 W2 W3 W4]. split; cbn; [|exact W2| |exact W4].
  - intros id' t' Ht. destruct (decide (id = id')) as [<-|Hne].
    + rewrite lookup_insert_eq in Ht. simplify_eq. exact (W1 _ _ E).
    + rewrite lookup_insert_ne in Ht by done. by apply W1.
  - intros id'. rewrite <- W3. destruct (decide (id = id')) as [<-|Hne].
    + rewrite lookup_insert_eq, E. by split; eexists.
    + by rewrite lookup_insert_ne.
Qed.

Lemma SaveSagaState_wf g s : store_wf s -> store_wf (snd (Mem.SaveSagaState g s)).
Proof.
  intros Hw. rewrite SaveSagaState_spec.
  destruct (mem_sagas s !! sg_TxID g) as [cur|] eqn:E; [|done].
  destruct (_ =? _); [|done]. destruct Hw as [W1 W2 W3 W4]. split; cbn; [exact W1| | |exact W4].
  - intros id' g' Hg. destruct (decide (sg_TxID g = id')) as [<-|Hne].
    + rewrite lookup_insert_eq in Hg. by simplify_eq.
    + rewrite lookup_insert_ne in Hg by done. by apply W2.
  - intros id'. rewrite W3. destruct (decide (sg_TxID g = id')) as [<-|Hne].
    + rewrite lookup_insert_eq, E. by split; eexists.
    + by rewrite lookup_insert_ne.
Qed.

(** The outbox operations leave the other tables alone. *)
Lemma outbox_wf l s : store_wf s -> store_wf (set_outbox l s).
Proof. by intros []; split. Qed.

#[export] Hint Resolve CreateTx_wf InsertStep_wf UpdateStep_wf UpdateTransactionStatus_wf
  SaveSagaState_wf outbox_wf : orch.

Lemma store_step_wf s s' : store_wf s -> store_step s s' -> store_wf s'.
Proof.
  intros Hw. destruct 1; try by eauto with orch.
  - unfold Mem.AppendOutbox. destruct (Mem.dedup_clash _ _); by eauto with orch.
  - unfold Mem.MarkOutboxPublished. by eauto with orch.
  - unfold Mem.ClaimOutboxPending. destruct (Mem.claim_pending _ _ _). by eauto with orch.
Qed.

(** ** Versions *)

(** Versions only grow, and a record that changes gets a higher one. *)
Record versions_grow (s s' : MemStore) : Prop := {
  vg_tx : forall id t, mem_txs s !! id = Some t ->
    exists t', mem_txs s' !! id = Some t' /\ (t' = t \/ tx_Version t < tx_Version t');
  vg_sg : forall id g, mem_sagas s !! id = Some g -> is_Some (mem_txs s !! id) ->
    exists g', mem_sagas s' !! id = Some g' /\ (g' = g \/ sg_Version g < sg_Version g');
}.

Lemma versions_grow_refl s s' :
  mem_txs s' = mem_txs s -> mem_sagas s' = mem_sagas s -> versions_grow s s'.
Proof. intros E1 E2. split; intros; rewrite ?E1, ?E2; by eauto. Qed.

#[export] Instance versions_grow_preorder : PreOrder versions_grow.
Proof.
  split; [by intros s; apply versions_grow_refl|]. intros x y z [T1 G1] [T2 G2]. split.
  - intros id t Ht. destruct (T1 id t Ht) as (t1&Ht1&H1). destruct (T2 id t1 Ht1) as (t2&Ht2&H2).
    exists t2. split; [done|]. destruct H1 as [->|], H2 as [->|]; auto with lia.
  - intros id g Hg [t Ht]. destruct (G1 id g Hg (mk_is_Some _ _ Ht)) as (g1&Hg1&H1).
    destruct (T1 id t Ht) as (t1&Ht1&_).
    destruct (G2 id g1 Hg1 (mk_is_Some _ _ Ht1)) as (g2&Hg2&H2).
    exists g2. split; [done|]. destruct H1 as [->|], H2 as [->|]; auto with lia.
Qed.

Lemma store_step_versions s s' : store_step s s' -> versions_grow s s'.
Proof.
  destruct 1 as [rt t steps g evs s _|rt row s|row s|rt id st v s|g s|evs s|ids at_ s|limit s].
  - unfold Mem.CreateTx. destruct (mem_txs s !! tx_TxID t) eqn:E; [done|].
    split; cbn; intros id' x Hx; [|intros [t' Ht']];
      (exists x; rewrite lookup_insert_ne by congruence; by auto).
  - pose proof (InsertStep_spec rt row s) as Hs. destruct (row_of _ _ _ _); [by rewrite Hs|].
    destruct Hs as (s'&i&->&(E1&E2&_)&_). by apply versions_grow_refl.
  - pose proof (UpdateStep_spec row s) as Hs. destruct (row_of _ _ _ _); [|by rewrite Hs].
    destruct Hs as (s'&->&(E1&E2&_)&_). by apply versions_grow_refl.
  - rewrite UpdateTransactionStatus_spec. destruct (mem_txs s !! id) as [t|] eqn:E; [|done].
    destruct (Z.eqb_spec (tx_Version t) v); [|done]. split; cbn; [|by eauto].
    intros id' t' Ht'. destruct (decide (id = id')) as [<-|Hne].
    + rewrite lookup_insert_eq. simplify_eq. eexists; split; [done|]. right. cbn. lia.
    + rewrite lookup_insert_ne by done. by eauto.
  - rewrite SaveSagaState_spec. destruct (mem_sagas s !! sg_TxID g) as [cur|] eqn:E; [|done].
    destruct (Z.eqb_spec (sg_Version g) (sg_Version cur + 1)); [|done]. split; cbn; [by eauto|].
    intros id' g' Hg' _. destruct (decide (sg_TxID g = id')) as [<-|Hne].
    + rewrite lookup_insert_eq. simplify_eq. eexists; split; [done|]. right. lia.
    + rewrite lookup_insert_ne by done. by eauto.
  - pose proof (AppendOutbox_tables evs s) as (E1&E2&_). by apply versions_grow_refl.
  - by apply versions_grow_refl.
  - unfold Mem.ClaimOutboxPending. destruct (Mem.claim_pending _ _ _).
    by apply versions_grow_refl.
Qed.

Lemma star_versions s s' : star store_step s s' -> versions_grow s s'.
Proof. induction 1 as [|x y z Hs _ IH]; [done|]. etrans; [by apply store_step_versions|done]. Qed.

(** ** Keys *)

(** The named steps, those of [StepOrder]. *)
Definition known_step (st : Step) : bool :=
  match st with StepOther _ => false | _ => true end.

Lemma known_step_order st : st ∈ StepOrder -> known_step st = true.
Proof.
  intros Hst. assert (Forall (fun st => known_step st = true) StepOrder) as Hf.
  { by repeat constructor. }
  rewrite Forall_forall in Hf. by apply Hf.
Qed.

Lemma Step_string_bar_free st : known_step st = true -> bar_free (Step_string st) = true.
Proof. by destruct st. Qed.

Lemma Step_string_inj st st' :
  known_step st = true -> known_step st' = true -> Step_string st = Step_string st' -> st = st'.
Proof. by destruct st, st'. Qed.

(** ** The outbox *)

Lemma ClaimOutboxPending_out limit s :
  (0 < limit)%nat ->
  fst (Mem.ClaimOutboxPending limit s) =
    Ok (inflight <$> take limit (List.filter Mem.is_pending (mem_outbox s))) /\
  List.filter Mem.is_pending (mem_outbox (snd (Mem.ClaimOutboxPending limit s))) =
    drop limit (List.filter Mem.is_pending (mem_outbox s)).
Proof.
  intros Hl. unfold Mem.ClaimOutboxPending.
  pose proof (claim_pending_out limit 0 (mem_outbox s) Hl) as H1.
  pose proof (claim_pending_rest limit 0 (mem_outbox s) Hl) as H2.
  rewrite Nat.sub_0_r in H1, H2. destruct (Mem.claim_pending _ _ _). cbn in *. by rewrite H1, H2.
Qed.

Lemma dedup_clash_one l e :
  Mem.dedup_clash l [e] = true <-> ev_DedupKey e ∈ map ev_DedupKey l.
Proof.
  unfold Mem.dedup_clash. cbn. rewrite orb_false_r, existsb_exists. split.
  - intros (x&Hx&E). apply bool_decide_eq_true in E. rewrite <- E.
    apply list_elem_of_In, in_map, Hx.
  - intros (x&->&Hx)%list_elem_of_fmap. exists x. split; [by apply list_elem_of_In|].
    by apply bool_decide_eq_true.
Qed.

(** ** The sagas in flight *)

Definition inflight_ids (s : MemStore) : list string :=
  match Mem.ListInflightSagaIDs s with Ok l => l | Err _ => [] end.

(** The loop of [ListOutboxPending] takes the first pending events. *)
Lemma list_pending_take limit n l :
  (n < limit)%nat -> Mem.list_pending limit n l = take (limit - n) (List.filter Mem.is_pending l).
Proof.
  revert n. induction l as [|e l IH]; intros n Hn; cbn; [by rewrite take_nil|].
  destruct (Mem.is_pending e); [|by apply IH].
  replace (limit - n)%nat with (S (limit - S n)) by lia. cbn. f_equal.
  destruct (Nat.leb_spec limit (S n)).
  - by replace (limit - S n)%nat with 0%nat by lia.
  - by apply IH.
Qed.

Lemma elem_of_inflight s id :
  id ∈ inflight_ids s <-> exists sg, mem_sagas s !! id = Some sg /\ Terminal (sg_State sg) = false.
Proof.
  unfold inflight_ids. cbn. rewrite list_elem_of_bind. split.
  - intros ([id' sg]&Hin&Hl%elem_of_map_to_list). destruct (Terminal (sg_State sg)) eqn:Ht.
    + cbn in Hin. by inversion Hin.
    + cbn in Hin. apply list_elem_of_singleton in Hin as ->. by exists sg.
  - intros (sg&Hsg&Ht). exists (id, sg). rewrite Ht. split; [by apply list_elem_of_singleton|].
    by apply elem_of_map_to_list.
Qed.

Lemma inflight_NoDup s : NoDup (inflight_ids s).
Proof.
  unfold inflight_ids. cbn. eapply sublist_NoDup; [apply (NoDup_fst_map_to_list (mem_sagas s))|].
  induction (map_to_list (mem_sagas s)) as [|[id sg] l IH]; cbn; [done|].
  destruct (negb (Terminal (sg_State sg))); cbn; [by apply sublist_skip|by apply sublist_cons].
Qed.

(** ** Properties *)

(** C25: every reachable [MemStore] is well formed: records are filed under
    their own id, a transaction has a saga and conversely, the rows of a
    transaction belong to it and no step attempt has two rows. *)
Theorem store_reachable_wf s : star store_step NewMemStore s -> store_wf s.
Proof.
  intros Hs. apply (star_invariant store_step store_wf _ _ store_step_wf Hs).
  apply NewMemStore_wf.
Qed.

(** No lost update of a transaction: once a status write based on version
    [v] succeeded, a write based on the same version fails with a conflict and
    changes nothing, whatever operations ran in between. *)
Theorem stale_status_conflicts rt1 rt2 id st1 st2 v s s1 s2 :
  Mem.UpdateTransactionStatus rt1 id st1 v s = (Ok tt, s1) -> star store_step s1 s2 ->
  Mem.UpdateTransactionStatus rt2 id st2 v s2 = (Err ErrConflict, s2).
Proof.
  intros H1 Hs. rewrite UpdateTransactionStatus_spec in H1.
  destruct (mem_txs s !! id) as [t|] eqn:Ht; [|done].
  destruct (Z.eqb_spec (tx_Version t) v) as [<-|]; [|done]. simplify_eq.
  destruct (vg_tx _ _ (star_versions _ _ Hs) id (tx_with_status t st1 (tx_Version t + 1) (rt_now rt1)))
    as (t2&Ht2&Hv).
  { cbn. by rewrite lookup_insert_eq. }
  rewrite UpdateTransactionStatus_spec, Ht2.
  destruct (Z.eqb_spec (tx_Version t2) (tx_Version t)) as [E|]; [|done].
  exfalso. destruct Hv as [->|Hv]; cbn in *; lia.
Qed.

(** No lost update of a saga: once a snapshot derived from version [v] was
    saved, another one derived from the same version is refused. *)
Theorem stale_saga_conflicts g1 g2 s s1 s2 :
  store_wf s -> sg_TxID g2 = sg_TxID g1 -> sg_Version g2 = sg_Version g1 ->
  Mem.SaveSagaState g1 s = (Ok tt, s1) -> star store_step s1 s2 ->
  Mem.SaveSagaState g2 s2 = (Err ErrConflict, s2).
Proof.
  intros Hw Hid Hv H1 Hs. rewrite SaveSagaState_spec in H1.
  destruct (mem_sagas s !! sg_TxID g1) as [cur|] eqn:Hg; [|done].
  destruct (Z.eqb_spec (sg_Version g1) (sg_Version cur + 1)) as [E|]; [|done]. simplify_eq.
  destruct (vg_sg _ _ (star_versions _ _ Hs) (sg_TxID g1) g1) as (g'&Hg'&Hv').
  { cbn. by rewrite lookup_insert_eq. }
  { cbn. by apply (wf_saga _ Hw). }
  rewrite SaveSagaState_spec, Hid, Hg'.
  destruct (Z.eqb_spec (sg_Version g2) (sg_Version g' + 1)) as [E'|]; [|done].
  exfalso. destruct Hv' as [->|Hv']; lia.
Qed.

(** Two successive claims are disjoint and in order: together they return
    the first pending events of the outbox, each once, marked in flight. *)
Theorem claims_disjoint n m s :
  (0 < n)%nat -> (0 < m)%nat ->
  let '(r1, s1) := Mem.ClaimOutboxPending n s in
  let '(r2, s2) := Mem.ClaimOutboxPending m s1 in
  exists l1 l2, r1 = Ok l1 /\ r2 = Ok l2 /\
    l1 ++ l2 = inflight <$> take (n + m) (List.filter Mem.is_pending (mem_outbox s)) /\
    map ev_EventID (mem_outbox s2) = map ev_EventID (mem_outbox s).
Proof.
  intros Hn Hm.
  destruct (ClaimOutboxPending_out n s Hn) as [H1 P1].
  destruct (Mem.ClaimOutboxPending n s) as [r1 s1] eqn:E1. cbn in H1, P1.
  destruct (ClaimOutboxPending_out m s1 Hm) as [H2 _].
  destruct (Mem.ClaimOutboxPending m s1) as [r2 s2] eqn:E2. cbn in H2.
  eexists _, _. split; [exact H1|]. split; [exact H2|]. split.
  - rewrite P1, <- fmap_app. f_equal. apply take_take_drop.
  - unfold Mem.ClaimOutboxPending in E1, E2.
    pose proof (claim_pending_ids ev_EventID n 0 (mem_outbox s) (fun _ => eq_refl)) as I1.
    destruct (Mem.claim_pending n 0 (mem_outbox s)). simplify_eq/=.
    pose proof (claim_pending_ids ev_EventID m 0 l0 (fun _ => eq_refl)) as I2.
    destruct (Mem.claim_pending m 0 l0). simplify_eq/=. congruence.
Qed.

(** An event is stored at most once: appending one event keeps the dedup
    keys distinct, and appending it again is refused and changes nothing. *)
Theorem append_once e s r s1 :
  NoDup (map ev_DedupKey (mem_outbox s)) -> Mem.AppendOutbox [e] s = (r, s1) ->
  NoDup (map ev_DedupKey (mem_outbox s1)) /\ Mem.AppendOutbox [e] s1 = (Err ErrDuplicate, s1).
Proof.
  intros Hn Ha. unfold Mem.AppendOutbox in *.
  destruct (Mem.dedup_clash (mem_outbox s) [e]) eqn:Hc; simplify_eq.
  - by rewrite Hc.
  - cbn [mem_outbox set_outbox]. split.
    + rewrite map_app. apply NoDup_app. split_and!; [done| |by apply NoDup_singleton].
      intros k Hk Hk'. apply list_elem_of_singleton in Hk'. subst k.
      apply dedup_clash_one in Hk. congruence.
    + assert (Mem.dedup_clash (mem_outbox s ++ [e]) [e] = true) as ->; [|done].
      apply dedup_clash_one. rewrite map_app. apply elem_of_app. right. by left.
Qed.

(** Idempotency texts and dedup keys identify what they are made of: for
    transaction ids and event types without the separator and known steps, two
    equal keys name the same transaction, step (and event type) and attempt. *)
Theorem keys_injective id id' ty ty' st st' a a' :
  bar_free id = true -> bar_free id' = true -> bar_free ty = true -> bar_free ty' = true ->
  known_step st = true -> known_step st' = true ->
  (idempotency_text id st a = idempotency_text id' st' a' -> id = id' /\ st = st' /\ a = a') /\
  (DedupKey id ty (Step_string st) a = DedupKey id' ty' (Step_string st') a' ->
     id = id' /\ ty = ty' /\ st = st' /\ a = a').
Proof.
  intros Hi Hi' Ht Ht' Hs Hs'.
  pose proof (Step_string_bar_free _ Hs) as Hb. pose proof (Step_string_bar_free _ Hs') as Hb'.
  split; intros E.
  - apply bar_cut in E as [-> E]; [|done..]. apply bar_cut in E as [E Ea]; [|done..].
    split_and!; [done|by apply Step_string_inj|by apply itoa_inj].
  - apply bar_cut in E as [-> E]; [|done..]. apply bar_cut in E as [-> E]; [|done..].
    apply bar_cut in E as [E Ea]; [|done..].
    split_and!; [done|done|by apply Step_string_inj|by apply itoa_inj].
Qed.

(** ** Witnesses *)

(** A runtime and one transaction with one step row, to evaluate the
    operations on. *)
Definition sample_rt : Runtime := {|
  rt_now := 5; rt_uuid := fun i => Z.of_nat (S i); rt_uuid_string := fun _ => "event";
  rt_ctx := None; rt_rand := fun _ => 0 |}.

Definition sample_tx : Transaction := {|
  tx_ID := 0; tx_TxID := "a"; tx_UserID := "u"; tx_QuoteID := "q"; tx_Amount := "1";
  tx_Asset := "BTC"; tx_Rail := "CARD"; tx_DestAddress := "d"; tx_Status := StateCreated;
  tx_CreatedAt := 0; tx_UpdatedAt := 0; tx_Version := 1 |}.

Definition sample_row : StepRow := {|
  row_ID := 0; row_TxID := "a"; row_StepName := StepPolicy; row_Status := StepPending;
  row_Attempt := 1; row_StartedAt := None; row_FinishedAt := None; row_Error := "";
  row_IdempotencyKey := "" |}.

Definition sample_saga : SagaState := {|
  sg_ID := 0; sg_TxID := "a"; sg_CurrentStep := StepPolicy; sg_State := StateCreated;
  sg_LeaseOwner := ""; sg_LeaseExpiresAt := None; sg_Payload := ∅; sg_Version := 1 |}.

Definition sample_event (n : Z) : OutboxEvent := {|
  ev_ID := n; ev_EventID := itoa n; ev_TxID := "a"; ev_EventType := "created"; ev_Step := "";
  ev_Attempt := 0; ev_Payload := ∅; ev_CreatedAt := 0; ev_PublishedAt := None;
  ev_Status := OutboxPending; ev_DedupKey := DedupKey "a" "created" "" n |}.

Definition sample_store : MemStore :=
  snd (Mem.CreateTx sample_rt sample_tx [sample_row] sample_saga
         [sample_event 1; sample_event 2; sample_event 3] NewMemStore).

Lemma sample_creation : creation sample_tx [sample_row] sample_saga.
Proof. split; [done|by repeat constructor|apply NoDup_singleton]. Qed.

Lemma sample_reachable : star store_step NewMemStore sample_store.
Proof. apply star_one, ss_create, sample_creation. Qed.

Lemma store_reachable_wf_witness : store_wf sample_store.
Proof. exact (store_reachable_wf sample_store sample_reachable). Defined.

Lemma stale_status_conflicts_witness :
  let s1 := snd (Mem.UpdateTransactionStatus sample_rt "a" StatePolicyChecked 1 sample_store) in
  let s2 := snd (Mem.InsertStep sample_rt (row_with_status sample_row StepRunning "") s1) in
  Mem.UpdateTransactionStatus sample_rt "a" StateFailed 1 s2 = (Err ErrConflict, s2).
Proof.
  exact (stale_status_conflicts sample_rt sample_rt "a" StatePolicyChecked StateFailed 1
    sample_store _ _ eq_refl (star_one _ _ _ (ss_insert _ _ _))).
Defined.

Lemma stale_saga_conflicts_witness :
  let g := sg_advance sample_saga StepPayment StatePolicyChecked ∅ 2 in
  let s1 := snd (Mem.SaveSagaState g sample_store) in
  Mem.SaveSagaState (sg_advance g StepPolicy StateFailed ∅ 2) s1 = (Err ErrConflict, s1).
Proof.
  exact (stale_saga_conflicts (sg_advance sample_saga StepPayment StatePolicyChecked ∅ 2)
    (sg_advance sample_saga StepPolicy StateFailed ∅ 2) sample_store _ _
    (store_step_wf _ _ NewMemStore_wf (ss_create _ _ _ _ _ _ sample_creation))
    eq_refl eq_refl eq_refl (star_refl _ _)).
Defined.

Lemma claims_disjoint_witness :
  exists l1 l2, fst (Mem.ClaimOutboxPending 2 sample_store) = Ok l1 /\
    fst (Mem.ClaimOutboxPending 5 (snd (Mem.ClaimOutboxPending 2 sample_store))) = Ok l2 /\
    l1 ++ l2 = inflight <$> take 7 (List.filter Mem.is_pending (mem_outbox sample_store)).
Proof.
  destruct (claims_disjoint 2 5 sample_store (Nat.lt_0_succ 1) (Nat.lt_0_succ 4))
    as (l1&l2&H1&H2&H3&_).
  exists l1, l2. split; [exact H1|]. split; [exact H2|exact H3].
Defined.

Lemma append_once_witness :
  let s1 := snd (Mem.AppendOutbox [sample_event 4] sample_store) in
  NoDup (map ev_DedupKey (mem_outbox s1)) /\
  Mem.AppendOutbox [sample_event 4] s1 = (Err ErrDuplicate, s1).
Proof.
  refine (append_once (sample_event 4) sample_store _ _ _ (surjective_pairing _)).
  apply (bool_decide_unpack _). vm_compute. exact I.
Defined.

Lemma keys_injective_witness :
  (idempotency_text "a" StepPolicy 1 = idempotency_text "b" StepLedger 2 ->
     "a" = "b" /\ StepPolicy = StepLedger /\ 1 = 2) /\
  (DedupKey "a" "x" "POLICY" 1 = DedupKey "b" "y" "LEDGER" 2 ->
     "a" = "b" /\ "x" = "y" /\ StepPolicy = StepLedger /\ 1 = 2).
Proof.
  exact (keys_injective "a" "b" "x" "y" StepPolicy StepLedger 1 2
    eq_refl eq_refl eq_refl eq_refl eq_refl eq_refl).
Defined.
