(* ===== verification/Outbox.v ===== *)
(** The outbox relay and the in-memory publisher ([internal/outbox/relay.go]). *)

From S2P Require Import Prelude StateMachine Store StoreFacts.

Local Open Scope Z_scope.
Local Open Scope go_scope.

(** ** Publishers *)

(** The Go interface [Publisher] on a bus of type [Q]. *)
Class Publisher (Q : Type) := {
  Publish : string -> OutboxEvent -> Q -> option error * Q;
}.

Record InMemoryPublisher := {
  im_Events : list OutboxEvent;
  im_Subjects : list string;
  im_FailOn : Z;
  im_calls : Z;
}.

Definition NewInMemoryPublisher : InMemoryPublisher :=
  {| im_Events := []; im_Subjects := []; im_FailOn := 0; im_calls := 0 |}.

Definition InMemoryPublisher_Publish (subject : string) (event : OutboxEvent)
    (p : InMemoryPublisher) : option error * InMemoryPublisher :=
  let calls := im_calls p + 1 in
  if (0 <? im_FailOn p) && (calls =? im_FailOn p) then
    (Some (New "in-memory publisher: simulated failure"),
     {| im_Events := im_Events p; im_Subjects := im_Subjects p; im_FailOn := im_FailOn p;
        im_calls := calls |})
  else
    (None, {| im_Events := im_Events p ++ [event]; im_Subjects := im_Subjects p ++ [subject];
              im_FailOn := im_FailOn p; im_calls := calls |}).

#[export] Instance InMemoryPublisher_Publisher : Publisher InMemoryPublisher :=
  {| Publish := InMemoryPublisher_Publish |}.

Definition Len (p : InMemoryPublisher) : nat := length (im_Events p).

(** ** The relay *)

Record Relay := {
  rl_BatchSize : Z;
  rl_Interval : Z;
  rl_SubjectFn : string -> string;
}.

Definition defaultSubject (eventType : string) : string := "transactions." +:+ eventType.

(** [100 * time.Millisecond] in nanoseconds. *)
Definition NewRelay (batchSize interval : Z) : Relay := {|
  rl_BatchSize := if batchSize <=? 0 then 100 else batchSize;
  rl_Interval := if interval <=? 0 then 100 * 1000000 else interval;
  rl_SubjectFn := defaultSubject |}.

Record RelayWorld (S Q : Type) := { rw_store : S; rw_bus : Q; rw_tick : nat }.
Arguments rw_store {S Q} _.
Arguments rw_bus {S Q} _.
Arguments rw_tick {S Q} _.

Section Relay.
Context {S Q : Type} `{Store S} `{Publisher Q} (env : nat -> Runtime).

(** [r.Store.RunInTx(ctx, fn)]. *)
Definition relay_tx {A} (fn : Runtime -> Tx S A) : Go (RelayWorld S Q) (result A) := fun w =>
let '(r, s') := RunInTx (fn (env (rw_tick w))) (rw_store w) in
(Returned r, {| rw_store := s'; rw_bus := rw_bus w; rw_tick := Datatypes.S (rw_tick w) |}).

(** The publishing loop: it breaks at the first failure. *)
Fixpoint publish_all (subject : string -> string) (events : list OutboxEvent) (bus : Q) : list string * Q :=
match events with
| [] => ([], bus)
| e :: rest =>
    match Publish (subject (ev_EventType e)) e bus with
    | (Some _, bus') => ([], bus')
    | (None, bus') =>
        let '(ids, bus'') := publish_all subject rest bus' in (ev_EventID e :: ids, bus'')
    end
end.

Definition drainOnce (r : Relay) : Go (RelayWorld S Q) (result unit) :=
let! claimed := relay_tx (fun _ => ClaimOutboxPending (Z.to_nat (rl_BatchSize r))) in
match claimed with
| Err err => ret (Err (Wrap "claim pending: " err ""))
| Ok [] => ret (Ok tt)
| Ok events =>
    let! publishedIDs := zoom rw_bus (fun q w => {| rw_store := rw_store w; rw_bus := q;
                                                    rw_tick := rw_tick w |})
                           (fun q => let '(ids, q') := publish_all (rl_SubjectFn r) events q in
                                     (Returned ids, q')) in
    match publishedIDs with
    | [] => ret (Ok tt)
    | _ => relay_tx (fun rt => MarkOutboxPublished publishedIDs (rt_now rt))
    end
end.
End Relay.

(** ** Laws *)

(** The events a bus accepts of a batch: those before the first failure. *)
Fixpoint accepted {Q} `{Publisher Q} (subject : string -> string) (events : list OutboxEvent) (bus : Q) : list OutboxEvent :=
  match events with
  | [] => []
  | e :: rest =>
      match Publish (subject (ev_EventType e)) e bus with
      | (Some _, _) => []
      | (None, bus') => e :: accepted subject rest bus'
      end
  end.

Lemma publish_all_ids {Q} `{Publisher Q} subject events (bus : Q) :
  fst (publish_all subject events bus) = map ev_EventID (accepted subject events bus).
Proof.
  revert bus. induction events as [|e rest IH]; intros bus; cbn; [done|].
  destruct (Publish _ e bus) as [[err|] bus']; [done|]. specialize (IH bus').
  destruct (publish_all subject rest bus'). cbn in *. by rewrite IH.
Qed.

Lemma accepted_prefix {Q} `{Publisher Q} subject events (bus : Q) :
  accepted subject events bus `prefix_of` events.
Proof.
  revert bus. induction events as [|e rest IH]; intros bus; cbn; [done|].
  destruct (Publish _ e bus) as [[err|] bus']; [apply prefix_nil|]. by apply prefix_cons.
Qed.

(** The status of an event after it was marked. *)
Definition mark_if (ids : list string) (at_ : Z) (e : OutboxEvent) : OutboxEvent :=
  if bool_decide (ev_EventID e ∈ ids) then ev_with_status e OutboxPublished (Some at_) else e.

Lemma mark_published_absent id at_ l :
  id ∉ map ev_EventID l -> Mem.mark_published id at_ l = l.
Proof.
  induction l as [|e l IH]; cbn; [done|]. intros Hn.
  rewrite bool_decide_eq_false_2 by (intros <-; apply Hn; by left).
  rewrite IH; [done|]. intros Hin. apply Hn. by right.
Qed.

Lemma mark_published_one id at_ l :
  NoDup (map ev_EventID l) -> Mem.mark_published id at_ l = map (mark_if [id] at_) l.
Proof.
  induction l as [|e l IH]; cbn; [done|]. intros [Hn Hl]%NoDup_cons. unfold mark_if at 1.
  case_bool_decide as Hid.
  - rewrite bool_decide_eq_true_2 by (subst; by left). f_equal.
    rewrite <- (map_id l) at 1. apply map_ext_in. intros x Hx%list_elem_of_In. unfold mark_if.
    rewrite bool_decide_eq_false_2; [done|]. intros Heq%list_elem_of_singleton. apply Hn.
    rewrite Hid, <- Heq. apply list_elem_of_In, in_map. by apply list_elem_of_In.
  - rewrite bool_decide_eq_false_2 by (by rewrite list_elem_of_singleton). by rewrite IH.
Qed.

Lemma mark_if_id ids at_ e : ev_EventID (mark_if ids at_ e) = ev_EventID e.
Proof. unfold mark_if. by case_bool_decide. Qed.

Lemma mark_if_cons id ids at_ e :
  mark_if ids at_ (mark_if [id] at_ e) = mark_if (id :: ids) at_ e.
Proof.
  unfold mark_if at 1. rewrite mark_if_id. unfold mark_if.
  destruct (decide (ev_EventID e = id)) as [E|E]; destruct (decide (ev_EventID e ∈ ids)) as [Hi|Hi].
  - by rewrite !bool_decide_eq_true_2 by (rewrite ?list_elem_of_singleton, ?elem_of_cons; auto).
  - rewrite bool_decide_eq_false_2 by done.
    by rewrite !bool_decide_eq_true_2 by (rewrite ?list_elem_of_singleton, ?elem_of_cons; auto).
  - rewrite bool_decide_eq_true_2 by done.
    rewrite bool_decide_eq_false_2 by by rewrite list_elem_of_singleton.
    by rewrite bool_decide_eq_true_2 by (rewrite elem_of_cons; auto).
  - rewrite (bool_decide_eq_false_2 (_ ∈ ids)) by done.
    rewrite (bool_decide_eq_false_2 (_ ∈ [id])) by by rewrite list_elem_of_singleton.
    rewrite bool_decide_eq_false_2; [done|]. rewrite elem_of_cons. by intros [?|?].
Qed.

(** [MarkOutboxPublished] marks exactly the named events. *)
Lemma mark_all ids at_ l :
  NoDup (map ev_EventID l) ->
  fold_left (fun l id => Mem.mark_published id at_ l) ids l = map (mark_if ids at_) l.
Proof.
  revert l. induction ids as [|id ids IH]; intros l Hn; cbn.
  - rewrite <- (map_id l) at 1. apply map_ext. intros e. unfold mark_if.
    rewrite bool_decide_eq_false_2; [done|]. intros Hin. inversion Hin.
  - rewrite mark_published_one by done. rewrite IH.
    + rewrite map_map. apply map_ext. intros e. apply mark_if_cons.
    + rewrite map_map. erewrite map_ext; [exact Hn|]. intros e. apply mark_if_id.
Qed.

(** [ClaimOutboxPending] flips the first pending events and leaves the rest. *)
Definition claim_if (ids : list string) (e : OutboxEvent) : OutboxEvent :=
  if bool_decide (ev_EventID e ∈ ids) then inflight e else e.

Lemma claim_if_id ids e : ev_EventID (claim_if ids e) = ev_EventID e.
Proof. unfold claim_if. by case_bool_decide. Qed.

Lemma claim_if_none (l : list OutboxEvent) ids :
  (forall e, e ∈ l -> ev_EventID e ∉ ids) -> map (claim_if ids) l = l.
Proof.
  intros Hn. rewrite <- (map_id l) at 2. apply map_ext_in. intros e He%list_elem_of_In.
  unfold claim_if. by rewrite bool_decide_eq_false_2 by by apply Hn.
Qed.

Lemma claim_ids_in limit n l id :
  id ∈ map ev_EventID (fst (Mem.claim_pending limit n l)) -> id ∈ map ev_EventID l.
Proof.
  revert n. induction l as [|e l IH]; intros n; cbn; [done|].
  destruct (Mem.is_pending e).
  - destruct (limit <=? Datatypes.S n)%nat; cbn.
    + intros Hin%list_elem_of_singleton. subst. by left.
    + specialize (IH (Datatypes.S n)). destruct (Mem.claim_pending limit (Datatypes.S n) l). cbn.
      rewrite !elem_of_cons. intros [?|?]; auto.
  - specialize (IH n). destruct (Mem.claim_pending limit n l). cbn in *.
    rewrite elem_of_cons. auto.
Qed.

Lemma claim_pending_map limit n l :
  NoDup (map ev_EventID l) ->
  snd (Mem.claim_pending limit n l) =
  map (claim_if (map ev_EventID (fst (Mem.claim_pending limit n l)))) l.
Proof.
  revert n. induction l as [|e l IH]; intros n; cbn; [done|]. intros [Hn Hl]%NoDup_cons.
  assert (forall ids id, (forall i, i ∈ ids -> i ∈ map ev_EventID l) -> id = ev_EventID e ->
    map (claim_if (id :: ids)) l = map (claim_if ids) l) as Hcons.
  { intros ids id _ ->. apply map_ext_in. intros x Hx. unfold claim_if.
    apply (in_map ev_EventID), list_elem_of_In in Hx.
    destruct (decide (ev_EventID x ∈ ids)) as [Hi|Hi].
    - by rewrite !bool_decide_eq_true_2 by (rewrite ?elem_of_cons; auto).
    - rewrite !bool_decide_eq_false_2; [done|done|]. rewrite elem_of_cons. intros [E|?]; [|done].
      apply Hn. by rewrite <- E. }
  destruct (Mem.is_pending e).
  - destruct (limit <=? Datatypes.S n)%nat; cbn.
    + rewrite Hcons by (done || by intros i Hi; inversion Hi).
      rewrite claim_if_none by (intros x _ Hi; inversion Hi).
      unfold claim_if. by rewrite bool_decide_eq_true_2 by by left.
    + specialize (IH (Datatypes.S n) Hl).
      pose proof (claim_ids_in limit (Datatypes.S n) l) as Hin.
      destruct (Mem.claim_pending limit (Datatypes.S n) l) as [out rest]. cbn in *.
      rewrite Hcons by (done || by apply Hin). rewrite IH. f_equal.
      unfold claim_if. by rewrite bool_decide_eq_true_2 by by left.
  - specialize (IH n Hl). pose proof (claim_ids_in limit n l) as Hin.
    destruct (Mem.claim_pending limit n l) as [out rest]. cbn in *. rewrite IH. f_equal.
    unfold claim_if. rewrite bool_decide_eq_false_2; [done|]. intros Hi. by apply Hn, Hin.
Qed.

Lemma NewRelay_batch b i : 0 < rl_BatchSize (NewRelay b i).
Proof. cbn. destruct (Z.leb_spec b 0); lia. Qed.

Section Drain.
Context {Q : Type} `{Publisher Q} (env : nat -> Runtime).
Local Abbreviation RW := (RelayWorld MemStore Q).

(** The batch a drain offers to the bus. *)
Definition batch (r : Relay) (s : MemStore) : list OutboxEvent :=
inflight <$> take (Z.to_nat (rl_BatchSize r)) (List.filter Mem.is_pending (mem_outbox s)).

(** What a drain leaves in the outbox: the batch is in flight, except for the
  events the bus accepted, which are published. *)
Definition drained (r : Relay) (w : RW) : list OutboxEvent :=
map (mark_if (map ev_EventID (accepted (rl_SubjectFn r) (batch r (rw_store w)) (rw_bus w)))
       (rt_now (env (Datatypes.S (rw_tick w)))))
  (map (claim_if (map ev_EventID (batch r (rw_store w)))) (mem_outbox (rw_store w))).

Lemma map_mark_nil at_ l : map (mark_if [] at_) l = l.
Proof.
rewrite <- (map_id l) at 2. apply map_ext. intros e. unfold mark_if.
rewrite bool_decide_eq_false_2; [done|]. intros Hin. inversion Hin.
Qed.

Lemma claimed_batch (r : Relay) s :
0 < rl_BatchSize r -> NoDup (map ev_EventID (mem_outbox s)) ->
Mem.ClaimOutboxPending (Z.to_nat (rl_BatchSize r)) s =
(Ok (batch r s), set_outbox (map (claim_if (map ev_EventID (batch r s))) (mem_outbox s)) s).
Proof.
intros Hb Hn. unfold Mem.ClaimOutboxPending.
pose proof (claim_pending_out (Z.to_nat (rl_BatchSize r)) 0 (mem_outbox s)) as Ho.
rewrite Nat.sub_0_r in Ho. specialize (Ho ltac:(lia)). fold (batch r s) in Ho.
pose proof (claim_pending_map (Z.to_nat (rl_BatchSize r)) 0 (mem_outbox s) Hn) as Hr.
rewrite Ho in Hr. destruct (Mem.claim_pending _ _ _). cbn in *. by rewrite Ho, Hr.
Qed.

Lemma drainOnce_result (r : Relay) (w : RW) :
0 < rl_BatchSize r -> NoDup (map ev_EventID (mem_outbox (rw_store w))) ->
exists w', drainOnce env r w = (Returned (Ok tt), w') /\
  rw_store w' = set_outbox (drained r w) (rw_store w) /\
  rw_bus w' = snd (publish_all (rl_SubjectFn r) (batch r (rw_store w)) (rw_bus w)).
Proof.
intros Hb Hn. destruct w as [s q k]. cbn in Hn. unfold drainOnce, bind at 1, relay_tx at 1.
cbn [rw_store RunInTx ClaimOutboxPending MemStore_Store]. unfold Mem.RunInTx.
rewrite claimed_batch by done. unfold Mem.Commit. unfold drained. cbn [rw_store rw_bus rw_tick].
destruct (batch r s) as [|e rest] eqn:Eb.
- eexists. split; [done|]. split; [|done]. cbn. by rewrite map_mark_nil.
- rewrite <- Eb. unfold bind, zoom. cbn [rw_store rw_bus rw_tick].
  pose proof (publish_all_ids (rl_SubjectFn r) (batch r s) q) as Hids.
  destruct (publish_all (rl_SubjectFn r) (batch r s) q) as [ids q'] eqn:Ep. cbn [fst] in Hids.
  destruct ids as [|i ids].
  + eexists. split; [done|]. split; [|done]. cbn. by rewrite <- Hids, map_mark_nil.
  + rewrite <- Hids. unfold relay_tx, Mem.MarkOutboxPublished. cbn -[fold_left mark_if claim_if].
    unfold Mem.RunInTx, Mem.Commit, Mem.MarkOutboxPublished. eexists. split; [done|].
    split; [|done]. cbn [rw_store set_outbox mem_outbox mem_txs mem_steps mem_sagas].
    rewrite mark_all; [done|]. rewrite map_map. erewrite map_ext; [exact Hn|].
    intros x. apply claim_if_id.
Qed.

Lemma drained_ids (r : Relay) (w : RW) :
map ev_EventID (drained r w) = map ev_EventID (mem_outbox (rw_store w)).
Proof.
unfold drained. rewrite !map_map. apply map_ext. intros e. by rewrite mark_if_id, claim_if_id.
Qed.

Lemma batch_pending (r : Relay) s e :
e ∈ batch r s -> exists e0, e0 ∈ mem_outbox s /\ Mem.is_pending e0 = true /\ e = inflight e0.
Proof.
unfold batch. intros (e0&->&He0)%list_elem_of_fmap. exists e0.
destruct (list_elem_of_lookup_1 _ _ He0) as [i Hi].
apply lookup_take_Some in Hi as [Hi _]. apply list_elem_of_lookup_2, list_elem_of_In in Hi.
apply filter_In in Hi as [? ?]. split; [by apply list_elem_of_In|done].
Qed.

(** A drain leaves the events alone that are not pending. *)
Lemma drained_keeps (r : Relay) (w : RW) e :
NoDup (map ev_EventID (mem_outbox (rw_store w))) ->
e ∈ mem_outbox (rw_store w) -> Mem.is_pending e = false -> e ∈ drained r w.
Proof.
intros Hn He Hs. assert (ev_EventID e ∉ map ev_EventID (batch r (rw_store w))) as Hnot.
{ intros (e1&E&(e0&He0&Hp&->)%batch_pending)%list_elem_of_fmap.
  assert (e0 = e) as ->; [|congruence].
  by apply (nodup_key_inj ev_EventID (mem_outbox (rw_store w))). }
unfold drained. apply list_elem_of_fmap. exists e. split.
- unfold mark_if. rewrite bool_decide_eq_false_2; [done|].
  intros (e1&E&He1)%list_elem_of_fmap. apply Hnot. rewrite E.
  apply list_elem_of_fmap. exists e1. split; [done|].
  destruct (accepted_prefix (rl_SubjectFn r) (batch r (rw_store w)) (rw_bus w)) as [k ->].
  apply elem_of_app. by left.
- apply list_elem_of_fmap. exists e. split; [|done].
  unfold claim_if. by rewrite bool_decide_eq_false_2.
Qed.

(** One drain of a relay. *)
Definition drain_step (r : Relay) (w w1 : RW) : Prop := exists res, drainOnce env r w = (res, w1).

(** C26: a drain offers the first pending events of the outbox to the bus, in
  order and up to the batch size, stops at the first failure, marks those
  accepted as published and leaves the rest of the batch in flight; nothing
  else of the store changes. *)
Theorem drain_effect (batchSize interval : Z) (w : RW) :
let r := NewRelay batchSize interval in
NoDup (map ev_EventID (mem_outbox (rw_store w))) ->
exists w', drainOnce env r w = (Returned (Ok tt), w') /\
  rw_store w' = set_outbox (drained r w) (rw_store w) /\
  rw_bus w' = snd (publish_all (rl_SubjectFn r) (batch r (rw_store w)) (rw_bus w)) /\
  accepted (rl_SubjectFn r) (batch r (rw_store w)) (rw_bus w) `prefix_of` batch r (rw_store w).
Proof.
intros r Hn. destruct (drainOnce_result r w (NewRelay_batch _ _) Hn) as (w'&?&?&?).
exists w'. split_and!; [done..|apply accepted_prefix].
Qed.

(** An event in flight stays so for ever: no drain claims it, publishes it
  or marks it, so an event whose publication failed is never sent again. *)
Theorem inflight_never_drained (batchSize interval : Z) (w w' : RW) e :
let r := NewRelay batchSize interval in
NoDup (map ev_EventID (mem_outbox (rw_store w))) ->
e ∈ mem_outbox (rw_store w) -> ev_Status e = OutboxInflight ->
star (drain_step r) w w' -> e ∈ mem_outbox (rw_store w').
Proof.
intros r Hn He Hs Hd. pose proof (NewRelay_batch batchSize interval : 0 < rl_BatchSize r) as Hb.
clearbody r. induction Hd as [w|w w1 w2 [res Hrun] _ IH]; [done|].
destruct (drainOnce_result r w Hb Hn) as (w1'&Hrun'&Hst&_).
assert (w1' = w1) as -> by congruence. rewrite Hst in IH. cbn in IH. apply IH.
- by rewrite drained_ids.
- apply drained_keeps; [done..|]. unfold Mem.is_pending. by rewrite Hs.
Qed.
End Drain.

(** A bus that never fails takes whole batches. *)
Lemma publish_all_calm subject evs q :
  im_FailOn q <= 0 ->
  let q' := snd (publish_all subject evs q) in
  accepted subject evs q = evs /\ im_Events q' = im_Events q ++ evs /\
  im_Subjects q' = im_Subjects q ++ map (fun e => subject (ev_EventType e)) evs /\
  im_FailOn q' = im_FailOn q.
Proof.
  revert q. induction evs as [|e evs IH]; intros q Hq; cbn; [by rewrite !app_nil_r|].
  unfold InMemoryPublisher_Publish. destruct (Z.ltb_spec 0 (im_FailOn q)); [lia|]. cbn [andb].
  match goal with |- context [publish_all subject evs ?q1] =>
    pose proof (IH q1 Hq) as Hr; destruct (publish_all subject evs q1) as [ids q2];
    destruct Hr as (IH1&IH2&IH3&IH4) end.
  cbn in *. rewrite IH1, IH2, IH3, IH4. by rewrite <- !app_assoc.
Qed.

(** A bus that never fails receives every event of the batch exactly once
    and in order, on the subject of its type, and
    all of them end published. *)
Theorem drain_delivers env (batchSize interval : Z) (w : RelayWorld MemStore InMemoryPublisher) :
  let r := NewRelay batchSize interval in
  NoDup (map ev_EventID (mem_outbox (rw_store w))) ->
  im_FailOn (rw_bus w) <= 0 ->
  exists w', drainOnce env r w = (Returned (Ok tt), w') /\
    im_Events (rw_bus w') = im_Events (rw_bus w) ++ batch r (rw_store w) /\
    im_Subjects (rw_bus w') =
      im_Subjects (rw_bus w) ++ map (fun e => "transactions." +:+ ev_EventType e) (batch r (rw_store w)) /\
    forall e, e ∈ mem_outbox (rw_store w') ->
      ev_EventID e ∈ map ev_EventID (batch r (rw_store w)) -> ev_Status e = OutboxPublished.
Proof.
  intros r Hn Hf. destruct (drainOnce_result env r w (NewRelay_batch _ _) Hn) as (w'&Hrun&Hst&Hbus).
  exists w'. split; [done|]. rewrite Hst, Hbus. cbn [mem_outbox set_outbox].
  destruct (publish_all_calm (rl_SubjectFn r) (batch r (rw_store w)) (rw_bus w) Hf)
    as (Hacc&Hev&Hsub&_).
  split_and!; [done|done|]. unfold drained. rewrite Hacc.
  intros e (e1&->&_)%list_elem_of_fmap. rewrite mark_if_id. intros Hin.
  unfold mark_if. by rewrite bool_decide_eq_true_2.
Qed.

(** ** A concrete relay *)

Definition sample_env (n : nat) : Runtime := sample_rt.

(** A bus that fails at its second call. *)
Definition flaky_bus : InMemoryPublisher :=
  {| im_Events := []; im_Subjects := []; im_FailOn := 2; im_calls := 0 |}.

Definition sample_relay_world (q : InMemoryPublisher) : RelayWorld MemStore InMemoryPublisher :=
  {| rw_store := sample_store; rw_bus := q; rw_tick := 0 |}.

Lemma sample_ids : NoDup (map ev_EventID (mem_outbox sample_store)).
Proof. apply (bool_decide_unpack _). vm_compute. exact I. Defined.

Lemma drain_effect_witness :
  exists w', drainOnce sample_env (NewRelay 2 0) (sample_relay_world flaky_bus)
               = (Returned (Ok tt), w') /\
    map ev_Status (mem_outbox (rw_store w')) = [OutboxPublished; OutboxInflight; OutboxPending].
Proof.
  destruct (drain_effect sample_env 2 0 (sample_relay_world flaky_bus) sample_ids)
    as (w'&Hrun&Hst&_).
  exists w'. split; [exact Hrun|]. rewrite Hst. vm_compute. reflexivity.
Defined.

Lemma inflight_never_drained_witness :
  let w := sample_relay_world flaky_bus in
  let w1 := snd (drainOnce sample_env (NewRelay 2 0) w) in
  let w2 := snd (drainOnce sample_env (NewRelay 2 0) w1) in
  inflight (sample_event 2) ∈ mem_outbox (rw_store w2).
Proof.
  intros w w1 w2.
  apply (inflight_never_drained sample_env 2 0 w1 w2).
  - apply (bool_decide_unpack _). vm_compute. exact I.
  - apply list_elem_of_In. vm_compute. right. left. reflexivity.
  - reflexivity.
  - apply star_one. exists (fst (drainOnce sample_env (NewRelay 2 0) w1)).
    apply surjective_pairing.
Defined.

Lemma drain_delivers_witness :
  exists w', drainOnce sample_env (NewRelay 0 0) (sample_relay_world NewInMemoryPublisher)
               = (Returned (Ok tt), w') /\ Len (rw_bus w') = 3%nat /\
    im_Subjects (rw_bus w') = ["transactions.created"; "transactions.created"; "transactions.created"].
Proof.
  destruct (drain_delivers sample_env 0 0 (sample_relay_world NewInMemoryPublisher)
              sample_ids (Z.le_refl 0)) as (w'&Hrun&Hev&Hsub&_).
  exists w'. split; [exact Hrun|]. unfold Len. rewrite Hev, Hsub. vm_compute. split; reflexivity.
Defined.
