(* ===== verification/RelayLoop.v ===== *)
(** The goroutines of the outbox relay ([Start], [Stop] and [loop] of
    [internal/outbox/relay.go]): one loop as a function of the cases its
    [select] picks, and any number of loops interleaved with the units of work
    that write events, at the grain of a unit of work or one [Publish]. *)

From S2P Require Import Prelude StateMachine Store StoreFacts Outbox.

Local Open Scope Z_scope.
Local Open Scope go_scope.

(** ** One loop *)

(** What the [select] of the loop picks. *)
Inductive Case := CaseStop | CaseDone | CaseTick.

(** The loop over the cases it picks: whether it returned, and its world. An
    error of a drain is only logged. *)
Fixpoint loop {S Q : Type} `{Store S} `{Publisher Q} (env : nat -> Runtime) (r : Relay)
    (cases : list Case) : Go (RelayWorld S Q) bool :=
  match cases with
  | [] => ret false
  | (CaseStop | CaseDone) :: _ => ret true
  | CaseTick :: rest => let! _ := drainOnce env r in loop env r rest
  end.

Definition pending (s : MemStore) : list OutboxEvent := List.filter Mem.is_pending (mem_outbox s).
Local Abbreviation ids_of := (map ev_EventID).

Section Fifo.
Context (env : nat -> Runtime) (r : Relay).
Local Abbreviation RW := (RelayWorld MemStore InMemoryPublisher).

(** [n] ticks of the loop between which other units of work append the events
  [new], which carry fresh identifiers and are pending. *)
Inductive relay_run : nat -> list OutboxEvent -> RW -> RW -> Prop :=
| rr_nil w : relay_run 0 [] w w
| rr_tick n new w w1 w2 :
    drain_step env r w w1 -> relay_run n new w1 w2 -> relay_run (S n) new w w2
| rr_append n evs new w s w2 :
    mem_outbox s = mem_outbox (rw_store w) ++ evs -> NoDup (ids_of (mem_outbox s)) ->
    Forall (fun e => Mem.is_pending e = true) evs ->
    relay_run n new {| rw_store := s; rw_bus := rw_bus w; rw_tick := rw_tick w |} w2 ->
    relay_run n (evs ++ new) w w2.

(** The ticks a loop makes before it returns. *)
Fixpoint ticks (cases : list Case) : nat :=
match cases with CaseTick :: rest => S (ticks rest) | _ => 0 end.

Lemma loop_run cases w :
0 < rl_BatchSize r -> NoDup (ids_of (mem_outbox (rw_store w))) ->
exists w', loop env r cases w = (Returned (bool_decide (ticks cases < length cases)%nat), w') /\
  relay_run (ticks cases) [] w w'.
Proof.
intros Hb. revert w. induction cases as [|[] rest IH]; intros w Hn; cbn.
1-3: exists w; split; [done|constructor].
destruct (drainOnce_result env r w Hb Hn) as (w1&Hrun&Hst&_). unfold bind. rewrite Hrun.
destruct (IH w1) as (w'&Hl&Hr).
- rewrite Hst. cbn. by rewrite drained_ids.
- exists w'. rewrite Hl. split; [by rewrite (bool_decide_ext (S _ < S _)%nat (ticks rest < length rest)%nat) by lia|].
  eapply rr_tick; [by eexists|done].
Qed.

Lemma filter_pending_map (f : OutboxEvent -> OutboxEvent) l :
(forall e, e ∈ l -> Mem.is_pending (f e) = Mem.is_pending e /\ (Mem.is_pending e = true -> f e = e)) ->
List.filter Mem.is_pending (map f l) = List.filter Mem.is_pending l.
Proof.
induction l as [|e l IH]; intros Hf; cbn; [done|]. destruct (Hf e ltac:(by left)) as [-> He].
rewrite IH by (intros x Hx; apply Hf; by right).
destruct (Mem.is_pending e); [by rewrite He|done].
Qed.

Lemma drained_pending (w : RW) :
0 < rl_BatchSize r -> NoDup (ids_of (mem_outbox (rw_store w))) ->
List.filter Mem.is_pending (drained env r w) = drop (Z.to_nat (rl_BatchSize r)) (pending (rw_store w)).
Proof.
intros Hb Hn. pose proof (ClaimOutboxPending_out (Z.to_nat (rl_BatchSize r)) (rw_store w) ltac:(lia)) as [_ Hc].
rewrite claimed_batch in Hc by done. cbn in Hc. unfold pending. rewrite <- Hc. unfold drained.
apply filter_pending_map. intros e (e0&->&_)%list_elem_of_fmap. unfold mark_if.
case_bool_decide as Hin; [|done]. rewrite claim_if_id in Hin.
assert (ev_EventID e0 ∈ ids_of (batch r (rw_store w))) as Hin'.
{ apply list_elem_of_fmap in Hin as (x&E&Hx).
  destruct (accepted_prefix (rl_SubjectFn r) (batch r (rw_store w)) (rw_bus w)) as [k E'].
  rewrite E', E. apply list_elem_of_fmap. exists x. split; [done|]. apply elem_of_app. by left. }
unfold claim_if. by rewrite bool_decide_eq_true_2.
Qed.

(** An event that is published stays so. *)
Definition published (s : MemStore) (id : string) : Prop :=
exists e, e ∈ mem_outbox s /\ ev_EventID e = id /\ ev_Status e = OutboxPublished.

Lemma published_run n new w w' id :
0 < rl_BatchSize r -> NoDup (ids_of (mem_outbox (rw_store w))) ->
relay_run n new w w' -> published (rw_store w) id -> published (rw_store w') id.
Proof.
intros Hb Hn Hr. induction Hr as [w|n new w w1 w2 [res Hrun] _ IH|n evs new w s w2 Hs Hn' _ _ IH]; [done|..].
- destruct (drainOnce_result env r w Hb Hn) as (w1'&Hrun'&Hst&_).
  assert (w1' = w1) as -> by congruence. rewrite Hst in IH. cbn in IH. intros (e&He&Hid&Hp).
  apply IH; [by rewrite drained_ids|]. exists e. split; [|done]. cbn.
  apply drained_keeps; [done..|]. unfold Mem.is_pending. by rewrite Hp.
- intros (e&He&Hid&Hp). apply IH; [done|]. exists e. split; [|done]. cbn. rewrite Hs.
  apply elem_of_app. by left.
Qed.

Lemma batch_published (w w1 : RW) res :
0 < rl_BatchSize r -> NoDup (ids_of (mem_outbox (rw_store w))) -> im_FailOn (rw_bus w) <= 0 ->
drainOnce env r w = (res, w1) ->
pending (rw_store w1) = drop (Z.to_nat (rl_BatchSize r)) (pending (rw_store w)) /\
im_Events (rw_bus w1) = im_Events (rw_bus w) ++ batch r (rw_store w) /\
NoDup (ids_of (mem_outbox (rw_store w1))) /\ im_FailOn (rw_bus w1) <= 0 /\
forall id, id ∈ ids_of (batch r (rw_store w)) -> published (rw_store w1) id.
Proof.
intros Hb Hn Hf Hrun. destruct (drainOnce_result env r w Hb Hn) as (w1'&Hrun'&Hst&Hbus).
assert (w1' = w1) as -> by congruence.
destruct (publish_all_calm (rl_SubjectFn r) (batch r (rw_store w)) (rw_bus w) Hf) as (Hacc&Hev&_&Hfo).
rewrite Hst, Hbus, Hev, Hfo. cbn. split_and!; [by apply drained_pending|done|by rewrite drained_ids|done|].
intros id Hid. assert (id ∈ ids_of (drained env r w)) as Hin.
{ rewrite drained_ids. apply list_elem_of_fmap in Hid as (x&->&(e0&He0&_&->)%batch_pending).
  apply list_elem_of_fmap. by exists e0. }
apply list_elem_of_fmap in Hin as (e&E&He). exists e. split_and!; [done|done|].
unfold drained in He. rewrite Hacc in He. apply list_elem_of_fmap in He as (e1&->&_).
rewrite mark_if_id in E. unfold mark_if. by rewrite bool_decide_eq_true_2 by by rewrite <- E.
Qed.

(** C27: the relay is a first-in first-out queue: while other units of work
  append events, a bus that never fails receives a prefix of the pending and
  the appended events, each once and in order, and all of it ends published;
  [n] ticks deliver [n] batches of what was pending, so everything when there
  was no more. *)
Theorem relay_fifo n new w w' :
0 < rl_BatchSize r -> NoDup (ids_of (mem_outbox (rw_store w))) -> im_FailOn (rw_bus w) <= 0 ->
relay_run n new w w' ->
exists sent, im_Events (rw_bus w') = im_Events (rw_bus w) ++ (inflight <$> sent) /\
  sent ++ pending (rw_store w') = pending (rw_store w) ++ new /\
  (length (pending (rw_store w)) `min` (n * Z.to_nat (rl_BatchSize r)) <= length sent)%nat /\
  Forall (published (rw_store w')) (ids_of sent).
Proof.
intros Hb Hn Hf Hr. induction Hr as [w|n new w w1 w2 [res Hrun] Hr IH|n evs new w s w2 Hs Hn' Hp Hr IH].
- exists []. cbn. by rewrite !app_nil_r, Nat.min_0_r.
- destruct (batch_published w w1 res Hb Hn Hf Hrun) as (Hpend&Hev&Hn1&Hf1&Hpub).
  destruct (IH Hn1 Hf1) as (sent&Hs&Hq&Hlen&Hall). set (b := Z.to_nat (rl_BatchSize r)) in *.
  exists (take b (pending (rw_store w)) ++ sent). split_and!.
  + by rewrite Hs, Hev, fmap_app, app_assoc.
  + by rewrite <- app_assoc, Hq, Hpend, app_assoc, take_drop.
  + rewrite length_app, length_take. rewrite Hpend, length_drop in Hlen. cbn [Nat.mul]. lia.
  + rewrite map_app. apply Forall_app. split; [|done]. apply Forall_forall. intros id Hid.
    eapply published_run; [done|exact Hn1|exact Hr|]. apply Hpub. unfold batch. fold b.
    apply list_elem_of_fmap in Hid as (e&->&He). apply list_elem_of_fmap. exists (inflight e).
    split; [done|]. apply list_elem_of_fmap. by exists e.
- destruct (IH Hn' Hf) as (sent&Hs'&Hq&Hlen&Hall). exists sent. cbn in *. split_and!; [done| | |done].
  + rewrite Hq. unfold pending. rewrite Hs, List.filter_app, <- app_assoc. do 2 f_equal.
    clear -Hp. induction Hp as [|e evs He _ IH]; cbn; [done|by rewrite He, IH].
  + unfold pending in *. rewrite Hs, List.filter_app, length_app in Hlen. lia.
Qed.
End Fifo.

(** ** Any number of loops

    [Start] is called any number of times; the loops share the store and the
    bus, and their units of work and publishes interleave with each other and
    with the units of work that append events. *)

(** Where a loop is: in its [select], between the claim and the mark with the
    events still to publish and the identifiers published, or returned. *)
Inductive Phase := Selecting | Publishing (todo : list OutboxEvent) (publishedIDs : list string) | Returned_.

Record Loops := {
  lp_store : MemStore;
  lp_bus : InMemoryPublisher;
  lp_loops : list Phase;
  lp_wg : nat;
  lp_stop : bool;
  lp_cancelled : bool;
}.

Definition set_phase (i : nat) (ph : Phase) (l : Loops) : Loops :=
  {| lp_store := lp_store l; lp_bus := lp_bus l; lp_loops := <[i := ph]> (lp_loops l);
     lp_wg := lp_wg l;
     lp_stop := lp_stop l; lp_cancelled := lp_cancelled l |}.
Definition set_lstore (s : MemStore) (l : Loops) : Loops :=
  {| lp_store := s; lp_bus := lp_bus l; lp_loops := lp_loops l; lp_wg := lp_wg l;
     lp_stop := lp_stop l; lp_cancelled := lp_cancelled l |}.
Definition set_lbus (q : InMemoryPublisher) (l : Loops) : Loops :=
  {| lp_store := lp_store l; lp_bus := q; lp_loops := lp_loops l; lp_wg := lp_wg l;
     lp_stop := lp_stop l; lp_cancelled := lp_cancelled l |}.

(** [wg.Add(1); go r.loop(ctx)]. *)
Definition Start (l : Loops) : Loops :=
  {| lp_store := lp_store l; lp_bus := lp_bus l; lp_loops := lp_loops l ++ [Selecting];
     lp_wg := S (lp_wg l); lp_stop := lp_stop l; lp_cancelled := lp_cancelled l |}.

(** [close(r.stop)] panics when it is closed; [Stop] then waits for [wg]. *)
Definition close_stop (l : Loops) : outcome unit * Loops :=
  if lp_stop l then (Panicked, l)
  else (Returned tt, {| lp_store := lp_store l; lp_bus := lp_bus l; lp_loops := lp_loops l;
                        lp_wg := lp_wg l; lp_stop := true; lp_cancelled := lp_cancelled l |}).

(** The context of the loops ends. *)
Definition cancel (l : Loops) : Loops :=
  {| lp_store := lp_store l; lp_bus := lp_bus l; lp_loops := lp_loops l; lp_wg := lp_wg l;
     lp_stop := lp_stop l; lp_cancelled := true |}.

(** [return] of the loop with its deferred [wg.Done]. *)
Definition return_loop (i : nat) (l : Loops) : Loops :=
  {| lp_store := lp_store l; lp_bus := lp_bus l; lp_loops := <[i := Returned_]> (lp_loops l);
     lp_wg := pred (lp_wg l); lp_stop := lp_stop l; lp_cancelled := lp_cancelled l |}.

(** One round of the publishing loop of [drainOnce]; it breaks at a failure. *)
Definition publish_one (r : Relay) (i : nat) (e : OutboxEvent) (rest : list OutboxEvent)
    (publishedIDs : list string) (l : Loops) : Loops :=
  match Publish (rl_SubjectFn r (ev_EventType e)) e (lp_bus l) with
  | (Some _, q) => set_phase i (Publishing [] publishedIDs) (set_lbus q l)
  | (None, q) => set_phase i (Publishing rest (publishedIDs ++ [ev_EventID e])) (set_lbus q l)
  end.

Section Interleaved.
Context (r : Relay).

Inductive loops_step (l : Loops) : Loops -> Prop :=
| ls_start : loops_step l (Start l)
| ls_close l' : close_stop l = (Returned tt, l') -> loops_step l l'
| ls_cancel : loops_step l (cancel l)
| ls_return i : lp_loops l !! i = Some Selecting -> lp_stop l = true \/ lp_cancelled l = true ->
    loops_step l (return_loop i l)
| ls_claim i events s :
    lp_loops l !! i = Some Selecting ->
    RunInTx (ClaimOutboxPending (Z.to_nat (rl_BatchSize r))) (lp_store l) = (Ok events, s) ->
    loops_step l (set_phase i (if bool_decide (events = []) then Selecting else Publishing events [])
                    (set_lstore s l))
| ls_publish i e rest publishedIDs :
    lp_loops l !! i = Some (Publishing (e :: rest) publishedIDs) ->
    loops_step l (publish_one r i e rest publishedIDs l)
| ls_none i :
    lp_loops l !! i = Some (Publishing [] []) -> loops_step l (set_phase i Selecting l)
| ls_mark i publishedIDs at_ res s :
    lp_loops l !! i = Some (Publishing [] publishedIDs) -> publishedIDs <> [] ->
    RunInTx (MarkOutboxPublished publishedIDs at_) (lp_store l) = (res, s) ->
    loops_step l (set_phase i Selecting (set_lstore s l))
| ls_append evs s :
    mem_outbox s = mem_outbox (lp_store l) ++ evs -> NoDup (ids_of (mem_outbox s)) ->
    loops_step l (set_lstore s l).

(** The identifiers a loop has claimed and not yet offered to the bus. *)
Definition held (ph : Phase) : list string :=
match ph with Publishing todo _ => ids_of todo | _ => [] end.

(** The identifiers sent, and those some loop holds. *)
Definition out (l : Loops) : list string :=
ids_of (im_Events (lp_bus l)) ++ concat (map held (lp_loops l)).

(** The identifiers are different ones of the outbox, none of a pending event. *)
Definition taken (s : MemStore) (ids : list string) : Prop :=
NoDup ids /\ Forall (fun id => id ∈ ids_of (mem_outbox s) /\ id ∉ ids_of (pending s)) ids.

Definition running (ph : Phase) : bool := match ph with Returned_ => false | _ => true end.

Record loops_ok (l : Loops) : Prop := {
  lo_ids : NoDup (ids_of (mem_outbox (lp_store l)));
  lo_taken : taken (lp_store l) (out l);
  lo_wg : lp_wg l = length (List.filter running (lp_loops l));
}.

#[local] Instance taken_perm s : Proper (Permutation ==> iff) (taken s).
Proof. intros x y Hxy. unfold taken. by rewrite Hxy. Qed.

Lemma taken_sub s x y : taken s (x ++ y) -> taken s x.
Proof. intros [(?&_&_)%NoDup_app [? _]%Forall_app]. by split. Qed.

Lemma concat_insert {A B} (f : A -> list B) (l : list A) i x :
l !! i = Some x -> exists rest, concat (map f l) ≡ₚ f x ++ rest /\
  forall y, concat (map f (<[i := y]> l)) ≡ₚ f y ++ rest.
Proof.
revert i. induction l as [|z l IH]; intros [|i]; cbn [lookup]; [done..| |].
- intros [= ->]. exists (concat (map f l)). split; [done|]. intros y. done.
- intros Hi. destruct (IH i Hi) as (rest&Hr&Hy). exists (f z ++ rest). split.
  + cbn. rewrite Hr. by rewrite !app_assoc, (Permutation_app_comm (f z)).
  + intros y. change (<[S i := y]> (z :: l)) with (z :: <[i := y]> l). cbn. rewrite Hy.
    by rewrite !app_assoc, (Permutation_app_comm (f z)).
Qed.

Lemma running_insert (l : list Phase) i x y :
l !! i = Some x ->
(length (List.filter running (<[i := y]> l)) + Nat.b2n (running x) =
 length (List.filter running l) + Nat.b2n (running y))%nat.
Proof.
revert i. induction l as [|z l IH]; intros [|i]; cbn [lookup]; [done..| |].
- intros [= ->]. change (<[0%nat := y]> (x :: l)) with (y :: l). cbn.
  destruct (running x), (running y); cbn; lia.
- intros Hi. change (<[S i := y]> (z :: l)) with (z :: <[i := y]> l). cbn. specialize (IH i Hi).
  destruct (running z); cbn; lia.
Qed.

Lemma pending_ids s id : id ∈ ids_of (pending s) -> id ∈ ids_of (mem_outbox s).
Proof.
intros (e&->&He)%list_elem_of_fmap. apply list_elem_of_In, filter_In in He as [He _].
apply list_elem_of_fmap. exists e. split; [done|]. by apply list_elem_of_In.
Qed.

Lemma pending_nodup s : NoDup (ids_of (mem_outbox s)) -> NoDup (ids_of (pending s)).
Proof.
intros Hn. eapply sublist_NoDup; [exact Hn|]. change (ids_of ?x) with (ev_EventID <$> x).
apply fmap_sublist. unfold pending. clear Hn. induction (mem_outbox s) as [|e l IH]; cbn; [done|].
destruct (Mem.is_pending e); by constructor.
Qed.

(** A unit of work that adds identifiers and makes no old event pending. *)
Lemma taken_store s s' ids :
(forall id, id ∈ ids_of (mem_outbox s) -> id ∈ ids_of (mem_outbox s')) ->
(forall id, id ∈ ids_of (mem_outbox s) -> id ∈ ids_of (pending s') -> id ∈ ids_of (pending s)) ->
taken s ids -> taken s' ids.
Proof.
intros Hin Hp [Hn Hall]. split; [done|]. eapply Forall_impl; [exact Hall|].
intros id [Hid Hnp]. split; [by apply Hin|]. intros Hp'. by apply Hnp, Hp.
Qed.

(** What one claim takes is new. *)
Lemma taken_claim s events s' ids :
0 < rl_BatchSize r -> NoDup (ids_of (mem_outbox s)) ->
RunInTx (ClaimOutboxPending (Z.to_nat (rl_BatchSize r))) s = (Ok events, s') ->
taken s ids -> taken s' (ids ++ ids_of events) /\ ids_of (mem_outbox s') = ids_of (mem_outbox s).
Proof.
intros Hb Hn Hrun Ht. set (b := Z.to_nat (rl_BatchSize r)) in *.
pose proof (ClaimOutboxPending_out b s ltac:(lia)) as [Ho Hp].
cbn [RunInTx ClaimOutboxPending MemStore_Store] in Hrun. unfold Mem.RunInTx, Mem.Commit in Hrun.
pose proof (claimed_batch r s Hb Hn) as Hc. fold b in Hc. rewrite Hc in *. cbn [fst snd] in *.
injection Hrun as <- <-. fold (pending s) in *.
fold (pending (set_outbox (map (claim_if (ids_of (batch r s))) (mem_outbox s)) s)) in Hp.
set (s' := set_outbox _ _) in *.
assert (ids_of (mem_outbox s') = ids_of (mem_outbox s)) as Hids.
{ cbn. rewrite map_map. apply map_ext. intros e. apply claim_if_id. }
assert (ids_of (batch r s) = ids_of (take b (pending s))) as Hbatch.
{ unfold batch. fold b (pending s). change (inflight <$> ?x) with (map inflight x).
  rewrite map_map. by apply map_ext. }
pose proof (pending_nodup s Hn) as Hpn. rewrite <- (take_drop b (pending s)), map_app in Hpn.
apply NoDup_app in Hpn as (Hpn1&Hdis&_). split; [|done]. split.
- apply NoDup_app. destruct Ht as [Htn Hall]. rewrite Forall_forall in Hall. rewrite Hbatch.
  split_and!; [done| |done]. intros id Hid Hin. apply (proj2 (Hall id Hid)).
  rewrite <- (take_drop b (pending s)), map_app. apply elem_of_app. by left.
- apply Forall_app. rewrite Hids, Hp, Hbatch. split.
  + eapply Forall_impl; [apply Ht|]. intros id [Hid Hnp]. split; [done|]. intros Hd. apply Hnp.
    rewrite <- (take_drop b (pending s)), map_app. apply elem_of_app. by right.
  + apply Forall_forall. intros id Hid. split; [|by apply Hdis]. apply pending_ids.
    rewrite <- (take_drop b (pending s)), map_app. apply elem_of_app. by left.
Qed.

Lemma mark_store ids at_ res s s' :
NoDup (ids_of (mem_outbox s)) -> RunInTx (MarkOutboxPublished ids at_) s = (res, s') ->
ids_of (mem_outbox s') = ids_of (mem_outbox s) /\
forall id, id ∈ ids_of (pending s') -> id ∈ ids_of (pending s).
Proof.
intros Hn. cbn [RunInTx MarkOutboxPublished MemStore_Store].
unfold Mem.RunInTx, Mem.Commit, Mem.MarkOutboxPublished. rewrite mark_all by done. intros [= _ <-].
split.
- cbn. rewrite map_map. apply map_ext. intros e. apply mark_if_id.
- intros id (e&->&He)%list_elem_of_fmap. apply list_elem_of_In, filter_In in He as [He Hp].
  cbn in He. apply in_map_iff in He as (e0&<-&He0). rewrite mark_if_id.
  apply list_elem_of_fmap. exists e0. split; [done|]. apply list_elem_of_In, filter_In.
  split; [done|]. revert Hp. unfold mark_if. by case_bool_decide.
Qed.

Lemma publish_InMemory subject e (q : InMemoryPublisher) :
im_Events (snd (Publish subject e q)) =
  im_Events q ++ match fst (Publish subject e q) with None => [e] | Some _ => [] end.
Proof. cbn. unfold InMemoryPublisher_Publish. case_match; cbn; by rewrite ?app_nil_r. Qed.

(** One loop moves from [ph] to [ph']: what it holds changes, and the wait
  group with it when it returns. *)
Lemma moved (l l' : Loops) i ph ph' :
lp_loops l !! i = Some ph -> lp_loops l' = <[i := ph']> (lp_loops l) ->
exists rest, out l ≡ₚ ids_of (im_Events (lp_bus l)) ++ held ph ++ rest /\
  out l' ≡ₚ ids_of (im_Events (lp_bus l')) ++ held ph' ++ rest.
Proof.
intros Hi Hl. destruct (concat_insert held _ i ph Hi) as (rest&Hr&Hy).
exists rest. unfold out. rewrite Hl. by rewrite Hr, Hy.
Qed.

Lemma moved_ok (l l' : Loops) i ph ph' :
loops_ok l -> lp_loops l !! i = Some ph -> lp_loops l' = <[i := ph']> (lp_loops l) ->
running ph = true -> running ph' = true -> lp_wg l' = lp_wg l ->
NoDup (ids_of (mem_outbox (lp_store l'))) ->
(forall rest, taken (lp_store l) (ids_of (im_Events (lp_bus l)) ++ held ph ++ rest) ->
  taken (lp_store l') (ids_of (im_Events (lp_bus l')) ++ held ph' ++ rest)) ->
loops_ok l'.
Proof.
intros [Hn Ht Hwg] Hi Hl Hr Hr' Hw Hn' Hstep. split; [done| |].
- destruct (moved l l' i ph ph' Hi Hl) as (rest&Ho&Ho'). rewrite Ho in Ht. rewrite Ho'. by apply Hstep.
- rewrite Hw, Hwg, Hl. pose proof (running_insert _ i ph ph' Hi) as E.
  rewrite Hr, Hr' in E. cbn in E. lia.
Qed.

Lemma publish_one_ok i e rest ids (l : Loops) :
loops_ok l -> lp_loops l !! i = Some (Publishing (e :: rest) ids) -> loops_ok (publish_one r i e rest ids l).
Proof.
intros Hok Hi. pose proof (publish_InMemory (rl_SubjectFn r (ev_EventType e)) e (lp_bus l)) as He.
unfold publish_one. destruct (Publish _ e (lp_bus l)) as [[err|] q]; cbn [fst snd] in He.
- eapply (moved_ok l); [exact Hok|exact Hi|done|done|done|done|apply Hok|]. intros rest'. cbn.
  rewrite He, app_nil_r. rewrite !app_comm_cons, !app_assoc.
  rewrite <- (app_assoc _ _ rest'), (Permutation_app_comm _ rest'), app_assoc. apply taken_sub.
- eapply (moved_ok l); [exact Hok|exact Hi|done|done|done|done|apply Hok|]. intros rest'. cbn.
  by rewrite He, map_app, <- !app_assoc.
Qed.

Lemma loops_step_ok l l' : 0 < rl_BatchSize r -> loops_ok l -> loops_step l l' -> loops_ok l'.
Proof.
intros Hb Hok. pose proof Hok as [Hn Ht Hwg]. intros Hs.
destruct Hs as [|l' Hc| |i Hi Hst|i events s Hi Hrun|i e rest ids Hi|i Hi|i ids at_ res s Hi _ Hrun|evs s Hs Hn'].
- split; [done| |].
  + unfold out. cbn. by rewrite map_app, concat_app, app_nil_r.
  + cbn. by rewrite List.filter_app, length_app, Hwg, Nat.add_1_r.
- unfold close_stop in Hc. destruct (lp_stop l); [done|]. injection Hc as <-. by split.
- by split.
- destruct (moved l (return_loop i l) i Selecting Returned_ Hi eq_refl) as (rest&Ho&Ho').
  split; [done|by rewrite Ho', <- Ho|]. cbn. pose proof (running_insert _ i _ Returned_ Hi) as E.
  cbn in E. lia.
- eapply (moved_ok l); [exact Hok|exact Hi|done|done|by case_bool_decide|done|..].
  + cbn. destruct (taken_claim _ _ _ [] Hb Hn Hrun) as [_ ->]; [|done]. by split; constructor.
  + intros rest H1. destruct (taken_claim _ _ _ _ Hb Hn Hrun H1) as [H2 _]. cbn in *.
    rewrite <- app_assoc, (Permutation_app_comm rest) in H2.
    case_bool_decide; [by subst|done].
- by apply publish_one_ok.
- eapply (moved_ok l); [exact Hok|exact Hi|done..].
- destruct (mark_store _ _ _ _ _ Hn Hrun) as [Hids Hp].
  eapply (moved_ok l); [exact Hok|exact Hi|done|done|done|done|cbn; by rewrite Hids|].
  intros rest. cbn. apply taken_store; [by intros id; rewrite Hids|by intros id _; apply Hp].
- split; [done| |done]. unfold out. cbn. revert Ht. apply taken_store.
  + intros id. rewrite Hs, map_app, elem_of_app. by left.
  + intros id Hin. unfold pending. rewrite Hs, List.filter_app, map_app, elem_of_app. intros [?|Hp]; [done|].
    rewrite Hs, map_app in Hn'. apply NoDup_app in Hn' as (_&Hdis&_). destruct (Hdis id Hin).
    apply (pending_ids (set_outbox evs s)). exact Hp.
Qed.

(** No loop runs yet and nothing was sent. *)
Definition no_loops (s : MemStore) (failOn : Z) : Loops :=
{| lp_store := s;
   lp_bus := {| im_Events := []; im_Subjects := []; im_FailOn := failOn; im_calls := 0 |};
   lp_loops := []; lp_wg := 0; lp_stop := false; lp_cancelled := false |}.

(** C28: however often the relay is started and however its loops interleave
  with each other and with the writers of events, no event is sent to the bus
  twice, none that was sent is pending, and what was sent is in the outbox;
  the wait group counts the loops that have not returned. *)
Theorem sent_once s failOn l :
0 < rl_BatchSize r -> NoDup (ids_of (mem_outbox s)) -> star loops_step (no_loops s failOn) l ->
NoDup (ids_of (im_Events (lp_bus l))) /\
(forall e, e ∈ im_Events (lp_bus l) -> ev_EventID e ∈ ids_of (mem_outbox (lp_store l)) /\
   ev_EventID e ∉ ids_of (pending (lp_store l))) /\
lp_wg l = length (List.filter running (lp_loops l)).
Proof.
intros Hb Hn Hs.
assert (loops_ok l) as [_ [Ho%NoDup_app Hall%Forall_app]%id Hwg].
{ eapply (star_invariant loops_step loops_ok); [|exact Hs|].
  - intros x y ??. by eapply loops_step_ok.
  - by repeat split; try constructor. }
split_and!; [apply Ho| |done]. intros e He. destruct Hall as [Hall _].
rewrite Forall_forall in Hall. apply Hall, list_elem_of_fmap. by exists e.
Qed.

(** ** [drainOnce] is what one loop does when nobody interferes *)

Lemma set_phase_twice i ph ph' l : set_phase i ph' (set_phase i ph l) = set_phase i ph' l.
Proof. unfold set_phase. cbn. by rewrite list_insert_insert_eq. Qed.

Lemma set_phase_same i ph l : lp_loops l !! i = Some ph -> set_phase i ph l = l.
Proof. intros Hi. destruct l. unfold set_phase. cbn in *. by rewrite list_insert_id. Qed.

Lemma set_phase_lookup i ph ph' l : lp_loops l !! i = Some ph' -> lp_loops (set_phase i ph l) !! i = Some ph.
Proof. intros Hi. cbn. apply list_lookup_insert_eq. by eapply lookup_lt_Some. Qed.

Lemma publish_all_steps i events ids l :
lp_loops l !! i = Some (Publishing events ids) ->
let out := publish_all (rl_SubjectFn r) events (lp_bus l) in
star loops_step l (set_phase i (Publishing [] (ids ++ fst out)) (set_lbus (snd out) l)).
Proof.
revert ids l. induction events as [|e rest IH]; intros ids l Hi out; subst out; cbn [publish_all fst snd].
- rewrite app_nil_r, set_phase_same by done. by destruct l.
- eapply star_step; [by apply ls_publish|]. unfold publish_one.
  destruct (Publish (rl_SubjectFn r (ev_EventType e)) e (lp_bus l)) as [[err|] q].
  + cbn. by rewrite app_nil_r.
  + specialize (IH (ids ++ [ev_EventID e]) (set_phase i (Publishing rest (ids ++ [ev_EventID e])) (set_lbus q l))).
    assert (lp_bus (set_phase i (Publishing rest (ids ++ [ev_EventID e])) (set_lbus q l)) = q) as E by done.
    rewrite E in IH. destruct (publish_all _ rest q) as [ids' q']. cbn [fst snd] in *.
    rewrite <- app_assoc in IH. cbn [app] in IH.
    specialize (IH ltac:(by eapply (set_phase_lookup _ _ _ (set_lbus q l)))).
    change (set_lbus q' (set_phase i ?ph (set_lbus q l))) with (set_phase i ph (set_lbus q' l)) in IH.
    by rewrite set_phase_twice in IH.
Qed.

(** A loop that is left alone does exactly what [drainOnce] does: the
  steps of the interleaved model refine the function of the code. *)
Theorem drain_refined env i l res w' :
0 < rl_BatchSize r -> NoDup (ids_of (mem_outbox (lp_store l))) ->
lp_loops l !! i = Some Selecting ->
drainOnce env r {| rw_store := lp_store l; rw_bus := lp_bus l; rw_tick := 0 |} = (res, w') ->
star loops_step l (set_lstore (rw_store w') (set_lbus (rw_bus w') l)).
Proof.
intros Hb Hn Hi. unfold drainOnce, bind at 1, relay_tx at 1. cbn [rw_store rw_bus rw_tick].
destruct (RunInTx (ClaimOutboxPending (Z.to_nat (rl_BatchSize r))) (lp_store l)) as [claimed s] eqn:Ec.
assert (claimed = Ok (batch r (lp_store l))) as ->.
{ cbn in Ec. unfold Mem.RunInTx in Ec. rewrite claimed_batch in Ec by done. by injection Ec as <- _. }
pose proof (ls_claim l i _ s Hi Ec) as Hs. destruct (batch r (lp_store l)) as [|e0 rest0] eqn:Eb.
- intros [= _ <-]. cbn. rewrite bool_decide_eq_true_2 in Hs by done.
  rewrite set_phase_same in Hs by done. by apply star_one.
- rewrite bool_decide_eq_false_2 in Hs by done. unfold bind, zoom. cbn [rw_store rw_bus rw_tick].
  set (events := e0 :: rest0) in *. set (l1 := set_phase i (Publishing events []) (set_lstore s l)) in *.
  pose proof (publish_all_steps i events [] l1
    ltac:(by eapply (set_phase_lookup _ _ _ (set_lstore s l)))) as Hp.
  cbn [lp_bus l1 set_phase set_lstore] in Hp.
  destruct (publish_all (rl_SubjectFn r) events (lp_bus l)) as [ids q]. cbn [fst snd] in Hp.
  change (set_lbus q l1) with (set_phase i (Publishing events []) (set_lbus q (set_lstore s l))) in Hp.
  rewrite set_phase_twice in Hp. cbn [app] in Hp.
  intros Hd. eapply star_step; [exact Hs|]. etrans; [exact Hp|]. apply star_one.
  set (l2 := set_phase i (Publishing [] ids) (set_lbus q (set_lstore s l))).
  assert (lp_loops l2 !! i = Some (Publishing [] ids)) as Hi2
    by (by eapply (set_phase_lookup _ _ _ (set_lbus q (set_lstore s l)))).
  destruct ids as [|id ids].
  + injection Hd as _ <-. pose proof (ls_none l2 i Hi2) as Hl. unfold l2 in Hl.
    by rewrite set_phase_twice, (set_phase_same i Selecting) in Hl by done.
  + unfold relay_tx in Hd. cbn [rw_store rw_bus rw_tick] in Hd.
    destruct (RunInTx (MarkOutboxPublished (id :: ids) (rt_now (env 1%nat))) s) as [res' s'] eqn:Em.
    injection Hd as _ <-. pose proof (ls_mark l2 i (id :: ids) _ res' s' Hi2 ltac:(done) Em) as Hl.
    unfold l2 in Hl. change (set_lstore s' (set_phase i ?ph (set_lbus q (set_lstore s l))))
      with (set_phase i ph (set_lbus q (set_lstore s' l))) in Hl.
    by rewrite set_phase_twice, (set_phase_same i Selecting) in Hl by done.
Qed.
End Interleaved.

(** ** Concrete relays *)

Definition pair_relay : Relay := NewRelay 2 0.

(** A relay that ticks, is overtaken by a writer and ticks again: it sent all
    but the event it was overtaken by. *)
Definition sample_w (k : nat) : RelayWorld MemStore InMemoryPublisher :=
  let w := sample_relay_world NewInMemoryPublisher in
  match k with
  | O => w
  | _ => snd (loop sample_env pair_relay (repeat CaseTick k ++ [CaseStop]) w)
  end.

Definition overtaken : RelayWorld MemStore InMemoryPublisher :=
  {| rw_store := snd (Mem.AppendOutbox [sample_event 4] (rw_store (sample_w 1)));
     rw_bus := rw_bus (sample_w 1); rw_tick := rw_tick (sample_w 1) |}.

Lemma relay_fifo_witness :
  let w' := snd (drainOnce sample_env pair_relay overtaken) in
  relay_run sample_env pair_relay 2 [sample_event 4] (sample_w 0) w' /\
  (exists sent, im_Events (rw_bus w') = inflight <$> sent /\
     sent ++ pending (rw_store w') = [sample_event 1; sample_event 2; sample_event 3; sample_event 4] /\
     (3 <= length sent)%nat) /\
  ids_of (im_Events (rw_bus w')) = ["1"; "2"; "3"; "4"].
Proof.
  intros w'.
  assert (relay_run sample_env pair_relay 2 [sample_event 4] (sample_w 0) w') as Hr.
  { eapply rr_tick; [eexists; apply surjective_pairing|].
    eapply (rr_append _ _ 1 [sample_event 4] [] _ (rw_store overtaken)).
    - vm_compute. reflexivity.
    - apply (bool_decide_unpack _). vm_compute. exact I.
    - by repeat constructor.
    - eapply rr_tick; [eexists; apply surjective_pairing|]. apply rr_nil. }
  split; [exact Hr|]. split; [|vm_compute; reflexivity].
  destruct (relay_fifo sample_env pair_relay 2 [sample_event 4] (sample_w 0) w' eq_refl sample_ids
    (Z.le_refl 0) Hr) as (sent&Hev&Hq&Hlen&_).
  exists sent. split; [exact Hev|]. split; [exact Hq|exact Hlen].
Defined.

(** The loop stops at the first stop it picks. *)
Example loop_stops :
  fst (loop sample_env pair_relay [CaseTick; CaseTick; CaseDone; CaseTick] (sample_w 0)) = Returned true /\
  fst (loop sample_env pair_relay [CaseTick] (sample_w 0)) = Returned false.
Proof. split; vm_compute; reflexivity. Qed.

(** [Start] is not idempotent: every call adds a loop. *)
Lemma start_adds_a_loop l : lp_wg (Start l) = S (lp_wg l) /\ lp_loops (Start l) = lp_loops l ++ [Selecting].
Proof. done. Qed.

(** A second [Stop] panics. *)
Lemma second_stop_panics l l1 : close_stop l = (Returned tt, l1) -> close_stop l1 = (Panicked, l1).
Proof. unfold close_stop at 1. destruct (lp_stop l); [done|]. by intros [= <-]. Qed.

(** Two loops of a relay that was started twice, the second one claiming
    while the first publishes. *)
Definition twice_started : Loops := Start (Start (no_loops sample_store 0)).
Definition claim_by (i : nat) (l : Loops) : Loops :=
  match Mem.RunInTx (Mem.ClaimOutboxPending 2) (lp_store l) with
  | (Ok events, s) =>
      set_phase i (if bool_decide (events = []) then Selecting else Publishing events []) (set_lstore s l)
  | _ => l
  end.
Definition publish_by (i : nat) (l : Loops) : Loops :=
  match lp_loops l !! i with
  | Some (Publishing (e :: rest) ids) => publish_one pair_relay i e rest ids l
  | _ => l
  end.
Definition two_loops : Loops :=
  publish_by 0 (publish_by 1 (publish_by 0 (claim_by 1 (claim_by 0 twice_started)))).

Lemma sent_once_witness :
  star (loops_step pair_relay) (no_loops sample_store 0) two_loops /\
  NoDup (ids_of (im_Events (lp_bus two_loops))) /\
  ids_of (im_Events (lp_bus two_loops)) = ["1"; "3"; "2"].
Proof.
  assert (star (loops_step pair_relay) (no_loops sample_store 0) two_loops) as Hs.
  { do 2 (eapply star_step; [apply ls_start|]).
    eapply star_step; [eapply (ls_claim _ _ 0); [reflexivity|vm_compute; reflexivity]|].
    eapply star_step; [eapply (ls_claim _ _ 1); [reflexivity|vm_compute; reflexivity]|].
    eapply star_step; [eapply (ls_publish _ _ 0); reflexivity|].
    eapply star_step; [eapply (ls_publish _ _ 1); reflexivity|].
    eapply star_step; [eapply (ls_publish _ _ 0); reflexivity|].
    vm_compute. apply star_refl. }
  split; [exact Hs|]. split; [|vm_compute; reflexivity].
  exact (proj1 (sent_once pair_relay sample_store 0 two_loops eq_refl sample_ids Hs)).
Defined.

Lemma drain_refined_witness :
  let l := Start (no_loops sample_store 0) in
  let d := drainOnce sample_env pair_relay
             {| rw_store := lp_store l; rw_bus := lp_bus l; rw_tick := 0 |} in
  star (loops_step pair_relay) l (set_lstore (rw_store (snd d)) (set_lbus (rw_bus (snd d)) l)).
Proof.
  intros l d. apply (drain_refined pair_relay sample_env 0 l (fst d) (snd d)).
  - reflexivity.
  - exact sample_ids.
  - reflexivity.
  - apply surjective_pairing.
Defined.
