(* ===== verification/Partner.v ===== *)
(** The partner services ([internal/partner/partner.go]): the request and
    response types, the client interfaces, the log of the calls made through
    them, and the in-memory [Stub] that implements them all. *)

From S2P Require Import Prelude.

Local Open Scope Z_scope.

Definition ErrDenied : error := Sentinel "partner: denied".
Definition ErrTransient : error := Sentinel "partner: transient".

(** ** Requests and responses *)

Inductive PolicyDecision := PolicyAllow | PolicyDeny | PolicyOther (s : string).

Record PolicyRequest := {
  pr_TxID : string; pr_UserID : string; pr_QuoteID : string; pr_Amount : string;
  pr_Asset : string; pr_Rail : string; pr_DestAddress : string }.

Record PolicyResponse := { pp_Decision : PolicyDecision; pp_Reason : string }.

Record PaymentAuthorizeRequest := {
  ar_TxID : string; ar_UserID : string; ar_QuoteID : string; ar_Amount : string;
  ar_Asset : string; ar_Rail : string }.

Record PaymentAuthorizeResponse := { AuthID : string }.

Record PaymentCaptureRequest := {
  cr_TxID : string; cr_AuthID : string; cr_Amount : string; cr_Asset : string }.

Record PaymentCaptureResponse := { CaptureID : string }.

Record PaymentVoidRequest := { vr_TxID : string; vr_AuthID : string }.

Record PaymentRefundRequest := {
  rr_TxID : string; rr_CaptureID : string; rr_Amount : string; rr_Asset : string }.

Inductive KytDecision := KytClear | KytReview | KytReject | KytOther (s : string).

Definition KytDecision_string (d : KytDecision) : string :=
  match d with
  | KytClear => "clear" | KytReview => "review" | KytReject => "reject" | KytOther s => s
  end.

Record KytRequest := {
  kr_TxID : string; kr_UserID : string; kr_DestAddress : string; kr_Amount : string;
  kr_Asset : string }.

Record KytResponse := { kp_Decision : KytDecision; kp_Reason : string }.

Record MpcSignRequest := { mr_TxID : string; mr_UnsignedTxHex : string }.

Record MpcSignResponse := { SignedTxHex : string }.

Record BroadcastRequest := { br_TxID : string; br_SignedTxHex : string }.

Record BroadcastResponse := { TxHash : string; InMempool : bool; Confirmed : bool }.

Record LedgerPostRequest := {
  lr_TxID : string; lr_UserID : string; lr_Amount : string; lr_Asset : string;
  lr_Rail : string }.

Record LedgerPostResponse := { JournalID : string }.

Record AuditEvent := {
  ae_TxID : string; ae_Step : string; ae_Actor : string; ae_Before : string;
  ae_After : string; ae_Err : string; ae_Attempt : Z; ae_At : Z }.

#[export] Instance PolicyDecision_eq_dec : EqDecision PolicyDecision.
Proof. solve_decision. Defined.

#[export] Instance KytDecision_eq_dec : EqDecision KytDecision.
Proof. solve_decision. Defined.

(** ** Client interfaces

    A client is a record of operations on the state [P] of the outside world;
    a field of [Clients] is [None] where the Go interface value is nil. *)

Section Interfaces.
Context {P : Type}.

Record Policy := { Evaluate : PolicyRequest -> P -> result PolicyResponse * P }.

Record Payment := {
Authorize : PaymentAuthorizeRequest -> P -> result PaymentAuthorizeResponse * P;
Capture : PaymentCaptureRequest -> P -> result PaymentCaptureResponse * P;
VoidAuthorization : PaymentVoidRequest -> P -> result unit * P;
Refund : PaymentRefundRequest -> P -> result unit * P }.

Record Kyt := { Screen : KytRequest -> P -> result KytResponse * P }.

Record Mpc := { Sign : MpcSignRequest -> P -> result MpcSignResponse * P }.

Record Blockchain := {
Broadcast : BroadcastRequest -> P -> result BroadcastResponse * P;
Status : string -> P -> result BroadcastResponse * P }.

Record Ledger := { PostDoubleEntry : LedgerPostRequest -> P -> result LedgerPostResponse * P }.

Record Audit := { Record_ : AuditEvent -> P -> result unit * P }.

(** [saga.Clients]. *)
Record Clients := {
cl_Policy : option Policy;
cl_Payment : option Payment;
cl_Kyt : option Kyt;
cl_Mpc : option Mpc;
cl_Blockchain : option Blockchain;
cl_Ledger : option Ledger;
cl_Audit : option Audit }.
End Interfaces.
Arguments Policy P : clear implicits.
Arguments Payment P : clear implicits.
Arguments Kyt P : clear implicits.
Arguments Mpc P : clear implicits.
Arguments Blockchain P : clear implicits.
Arguments Ledger P : clear implicits.
Arguments Audit P : clear implicits.
Arguments Clients P : clear implicits.

(** ** The call log

    Every partner call with its request and the answer it got, in order.  It
    is not part of the program; the properties about what the partners see
    are stated on it. *)

Inductive Call :=
  | CEvaluate (req : PolicyRequest) (r : result PolicyResponse)
  | CAuthorize (req : PaymentAuthorizeRequest) (r : result PaymentAuthorizeResponse)
  | CCapture (req : PaymentCaptureRequest) (r : result PaymentCaptureResponse)
  | CVoid (req : PaymentVoidRequest) (r : result unit)
  | CRefund (req : PaymentRefundRequest) (r : result unit)
  | CScreen (req : KytRequest) (r : result KytResponse)
  | CSign (req : MpcSignRequest) (r : result MpcSignResponse)
  | CBroadcast (req : BroadcastRequest) (r : result BroadcastResponse)
  | CStatus (txHash : string) (r : result BroadcastResponse)
  | CPost (req : LedgerPostRequest) (r : result LedgerPostResponse)
  | CRecord (e : AuditEvent) (r : result unit).

(** What a step can touch: the partners, the log, and the position in the
    sequence of runtime readings. *)
Record Ext (P : Type) := {
  x_partners : P;
  x_calls : list Call;
  x_tick : nat;
}.
Arguments x_partners {P} _.
Arguments x_calls {P} _.
Arguments x_tick {P} _.

(** Call a partner and log the call. *)
Definition invoke {P Req Resp} (op : Req -> P -> result Resp * P)
    (log : Req -> result Resp -> Call) (req : Req) : Go (Ext P) (result Resp) := fun x =>
  let '(r, p) := op req (x_partners x) in
  (Returned r, {| x_partners := p; x_calls := x_calls x ++ [log req r]; x_tick := x_tick x |}).

(** One reading of the runtime [env]. *)
Definition runtime {P} (env : nat -> Runtime) : Go (Ext P) Runtime := fun x =>
  (Returned (env (x_tick x)),
   {| x_partners := x_partners x; x_calls := x_calls x; x_tick := S (x_tick x) |}).

(** ** [Stub] *)

Record StubConfig := {
  sc_PolicyDecision : PolicyDecision;
  sc_PolicyError : option error;
  sc_KytDecision : KytDecision;
  sc_KytError : option error;
  sc_BroadcastInMem : bool;
  sc_BroadcastConfirmed : bool;
  sc_BroadcastError : option error;
  sc_SignError : option error;
  sc_AuthorizeError : option error;
  sc_CaptureError : option error;
  sc_LedgerError : option error;
}.

(** [DefaultStubConfig].  [Sleep] (zero by default) only delays a call and has
    no field here. *)
Definition DefaultStubConfig : StubConfig := {|
  sc_PolicyDecision := PolicyAllow; sc_PolicyError := None;
  sc_KytDecision := KytClear; sc_KytError := None;
  sc_BroadcastInMem := true; sc_BroadcastConfirmed := true; sc_BroadcastError := None;
  sc_SignError := None; sc_AuthorizeError := None; sc_CaptureError := None;
  sc_LedgerError := None |}.

Record Stub := {
  PolicyCalls : nat; AuthorizeCalls : nat; CaptureCalls : nat; VoidCalls : nat;
  RefundCalls : nat; KytCalls : nat; SignCalls : nat; BroadcastCalls : nat;
  StatusCalls : nat; LedgerCalls : nat; AuditCalls : nat;
  lastAuthID : string; lastCaptureID : string; lastJournalID : string }.

Definition NewStub : Stub := {|
  PolicyCalls := 0; AuthorizeCalls := 0; CaptureCalls := 0; VoidCalls := 0; RefundCalls := 0;
  KytCalls := 0; SignCalls := 0; BroadcastCalls := 0; StatusCalls := 0; LedgerCalls := 0;
  AuditCalls := 0; lastAuthID := ""; lastCaptureID := ""; lastJournalID := "" |}.

Module StubOps.
Section StubOps.
Variable cfg : StubConfig.

Definition answer {A} (e : option error) (a : A) : result A :=
match e with Some e => Err e | None => Ok a end.

Definition Evaluate (req : PolicyRequest) (s : Stub) : result PolicyResponse * Stub :=
(answer (sc_PolicyError cfg)
   {| pp_Decision := sc_PolicyDecision cfg; pp_Reason := "stub" |},
 {| PolicyCalls := S (PolicyCalls s); AuthorizeCalls := AuthorizeCalls s;
    CaptureCalls := CaptureCalls s; VoidCalls := VoidCalls s; RefundCalls := RefundCalls s;
    KytCalls := KytCalls s; SignCalls := SignCalls s; BroadcastCalls := BroadcastCalls s;
    StatusCalls := StatusCalls s; LedgerCalls := LedgerCalls s; AuditCalls := AuditCalls s;
    lastAuthID := lastAuthID s; lastCaptureID := lastCaptureID s;
    lastJournalID := lastJournalID s |}).

Definition Authorize (req : PaymentAuthorizeRequest) (s : Stub)
: result PaymentAuthorizeResponse * Stub :=
let id := "auth-" +:+ ar_TxID req in
(answer (sc_AuthorizeError cfg) {| AuthID := id |},
 {| PolicyCalls := PolicyCalls s; AuthorizeCalls := S (AuthorizeCalls s);
    CaptureCalls := CaptureCalls s; VoidCalls := VoidCalls s; RefundCalls := RefundCalls s;
    KytCalls := KytCalls s; SignCalls := SignCalls s; BroadcastCalls := BroadcastCalls s;
    StatusCalls := StatusCalls s; LedgerCalls := LedgerCalls s; AuditCalls := AuditCalls s;
    lastAuthID := id; lastCaptureID := lastCaptureID s;
    lastJournalID := lastJournalID s |}).

Definition Capture (req : PaymentCaptureRequest) (s : Stub)
: result PaymentCaptureResponse * Stub :=
let id := "cap-" +:+ cr_TxID req in
(answer (sc_CaptureError cfg) {| CaptureID := id |},
 {| PolicyCalls := PolicyCalls s; AuthorizeCalls := AuthorizeCalls s;
    CaptureCalls := S (CaptureCalls s); VoidCalls := VoidCalls s;
    RefundCalls := RefundCalls s; KytCalls := KytCalls s; SignCalls := SignCalls s;
    BroadcastCalls := BroadcastCalls s; StatusCalls := StatusCalls s;
    LedgerCalls := LedgerCalls s; AuditCalls := AuditCalls s;
    lastAuthID := lastAuthID s; lastCaptureID := id; lastJournalID := lastJournalID s |}).

Definition VoidAuthorization (req : PaymentVoidRequest) (s : Stub) : result unit * Stub :=
(Ok tt,
 {| PolicyCalls := PolicyCalls s; AuthorizeCalls := AuthorizeCalls s;
    CaptureCalls := CaptureCalls s; VoidCalls := S (VoidCalls s);
    RefundCalls := RefundCalls s; KytCalls := KytCalls s; SignCalls := SignCalls s;
    BroadcastCalls := BroadcastCalls s; StatusCalls := StatusCalls s;
    LedgerCalls := LedgerCalls s; AuditCalls := AuditCalls s;
    lastAuthID := lastAuthID s; lastCaptureID := lastCaptureID s;
    lastJournalID := lastJournalID s |}).

Definition Refund (req : PaymentRefundRequest) (s : Stub) : result unit * Stub :=
(Ok tt,
 {| PolicyCalls := PolicyCalls s; AuthorizeCalls := AuthorizeCalls s;
    CaptureCalls := CaptureCalls s; VoidCalls := VoidCalls s;
    RefundCalls := S (RefundCalls s); KytCalls := KytCalls s; SignCalls := SignCalls s;
    BroadcastCalls := BroadcastCalls s; StatusCalls := StatusCalls s;
    LedgerCalls := LedgerCalls s; AuditCalls := AuditCalls s;
    lastAuthID := lastAuthID s; lastCaptureID := lastCaptureID s;
    lastJournalID := lastJournalID s |}).

Definition Screen (req : KytRequest) (s : Stub) : result KytResponse * Stub :=
(answer (sc_KytError cfg) {| kp_Decision := sc_KytDecision cfg; kp_Reason := "stub" |},
 {| PolicyCalls := PolicyCalls s; AuthorizeCalls := AuthorizeCalls s;
    CaptureCalls := CaptureCalls s; VoidCalls := VoidCalls s; RefundCalls := RefundCalls s;
    KytCalls := S (KytCalls s); SignCalls := SignCalls s;
    BroadcastCalls := BroadcastCalls s; StatusCalls := StatusCalls s;
    LedgerCalls := LedgerCalls s; AuditCalls := AuditCalls s;
    lastAuthID := lastAuthID s; lastCaptureID := lastCaptureID s;
    lastJournalID := lastJournalID s |}).

Definition Sign (req : MpcSignRequest) (s : Stub) : result MpcSignResponse * Stub :=
(answer (sc_SignError cfg) {| SignedTxHex := "signed-" +:+ mr_TxID req |},
 {| PolicyCalls := PolicyCalls s; AuthorizeCalls := AuthorizeCalls s;
    CaptureCalls := CaptureCalls s; VoidCalls := VoidCalls s; RefundCalls := RefundCalls s;
    KytCalls := KytCalls s; SignCalls := S (SignCalls s);
    BroadcastCalls := BroadcastCalls s; StatusCalls := StatusCalls s;
    LedgerCalls := LedgerCalls s; AuditCalls := AuditCalls s;
    lastAuthID := lastAuthID s; lastCaptureID := lastCaptureID s;
    lastJournalID := lastJournalID s |}).

Definition Broadcast (req : BroadcastRequest) (s : Stub) : result BroadcastResponse * Stub :=
(answer (sc_BroadcastError cfg)
   {| TxHash := "0xhash-" +:+ br_TxID req; InMempool := sc_BroadcastInMem cfg;
      Confirmed := sc_BroadcastConfirmed cfg |},
 {| PolicyCalls := PolicyCalls s; AuthorizeCalls := AuthorizeCalls s;
    CaptureCalls := CaptureCalls s; VoidCalls := VoidCalls s; RefundCalls := RefundCalls s;
    KytCalls := KytCalls s; SignCalls := SignCalls s;
    BroadcastCalls := S (BroadcastCalls s); StatusCalls := StatusCalls s;
    LedgerCalls := LedgerCalls s; AuditCalls := AuditCalls s;
    lastAuthID := lastAuthID s; lastCaptureID := lastCaptureID s;
    lastJournalID := lastJournalID s |}).

Definition Status (txHash : string) (s : Stub) : result BroadcastResponse * Stub :=
(Ok {| TxHash := txHash; InMempool := true; Confirmed := sc_BroadcastConfirmed cfg |},
 {| PolicyCalls := PolicyCalls s; AuthorizeCalls := AuthorizeCalls s;
    CaptureCalls := CaptureCalls s; VoidCalls := VoidCalls s; RefundCalls := RefundCalls s;
    KytCalls := KytCalls s; SignCalls := SignCalls s; BroadcastCalls := BroadcastCalls s;
    StatusCalls := S (StatusCalls s); LedgerCalls := LedgerCalls s;
    AuditCalls := AuditCalls s; lastAuthID := lastAuthID s;
    lastCaptureID := lastCaptureID s; lastJournalID := lastJournalID s |}).

Definition PostDoubleEntry (req : LedgerPostRequest) (s : Stub)
: result LedgerPostResponse * Stub :=
let id := "jrn-" +:+ lr_TxID req in
(answer (sc_LedgerError cfg) {| JournalID := id |},
 {| PolicyCalls := PolicyCalls s; AuthorizeCalls := AuthorizeCalls s;
    CaptureCalls := CaptureCalls s; VoidCalls := VoidCalls s; RefundCalls := RefundCalls s;
    KytCalls := KytCalls s; SignCalls := SignCalls s; BroadcastCalls := BroadcastCalls s;
    StatusCalls := StatusCalls s; LedgerCalls := S (LedgerCalls s);
    AuditCalls := AuditCalls s; lastAuthID := lastAuthID s;
    lastCaptureID := lastCaptureID s; lastJournalID := id |}).

Definition Record_ (e : AuditEvent) (s : Stub) : result unit * Stub :=
(Ok tt,
 {| PolicyCalls := PolicyCalls s; AuthorizeCalls := AuthorizeCalls s;
    CaptureCalls := CaptureCalls s; VoidCalls := VoidCalls s; RefundCalls := RefundCalls s;
    KytCalls := KytCalls s; SignCalls := SignCalls s; BroadcastCalls := BroadcastCalls s;
    StatusCalls := StatusCalls s; LedgerCalls := LedgerCalls s;
    AuditCalls := S (AuditCalls s); lastAuthID := lastAuthID s;
    lastCaptureID := lastCaptureID s; lastJournalID := lastJournalID s |}).
End StubOps.
End StubOps.

(** The stub in every client slot, as [cmd/orchestrator] and [cmd/orchctl]
    install it. *)
Definition stub_clients (cfg : StubConfig) : Clients Stub := {|
  cl_Policy := Some {| Evaluate := StubOps.Evaluate cfg |};
  cl_Payment := Some {| Authorize := StubOps.Authorize cfg; Capture := StubOps.Capture cfg;
                        VoidAuthorization := StubOps.VoidAuthorization;
                        Refund := StubOps.Refund |};
  cl_Kyt := Some {| Screen := StubOps.Screen cfg |};
  cl_Mpc := Some {| Sign := StubOps.Sign cfg |};
  cl_Blockchain := Some {| Broadcast := StubOps.Broadcast cfg; Status := StubOps.Status cfg |};
  cl_Ledger := Some {| PostDoubleEntry := StubOps.PostDoubleEntry cfg |};
  cl_Audit := Some {| Record_ := StubOps.Record_ |} |}.
