(* ===== verification/Steps.v ===== *)
(** The step interface and the six concrete steps ([internal/saga/saga.go],
    [internal/saga/*_step.go]). *)

From S2P Require Import Prelude StateMachine Store Partner.

Local Open Scope Z_scope.
Local Open Scope go_scope.

(** ** Step interface *)

Record StepResult := {
  res_State : State;
  res_PayloadMerge : Payload;
  res_Terminal : bool;
}.

(** [StepResult{}]. *)
Definition StepResult_zero : StepResult :=
  {| res_State := StateOther ""; res_PayloadMerge := ∅; res_Terminal := false |}.

(** [StepResult{State: st, PayloadMerge: p}]. *)
Definition advance_to (st : State) (p : Payload) : StepResult :=
  {| res_State := st; res_PayloadMerge := p; res_Terminal := false |}.

Record SagaContext (P : Type) := {
  sc_Tx : Transaction;
  sc_Saga : SagaState;
  sc_Attempt : Z;
  sc_Partners : option (Clients P);
}.
Arguments sc_Tx {P} _.
Arguments sc_Saga {P} _.
Arguments sc_Attempt {P} _.
Arguments sc_Partners {P} _.

(** The Go interface [Step].  A step reaches the outside only through its
    partner client: its methods act on [Ext P], never on the store. *)
Record StepImpl (P : Type) := {
  Name : Step;
  Execute : SagaContext P -> Go (Ext P) (StepResult * option error);
  Compensate : SagaContext P -> Go (Ext P) (option error);
}.
Arguments Name {P} _.
Arguments Execute {P} _ _.
Arguments Compensate {P} _ _.

Definition ErrNonRetriable : error := Sentinel "saga: non-retriable".

(** [fmt.Errorf("%w: %v", ErrNonRetriable, err)]: [err] is formatted, not
    wrapped. *)
Definition NonRetriable (err : error) : error := Wrap "" ErrNonRetriable (": " +:+ Error err).

Definition IsNonRetriable (err : option error) : bool :=
  match err with
  | None => false
  | Some e => errors_Is e ErrNonRetriable || errors_Is e ErrDenied
  end.

(** [if errors.Is(err, ErrTransient) { return StepResult{}, err };
    return StepResult{}, NonRetriable(err)]. *)
Definition classify (err : error) : error :=
  if errors_Is err ErrTransient then err else NonRetriable err.

Section Steps.
Context {P : Type} `{GoStd} (env : nat -> Runtime).
Implicit Types (sc : SagaContext P).

Definition noCompensation (sc : SagaContext P) : Go (Ext P) (option error) := ret None.

(** *** [PolicyStep] *)

Definition PolicyStep_Execute (client : option (Policy P)) sc
: Go (Ext P) (StepResult * option error) :=
match client with
| None => ret (StepResult_zero, Some (New "policy client not configured"))
| Some c =>
    let t := sc_Tx sc in
    let! r := invoke (Evaluate c) CEvaluate
      {| pr_TxID := tx_TxID t; pr_UserID := tx_UserID t; pr_QuoteID := tx_QuoteID t;
         pr_Amount := tx_Amount t; pr_Asset := tx_Asset t; pr_Rail := tx_Rail t;
         pr_DestAddress := tx_DestAddress t |} in
    match r with
    | Err err => ret (StepResult_zero, Some (classify err))
    | Ok resp =>
        let reason := {["policy_reason" := AString (pp_Reason resp)]} in
        match pp_Decision resp with
        | PolicyDeny =>
            ret ({| res_State := StateFailedCompensated; res_PayloadMerge := reason;
                    res_Terminal := true |},
                 Some (New ("policy denied: " +:+ pp_Reason resp)))
        | _ => ret (advance_to StatePolicyChecked reason, None)
        end
    end
end.

Definition NewPolicyStep (client : option (Policy P)) : StepImpl P :=
{| Name := StepPolicy; Execute := PolicyStep_Execute client; Compensate := noCompensation |}.

(** *** [PaymentStep] *)

Definition PaymentStep_Execute (client : option (Payment P)) sc
: Go (Ext P) (StepResult * option error) :=
match client with
| None => ret (StepResult_zero, Some (New "payment client not configured"))
| Some c =>
    let t := sc_Tx sc in
    let! a := invoke (Authorize c) CAuthorize
      {| ar_TxID := tx_TxID t; ar_UserID := tx_UserID t; ar_QuoteID := tx_QuoteID t;
         ar_Amount := tx_Amount t; ar_Asset := tx_Asset t; ar_Rail := tx_Rail t |} in
    match a with
    | Err err => ret (StepResult_zero, Some (classify err))
    | Ok auth =>
        let! cp := invoke (Capture c) CCapture
          {| cr_TxID := tx_TxID t; cr_AuthID := AuthID auth; cr_Amount := tx_Amount t;
             cr_Asset := tx_Asset t |} in
        match cp with
        | Err err =>
            let! _ := invoke (VoidAuthorization c) CVoid
              {| vr_TxID := tx_TxID t; vr_AuthID := AuthID auth |} in
            ret ({| res_State := StateOther "";
                    res_PayloadMerge := {["auth_id" := AString (AuthID auth)]};
                    res_Terminal := false |}, Some (classify err))
        | Ok cap =>
            ret (advance_to StatePaymentCaptured
                   (<["capture_id" := AString (CaptureID cap)]>
                      {["auth_id" := AString (AuthID auth)]}), None)
        end
    end
end.

Definition PaymentStep_Compensate (client : option (Payment P)) sc
: Go (Ext P) (option error) :=
match client with
| None => ret (Some (New "payment client not configured"))
| Some c =>
    let t := sc_Tx sc in
    let authID := payload_string (sg_Payload (sc_Saga sc)) "auth_id" in
    let captureID := payload_string (sg_Payload (sc_Saga sc)) "capture_id" in
    if negb (bool_decide (captureID = "")) then
      let! r := invoke (Refund c) CRefund
        {| rr_TxID := tx_TxID t; rr_CaptureID := captureID; rr_Amount := tx_Amount t;
           rr_Asset := tx_Asset t |} in
      ret (match r with Err e => Some (Wrap "payment refund: " e "") | Ok _ => None end)
    else if negb (bool_decide (authID = "")) then
      let! r := invoke (VoidAuthorization c) CVoid
        {| vr_TxID := tx_TxID t; vr_AuthID := authID |} in
      ret (match r with Err e => Some (Wrap "payment void: " e "") | Ok _ => None end)
    else ret None
end.

Definition NewPaymentStep (client : option (Payment P)) : StepImpl P :=
{| Name := StepPayment; Execute := PaymentStep_Execute client;
   Compensate := PaymentStep_Compensate client |}.

(** *** [KytStep] *)

Definition KytStep_Execute (client : option (Kyt P)) sc
: Go (Ext P) (StepResult * option error) :=
match client with
| None => ret (StepResult_zero, Some (New "kyt client not configured"))
| Some c =>
    let t := sc_Tx sc in
    let! r := invoke (Screen c) CScreen
      {| kr_TxID := tx_TxID t; kr_UserID := tx_UserID t; kr_DestAddress := tx_DestAddress t;
         kr_Amount := tx_Amount t; kr_Asset := tx_Asset t |} in
    match r with
    | Err err => ret (StepResult_zero, Some (classify err))
    | Ok resp =>
        match kp_Decision resp with
        | KytClear =>
            ret (advance_to StateKytScreened
                   {["kyt_reason" := AString (kp_Reason resp)]}, None)
        | KytReview | KytReject =>
            ret (StepResult_zero, Some (NonRetriable
              (New ("kyt " +:+ KytDecision_string (kp_Decision resp) +:+ ": "
                    +:+ kp_Reason resp))))
        | KytOther d =>
            ret (StepResult_zero, Some (NonRetriable
              (New ("kyt unknown decision " +:+ strconv_quote d))))
        end
    end
end.

Definition NewKytStep (client : option (Kyt P)) : StepImpl P :=
{| Name := StepKyt; Execute := KytStep_Execute client; Compensate := noCompensation |}.

(** *** [MpcSignStep] *)

Definition MpcSignStep_Execute (client : option (Mpc P)) sc
: Go (Ext P) (StepResult * option error) :=
match client with
| None => ret (StepResult_zero, Some (New "mpc client not configured"))
| Some c =>
    let t := sc_Tx sc in
    let stored := payload_string (sg_Payload (sc_Saga sc)) "unsigned_tx_hex" in
    let unsigned := if bool_decide (stored = "") then "unsigned-" +:+ tx_TxID t else stored in
    let! r := invoke (Sign c) CSign
      {| mr_TxID := tx_TxID t; mr_UnsignedTxHex := unsigned |} in
    match r with
    | Err err => ret (StepResult_zero, Some (classify err))
    | Ok resp =>
        ret (advance_to StateSigned
               {["signed_tx_hex" := AString (SignedTxHex resp)]}, None)
    end
end.

Definition NewMpcSignStep (client : option (Mpc P)) : StepImpl P :=
{| Name := StepMpcSign; Execute := MpcSignStep_Execute client;
   Compensate := noCompensation |}.

(** *** [BroadcastStep] *)

(** The payload of a broadcast: the hash, and the flags that are set. *)
Definition broadcast_payload (resp : BroadcastResponse) : Payload :=
let p := {["tx_hash" := AString (TxHash resp)]} in
let p := if InMempool resp then <["in_mempool" := ABool true]> p else p in
if Confirmed resp then <["confirmed" := ABool true]> p else p.

Definition BroadcastStep_Execute (client : option (Blockchain P)) sc
: Go (Ext P) (StepResult * option error) :=
match client with
| None => ret (StepResult_zero, Some (New "blockchain client not configured"))
| Some c =>
    let t := sc_Tx sc in
    let existing := payload_string (sg_Payload (sc_Saga sc)) "tx_hash" in
    if negb (bool_decide (existing = "")) then
      ret (advance_to StateBroadcasted {["tx_hash" := AString existing]}, None)
    else
      let signed := payload_string (sg_Payload (sc_Saga sc)) "signed_tx_hex" in
      if bool_decide (signed = "") then
        ret (StepResult_zero,
             Some (NonRetriable (New "missing signed_tx_hex in saga payload")))
      else
        let! r := invoke (Broadcast c) CBroadcast
          {| br_TxID := tx_TxID t; br_SignedTxHex := signed |} in
        match r with
        | Err err => ret (StepResult_zero, Some (classify err))
        | Ok resp => ret (advance_to StateBroadcasted (broadcast_payload resp), None)
        end
end.

Definition BroadcastStep_Compensate sc : Go (Ext P) (option error) :=
let txHash := payload_string (sg_Payload (sc_Saga sc)) "tx_hash" in
match sc_Partners sc with
| Some {| cl_Audit := Some audit |} =>
    if negb (bool_decide (txHash = "")) then
      let! rt := runtime env in
      let! _ := invoke (Record_ audit) CRecord
        {| ae_TxID := tx_TxID (sc_Tx sc); ae_Step := "broadcast"; ae_Actor := "orchestrator";
           ae_Before := State_string (sg_State (sc_Saga sc));
           ae_After := "failed_compensated";
           ae_Err := "broadcast in mempool; tx_hash=" +:+ txHash +:+ " needs monitoring";
           ae_Attempt := 0; ae_At := rt_now rt |} in
      ret None
    else ret None
| _ => ret None
end.

Definition NewBroadcastStep (client : option (Blockchain P)) : StepImpl P :=
{| Name := StepBroadcast; Execute := BroadcastStep_Execute client;
   Compensate := BroadcastStep_Compensate |}.

(** *** [LedgerStep] *)

Definition LedgerStep_Execute (client : option (Ledger P)) sc
: Go (Ext P) (StepResult * option error) :=
match client with
| None => ret (StepResult_zero, Some (New "ledger client not configured"))
| Some c =>
    let t := sc_Tx sc in
    let jid := payload_string (sg_Payload (sc_Saga sc)) "ledger_journal_id" in
    if negb (bool_decide (jid = "")) then
      ret (advance_to StateLedgered {["ledger_journal_id" := AString jid]}, None)
    else
      let! r := invoke (PostDoubleEntry c) CPost
        {| lr_TxID := tx_TxID t; lr_UserID := tx_UserID t; lr_Amount := tx_Amount t;
           lr_Asset := tx_Asset t; lr_Rail := tx_Rail t |} in
      match r with
      | Err err =>
          if errors_Is err ErrTransient then ret (StepResult_zero, Some err)
          else ret ({| res_State := StateFailed;
                       res_PayloadMerge := {["ledger_reconcile_required" := ABool true]};
                       res_Terminal := true |},
                    Some (Wrap "ledger post failed: " err ""))
      | Ok resp =>
          ret (advance_to StateLedgered
                 {["ledger_journal_id" := AString (JournalID resp)]}, None)
      end
end.

Definition NewLedgerStep (client : option (Ledger P)) : StepImpl P :=
{| Name := StepLedger; Execute := LedgerStep_Execute client;
   Compensate := noCompensation |}.

(** The six steps in canonical order, as [NewExecutor] registers them. *)
Definition canonical_steps (c : Clients P) : list (StepImpl P) :=
[ NewPolicyStep (cl_Policy c); NewPaymentStep (cl_Payment c); NewKytStep (cl_Kyt c);
  NewMpcSignStep (cl_Mpc c); NewBroadcastStep (cl_Blockchain c);
  NewLedgerStep (cl_Ledger c) ].
End Steps.
