(* ===== verification/Lease.v ===== *)
(** Per-transaction leases: the interface [saga.LeaseManager] with its no-op
    implementation ([internal/saga/saga.go]) and the process-local
    [InMemoryLease] ([internal/lease/inmemory.go]) with its mutual exclusion. *)

From S2P Require Import Prelude.

Local Open Scope Z_scope.
Local Open Scope go_scope.

(** [Acquire] returns the release function, whether the lease was granted,
    and an error.  A release function is represented by a handle; calling it
    is [Release]. *)
Class LeaseManager (L : Type) := {
  Handle : Type;
  Acquire : string -> string -> Z -> L -> (Handle * bool * option error) * L;
  Release : Handle -> L -> L;
}.

(** [saga.NoopLease]. *)
Definition NoopLease : Type := unit.

#[export] Instance NoopLease_LeaseManager : LeaseManager NoopLease := {
  Handle := unit;
  Acquire _ _ _ l := ((tt, true, None), l);
  Release _ l := l;
}.

(** ** [InMemoryLease] *)

Module InMem.
(** What a release function captures: the key, the owner, and whether its
    [sync.Once] already ran. *)
Record Closure := { cl_key : string; cl_owner : string; cl_done : bool }.

(** The struct, and the store of the release functions handed out.  The
    renewer goroutine only reads the map; the mutex makes each access one
    step. *)
Record InMemoryLease := {
  iml_ttl : Z;
  iml_locks : gmap string string;
  iml_closures : list Closure;
}.

Definition set_locks (m : gmap string string) (l : InMemoryLease) : InMemoryLease :=
  {| iml_ttl := iml_ttl l; iml_locks := m; iml_closures := iml_closures l |}.
Definition set_closures (cs : list Closure) (l : InMemoryLease) : InMemoryLease :=
  {| iml_ttl := iml_ttl l; iml_locks := iml_locks l; iml_closures := cs |}.

Definition NewInMemory (ttl : Z) : InMemoryLease :=
  {| iml_ttl := if ttl <=? 0 then 30 * 1000000000 else ttl; iml_locks := ∅; iml_closures := [] |}.

Definition key (txID : string) : string := "lease:" +:+ txID.

(** [None] is the release function that does nothing; [Some i] the [i]-th
    closure made.  The lease time only sets the period of the renewer. *)
Definition Acquire (txID owner : string) (ttl : Z) (l : InMemoryLease)
  : (option nat * bool * option error) * InMemoryLease :=
  match iml_locks l !! key txID with
  | Some _ => ((None, false, None), l)
  | None =>
      let c := {| cl_key := key txID; cl_owner := owner; cl_done := false |} in
      ((Some (length (iml_closures l)), true, None),
       {| iml_ttl := iml_ttl l; iml_locks := <[key txID := owner]> (iml_locks l);
          iml_closures := iml_closures l ++ [c] |})
  end.

Definition close_once (c : Closure) : Closure :=
  {| cl_key := cl_key c; cl_owner := cl_owner c; cl_done := true |}.

(** The body of [once.Do]. *)
Definition release_body (c : Closure) (l : InMemoryLease) : InMemoryLease :=
  match iml_locks l !! cl_key c with
  | Some cur => if bool_decide (cur = cl_owner c)
                then set_locks (delete (cl_key c) (iml_locks l)) l else l
  | None => l
  end.

Definition Release (h : option nat) (l : InMemoryLease) : InMemoryLease :=
  match h with
  | None => l
  | Some i =>
      match iml_closures l !! i with
      | None => l
      | Some c =>
          if cl_done c then l
          else release_body c (set_closures (<[i := close_once c]> (iml_closures l)) l)
      end
  end.
End InMem.

#[export] Instance InMemoryLease_LeaseManager : LeaseManager InMem.InMemoryLease := {
  Handle := option nat;
  Acquire := InMem.Acquire;
  Release := InMem.Release;
}.

(** ** Mutual exclusion *)

Section Exclusion.
Import InMem.
Implicit Types (l : InMemoryLease).

(** The release function [i] was handed out with a lease on [txID] and was not
  called yet. *)
Definition holds l (i : nat) (txID : string) : Prop :=
exists owner, iml_closures l !! i =
  Some {| cl_key := key txID; cl_owner := owner; cl_done := false |}.

(** The locks of the map are the leases not yet released, one per key. *)
Definition lease_wf l : Prop :=
(forall k o, iml_locks l !! k = Some o <->
   exists i, iml_closures l !! i = Some {| cl_key := k; cl_owner := o; cl_done := false |}) /\
(forall i j c1 c2, iml_closures l !! i = Some c1 -> iml_closures l !! j = Some c2 ->
   cl_done c1 = false -> cl_done c2 = false -> cl_key c1 = cl_key c2 -> i = j).

Inductive lease_step : InMemoryLease -> InMemoryLease -> Prop :=
| ls_acquire l txID owner ttl : lease_step l (snd (InMem.Acquire txID owner ttl l))
| ls_release l h : lease_step l (InMem.Release h l).

Lemma key_inj a b : key a = key b -> a = b.
Proof. unfold key. cbn. intros E. by simplify_eq. Qed.

Lemma NewInMemory_wf ttl : lease_wf (NewInMemory ttl).
Proof.
split.
- intros k o. cbn. rewrite lookup_empty. split; [done|]. intros (i&Hi). by rewrite lookup_nil in Hi.
- intros i j c1 c2 H1. cbn in H1. by rewrite lookup_nil in H1.
Qed.

Lemma snoc_lookup {A} (cs : list A) (c d : A) i :
(cs ++ [c]) !! i = Some d -> cs !! i = Some d \/ (i = length cs /\ d = c).
Proof.
intros [Hi|[Hl Hi]]%lookup_app_Some; [by left|]. right.
apply list_lookup_singleton_Some in Hi as [E ->]. split; [lia|done].
Qed.

Lemma Acquire_wf txID owner ttl l : lease_wf l -> lease_wf (snd (InMem.Acquire txID owner ttl l)).
Proof.
intros [Hl Hu]. unfold InMem.Acquire. destruct (iml_locks l !! key txID) as [o|] eqn:E; [done|].
assert (forall i c, iml_closures l !! i = Some c -> cl_done c = false -> cl_key c <> key txID)
  as Hfree.
{ intros i [k o []] Hi Hd Hk; cbn in *; [done|]. subst k.
  rewrite (proj2 (Hl (key txID) o)) in E; [done|by exists i]. }
split; cbn.
- intros k o. rewrite lookup_insert_Some. split.
  + intros [[<- <-]|[Hne (i&Hi)%Hl]].
    * exists (length (iml_closures l)). by apply list_lookup_middle.
    * exists i. by apply lookup_app_l_Some.
  + intros (i&[Hi|[-> Hi]]%snoc_lookup); [|left; by simplify_eq].
    right. split; [|apply Hl; by exists i]. intros Hk. by eapply Hfree.
- intros i j c1 c2 [H1|[-> ->]]%snoc_lookup [H2|[-> ->]]%snoc_lookup Hd1 Hd2 Hk; [by eauto|..|done].
  + by destruct (Hfree i c1 H1 Hd1).
  + by destruct (Hfree j c2 H2 Hd2).
Qed.

Lemma Release_live i c l :
lease_wf l -> iml_closures l !! i = Some c -> cl_done c = false ->
InMem.Release (Some i) l =
  {| iml_ttl := iml_ttl l; iml_locks := delete (cl_key c) (iml_locks l);
     iml_closures := <[i := close_once c]> (iml_closures l) |}.
Proof.
intros [Hl _] Hi Hd. unfold InMem.Release. rewrite Hi, Hd. unfold release_body. cbn.
rewrite (proj2 (Hl (cl_key c) (cl_owner c))); [by rewrite bool_decide_eq_true_2|].
exists i. rewrite Hi. destruct c. cbn in Hd. by subst.
Qed.

Lemma Release_wf h l : lease_wf l -> lease_wf (InMem.Release h l).
Proof.
intros Hwf. destruct h as [i|]; [|done].
destruct (iml_closures l !! i) as [c|] eqn:Hi; [|by cbn; rewrite Hi].
destruct (cl_done c) eqn:Hd; [by cbn; rewrite Hi, Hd|].
rewrite (Release_live i c l Hwf Hi Hd). destruct Hwf as [Hl Hu].
pose proof (lookup_lt_Some _ _ _ Hi) as Hlt.
assert (forall j c2, <[i := close_once c]> (iml_closures l) !! j = Some c2 ->
  cl_done c2 = false -> iml_closures l !! j = Some c2 /\ j <> i) as Hback.
{ intros j c2 Hj Hd2. destruct (decide (i = j)) as [<-|Hne].
  - rewrite list_lookup_insert_eq in Hj by done. by simplify_eq.
  - rewrite list_lookup_insert_ne in Hj by done. done. }
split; cbn.
- intros k o. rewrite lookup_delete_Some. split.
  + intros [Hne (j&Hj)%Hl]. exists j. rewrite list_lookup_insert_ne; [done|].
    intros <-. rewrite Hi in Hj. by simplify_eq/=.
  + intros (j&Hj). destruct (Hback j _ Hj eq_refl) as [Hj' Hne]. split; [|apply Hl; by exists j].
    intros Hk. apply Hne. by apply (Hu j i _ c Hj' Hi eq_refl Hd).
- intros j j' c1 c2 H1 H2 Hd1 Hd2 Hk.
  destruct (Hback j c1 H1 Hd1) as [H1' _], (Hback j' c2 H2 Hd2) as [H2' _]. by eapply Hu.
Qed.

Lemma lease_reachable_wf ttl l : star lease_step (NewInMemory ttl) l -> lease_wf l.
Proof.
intros Hs. eapply (star_invariant lease_step lease_wf); [|exact Hs|apply NewInMemory_wf].
intros l1 l2 Hwf Hst. destruct Hst; [by apply Acquire_wf|by apply Release_wf].
Qed.

Lemma holds_locked l i txID : lease_wf l -> holds l i txID -> is_Some (iml_locks l !! key txID).
Proof. intros [Hl _] [o Hi]. exists o. apply Hl. by exists i. Qed.
End Exclusion.

(** C32: in every state the manager can reach at most one holder of a lease on a
    transaction has not released it; [Acquire] grants the lease exactly when
    there is none; and the first call of a release function frees its own
    transaction and no other, later calls do nothing. *)
Theorem lease_exclusive ttl (l : InMem.InMemoryLease) :
  star lease_step (InMem.NewInMemory ttl) l ->
  (forall i j txID, holds l i txID -> holds l j txID -> i = j) /\
  (forall txID owner t, let '((h, ok, err), l') := Acquire txID owner t l in
     err = None /\ (ok = true <-> ~ exists i, holds l i txID) /\
     (ok = true -> exists i, h = Some i /\ holds l' i txID) /\ (ok = false -> l' = l)) /\
  (forall i txID, holds l i txID -> let l' := Release (Some i) l in
     (forall j id, holds l' j id <-> holds l j id /\ j <> i) /\ Release (Some i) l' = l').
Proof.
  intros Hs. pose proof (lease_reachable_wf ttl l Hs) as Hwf. pose proof Hwf as [Hl Hu].
  split_and!.
  - intros i j txID [o1 H1] [o2 H2]. by eapply Hu.
  - intros txID owner t. cbn. unfold InMem.Acquire.
    destruct (InMem.iml_locks l !! InMem.key txID) as [o|] eqn:E.
    + split_and!; [done| |done|done]. split; [done|]. intros Hn. destruct Hn.
      apply Hl in E as [i Hi]. exists i. by exists o.
    + split_and!; [done| |intros _|done].
      * split; [|done]. intros _ [i Hi]. apply (holds_locked l i txID Hwf) in Hi as [? Hi].
        by rewrite Hi in E.
      * eexists. split; [done|]. exists owner. cbn. by apply list_lookup_middle.
  - intros i txID [o Hi]. cbn [Release InMemoryLease_LeaseManager]. pose proof (lookup_lt_Some _ _ _ Hi) as Hlt.
    rewrite (Release_live i _ l Hwf Hi eq_refl). cbn. split.
    + intros j id. unfold holds. cbn. destruct (decide (i = j)) as [<-|Hne].
      * rewrite list_lookup_insert_eq by done. split; [by intros [? ?]|by intros [? ?]].
      * rewrite list_lookup_insert_ne by done. split; [|by intros [? ?]]. done.
    + by rewrite list_lookup_insert_eq by done.
Qed.

Definition sample_lease : InMem.InMemoryLease :=
  snd (InMem.Acquire "b" "y" 0 (snd (InMem.Acquire "a" "x" 0 (InMem.NewInMemory 0)))).

Lemma sample_lease_reachable : star lease_step (InMem.NewInMemory 0) sample_lease.
Proof. eapply star_step; [apply ls_acquire|]. apply star_one, ls_acquire. Qed.

Lemma lease_exclusive_witness :
  (forall i, holds sample_lease i "a" -> i = 0%nat) /\
  snd (fst (fst (Acquire "a" "z" 5 sample_lease))) = false /\
  snd (fst (fst (Acquire "a" "z" 5 (Release (Some 0%nat) sample_lease)))) = true.
Proof.
  destruct (lease_exclusive 0 sample_lease sample_lease_reachable) as (H1&_&_).
  split; [|split; vm_compute; reflexivity].
  intros i Hi. apply (H1 i 0%nat "a" Hi). exists "x". vm_compute. reflexivity.
Defined.
