(* ===== verification/RedisLease.v ===== *)
(** The lease shared by the replicas ([internal/lease/redis.go]): a key per
    transaction in Redis with an expiry, renewed while the step runs.  Redis is
    a class with the documented behaviour of the commands in use; the goroutines
    of the replicas are the steps of a transition relation, one command each. *)

From S2P Require Import Prelude Lease.

Local Open Scope Z_scope.

(** ** Redis

    [SET key value NX EX ttl], [GET], [EXPIRE], [DEL] through go-redis, on a
    server in state [R].  An error may come before or after the command took
    effect; [GET] of a missing key is the error [redis.Nil]. *)

Class Redis (R : Type) := {
  SetNX : string -> string -> Z -> R -> result bool * R;
  Get : string -> R -> result string * R;
  Expire : string -> Z -> R -> result bool * R;
  Del : string -> R -> result Z * R;
}.

(** What the server holds, and how the commands change it. *)
Class RedisLaws (R : Type) `{Redis R} := {
  value : R -> string -> option string;
  SetNX_ok k v ttl r b r' : SetNX k v ttl r = (Ok b, r') ->
    b = bool_decide (value r k = None) /\
    forall k', value r' k' = if decide (k' = k /\ b = true) then Some v else value r k';
  SetNX_err k v ttl r e r' : SetNX k v ttl r = (Err e, r') ->
    forall k', value r' k' = value r k' \/ (k' = k /\ value r k = None /\ value r' k' = Some v);
  Get_spec k r x r' : Get k r = (x, r') ->
    (forall k', value r' k' = value r k') /\ (forall s, x = Ok s -> value r k = Some s);
  Expire_spec k ttl r x r' : Expire k ttl r = (x, r') -> forall k', value r' k' = value r k';
  Del_ok k r n r' : Del k r = (Ok n, r') ->
    forall k', value r' k' = if decide (k' = k) then None else value r k';
  Del_err k r e r' : Del k r = (Err e, r') ->
    forall k', value r' k' = value r k' \/ (k' = k /\ value r' k' = None);
}.

Module Rds.

(** Where the goroutines of a granted lease are: the step runs and the renewer
    waits ([Held]); the renewer read its own value and is about to extend it
    ([Renewing]); the renewer returned ([Lapsed]); the release read its own
    value and is about to delete it ([Deleting]); the release returned
    ([Released]). *)
Inductive Phase := Held | Renewing | Lapsed | Deleting | Released.

#[export] Instance Phase_eq_dec : EqDecision Phase.
Proof. solve_decision. Defined.

(** What the closures of a granted lease capture. *)
Record Grant := { g_key : string; g_owner : string; g_ttl : Z; g_phase : Phase }.

Definition set_phase (p : Phase) (g : Grant) : Grant :=
  {| g_key := g_key g; g_owner := g_owner g; g_ttl := g_ttl g; g_phase := p |}.

(** The struct and the leases it granted; [rl_Client] is the server behind the
    client, [None] for a nil client. *)
Record RedisLease (R : Type) := {
  rl_Client : option R;
  rl_TTL : Z;
  rl_grants : list Grant;
}.
Arguments rl_Client {R} _.
Arguments rl_TTL {R} _.
Arguments rl_grants {R} _.

Definition set_client {R} (r : R) (l : RedisLease R) : RedisLease R :=
  {| rl_Client := Some r; rl_TTL := rl_TTL l; rl_grants := rl_grants l |}.
Definition set_grants {R} (gs : list Grant) (l : RedisLease R) : RedisLease R :=
  {| rl_Client := rl_Client l; rl_TTL := rl_TTL l; rl_grants := gs |}.

Definition key (txID : string) : string := "lease:" +:+ txID.

Section Lease.
Context {R : Type} `{Redis R}.
Implicit Types (l : RedisLease R) (g : Grant).

(** The client connects when it is first used. *)
Definition NewRedisLease (server : R) (ttl : Z) : RedisLease R * option error :=
({| rl_Client := Some server; rl_TTL := if ttl <=? 0 then 30 * 1000000000 else ttl;
    rl_grants := [] |}, None).

(** [None] is the release function that does nothing. *)
Definition Acquire (txID owner : string) (ttl : Z) l
: (option nat * bool * option error) * RedisLease R :=
match rl_Client l with
| None => ((None, false, Some (New "lease: redis client not configured")), l)
| Some r =>
    let ttl := if ttl <=? 0 then rl_TTL l else ttl in
    let k := key txID in
    match SetNX k owner ttl r with
    | (Err err, r') =>
        ((None, false, Some (Wrap ("lease SetNX " +:+ k +:+ ": ") err "")), set_client r' l)
    | (Ok got, r') =>
        if negb got then ((None, false, None), set_client r' l)
        else
          let g := {| g_key := k; g_owner := owner; g_ttl := ttl; g_phase := Held |} in
          ((Some (length (rl_grants l)), true, None),
           set_grants (rl_grants l ++ [g]) (set_client r' l))
    end
end.

(** *** The goroutines, one command at a time *)

(** Grant [i] in one of the phases [ps], on the server it captured. *)
Definition on_grant (i : nat) (ps : list Phase) (f : Grant -> R -> Phase * R) l : RedisLease R :=
match rl_grants l !! i, rl_Client l with
| Some g, Some r =>
    if bool_decide (g_phase g ∈ ps) then
      let '(p, r') := f g r in set_grants (<[i := set_phase p g]> (rl_grants l)) (set_client r' l)
    else l
| _, _ => l
end.

(** [case <-t.C:] of the renewer, up to its [Expire]. *)
Definition renew_get (i : nat) : RedisLease R -> RedisLease R :=
on_grant i [Held] (fun g r =>
  let '(lease, r') := Get (g_key g) r in
  match lease with
  | Err _ => (Lapsed, r')
  | Ok s => if bool_decide (s = g_owner g) then (Renewing, r') else (Lapsed, r')
  end).

Definition renew_expire (i : nat) : RedisLease R -> RedisLease R :=
on_grant i [Renewing] (fun g r => (Held, snd (Expire (g_key g) (g_ttl g) r))).

(** The body of [once.Do]: it waits for the renewer, reads the key, and deletes
  it when the value is its own; a failed [Get] reads as [""]. *)
Definition release_get (i : nat) : RedisLease R -> RedisLease R :=
on_grant i [Held; Lapsed] (fun g r =>
  let '(lease, r') := Get (g_key g) r in
  let s := match lease with Ok s => s | Err _ => "" end in
  if bool_decide (s = g_owner g) then (Deleting, r') else (Released, r')).

Definition release_del (i : nat) : RedisLease R -> RedisLease R :=
on_grant i [Deleting] (fun g r => (Released, snd (Del (g_key g) r))).

(** A release that nothing interleaves with. *)
Definition Release (h : option nat) l : RedisLease R :=
match h with None => l | Some i => release_del i (release_get i l) end.

#[export] Instance RedisLease_LeaseManager : LeaseManager (RedisLease R) := {
Handle := option nat;
Acquire := Acquire;
Release := Release;
}.

(** *** All replicas on one server *)

Context `{!RedisLaws R}.

(** The expiry of a key. *)
Definition lapse (k : string) (r r' : R) : Prop :=
forall k', value r' k' = if decide (k' = k) then None else value r k'.

(** One command of one goroutine of one replica, or an expiry if [expiry]. *)
Inductive fleet_step (expiry : bool) : RedisLease R -> RedisLease R -> Prop :=
| fs_acquire l txID owner ttl : fleet_step expiry l (snd (Acquire txID owner ttl l))
| fs_renew_get l i : fleet_step expiry l (renew_get i l)
| fs_renew_expire l i : fleet_step expiry l (renew_expire i l)
| fs_release_get l i : fleet_step expiry l (release_get i l)
| fs_release_del l i : fleet_step expiry l (release_del i l)
| fs_lapse l r r' k : expiry = true -> rl_Client l = Some r -> lapse k r r' ->
    fleet_step expiry l (set_client r' l).

(** The grant was not released. *)
Definition active g : Prop := g_phase g <> Released.

Definition holds l (i : nat) (k : string) : Prop :=
exists g, rl_grants l !! i = Some g /\ active g /\ g_key g = k.
End Lease.
End Rds.

(** ** Mutual exclusion *)

Section Exclusion.
Import Rds.
Context {R : Type} `{RedisLaws R}.
Implicit Types (l : RedisLease R) (g : Grant).

(** The key of an active grant holds its owner; two active grants have
  different keys. *)
Definition fleet_ok l : Prop :=
exists r, rl_Client l = Some r /\
  (forall i g, rl_grants l !! i = Some g -> active g -> value r (g_key g) = Some (g_owner g)) /\
  (forall i j gi gj, rl_grants l !! i = Some gi -> rl_grants l !! j = Some gj ->
     active gi -> active gj -> g_key gi = g_key gj -> i = j).

(** Solve membership of a phase in a list of phases. *)
Local Ltac phases :=
unfold active in *; rewrite ?elem_of_cons, ?elem_of_nil in *; intuition congruence.

(** A step of grant [i] that changes no key but its own. *)
Lemma on_grant_ok i ps f l :
fleet_ok l ->
(forall g r p r', g_phase g ∈ ps -> f g r = (p, r') ->
   (p <> Released -> active g /\ value r' (g_key g) = value r (g_key g)) /\
   forall k', k' <> g_key g -> value r' k' = value r k') ->
(forall g, g_phase g ∈ ps -> active g) ->
fleet_ok (on_grant i ps f l).
Proof.
intros (r&Hr&Hv&Hu) Hf Hps. unfold on_grant. rewrite Hr.
destruct (rl_grants l !! i) as [g|] eqn:Hi; [|by exists r].
case_bool_decide as Hp; [|by exists r]. destruct (f g r) as [p r'] eqn:E.
destruct (Hf g r p r' Hp E) as [Hown Hother]. pose proof (Hps g Hp) as Hact.
assert (forall j gj, <[i := set_phase p g]> (rl_grants l) !! j = Some gj -> active gj ->
  exists gj', rl_grants l !! j = Some gj' /\ active gj' /\ g_key gj' = g_key gj /\
    g_owner gj' = g_owner gj /\ (j = i -> p <> Released)) as Hback.
{ intros j gj Hj Ha. destruct (decide (i = j)) as [<-|Hne].
  - rewrite list_lookup_insert_eq in Hj by by eapply lookup_lt_Some. injection Hj as <-.
    by exists g.
  - rewrite list_lookup_insert_ne in Hj by done. exists gj. split_and!; done. }
exists r'. split; [done|]. split.
- intros j gj Hj Ha. destruct (Hback j gj Hj Ha) as (gj'&Hj'&Ha'&<-&<-&Hrel).
  destruct (decide (g_key gj' = g_key g)) as [Hk|Hk].
  + assert (j = i) as -> by by eapply Hu. assert (gj' = g) as -> by congruence.
    rewrite (proj2 (Hown (Hrel eq_refl))). by eapply Hv.
  + rewrite Hother by done. by eapply Hv.
- intros j1 j2 g1 g2 H1 H2 Ha1 Ha2 Hk.
  destruct (Hback j1 g1 H1 Ha1) as (g1'&?&?&E1&_&_), (Hback j2 g2 H2 Ha2) as (g2'&?&?&E2&_&_).
  eapply Hu; [done..|congruence].
Qed.

Lemma Acquire_ok txID owner ttl l : fleet_ok l -> fleet_ok (snd (Acquire txID owner ttl l)).
Proof.
intros (r&Hr&Hv&Hu). unfold Acquire. rewrite Hr.
destruct (SetNX (key txID) owner (if ttl <=? 0 then rl_TTL l else ttl) r) as [[got|e] r'] eqn:E; cbn.
- destruct (SetNX_ok _ _ _ _ _ _ E) as [Hgot Hval]. destruct got; cbn.
  + symmetry in Hgot. apply bool_decide_eq_true in Hgot. exists r'. split; [done|].
    assert (forall i g, rl_grants l !! i = Some g -> active g -> g_key g <> key txID) as Hfree.
    { intros i g Hi Ha Hk. rewrite <- Hk in Hgot. by rewrite (Hv i g Hi Ha) in Hgot. }
    split; cbn.
    * intros i g [Hi|[-> ->]]%snoc_lookup Ha; cbn; rewrite Hval.
      -- rewrite decide_False by (intros [Hk _]; by eapply Hfree). by eapply Hv.
      -- by rewrite decide_True.
    * intros i j gi gj [Hi|[-> ->]]%snoc_lookup [Hj|[-> ->]]%snoc_lookup Hai Haj Hk;
        [by eapply Hu| | |done]; cbn in Hk;
        [by destruct (Hfree i gi Hi Hai)|by destruct (Hfree j gj Hj Haj)].
  + exists r'. split; [done|]. split; [|done]. cbn. intros i g Hi Ha.
    rewrite Hval, decide_False by by intros [_ ?]. by eapply Hv.
- pose proof (SetNX_err _ _ _ _ _ _ E) as Hval. exists r'. split; [done|]. split; [|done]. cbn.
  intros i g Hi Ha. destruct (Hval (g_key g)) as [->|(Ek&Hn&_)]; [by eapply Hv|].
  pose proof (Hv i g Hi Ha) as Hg. rewrite Ek in Hg. congruence.
Qed.

Lemma fleet_step_ok l l' : fleet_ok l -> fleet_step false l l' -> fleet_ok l'.
Proof.
intros Hok Hs. destruct Hs as [l txID owner ttl|l i|l i|l i|l i|l r r' k Hex]; [|..|done].
- by apply Acquire_ok.
- apply on_grant_ok; [done| |intros g; phases].
  intros g r p r' Hp E. destruct (Get (g_key g) r) as [x r1] eqn:Eg.
  destruct (Get_spec _ _ _ _ Eg) as [Hval _].
  assert (r' = r1) as -> by (destruct x; [case_bool_decide|]; by simplify_eq).
  split; [|by intros]. intros _. split; [phases|done].
- apply on_grant_ok; [done| |intros g; phases].
  intros g r p r' Hp [= <- <-]. destruct (Expire (g_key g) (g_ttl g) r) as [x r1] eqn:Ee. cbn.
  pose proof (Expire_spec _ _ _ _ _ Ee) as Hval.
  split; [|by intros]. intros _. split; [phases|done].
- apply on_grant_ok; [done| |intros g; phases].
  intros g r p r' Hp E. destruct (Get (g_key g) r) as [x r1] eqn:Eg.
  destruct (Get_spec _ _ _ _ Eg) as [Hval _].
  assert (r' = r1) as -> by (cbv zeta in E; case_bool_decide; by simplify_eq).
  split; [|by intros]. intros _. split; [phases|done].
- apply on_grant_ok; [done| |intros g; phases].
  intros g r p r' Hp [= <- <-]. split; [done|]. intros k' Hk'.
  destruct (Del (g_key g) r) as [[n|e] r1] eqn:Ed; cbn.
  + by rewrite (Del_ok _ _ _ _ Ed), decide_False.
  + by destruct (Del_err _ _ _ _ Ed k') as [|[]].
Qed.

Lemma fleet_reachable r ttl l :
star (fleet_step false) (fst (NewRedisLease r ttl)) l -> fleet_ok l.
Proof.
intros Hs. eapply (star_invariant (fleet_step false) fleet_ok); [|exact Hs|].
- intros l1 l2. apply fleet_step_ok.
- exists r. split; [done|]. by split; cbn; intros *; rewrite lookup_nil.
Qed.

(** What a release that is not interleaved with others may do to the server, in
  any state, keys that expired included. *)
Lemma release_own i g r l :
rl_Client l = Some r -> rl_grants l !! i = Some g -> g_phase g <> Deleting -> g_owner g <> "" ->
exists r', rl_Client (Rds.Release (Some i) l) = Some r' /\
  forall k, value r' k = value r k \/
    (k = g_key g /\ value r k = Some (g_owner g) /\ value r' k = None).
Proof.
intros Hr Hi Hd Hne. unfold Rds.Release, release_get. unfold on_grant at 1. rewrite Hi, Hr.
case_bool_decide as Hp.
2:{ exists r. split; [|by left]. unfold release_del, on_grant. rewrite Hi, Hr.
    rewrite bool_decide_eq_false_2 by phases. done. }
destruct (Get (g_key g) r) as [x r1] eqn:Eg. destruct (Get_spec _ _ _ _ Eg) as [Hval Hok].
assert (i < length (rl_grants l))%nat as Hlt by by eapply lookup_lt_Some.
case_bool_decide as Hs; unfold release_del, on_grant; cbn; rewrite list_lookup_insert_eq by done; cbn.
- rewrite bool_decide_eq_true_2 by phases. destruct (Del (g_key g) r1) as [[n|e] r2] eqn:Ed; cbn.
  all: assert (value r (g_key g) = Some (g_owner g)) as Hv
    by (destruct x as [s|e']; [subst; by apply Hok|by rewrite <- Hs in Hne]).
  + exists r2. split; [done|]. intros k. rewrite (Del_ok _ _ _ _ Ed). case_decide; subst; auto.
  + exists r2. split; [done|]. intros k.
    destruct (Del_err _ _ _ _ Ed k) as [->|[-> E]]; [by left|]. by right.
- rewrite bool_decide_eq_false_2 by phases. exists r1. split; [done|]. intros k. by left.
Qed.

(** What the renewer does on a tick, in any state: the server keeps what it
  holds, and the renewer goes on to extend the key only when it holds its owner. *)
Lemma renew_own i g r l :
rl_Client l = Some r -> rl_grants l !! i = Some g -> g_phase g = Held ->
exists p r', rl_grants (renew_get i l) !! i = Some (set_phase p g) /\
  rl_Client (renew_get i l) = Some r' /\ (forall k, value r' k = value r k) /\
  (p = Lapsed \/ p = Renewing /\ value r (g_key g) = Some (g_owner g)).
Proof.
intros Hr Hi Hp. unfold renew_get, on_grant. rewrite Hi, Hr, bool_decide_eq_true_2 by phases.
destruct (Get (g_key g) r) as [x r1] eqn:Eg. destruct (Get_spec _ _ _ _ Eg) as [Hval Hok].
assert (i < length (rl_grants l))%nat as Hlt by by eapply lookup_lt_Some.
destruct x as [s|e]; [case_bool_decide as Hs|]; cbn.
all: eexists _, r1; split_and!; [by apply list_lookup_insert_eq|done|done|]; auto.
right. split; [done|]. rewrite <- Hs. by apply Hok.
Qed.

End Exclusion.

(** ** A concrete server *)

(** A server that never fails, its expiry left to [lapse]. *)
Definition RedisMap : Type := gmap string string.

#[export] Instance RedisMap_Redis : Redis RedisMap := {
  SetNX k v _ r := match r !! k with Some _ => (Ok false, r) | None => (Ok true, <[k := v]> r) end;
  Get k r := (match r !! k with Some v => Ok v | None => Err (Sentinel "redis: nil") end, r);
  Expire k _ r := (Ok (bool_decide (is_Some (r !! k))), r);
  Del k r := (Ok (if decide (is_Some (r !! k)) then 1 else 0), delete k r);
}.

#[export] Instance RedisMap_laws : RedisLaws RedisMap.
Proof.
  refine {| value := fun (r : RedisMap) k => r !! k |}.
  - intros k v ttl r b r'. cbn. destruct (r !! k) as [u|] eqn:E; intros [= <- <-].
    + split; [done|]. intros k'. by rewrite decide_False by by intros [].
    + split; [done|]. intros k'. destruct (decide (k' = k)) as [->|Hne].
      * rewrite decide_True by done. exact (lookup_insert_eq r k v).
      * rewrite decide_False by by intros []. by apply (lookup_insert_ne r k k' v).
  - intros k v ttl r e r'. cbn. by destruct (r !! k).
  - intros k r x r' [= <- <-]. split; [done|]. intros s. by destruct (r !! k); intros [= ->].
  - by intros k ttl r x r' [= <- <-].
  - intros k r n r' [= <- <-] k'. case_decide; subst; [exact (lookup_delete_eq r k)|by apply (lookup_delete_ne r k k')].
  - done.
Defined.

Definition shared : Rds.RedisLease RedisMap := fst (Rds.NewRedisLease (∅ : RedisMap) 0).

(** The lease of the first replica ran out and the key is the second's. *)
Definition overtaken : Rds.RedisLease RedisMap :=
  snd (Rds.Acquire "t1" "replica-2" 0
    (Rds.set_client ∅ (snd (Rds.Acquire "t1" "replica-1" 0 shared)))).


(** *** The race of the release

    [release_get] and [release_del] are two commands. *)

(** The first replica read its own value; then its lease ran out and a second
    replica was granted one. *)
Definition between : Rds.RedisLease RedisMap :=
  let l := Rds.release_get 0 (snd (Rds.Acquire "t1" "replica-1" 0 shared)) in
  snd (Rds.Acquire "t1" "replica-2" 0 (Rds.set_client ∅ l)).

Lemma between_reachable : star (Rds.fleet_step true) shared between.
Proof.
  eapply star_step; [apply (Rds.fs_acquire true shared "t1" "replica-1" 0)|].
  eapply star_step; [apply (Rds.fs_release_get true _ 0)|].
  eapply star_step; [|apply star_one, (Rds.fs_acquire true)].
  eapply (Rds.fs_lapse true _ {[Rds.key "t1" := "replica-1"]} ∅ (Rds.key "t1")); [done|done|].
  intros k. cbn. case_decide as Hk; [done|].
  symmetry. exact (lookup_singleton_ne (Rds.key "t1") k "replica-1" (not_eq_sym Hk)).
Qed.

(** The release of a lease that ran out can delete the lease of another
    owner: from a state where the second replica alone holds the key, and with
    nothing expiring from there on, the pending delete of the first frees the
    key, and a third replica is granted a lease while the second still holds
    its own. *)
Theorem redis_release_race :
  star (Rds.fleet_step true) shared between /\
  (exists r, Rds.rl_Client between = Some r /\ value r (Rds.key "t1") = Some "replica-2") /\
  exists l, star (Rds.fleet_step false) between l /\
    exists g1 g2, Rds.rl_grants l !! 1%nat = Some g1 /\ Rds.rl_grants l !! 2%nat = Some g2 /\
      Rds.g_phase g1 = Rds.Held /\ Rds.g_phase g2 = Rds.Held /\
      Rds.g_key g1 = Rds.g_key g2 /\ Rds.g_owner g1 <> Rds.g_owner g2.
Proof.
  split; [exact between_reachable|]. split; [eexists; split; vm_compute; reflexivity|].
  exists (snd (Rds.Acquire "t1" "replica-3" 0 (Rds.release_del 0 between))). split.
  - eapply star_step; [apply (Rds.fs_release_del false _ 0)|]. apply star_one, (Rds.fs_acquire false).
  - eexists _, _. split; [vm_compute; reflexivity|]. split; [vm_compute; reflexivity|].
    split_and!; [done..|discriminate].
Qed.
