(* ===== verification/Executor.v ===== *)
(** The saga executor ([internal/saga/saga.go]): one transaction driven
    through its steps with bounded retry, and the compensation cascade. *)

From S2P Require Import Prelude StateMachine Store Partner Steps Lease.

Local Open Scope Z_scope.
Local Open Scope go_scope.

Definition Millisecond : Z := 1000000.
Definition Second : Z := 1000000000.

(** A 64-bit signed integer after wrap-around. *)
Definition int64 (z : Z) : Z := (z + 2 ^ 63) mod 2 ^ 64 - 2 ^ 63.

Record Config := {
  MaxRetries : Z;
  BaseBackoff : Z;
  MaxBackoff : Z;
  StepTimeout : string -> Z;
}.

Definition DefaultConfig : Config := {|
  MaxRetries := 5; BaseBackoff := 200 * Millisecond; MaxBackoff := 10 * Second;
  StepTimeout := fun _ => 30 * Second |}.

(** The executor's world: the store, everything outside, and the leases. *)
Record World (S P L : Type) := {
  w_store : S;
  w_ext : Ext P;
  w_lease : L;
}.
Arguments w_store {S P L} _.
Arguments w_ext {S P L} _.
Arguments w_lease {S P L} _.

Definition set_store {S P L} (s : S) (w : World S P L) : World S P L :=
  {| w_store := s; w_ext := w_ext w; w_lease := w_lease w |}.
Definition set_ext {S P L} (x : Ext P) (w : World S P L) : World S P L :=
  {| w_store := w_store w; w_ext := x; w_lease := w_lease w |}.
Definition set_lease {S P L} (l : L) (w : World S P L) : World S P L :=
  {| w_store := w_store w; w_ext := w_ext w; w_lease := l |}.

(** [Executor]; the store and the lease manager live in the world. *)
Record Executor (P : Type) := {
  ex_Clients : option (Clients P);
  ex_Steps : list (StepImpl P);
  ex_Cfg : Config;
}.
Arguments ex_Clients {P} _.
Arguments ex_Steps {P} _.
Arguments ex_Cfg {P} _.

Definition mergePayload (base merge : Payload) : Payload := merge ∪ base.

(** [validatePath]: one hop, or two hops through [mid]. *)
Definition validatePath (from mid to : State) : option error :=
  if bool_decide (from = to) then None
  else if bool_decide (mid = to) || bool_decide (mid = from) then snd (Transition from to)
  else match snd (Transition from mid) with
       | Some err => Some err
       | None => snd (Transition mid to)
       end.

(** The delay before the next attempt and the bound of its random part.  The
    float64 product [base * 2^(attempt-1)] is exact below [2^53] ns and the
    cap is applied before anything is rounded, so for [base] and [max] below
    [2^53] ns (104 days) the integer computation gives the same value. *)
Definition backoff_delay (cfg : Config) (attempt : Z) : Z :=
  let base := if BaseBackoff cfg <=? 0 then 200 * Millisecond else BaseBackoff cfg in
  let max := if MaxBackoff cfg <=? 0 then 10 * Second else MaxBackoff cfg in
  Z.min (base * 2 ^ (attempt - 1)) max.

Section Executor.
Context {S P L : Type} `{GoStd} `{Store S} `{LeaseManager L} (env : nat -> Runtime).
Implicit Types (e : Executor P).

Local Abbreviation W := (World S P L).

(** *** Access to the world *)

Definition in_ext {A} (m : Go (Ext P) A) : Go W A := zoom w_ext set_ext m.

Definition reading {A} (f : S -> A) : Go W A := fun w => (Returned (f (w_store w)), w).

(** [e.Store.RunInTx(ctx, fn)]; the closure gets the readings of the
  runtime it makes. *)
Definition run_in_tx {A} (fn : Runtime -> Tx S A) : Go W (result A) :=
let! rt := in_ext (runtime env) in
fun w => let '(r, s') := RunInTx (fn rt) (w_store w) in (Returned r, set_store s' w).

(** [select { case <-timer: case <-ctx.Done(): return ctx.Err() }]. *)
Definition wait_or_done : Go W (option error) :=
let! rt := in_ext (runtime env) in ret (rt_ctx rt).

Definition NewExecutor (c : Clients P) (cfg : Config) : Executor P :=
{| ex_Clients := Some c; ex_Steps := canonical_steps env c; ex_Cfg := cfg |}.

Definition StepByName e (name : Step) : option (StepImpl P) :=
find_first (fun s => bool_decide (Name s = name)) (ex_Steps e).

(** [rand.Int63n] panics on a bound that is not positive. *)
Definition backoff e (attempt : Z) : Go W Z :=
let d := backoff_delay (ex_Cfg e) attempt in
let n := Z.quot d 2 in
if n <=? 0 then panic
else let! rt := in_ext (runtime env) in ret (int64 (d + rt_rand rt n)).

Definition audit e (sc : SagaContext P) (step before after : string) (err : option error)
: Go W unit :=
match ex_Clients e with
| Some {| cl_Audit := Some a |} =>
    in_ext (
      let! rt := runtime env in
      let! _ := invoke (Record_ a) CRecord
        {| ae_TxID := tx_TxID (sc_Tx sc); ae_Step := step; ae_Actor := "orchestrator";
           ae_Before := before; ae_After := after;
           ae_Err := match err with Some e => Error e | None => "" end;
           ae_Attempt := sc_Attempt sc; ae_At := rt_now rt |} in
      ret tt)
| _ => ret tt
end.

(** *** One attempt *)

(** The step row an attempt writes: only the fields of the Go literal are
  set, the others are zero. *)
Definition attempt_row (step : StepImpl P) (sc : SagaContext P) (status : StepStatus)
  (started finished : option Z) (err : string) : StepRow := {|
row_ID := 0; row_TxID := tx_TxID (sc_Tx sc); row_StepName := Name step;
row_Status := status; row_Attempt := sc_Attempt sc; row_StartedAt := started;
row_FinishedAt := finished; row_Error := err;
row_IdempotencyKey := IdempotencyKey (tx_TxID (sc_Tx sc)) (Name step) (sc_Attempt sc) |}.

(** The event of a step outcome. *)
Definition step_event (rt : Runtime) (step : StepImpl P) (sc : SagaContext P)
  (evtType : string) (finished : Z) (st : State) : OutboxEvent := {|
ev_ID := 0; ev_EventID := rt_uuid_string rt 0; ev_TxID := tx_TxID (sc_Tx sc);
ev_EventType := evtType; ev_Step := Step_string (Name step); ev_Attempt := sc_Attempt sc;
ev_Payload := <["tx_id" := AString (tx_TxID (sc_Tx sc))]>
              (<["step" := AString (Step_string (Name step))]>
              (<["attempt" := AInt (sc_Attempt sc)]>
              {["state" := AString (State_string st)]}));
ev_CreatedAt := finished; ev_PublishedAt := None; ev_Status := OutboxPending;
ev_DedupKey := DedupKey (tx_TxID (sc_Tx sc)) evtType (Step_string (Name step))
                 (sc_Attempt sc) |}.

(** The first unit of work of [runStepOnce]: [true] when a succeeded row
  exists, otherwise the row of the attempt is (re)written as running. *)
Definition begin_attempt (step : StepImpl P) (sc : SagaContext P) (rt : Runtime) : Tx S bool :=
(let! existing := LoadStep (tx_TxID (sc_Tx sc)) (Name step) (sc_Attempt sc) in
 let row := attempt_row step sc StepRunning (Some (rt_now rt)) None "" in
 match existing with
 | Ok r =>
     if bool_decide (row_Status r = StepSucceeded) then tx_ret true
     else let? _ := UpdateStep row in tx_ret false
 | Err err =>
     if errors_Is err ErrNotFound then let? _ := InsertStep rt row in tx_ret false
     else tx_fail err
 end)%tx.

(** The saga snapshot a successful step leaves. *)
Definition saga_after (step : StepImpl P) (sc : SagaContext P) (res : StepResult) : SagaState :=
let sg := sc_Saga sc in
let payload := mergePayload (sg_Payload sg) (res_PayloadMerge res) in
let '(next, st) :=
  if res_Terminal res then (sg_CurrentStep sg, res_State res)
  else match StepAfter (Name step) with
       | Some next => (next, res_State res)
       | None => (Name step,
                  if bool_decide (res_State res = StateLedgered) then StateCompleted
                  else res_State res)
       end in
sg_advance sg next st payload (sg_Version sg + 1).

(** The unit of work that persists a success. *)
Definition persist_success (step : StepImpl P) (sc : SagaContext P) (res : StepResult)
  (finished : Z) (rt : Runtime) : Tx S unit :=
(let? _ := UpdateStep (attempt_row step sc StepSucceeded None (Some finished) "") in
 let newSaga := saga_after step sc res in
 match validatePath (sg_State (sc_Saga sc)) (res_State res) (sg_State newSaga) with
 | Some err =>
     tx_fail (Wrap ("saga: illegal transition " +:+ State_string (sg_State (sc_Saga sc))
                    +:+ " -> " +:+ State_string (sg_State newSaga) +:+ ": ") err "")
 | None =>
     let? _ := SaveSagaState newSaga in
     let? _ := UpdateTransactionStatus rt (tx_TxID (sc_Tx sc)) (sg_State newSaga)
                 (tx_Version (sc_Tx sc)) in
     let! _ := AppendOutbox rt
       [step_event rt step sc ("step." +:+ Step_string (Name step) +:+ ".succeeded")
          finished (sg_State newSaga)] in
     tx_ret tt
 end)%tx.

(** The unit of work of [persistTerminal]: only an illegal transition fails it. *)
Definition persist_terminal (step : StepImpl P) (sc : SagaContext P) (res : StepResult)
  (finished : Z) (rt : Runtime) : Tx S unit :=
  (let! _ := UpdateStep (attempt_row step sc StepFailed None (Some finished) "") in
   let sg := sc_Saga sc in
   let newSaga := sg_advance sg (sg_CurrentStep sg) (res_State res)
                    (mergePayload (sg_Payload sg) (res_PayloadMerge res))
                    (sg_Version sg + 1) in
   match snd (Transition (sg_State sg) (sg_State newSaga)) with
   | Some terr =>
       tx_fail (Wrap ("saga: illegal terminal transition " +:+ State_string (sg_State sg)
                      +:+ " -> " +:+ State_string (sg_State newSaga) +:+ ": ") terr "")
   | None =>
       let! _ := SaveSagaState newSaga in
       let! _ := UpdateTransactionStatus rt (tx_TxID (sc_Tx sc)) (sg_State newSaga)
                   (tx_Version (sc_Tx sc)) in
       let! _ := AppendOutbox rt
         [step_event rt step sc ("transaction." +:+ State_string (sg_State newSaga))
            finished (sg_State newSaga)] in
       tx_ret tt
   end)%tx.

Definition persistTerminal (step : StepImpl P) (sc : SagaContext P) (res : StepResult)
  (finished : Z) : Go W (result unit) :=
run_in_tx (persist_terminal step sc res finished).

(** The unit of work that records a failed attempt. *)
Definition record_failure (step : StepImpl P) (sc : SagaContext P) (finished : Z) (err : error)
  : Tx S unit :=
UpdateStep (attempt_row step sc StepFailed None (Some finished) (Error err)).

Definition runStepOnce e (step : StepImpl P) (sc : SagaContext P) : Go W (result unit) :=
let? alreadySucceeded := run_in_tx (begin_attempt step sc) in
if (alreadySucceeded : bool) then ret (Ok tt)
else
  let! (res, err) := in_ext (Execute step sc) in
  let! rt := in_ext (runtime env) in
  let finished := rt_now rt in
  match err with
  | Some err =>
      if res_Terminal res then
        let! _ := persistTerminal step sc res finished in ret (Ok tt)
      else
        let! _ := run_in_tx (fun _ => record_failure step sc finished err) in
        let! _ := audit e sc (Step_string (Name step)) (State_string (sg_State (sc_Saga sc)))
                    (State_string (res_State res)) (Some err) in
        ret (Err err)
  | None => run_in_tx (persist_success step sc res finished)
  end.

(** *** Bounded retry *)

Definition with_attempt (sc : SagaContext P) (attempt : Z) : SagaContext P :=
{| sc_Tx := sc_Tx sc; sc_Saga := sc_Saga sc; sc_Attempt := attempt;
   sc_Partners := sc_Partners sc |}.

(** [fmt.Errorf("saga: step %s exhausted retries: %w", name, lastErr)]. *)
Definition exhausted (step : StepImpl P) (lastErr : option error) : error :=
let pre := "saga: step " +:+ Step_string (Name step) +:+ " exhausted retries: " in
match lastErr with
| Some err => Wrap pre err ""
| None => New (pre +:+ "%!w(<nil>)")
end.

(** The loop from [attempt] on, with [n] attempts left. *)
Fixpoint retry_loop e (step : StepImpl P) (sc : SagaContext P) (n : nat) (attempt : Z)
  (lastErr : option error) : Go W (result unit) :=
match n with
| O => ret (Err (exhausted step lastErr))
| Datatypes.S n' =>
    let! r := runStepOnce e step (with_attempt sc attempt) in
    match r with
    | Ok _ => ret (Ok tt)
    | Err err =>
        if IsNonRetriable (Some err) then ret (Err err)
        else
          let! _ := backoff e attempt in
          let! done := wait_or_done in
          match done with
          | Some cerr => ret (Err cerr)
          | None => retry_loop e step sc n' (attempt + 1) (Some err)
          end
    end
end.

Definition runStepWithRetry e (step : StepImpl P) (sc : SagaContext P) : Go W (result unit) :=
retry_loop e step sc (Z.to_nat (MaxRetries (ex_Cfg e))) 1 None.

(** *** Compensation *)

(** [row, _ := ts.LoadStep(ctx, txID, name, 1)], then an update of its
  status when the row exists. *)
Definition mark_unit (txID : string) (name : Step) (status : StepStatus)
  (err : StepRow -> string) : Tx S unit :=
(let! r := LoadStep txID name 1 in
 let row := match r with Ok row => row | Err _ => StepRow_zero end in
 if bool_decide (row_TxID row = "") then tx_ret tt
 else let! _ := UpdateStep (row_with_status row status (err row)) in tx_ret tt)%tx.

Definition mark_row (txID : string) (name : Step) (status : StepStatus)
  (err : StepRow -> string) : Go W (result unit) :=
run_in_tx (fun _ => mark_unit txID name status err).

(** The first marking tests [err == nil] instead of the row's id. *)
Definition compensating_unit (txID : string) (name : Step) : Tx S unit :=
(let! r := LoadStep txID name 1 in
 match r with
 | Ok row =>
     let! _ := UpdateStep (row_with_status row StepCompensating (row_Error row)) in
     tx_ret tt
 | Err _ => tx_ret tt
 end)%tx.

Definition mark_compensating (txID : string) (name : Step) : Go W (result unit) :=
run_in_tx (fun _ => compensating_unit txID name).

(** The loop of [compensateCascade] over the steps still to compensate, in
  reverse order; it stops at the first compensation that fails. *)
Fixpoint compensate_steps e (tx : Transaction) (sg : SagaState) (txID : string)
  (steps : list (StepImpl P)) : Go W (option error) :=
match steps with
| [] => ret None
| step :: rest =>
    let! _ := mark_compensating txID (Name step) in
    let! cerr := in_ext (Compensate step
      {| sc_Tx := tx; sc_Saga := sg; sc_Attempt := 1; sc_Partners := ex_Clients e |}) in
    match cerr with
    | Some err =>
        let! _ := mark_row txID (Name step) StepFailed
                    (fun _ => "compensation: " +:+ Error err) in
        ret (Some err)
    | None =>
        let! _ := mark_row txID (Name step) StepCompensated row_Error in
        compensate_steps e tx sg txID rest
    end
end.

(** [startIdx]: the index of the failed step in the registered order. *)
Fixpoint index_of (name : Step) (steps : list (StepImpl P)) : option nat :=
match steps with
| [] => None
| s :: rest =>
    if bool_decide (Name s = name) then Some O
    else Datatypes.S <$> index_of name rest
end.

(** The event written when the cascade ends. *)
Definition terminal_event (rt : Runtime) (txID : string) (target : State) : OutboxEvent :=
let evtType := "transaction." +:+ State_string target in {|
ev_ID := 0; ev_EventID := rt_uuid_string rt 0; ev_TxID := txID; ev_EventType := evtType;
ev_Step := ""; ev_Attempt := 0;
ev_Payload := <["tx_id" := AString txID]> {["state" := AString (State_string target)]};
ev_CreatedAt := rt_now rt; ev_PublishedAt := None; ev_Status := OutboxPending;
ev_DedupKey := DedupKey txID evtType "" 0 |}.

Definition compensated_unit (tx : Transaction) (sg : SagaState) (txID : string)
  (target : State) (rt : Runtime) : Tx S unit :=
(let! _ := SaveSagaState (sg_advance sg (sg_CurrentStep sg) target (sg_Payload sg)
                            (sg_Version sg + 1)) in
 let! _ := UpdateTransactionStatus rt txID target (tx_Version tx) in
 let! _ := AppendOutbox rt [terminal_event rt txID target] in
 tx_ret tt)%tx.

Definition persist_compensated (tx : Transaction) (sg : SagaState) (txID : string)
  (target : State) : Go W (result unit) :=
run_in_tx (compensated_unit tx sg txID target).

Definition compensateCascade e (txID : string) (failedStep : StepImpl P)
: Go W (result unit) :=
let? sg := reading (LoadSagaState txID) in
let? tx := reading (LoadTx txID) in
match index_of (Name failedStep) (ex_Steps e) with
| None => ret (Err (New ("saga: failed step " +:+ Step_string (Name failedStep)
                         +:+ " not in registered order")))
| Some startIdx =>
    let! compErr := compensate_steps e tx sg txID
                      (rev (take (Datatypes.S startIdx) (ex_Steps e))) in
    let target := match compErr with
                  | Some _ => StateFailed | None => StateFailedCompensated end in
    let! _ := persist_compensated tx sg txID target in
    ret (match compErr with Some err => Err err | None => Ok tt end)
end.

(** *** Confirmation *)

Definition confirmed_event (rt : Runtime) (txID : string) (sg : SagaState) : OutboxEvent := {|
ev_ID := 0; ev_EventID := rt_uuid_string rt 0; ev_TxID := txID;
ev_EventType := "transaction.confirmed"; ev_Step := ""; ev_Attempt := 0;
ev_Payload := <["tx_id" := AString txID]>
              {["tx_hash" := payload_any (sg_Payload sg) "tx_hash"]};
ev_CreatedAt := rt_now rt; ev_PublishedAt := None; ev_Status := OutboxPending;
ev_DedupKey := DedupKey txID "transaction.confirmed" "" 0 |}.

Definition confirmed_unit (txID : string) (sg : SagaState) (tx : Transaction) (rt : Runtime)
  : Tx S unit :=
  (let newSaga := sg_advance sg StepLedger StateConfirmed (sg_Payload sg)
                    (sg_Version sg + 1) in
   match snd (Transition (sg_State sg) (sg_State newSaga)) with
   | Some terr => tx_fail terr
   | None =>
       let? _ := SaveSagaState newSaga in
       let? _ := UpdateTransactionStatus rt txID (sg_State newSaga) (tx_Version tx) in
       let! _ := AppendOutbox rt [confirmed_event rt txID sg] in
       tx_ret tt
   end)%tx.

Definition persistConfirmedInline (txID : string) (sg : SagaState) : Go W (result unit) :=
let? tx := reading (LoadTx txID) in
run_in_tx (confirmed_unit txID sg tx).

(** The polling loop; [fuel] bounds the number of polls. *)
Fixpoint poll_confirmed (client : Blockchain P) (txID txHash : string) (sg : SagaState)
  (fuel : nat) : Go W (result unit) :=
match fuel with
| O => diverge
| Datatypes.S fuel' =>
    let! st := in_ext (invoke (Status client) CStatus txHash) in
    if match st with Ok st => Confirmed st | Err _ => false end
    then persistConfirmedInline txID sg
    else
      let! done := wait_or_done in
      match done with
      | Some cerr => ret (Err cerr)
      | None => poll_confirmed client txID txHash sg fuel'
      end
end.

Definition advanceToConfirmed e (txID : string) (fuel : nat) : Go W (result unit) :=
match ex_Clients e with
| Some {| cl_Blockchain := Some client |} =>
    let? sg := reading (LoadSagaState txID) in
    let txHash := payload_string (sg_Payload sg) "tx_hash" in
    if bool_decide (txHash = "") then ret (Err (New "advance: missing tx_hash"))
    else poll_confirmed client txID txHash sg fuel
| _ => ret (Ok tt)
end.

(** *** The loop of [Run] *)

Inductive iter :=
| Stop (r : result unit)
| Continue.

(** One turn of the loop; [pf] is the fuel of the polling loop. *)
Definition run_iter e (txID owner : string) (pf : nat) : Go W iter :=
let! tx := reading (LoadTx txID) in
match tx with Err err => ret (Stop (Err err)) | Ok tx =>
let! sg := reading (LoadSagaState txID) in
match sg with Err err => ret (Stop (Err err)) | Ok sg =>
if Terminal (sg_State sg) then ret (Stop (Ok tt))
else match StepByName e (sg_CurrentStep sg) with
| None => ret (Stop (Err (New ("saga: no step for current_step="
                               +:+ Step_string (sg_CurrentStep sg)))))
| Some step =>
    let ttl := StepTimeout (ex_Cfg e) (Step_string (Name step)) + 5 * Second in
    let! (release, ok, err) := zoom w_lease set_lease (fun l =>
      let '(r, l') := Acquire txID owner ttl l in (Returned r, l')) in
    match err with
    | Some err => ret (Stop (Err err))
    | None =>
        if negb ok then
          let! _ := modify (fun w => set_lease (Release release (w_lease w)) w) in
          let! done := wait_or_done in
          match done with
          | Some cerr => ret (Stop (Err cerr))
          | None => ret Continue
          end
        else
          let! r := runStepWithRetry e step
            {| sc_Tx := tx; sc_Saga := sg; sc_Attempt := 1; sc_Partners := ex_Clients e |} in
          let! _ := modify (fun w => set_lease (Release release (w_lease w)) w) in
          match r with
          | Err _ =>
              let! comp := compensateCascade e txID step in
              ret (Stop comp)
          | Ok _ =>
              let! sg2 := reading (LoadSagaState txID) in
              let st2 := match sg2 with Ok g => sg_State g | Err _ => StateOther "" end in
              if Terminal st2 then ret (Stop (Ok tt))
              else if bool_decide (st2 = StateBroadcasted) then
                let! _ := advanceToConfirmed e txID pf in ret Continue
              else ret Continue
          end
    end
end end end.

Fixpoint Run e (txID owner : string) (pf fuel : nat) : Go W (result unit) :=
match fuel with
| O => diverge
| Datatypes.S fuel' =>
    let! i := run_iter e txID owner pf in
    match i with
    | Stop r => ret r
    | Continue => Run e txID owner pf fuel'
    end
end.
End Executor.
