(* ===== verification/SagaLog.v ===== *)
(** What the partners see of one transaction: the projections of the call
    log, when a call is allowed after a log, and the evidence a saga state
    rests on. *)

From S2P Require Import Prelude StateMachine Store Partner.

(** ** Projections of the log *)

Section Projections.
Variable id : string.

(** Keep [a] when the call was made for transaction [id]. *)
Definition mine {A} (id' : string) (a : A) : option A :=
if bool_decide (id' = id) then Some a else None.

(** Evaluations that did not deny. *)
Definition passes : list Call -> list PolicyDecision :=
omap (fun c => match c with
               | CEvaluate req (Ok resp) =>
                   if bool_decide (pp_Decision resp = PolicyDeny) then None
                   else mine (pr_TxID req) (pp_Decision resp)
               | _ => None end).

(** Ids of the authorizations obtained. *)
Definition auths : list Call -> list string :=
omap (fun c => match c with
               | CAuthorize req (Ok a) => mine (ar_TxID req) (AuthID a) | _ => None end).

(** Ids of the captures that succeeded. *)
Definition captures : list Call -> list string :=
omap (fun c => match c with
               | CCapture req (Ok cp) => mine (cr_TxID req) (CaptureID cp) | _ => None end).

(** Capture ids of the refunds that succeeded. *)
Definition refunds : list Call -> list string :=
omap (fun c => match c with
               | CRefund req (Ok _) => mine (rr_TxID req) (rr_CaptureID req)
               | _ => None end).

(** Screenings that came back clear. *)
Definition clears : list Call -> list string :=
omap (fun c => match c with
               | CScreen req (Ok resp) =>
                   if bool_decide (kp_Decision resp = KytClear)
                   then mine (kr_TxID req) (kp_Reason resp) else None
               | _ => None end).

(** Signed payloads obtained. *)
Definition signs : list Call -> list string :=
omap (fun c => match c with
               | CSign req (Ok resp) => mine (mr_TxID req) (SignedTxHex resp)
               | _ => None end).

(** Hashes of the broadcasts that succeeded. *)
Definition broadcasts : list Call -> list string :=
omap (fun c => match c with
               | CBroadcast req (Ok resp) => mine (br_TxID req) (TxHash resp)
               | _ => None end).

(** Journal ids of the ledger posts that succeeded. *)
Definition posts : list Call -> list string :=
omap (fun c => match c with
               | CPost req (Ok resp) => mine (lr_TxID req) (JournalID resp)
               | _ => None end).
End Projections.

(** A confirmation of [h] was received. *)
Definition confirmed (h : string) (l : list Call) : Prop :=
  Exists (fun c => match c with CStatus h' (Ok st) => h' = h /\ Confirmed st = true
                              | _ => False end) l.

Lemma mine_self {A} id (a : A) : mine id id a = Some a.
Proof. unfold mine. by rewrite bool_decide_eq_true_2. Qed.

(** ** Gating *)

(** The call [c] is allowed after [l]: it carries the data of transaction
    [t], and what must have happened before it did. *)
Definition enabled (t : Transaction) (l : list Call) (c : Call) : Prop :=
  let id := tx_TxID t in
  match c with
  | CEvaluate req _ =>
      req = {| pr_TxID := id; pr_UserID := tx_UserID t; pr_QuoteID := tx_QuoteID t;
               pr_Amount := tx_Amount t; pr_Asset := tx_Asset t; pr_Rail := tx_Rail t;
               pr_DestAddress := tx_DestAddress t |}
  | CAuthorize req _ =>
      req = {| ar_TxID := id; ar_UserID := tx_UserID t; ar_QuoteID := tx_QuoteID t;
               ar_Amount := tx_Amount t; ar_Asset := tx_Asset t; ar_Rail := tx_Rail t |} /\
      passes id l <> [] /\ captures id l = []
  | CCapture req _ =>
      (exists a, a ∈ auths id l /\
         req = {| cr_TxID := id; cr_AuthID := a; cr_Amount := tx_Amount t;
                  cr_Asset := tx_Asset t |}) /\ captures id l = []
  | CVoid req _ => exists a, a ∈ auths id l /\ req = {| vr_TxID := id; vr_AuthID := a |}
  | CRefund req _ =>
      (exists a, captures id l = [a] /\
         req = {| rr_TxID := id; rr_CaptureID := a; rr_Amount := tx_Amount t;
                  rr_Asset := tx_Asset t |}) /\ refunds id l = []
  | CScreen req _ =>
      req = {| kr_TxID := id; kr_UserID := tx_UserID t; kr_DestAddress := tx_DestAddress t;
               kr_Amount := tx_Amount t; kr_Asset := tx_Asset t |} /\
      (exists a, captures id l = [a]) /\ refunds id l = []
  | CSign req _ => mr_TxID req = id /\ clears id l <> [] /\ broadcasts id l = []
  | CBroadcast req _ =>
      br_TxID req = id /\ br_SignedTxHex req <> "" /\ br_SignedTxHex req ∈ signs id l /\
      broadcasts id l = [] /\ refunds id l = []
  | CStatus h _ => broadcasts id l = [h]
  | CPost req _ =>
      req = {| lr_TxID := id; lr_UserID := tx_UserID t; lr_Amount := tx_Amount t;
               lr_Asset := tx_Asset t; lr_Rail := tx_Rail t |} /\
      (exists h, broadcasts id l = [h]) /\ refunds id l = []
  | CRecord e _ => ae_TxID e = id
  end.

(** Every call of [l] was allowed when it was made, after [seen]. *)
Fixpoint gated (t : Transaction) (seen l : list Call) : Prop :=
  match l with
  | [] => True
  | c :: l' => enabled t seen c /\ gated t (seen ++ [c]) l'
  end.

Lemma gated_app t seen l k : gated t seen (l ++ k) <-> gated t seen l /\ gated t (seen ++ l) k.
Proof.
  revert seen. induction l as [|c l IH]; intros seen; cbn.
  - rewrite app_nil_r. tauto.
  - rewrite IH, <- app_assoc. cbn. tauto.
Qed.

(** A call at any position of a gated log was allowed by what precedes it. *)
Lemma gated_lookup t seen l1 c l2 : gated t seen (l1 ++ c :: l2) -> enabled t (seen ++ l1) c.
Proof. rewrite gated_app. intros [_ H]. apply H. Qed.

(** [x'] is [x] after calls that were all allowed. *)
Definition calls_ok {P} (t : Transaction) (x x' : Ext P) : Prop :=
  exists l, x_calls x' = x_calls x ++ l /\ gated t (x_calls x) l.

#[export] Instance calls_ok_preorder {P} t : PreOrder (@calls_ok P t).
Proof.
  split; [intros x; exists []; by rewrite app_nil_r|].
  intros x y z (l1&E1&G1) (l2&E2&G2). exists (l1 ++ l2).
  rewrite E2, E1, app_assoc. split; [done|]. apply gated_app. by rewrite <- E1.
Qed.

(** Only the business fields matter. *)
Lemma enabled_status t st v u l c : enabled (tx_with_status t st v u) l c <-> enabled t l c.
Proof. by destruct c. Qed.

Lemma gated_status t st v u seen l : gated (tx_with_status t st v u) seen l <-> gated t seen l.
Proof. revert seen. induction l as [|c l IH]; intros; cbn; [done|]. by rewrite enabled_status, IH. Qed.

Lemma calls_ok_status {P} t st v u (x x' : Ext P) :
  calls_ok (tx_with_status t st v u) x x' <-> calls_ok t x x'.
Proof. unfold calls_ok. by setoid_rewrite gated_status. Qed.

(** ** Evidence *)

(** What the log and the payload of a saga in a state of rank [n] hold. *)
Record evidence (id : string) (n : nat) (p : Payload) (l : list Call) : Prop := {
  ev_policy : 1 <= n -> passes id l <> [];
  ev_capture : captures id l = if n <? 2 then [] else [payload_string p "capture_id"];
  ev_no_capture : n < 2 -> payload_string p "capture_id" = "" /\ payload_string p "auth_id" = "";
  ev_auth : 2 <= n -> payload_string p "auth_id" ∈ auths id l;
  ev_kyt : 3 <= n -> clears id l <> [];
  ev_sign : 4 <= n -> payload_string p "signed_tx_hex" ∈ signs id l;
  ev_broadcast : broadcasts id l = if n <? 5 then [] else [payload_string p "tx_hash"];
  ev_no_hash : n < 5 -> payload_string p "tx_hash" = "";
  ev_confirmed : 6 <= n -> confirmed (payload_string p "tx_hash") l;
  ev_refund : refunds id l = [];
}.

(** Calls that change no evidence. *)
Definition inert (l : list Call) : Prop :=
  Forall (fun c => match c with CRecord _ _ | CStatus _ _ => True | _ => False end) l.

Section Logs.
Variable id : string.

Lemma passes_app l k : passes id (l ++ k) = passes id l ++ passes id k.
Proof. apply omap_app. Qed.
Lemma auths_app l k : auths id (l ++ k) = auths id l ++ auths id k.
Proof. apply omap_app. Qed.
Lemma captures_app l k : captures id (l ++ k) = captures id l ++ captures id k.
Proof. apply omap_app. Qed.
Lemma refunds_app l k : refunds id (l ++ k) = refunds id l ++ refunds id k.
Proof. apply omap_app. Qed.
Lemma clears_app l k : clears id (l ++ k) = clears id l ++ clears id k.
Proof. apply omap_app. Qed.
Lemma signs_app l k : signs id (l ++ k) = signs id l ++ signs id k.
Proof. apply omap_app. Qed.
Lemma broadcasts_app l k : broadcasts id (l ++ k) = broadcasts id l ++ broadcasts id k.
Proof. apply omap_app. Qed.
Lemma posts_app l k : posts id (l ++ k) = posts id l ++ posts id k.
Proof. apply omap_app. Qed.

Lemma proj_app l k :
passes id (l ++ k) = passes id l ++ passes id k /\
auths id (l ++ k) = auths id l ++ auths id k /\
captures id (l ++ k) = captures id l ++ captures id k /\
refunds id (l ++ k) = refunds id l ++ refunds id k /\
clears id (l ++ k) = clears id l ++ clears id k /\
signs id (l ++ k) = signs id l ++ signs id k /\
broadcasts id (l ++ k) = broadcasts id l ++ broadcasts id k /\
posts id (l ++ k) = posts id l ++ posts id k.
Proof. split_and!; apply omap_app. Qed.

Lemma inert_nil l : inert l ->
passes id l = [] /\ auths id l = [] /\ captures id l = [] /\ refunds id l = [] /\
clears id l = [] /\ signs id l = [] /\ broadcasts id l = [] /\ posts id l = [].
Proof.
induction 1 as [|c l Hc Hl IH]; [done|].
destruct c; (destruct Hc; exact IH) || done.
Qed.

Lemma confirmed_app h l k : confirmed h (l ++ k) <-> confirmed h l \/ confirmed h k.
Proof. apply Exists_app. Qed.
End Logs.

Create Rewrite HintDb proj.
#[export] Hint Rewrite passes_app auths_app captures_app refunds_app clears_app signs_app
  broadcasts_app posts_app : proj.

(** Compute the projections of a log extended by known calls. *)
Ltac project := autorewrite with proj; cbn; rewrite ?mine_self, ?app_nil_r.

(** Evidence survives more calls that repeat none of the effects. *)
Lemma evidence_app id n p l k :
  evidence id n p l -> captures id k = [] -> broadcasts id k = [] -> refunds id k = [] ->
  evidence id n p (l ++ k).
Proof.
  intros [] Hc Hb Hr. destruct (proj_app id l k) as (P1&P2&P3&P4&P5&P6&P7&P8).
  split; intros.
  - rewrite P1. intros [??]%app_eq_nil. by apply ev_policy0.
  - by rewrite P3, Hc, app_nil_r.
  - by apply ev_no_capture0.
  - rewrite P2. apply elem_of_app. left. by apply ev_auth0.
  - rewrite P5. intros [??]%app_eq_nil. by apply ev_kyt0.
  - rewrite P6. apply elem_of_app. left. by apply ev_sign0.
  - by rewrite P7, Hb, app_nil_r.
  - by apply ev_no_hash0.
  - apply confirmed_app. left. by apply ev_confirmed0.
  - by rewrite P4, Hr, app_nil_r.
Qed.

Lemma evidence_inert id n p l k : evidence id n p l -> inert k -> evidence id n p (l ++ k).
Proof.
  intros He Hk. destruct (inert_nil id k Hk) as (_&_&?&?&_&_&?&_). by apply evidence_app.
Qed.

(** ** Payload keys *)

Lemma payload_string_insert k v (p : Payload) k' :
  payload_string (<[k := v]> p) k' =
  if String.eqb k k' then match v with AString s => s | _ => "" end else payload_string p k'.
Proof.
  unfold payload_string. destruct (String.eqb_spec k k') as [->|Hne].
  - by rewrite lookup_insert_eq.
  - by rewrite lookup_insert_ne.
Qed.

(** The string under a key after a step merged its payload. *)
Ltac payload_keys :=
  rewrite <- ?insert_union_l, <- ?insert_union_singleton_l, ?payload_string_insert;
  cbn [String.eqb Ascii.eqb Bool.eqb].
