(* ===== verification/StepsCorrect.v ===== *)
(** What each concrete step does to the call log: which calls it makes, that
    each was allowed, and the evidence a success leaves. *)

From S2P Require Import Prelude StateMachine Store Partner Steps SagaLog Executor.

Local Open Scope go_scope.

(** Evidence one rank up, after the calls [k] of a step that succeeded. *)
Lemma evidence_step id n p p' l k :
  evidence id n p l -> n < 5 ->
  (n = 0 -> passes id k <> []) ->
  (if decide (n = 1)
   then captures id k = [payload_string p' "capture_id"] /\ payload_string p' "auth_id" ∈ auths id k
   else captures id k = [] /\ payload_string p' "capture_id" = payload_string p "capture_id" /\
        payload_string p' "auth_id" = payload_string p "auth_id") ->
  (n = 2 -> clears id k <> []) ->
  (if decide (n = 3) then payload_string p' "signed_tx_hex" ∈ signs id k
   else payload_string p' "signed_tx_hex" = payload_string p "signed_tx_hex") ->
  (if decide (n = 4) then broadcasts id k = [payload_string p' "tx_hash"]
   else broadcasts id k = [] /\ payload_string p' "tx_hash" = payload_string p "tx_hash") ->
  refunds id k = [] ->
  evidence id (S n) p' (l ++ k).
Proof.
  intros [E1 E2 E3 E4 E5 E6 E7 E8 E9 E10] Hn H0 H1 H2 H3 H4 Hr.
  destruct (proj_app id l k) as (P1&P2&P3&P4&P5&P6&P7&P8).
  split; intros; rewrite ?P1, ?P2, ?P3, ?P4, ?P5, ?P6, ?P7.
  - intros [??]%app_eq_nil. destruct (decide (n = 0)); [by apply H0|apply E1; [lia|done]].
  - destruct (decide (n = 1)) as [->|].
    + rewrite E2. by destruct H1 as [-> _].
    + destruct H1 as (->&->&_). rewrite E2, app_nil_r.
      destruct (Nat.ltb_spec n 2), (Nat.ltb_spec (S n) 2); done || lia.
  - destruct (decide (n = 1)); [lia|]. destruct H1 as (_&->&->). apply E3. lia.
  - apply elem_of_app. destruct (decide (n = 1)); [right; apply H1|].
    destruct H1 as (_&_&->). left. apply E4. lia.
  - intros [??]%app_eq_nil. destruct (decide (n = 2)); [by apply H2|apply E5; [lia|done]].
  - apply elem_of_app. destruct (decide (n = 3)); [by right|]. rewrite H3. left. apply E6. lia.
  - destruct (decide (n = 4)) as [->|].
    + rewrite E7. by rewrite H4.
    + destruct H4 as (->&->). rewrite E7, app_nil_r.
      destruct (Nat.ltb_spec n 5), (Nat.ltb_spec (S n) 5); done || lia.
  - destruct (decide (n = 4)); [lia|]. destruct H4 as (_&->). apply E8. lia.
  - lia.
  - by rewrite E10, Hr.
Qed.

(** The rank a step starts from; the last one may start before or after the
    confirmation. *)
Definition starts (name : Step) (n : nat) : Prop :=
  match name with
  | StepPolicy => n = 0 | StepPayment => n = 1 | StepKyt => n = 2 | StepMpcSign => n = 3
  | StepBroadcast => n = 4 | StepLedger => n = 5 \/ n = 6
  | StepOther _ => False
  end.

(** The ways [Execute] may answer, with the calls [k] it appended to [l]. *)
Definition answered (id : string) (name : Step) (n : nat) (p : Payload) (l k : list Call)
    (res : StepResult) (err : option error) : Prop :=
  match err with
  | None =>
      res_Terminal res = false /\ StateForStep name = Some (res_State res) /\
      if bool_decide (name = StepLedger)
      then evidence id n p (l ++ k) /\ exists j, posts id k = [j]
      else evidence id (S n) (mergePayload p (res_PayloadMerge res)) (l ++ k) /\
           payload_string (mergePayload p (res_PayloadMerge res)) "ledger_journal_id" = "" /\
           posts id k = []
  | Some _ =>
      evidence id n p (l ++ k) /\ posts id k = [] /\
      (res_Terminal res = true -> res_State res =
         if bool_decide (name = StepPolicy) then StateFailedCompensated else StateFailed) /\
      (res_Terminal res = true -> name = StepPolicy \/ name = StepLedger)
  end.

Section Steps.
Context {P : Type} `{GoStd} (env : nat -> Runtime).
Implicit Types (c : Clients P) (step : StepImpl P) (sc : SagaContext P) (x : Ext P).

(** An execution that started in [x] with evidence of rank [n]. *)
Definition executed (name : Step) (sc : SagaContext P) (n : nat) (x : Ext P)
  (o : outcome (StepResult * option error)) (x' : Ext P) : Prop :=
exists res err (k : list Call), o = Returned (res, err) /\ x_calls x' = x_calls x ++ k /\
  gated (sc_Tx sc) (x_calls x) k /\
  answered (tx_TxID (sc_Tx sc)) name n (sg_Payload (sc_Saga sc)) (x_calls x) k res err.

Definition executes (step : StepImpl P) : Prop :=
forall n sc x x' o,
starts (Name step) n ->
evidence (tx_TxID (sc_Tx sc)) n (sg_Payload (sc_Saga sc)) (x_calls x) ->
payload_string (sg_Payload (sc_Saga sc)) "ledger_journal_id" = "" ->
Execute step sc x = (o, x') -> executed (Name step) sc n x o x'.

Lemma executed_err name sc n x x' res err (k : list Call) :
let id := tx_TxID (sc_Tx sc) in
x_calls x' = x_calls x ++ k ->
evidence id n (sg_Payload (sc_Saga sc)) (x_calls x) ->
gated (sc_Tx sc) (x_calls x) k ->
captures id k = [] -> broadcasts id k = [] -> refunds id k = [] -> posts id k = [] ->
(res_Terminal res = true ->
   (name = StepPolicy /\ res_State res = StateFailedCompensated) \/
   (name = StepLedger /\ res_State res = StateFailed)) ->
executed name sc n x (Returned (res, Some err)) x'.
Proof.
intros id Hk He Hg ? ? ? ? Ht. exists res, (Some err), k.
split_and!; [done|done|done|]. split_and!; [by apply evidence_app|done| |];
  intros Hterm; destruct (Ht Hterm) as [[-> ?]|[-> ?]]; auto.
Qed.

(** Failures that made no call, or only calls without effect. *)
Lemma executed_nothing name sc n x err :
evidence (tx_TxID (sc_Tx sc)) n (sg_Payload (sc_Saga sc)) (x_calls x) ->
executed name sc n x (Returned (StepResult_zero, Some err)) x.
Proof. intros He. by apply (executed_err _ _ _ _ _ _ _ []); rewrite ?app_nil_r. Qed.

Lemma executed_ok name sc n x x' st m (k : list Call) :
let id := tx_TxID (sc_Tx sc) in
let p' := mergePayload (sg_Payload (sc_Saga sc)) m in
x_calls x' = x_calls x ++ k -> gated (sc_Tx sc) (x_calls x) k ->
StateForStep name = Some st -> name <> StepLedger ->
evidence id (S n) p' (x_calls x ++ k) -> payload_string p' "ledger_journal_id" = "" ->
posts id k = [] ->
executed name sc n x (Returned (advance_to st m, None)) x'.
Proof.
intros id p' Hk Hg Hs Hn ? ? ?. exists (advance_to st m), None, k.
split_and!; [done|done|done|]. split_and!; [done|done|].
by rewrite bool_decide_eq_false_2.
Qed.

(** One call, then a failure. *)
Ltac one_call_err :=
eapply (executed_err _ _ _ _ _ _ _ [_]); [done|done|split; [cbn; try done|done]|try done..].

Lemma executes_policy c : executes (NewPolicyStep (cl_Policy c)).
Proof.
intros n sc x x' o Hn He Hj Hx. cbn in Hn, Hx |- *. subst n.
unfold PolicyStep_Execute in Hx.
destruct (cl_Policy c) as [cp|];
  [|unfold ret in Hx; simplify_eq; by apply executed_nothing].
unfold bind, invoke in Hx.
destruct (Evaluate cp _ _) as [[resp|err] p'].
2:{ unfold ret in Hx. simplify_eq. by one_call_err. }
set (x1 := {| x_partners := p' |}) in Hx.
assert (pp_Decision resp <> PolicyDeny -> executed StepPolicy sc 0 x
  (Returned (advance_to StatePolicyChecked {["policy_reason" := AString (pp_Reason resp)]},
     None)) x1) as Hok.
{ intros Hd. eapply (executed_ok _ _ _ _ _ _ _ [_]); [done|by split|done|done| | |done].
  - apply (evidence_step _ _ _ _ _ _ He); unfold mergePayload; cbn; try done; try lia.
    + intros _. by rewrite mine_self, bool_decide_eq_false_2.
    + split_and!; [done|by payload_keys..].
    + by payload_keys.
    + split; [done|by payload_keys].
  - unfold mergePayload. by payload_keys. }
destruct (pp_Decision resp) eqn:Hd; unfold ret in Hx; simplify_eq.
- by apply Hok.
- one_call_err. intros _. by left.
- by apply Hok.
Qed.
Lemma executes_payment c : executes (NewPaymentStep (cl_Payment c)).
Proof.
intros n sc x x' o Hn He Hj Hx. cbn in Hn, Hx |- *. subst n.
unfold PaymentStep_Execute in Hx.
destruct (cl_Payment c) as [cp|];
  [|unfold ret in Hx; simplify_eq; by apply executed_nothing].
assert (passes (tx_TxID (sc_Tx sc)) (x_calls x) <> []) as Hpass.
{ apply (ev_policy _ _ _ _ He). lia. }
pose proof (ev_capture _ _ _ _ He) as Hcap. cbn in Hcap.
unfold bind, invoke in Hx.
destruct (Authorize cp _ _) as [[auth|err] p1].
2:{ unfold ret in Hx. simplify_eq. by one_call_err. }
destruct (Capture cp _ _) as [[cap|err] p2].
- unfold ret in Hx. simplify_eq.
  eapply (executed_ok _ _ _ _ _ _ _ [_; _]); [by cbn; rewrite <- app_assoc| |done|done| | |done].
  + cbn. split_and!; [done|done|done| |by project; rewrite Hcap|done].
    exists (AuthID auth). split; [|done]. project. apply elem_of_app. right. by left.
  + apply (evidence_step _ _ _ _ _ _ He); unfold mergePayload; cbn; try done; try lia.
    * rewrite !mine_self. split; payload_keys; [done|by left].
    * by payload_keys.
    * split; [done|by payload_keys].
  + unfold mergePayload. by payload_keys.
- destruct (VoidAuthorization cp _ _) as [rv p3]. unfold ret in Hx. simplify_eq.
  eapply (executed_err _ _ _ _ _ _ _ [_; _; _]);
    [by cbn; rewrite <- !app_assoc|done| |done..].
  cbn. split_and!; [done|done|done| |by project; rewrite Hcap| |done];
    exists (AuthID auth); (split; [|done]); project; apply elem_of_app; right; by left.
Qed.

Lemma executes_kyt c : executes (NewKytStep (cl_Kyt c)).
Proof.
intros n sc x x' o Hn He Hj Hx. cbn in Hn, Hx |- *. subst n.
unfold KytStep_Execute in Hx.
destruct (cl_Kyt c) as [cp|];
  [|unfold ret in Hx; simplify_eq; by apply executed_nothing].
pose proof (ev_capture _ _ _ _ He) as Hcap. cbn in Hcap.
pose proof (ev_refund _ _ _ _ He) as Href.
unfold bind, invoke in Hx.
destruct (Screen cp _ _) as [[resp|err] p'].
2:{ unfold ret in Hx. simplify_eq. one_call_err. eauto. }
destruct (kp_Decision resp) eqn:Hd; unfold ret in Hx; simplify_eq;
  try (one_call_err; by eauto).
eapply (executed_ok _ _ _ _ _ _ _ [_]); [done|cbn; eauto|done|done| | |done].
- apply (evidence_step _ _ _ _ _ _ He); unfold mergePayload; cbn; try done; try lia.
  + split_and!; [done|by payload_keys..].
  + intros _. rewrite mine_self, Hd. by rewrite bool_decide_eq_true_2.
  + by payload_keys.
  + split; [done|by payload_keys].
- unfold mergePayload. by payload_keys.
Qed.

Lemma executes_mpc c : executes (NewMpcSignStep (cl_Mpc c)).
Proof.
intros n sc x x' o Hn He Hj Hx. cbn in Hn, Hx |- *. subst n.
unfold MpcSignStep_Execute in Hx.
destruct (cl_Mpc c) as [cp|];
  [|unfold ret in Hx; simplify_eq; by apply executed_nothing].
pose proof (ev_broadcast _ _ _ _ He) as Hb. cbn in Hb.
assert (clears (tx_TxID (sc_Tx sc)) (x_calls x) <> []) as Hclear.
{ apply (ev_kyt _ _ _ _ He). lia. }
unfold bind, invoke in Hx.
destruct (Sign cp _ _) as [[resp|err] p']; unfold ret in Hx; simplify_eq;
  [|by one_call_err].
eapply (executed_ok _ _ _ _ _ _ _ [_]); [done|by cbn|done|done| | |done].
- apply (evidence_step _ _ _ _ _ _ He); unfold mergePayload; cbn; try done; try lia.
  + split_and!; [done|by payload_keys..].
  + rewrite mine_self. payload_keys. by left.
  + split; [done|by payload_keys].
- unfold mergePayload. by payload_keys.
Qed.
Lemma broadcast_payload_keys resp (p : Payload) :
let p' := mergePayload p (broadcast_payload resp) in
payload_string p' "tx_hash" = TxHash resp /\
payload_string p' "capture_id" = payload_string p "capture_id" /\
payload_string p' "auth_id" = payload_string p "auth_id" /\
payload_string p' "signed_tx_hex" = payload_string p "signed_tx_hex" /\
payload_string p' "ledger_journal_id" = payload_string p "ledger_journal_id".
Proof.
unfold mergePayload, broadcast_payload.
destruct (InMempool resp), (Confirmed resp); split_and!; by payload_keys.
Qed.

Lemma executes_broadcast c : executes (NewBroadcastStep env (cl_Blockchain c)).
Proof.
intros n sc x x' o Hn He Hj Hx. cbn in Hn, Hx |- *. subst n.
unfold BroadcastStep_Execute in Hx.
destruct (cl_Blockchain c) as [cp|];
  [|unfold ret in Hx; simplify_eq; by apply executed_nothing].
rewrite (ev_no_hash _ _ _ _ He) in Hx by lia.
rewrite (bool_decide_eq_true_2 ("" = "")) in Hx by done. cbn [negb] in Hx.
pose proof (ev_broadcast _ _ _ _ He) as Hb. cbn in Hb.
pose proof (ev_refund _ _ _ _ He) as Hr.
pose proof (ev_sign _ _ _ _ He ltac:(lia)) as Hs.
case_bool_decide as Hsigned; [unfold ret in Hx; simplify_eq; by apply executed_nothing|].
unfold bind, invoke in Hx.
destruct (Broadcast cp _ _) as [[resp|err] p']; unfold ret in Hx; simplify_eq;
  [|by one_call_err].
destruct (broadcast_payload_keys resp (sg_Payload (sc_Saga sc))) as (Kh&Kc&Ka&Ks&Kj).
eapply (executed_ok _ _ _ _ _ _ _ [_]); [done|by cbn|done|done| |congruence|done].
apply (evidence_step _ _ _ _ _ _ He); cbn; try done; try lia.
by rewrite mine_self, Kh.
Qed.

Lemma executes_ledger c : executes (NewLedgerStep (cl_Ledger c)).
Proof.
intros n sc x x' o Hn He Hj Hx. cbn in Hn, Hx |- *.
unfold LedgerStep_Execute in Hx.
destruct (cl_Ledger c) as [cp|];
  [|unfold ret in Hx; simplify_eq; by apply executed_nothing].
rewrite Hj, (bool_decide_eq_true_2 ("" = "")) in Hx by done. cbn [negb] in Hx.
pose proof (ev_broadcast _ _ _ _ He) as Hb.
rewrite (proj2 (Nat.ltb_ge n 5)) in Hb by lia.
pose proof (ev_refund _ _ _ _ He) as Hr.
unfold bind, invoke in Hx.
destruct (PostDoubleEntry cp _ _) as [[resp|err] p'].
- unfold ret in Hx. simplify_eq. eexists (advance_to StateLedgered _), None, [_].
  split_and!; [done|done|cbn; eauto|]. cbn.
  rewrite mine_self, bool_decide_eq_true_2 by done.
  split_and!; [done|done|by apply evidence_app|eauto].
- destruct (errors_Is err ErrTransient); unfold ret in Hx; simplify_eq;
    [one_call_err; by eauto|one_call_err; [by eauto|intros _; by right]].
Qed.

(** Every registered step executes within its gates. *)
Lemma canonical_executes c step : step ∈ canonical_steps env c -> executes step.
Proof.
unfold canonical_steps. rewrite !elem_of_cons, elem_of_nil.
intros [->|[->|[->|[->|[->|[->|[]]]]]]].
- apply executes_policy.
- apply executes_payment.
- apply executes_kyt.
- apply executes_mpc.
- apply executes_broadcast.
- apply executes_ledger.
Qed.
End Steps.
