(* ===== verification/ExecutorFacts.v ===== *)
(** What the pieces of the executor do to a [MemStore]: the units of work of
    one attempt, the attempt itself as a relation with one constructor per
    way it can end, and the bookkeeping of the cascade. *)

From S2P Require Import Prelude StateMachine Store Partner Steps Lease Executor SagaLog.

Local Open Scope Z_scope.
Local Open Scope go_scope.

(** ** Vocabulary *)

(** The records of transaction [id] are [tx] and [sg]. *)
Record stored (id : string) (s : MemStore) (tx : Transaction) (sg : SagaState) : Prop := {
  stored_tx : mem_txs s !! id = Some tx;
  stored_sg : mem_sagas s !! id = Some sg;
  stored_tx_id : tx_TxID tx = id;
  stored_sg_id : sg_TxID sg = id;
}.

(** The step rows changed at most at the key of [row], which now holds [row]. *)
Definition rows_set (row : StepRow) (s s' : MemStore) : Prop :=
  forall id n a, row_of s' id n a = if row_answers row id n a then Some row else row_of s id n a.

(** The key of [row] is this attempt. *)
Definition row_keyed (row : StepRow) (id : string) (n : Step) (a : Z) : Prop :=
  row_TxID row = id /\ row_StepName row = n /\ row_Attempt row = a.

(** [s'] is [s] with the records of [id] replaced and some outbox and step
    rows changed. *)
Definition tables_set (id : string) (tx : Transaction) (sg : SagaState) (s s' : MemStore) : Prop :=
  mem_txs s' = <[id := tx]> (mem_txs s) /\ mem_sagas s' = <[id := sg]> (mem_sagas s).

(** The top-level records are untouched. *)
Definition tables_kept (s s' : MemStore) : Prop :=
  mem_txs s' = mem_txs s /\ mem_sagas s' = mem_sagas s.

#[export] Instance tables_kept_preorder : PreOrder tables_kept.
Proof. split; [by intros s|]. intros x y z [??] [??]. split; congruence. Qed.

Lemma same_tables_kept s s' : same_tables s s' -> tables_kept s s'.
Proof. intros (?&?&?). by split. Qed.

(** No partner was called: only readings of the runtime. *)
Definition no_io {P} (x x' : Ext P) : Prop :=
  x_partners x' = x_partners x /\ x_calls x' = x_calls x.

#[export] Instance no_io_preorder {P} : PreOrder (@no_io P).
Proof. split; [by intros s|]. intros x y z [??] [??]. split; congruence. Qed.

#[export] Hint Resolve same_tables_kept : orch.

Lemma row_answers_key row id n a id' n' a' :
  row_keyed row id n a ->
  row_answers row id' n' a' = bool_decide (id = id') && (bool_decide (n = n') && (a =? a')).
Proof. by intros (<-&<-&<-). Qed.

Lemma row_answers_self row id n a : row_keyed row id n a -> row_answers row id n a = true.
Proof.
  intros Hk. rewrite (row_answers_key _ _ _ _ _ _ _ Hk).
  by rewrite !bool_decide_eq_true_2, Z.eqb_refl.
Qed.

Lemma rows_set_lookup row s s' id n a :
  rows_set row s s' -> row_keyed row id n a -> row_of s' id n a = Some row.
Proof. intros Hs Hk. by rewrite (Hs id n a), row_answers_self. Qed.

(** Rows of another step, or another attempt, are not touched. *)
Lemma rows_set_other row s s' id n a id' n' a' :
  rows_set row s s' -> row_keyed row id n a -> (id, n, a) <> (id', n', a') ->
  row_of s' id' n' a' = row_of s id' n' a'.
Proof.
  intros Hs Hk Hne. rewrite (Hs id' n' a'), (row_answers_key _ _ _ _ _ _ _ Hk).
  repeat case_bool_decide; cbn; try done.
  destruct (Z.eqb_spec a a'); [congruence|done].
Qed.

Lemma rows_set_trans row1 row2 s s1 s2 id n a :
  row_keyed row1 id n a -> row_keyed row2 id n a ->
  rows_set row1 s s1 -> rows_set row2 s1 s2 -> rows_set row2 s s2.
Proof.
  intros Hk1 Hk2 H1 H2 id' n' a'. rewrite (H2 id' n' a').
  destruct (row_answers row2 id' n' a') eqn:E; [done|].
  rewrite (H1 id' n' a'). rewrite (row_answers_key _ _ _ _ _ _ _ Hk2) in E.
  by rewrite (row_answers_key _ _ _ _ _ _ _ Hk1), E.
Qed.

(** [row_of] reads only the step table. *)
Lemma rows_set_steps row s s' s'' :
  rows_set row s s' -> mem_steps s'' = mem_steps s' -> rows_set row s s''.
Proof. intros Hs E id n a. unfold row_of, rows_of. rewrite E. apply Hs. Qed.

(** ** Store operations on an existing or a missing row *)

Lemma UpdateStep_keyed row s r id n a :
  row_keyed row id n a -> row_of s id n a = Some r ->
  exists s', Mem.UpdateStep row s = (Ok tt, s') /\ same_tables s s' /\ rows_set row s s'.
Proof.
  intros (<-&<-&<-) Hr. pose proof (UpdateStep_spec row s) as Hs.
  rewrite Hr in Hs. destruct Hs as (s'&?&?&?). by exists s'.
Qed.

Lemma InsertStep_keyed rt row s id n a :
  row_keyed row id n a -> row_of s id n a = None ->
  exists s' id0, Mem.InsertStep rt row s = (Ok tt, s') /\ same_tables s s' /\
    rows_set (row_with_ID row id0) s s'.
Proof.
  intros (<-&<-&<-) Hr. pose proof (InsertStep_spec rt row s) as Hs.
  rewrite Hr in Hs. destruct Hs as (s'&id0&?&?&?). by exists s', id0.
Qed.

Section Attempt.
Context {P L : Type} `{GoStd} `{LeaseManager L} (env : nat -> Runtime).
Implicit Types (e : Executor P) (step : StepImpl P) (sc : SagaContext P).
Local Abbreviation W := (World MemStore P L).

Lemma attempt_row_keyed step sc st b f m :
row_keyed (attempt_row step sc st b f m) (tx_TxID (sc_Tx sc)) (Name step) (sc_Attempt sc).
Proof. done. Qed.

Lemma begin_attempt_spec step sc rt s :
let id := tx_TxID (sc_Tx sc) in
(exists r, row_of s id (Name step) (sc_Attempt sc) = Some r /\ row_Status r = StepSucceeded /\
   Mem.RunInTx (begin_attempt step sc rt) s = (Ok true, s)) \/
(exists s' row, Mem.RunInTx (begin_attempt step sc rt) s = (Ok false, s') /\
   (forall r, row_of s id (Name step) (sc_Attempt sc) = Some r -> row_Status r <> StepSucceeded) /\
   row_keyed row id (Name step) (sc_Attempt sc) /\
   row_Status row = StepRunning /\ same_tables s s' /\ rows_set row s s').
Proof.
intros id. unfold Mem.RunInTx, begin_attempt, tx_try, tx_bind; cbn.
rewrite LoadStep_row_of. fold id.
set (row := attempt_row step sc StepRunning (Some (rt_now rt)) None "").
destruct (row_of s id (Name step) (sc_Attempt sc)) as [r|] eqn:Hr.
- case_bool_decide as Hst; [left; by exists r|]. right.
  destruct (UpdateStep_keyed row s r id _ _ (attempt_row_keyed _ _ _ _ _ _) Hr)
    as (s'&Hu&?&?).
  exists s', row. rewrite Hu. split_and!; try done. by intros r' [= <-].
- right. destruct (InsertStep_keyed rt row s id _ _ (attempt_row_keyed _ _ _ _ _ _) Hr)
    as (s'&id0&Hu&?&?).
  exists s', (row_with_ID row id0).
  change (errors_Is ErrNotFound ErrNotFound) with true; cbn. rewrite Hu. by split_and!.
Qed.

(** The version check of the two top-level tables passes on the snapshot
  the executor loaded. *)
Lemma save_and_status id s tx sg rt (nxt : Step) st p :
stored id s tx sg ->
let sg' := sg_advance sg nxt st p (sg_Version sg + 1) in
exists s1 s2, Mem.SaveSagaState sg' s = (Ok tt, s1) /\
  Mem.UpdateTransactionStatus rt id st (tx_Version tx) s1 = (Ok tt, s2) /\
  tables_set id (tx_with_status tx st (tx_Version tx + 1) (rt_now rt)) sg' s s2 /\
  mem_steps s2 = mem_steps s /\ mem_outbox s2 = mem_outbox s.
Proof.
intros [Htx Hsg Hid Hgid] sg'. rewrite SaveSagaState_spec.
change (sg_TxID sg') with (sg_TxID sg). rewrite Hgid, Hsg.
change (sg_Version sg') with (sg_Version sg + 1). rewrite Z.eqb_refl.
eexists _, _; split; [done|].
rewrite UpdateTransactionStatus_spec. cbn. rewrite Htx, Z.eqb_refl.
by split.
Qed.

Lemma persist_success_spec step sc res fin rt s r0 :
let id := tx_TxID (sc_Tx sc) in
let row := attempt_row step sc StepSucceeded None (Some fin) "" in
stored id s (sc_Tx sc) (sc_Saga sc) ->
row_of s id (Name step) (sc_Attempt sc) = Some r0 ->
exists r s', Mem.RunInTx (persist_success step sc res fin rt) s = (r, s') /\
  rows_set row s s' /\
  match validatePath (sg_State (sc_Saga sc)) (res_State res)
          (sg_State (saga_after step sc res)) with
  | None => r = Ok tt /\ exists now, tables_set id
      (tx_with_status (sc_Tx sc) (sg_State (saga_after step sc res))
         (tx_Version (sc_Tx sc) + 1) now) (saga_after step sc res) s s'
  | Some err => (exists pre, r = Err (Wrap pre err "")) /\ tables_kept s s'
  end.
Proof.
intros id row Hst Hr0. unfold Mem.RunInTx, persist_success, tx_bind, tx_try, tx_fail; cbn.
destruct (UpdateStep_keyed row s r0 id _ _ (attempt_row_keyed _ _ _ _ _ _) Hr0)
  as (s1&Hu1&Htab&Hrows).
unfold row in Hu1. rewrite Hu1. destruct (validatePath _ _ _) as [err|].
{ eexists _, _. split_and!; [done|done|by eexists|by apply same_tables_kept]. }
assert (stored id s1 (sc_Tx sc) (sc_Saga sc)) as Hst1.
{ destruct Htab as (E1&E2&_). destruct Hst. split; congruence. }
assert (exists n st p, saga_after step sc res =
  sg_advance (sc_Saga sc) n st p (sg_Version (sc_Saga sc) + 1)) as (n&st&p&Hsa).
{ unfold saga_after. destruct (if res_Terminal res then _ else _) as [n st].
  by eexists _, _, _. }
rewrite Hsa. destruct (save_and_status id s1 _ _ rt n st p Hst1)
  as (s2&s3&->&Hu&[Ht1 Ht2]&Hsteps&Hout).
cbn [sg_State sg_advance]. unfold id in Hu. rewrite Hu.
destruct (Mem.AppendOutbox _ s3) as [r4 s4] eqn:Ea.
pose proof (AppendOutbox_tables [step_event rt step sc
  ("step." +:+ Step_string (Name step) +:+ ".succeeded") fin st] s3) as (A1&A2&A3).
rewrite Ea in A1, A2, A3. cbn in A1, A2, A3. cbn.
destruct Htab as (E1&E2&_).
eexists _, _; split_and!; [done| |done|].
- eapply rows_set_steps; [exact Hrows|congruence].
- exists (rt_now rt). split; congruence.
Qed.

Lemma persistTerminal_spec step sc res fin (w : W) r0 :
let id := tx_TxID (sc_Tx sc) in
let row := attempt_row step sc StepFailed None (Some fin) "" in
stored id (w_store w) (sc_Tx sc) (sc_Saga sc) ->
row_of (w_store w) id (Name step) (sc_Attempt sc) = Some r0 ->
exists r w', persistTerminal env step sc res fin w = (Returned r, w') /\
  no_io (w_ext w) (w_ext w') /\ w_lease w' = w_lease w /\
  rows_set row (w_store w) (w_store w') /\
  match snd (Transition (sg_State (sc_Saga sc)) (res_State res)) with
  | None => exists sg' now, sg_State sg' = res_State res /\ sg_TxID sg' = sg_TxID (sc_Saga sc) /\
      sg_Payload sg' = mergePayload (sg_Payload (sc_Saga sc)) (res_PayloadMerge res) /\
      tables_set id (tx_with_status (sc_Tx sc) (res_State res)
         (tx_Version (sc_Tx sc) + 1) now) sg' (w_store w) (w_store w')
  | Some _ => tables_kept (w_store w) (w_store w')
  end.
Proof.
intros id row Hst Hr0. destruct w as [s x l]; cbn in *.
unfold persistTerminal, persist_terminal, run_in_tx, in_ext, zoom, runtime, bind, Mem.RunInTx; cbn.
unfold tx_try at 1.
destruct (UpdateStep_keyed row s r0 id _ _ (attempt_row_keyed _ _ _ _ _ _) Hr0)
  as (s1&Hu1&Htab&Hrows). cbn.
unfold row in Hu1. rewrite Hu1. destruct (snd (Transition _ _)) as [err|].
{ eexists _, _. split_and!; cbn; [done|done|done|done|by apply same_tables_kept]. }
assert (stored id s1 (sc_Tx sc) (sc_Saga sc)) as Hst1.
{ destruct Htab as (E1&E2&_). destruct Hst. split; congruence. }
set (rt := env (x_tick x)).
destruct (save_and_status id s1 _ _ rt (sg_CurrentStep (sc_Saga sc)) (res_State res)
  (mergePayload (sg_Payload (sc_Saga sc)) (res_PayloadMerge res)) Hst1)
  as (s2&s3&Hs&Hu&[Ht1 Ht2]&Hsteps&Hout).
unfold tx_try. cbn in *. rewrite Hs. unfold id in Hu. rewrite Hu.
match goal with |- context [Mem.AppendOutbox ?evs s3] =>
  pose proof (AppendOutbox_tables evs s3) as (A1&A2&A3);
  destruct (Mem.AppendOutbox evs s3) as [r4 s4] eqn:Ea end.
cbn in A1, A2, A3. destruct Htab as (E1&E2&_).
eexists _, _; split_and!; cbn; [done|done|done| |].
- eapply rows_set_steps; [exact Hrows|]. cbn. congruence.
- exists (sg_advance (sc_Saga sc) (sg_CurrentStep (sc_Saga sc)) (res_State res)
    (mergePayload (sg_Payload (sc_Saga sc)) (res_PayloadMerge res))
    (sg_Version (sc_Saga sc) + 1)), (rt_now rt).
  split_and!; [done|done|done|]. split; cbn; congruence.
Qed.

(** *** The ways one attempt can end *)

(** Between [x] and [x'] only audit records of transaction [id] were sent. *)
Definition only_audit (id : string) (x x' : Ext P) : Prop :=
exists l, x_calls x' = x_calls x ++ l /\
  Forall (fun c => match c with CRecord ev _ => ae_TxID ev = id | _ => False end) l.

(** [once e step sc w o w']: an attempt of [step] started in [w] ends with
  [o] in [w'].  [x1] is the outside world when [Execute] starts, [x2] when
  it ends. *)
Inductive once (step : StepImpl P) (sc : SagaContext P) (w : W)
: outcome (result unit) -> W -> Prop :=
| once_skip w' r :
    row_of (w_store w) (tx_TxID (sc_Tx sc)) (Name step) (sc_Attempt sc) = Some r ->
    row_Status r = StepSucceeded ->
    w_store w' = w_store w -> no_io (w_ext w) (w_ext w') -> w_lease w' = w_lease w ->
    once step sc w (Returned (Ok tt)) w'
| once_abort x1 x2 w' (panicked : bool) row :
    no_io (w_ext w) x1 ->
    Execute step sc x1 = (if panicked then Panicked else Diverged, x2) ->
    row_keyed row (tx_TxID (sc_Tx sc)) (Name step) (sc_Attempt sc) ->
    rows_set row (w_store w) (w_store w') -> tables_kept (w_store w) (w_store w') ->
    no_io x2 (w_ext w') ->
    once step sc w (if panicked then Panicked else Diverged) w'
| once_fail x1 x2 w' res err row :
    no_io (w_ext w) x1 -> Execute step sc x1 = (Returned (res, Some err), x2) ->
    res_Terminal res = false ->
    row_keyed row (tx_TxID (sc_Tx sc)) (Name step) (sc_Attempt sc) ->
    row_Status row = StepFailed -> rows_set row (w_store w) (w_store w') ->
    tables_kept (w_store w) (w_store w') ->
    only_audit (tx_TxID (sc_Tx sc)) x2 (w_ext w') -> w_lease w' = w_lease w ->
    once step sc w (Returned (Err err)) w'
| once_terminal x1 x2 w' res err row sg' now :
    no_io (w_ext w) x1 -> Execute step sc x1 = (Returned (res, Some err), x2) ->
    res_Terminal res = true ->
    snd (Transition (sg_State (sc_Saga sc)) (res_State res)) = None ->
    row_keyed row (tx_TxID (sc_Tx sc)) (Name step) (sc_Attempt sc) ->
    row_Status row = StepFailed -> rows_set row (w_store w) (w_store w') ->
    sg_State sg' = res_State res -> sg_TxID sg' = sg_TxID (sc_Saga sc) ->
    sg_Payload sg' = mergePayload (sg_Payload (sc_Saga sc)) (res_PayloadMerge res) ->
    tables_set (tx_TxID (sc_Tx sc))
      (tx_with_status (sc_Tx sc) (res_State res) (tx_Version (sc_Tx sc) + 1) now) sg'
      (w_store w) (w_store w') ->
    no_io x2 (w_ext w') -> w_lease w' = w_lease w ->
    once step sc w (Returned (Ok tt)) w'
| once_terminal_illegal x1 x2 w' res err terr row :
    no_io (w_ext w) x1 -> Execute step sc x1 = (Returned (res, Some err), x2) ->
    res_Terminal res = true ->
    snd (Transition (sg_State (sc_Saga sc)) (res_State res)) = Some terr ->
    row_keyed row (tx_TxID (sc_Tx sc)) (Name step) (sc_Attempt sc) ->
    row_Status row = StepFailed -> rows_set row (w_store w) (w_store w') ->
    tables_kept (w_store w) (w_store w') ->
    no_io x2 (w_ext w') -> w_lease w' = w_lease w ->
    once step sc w (Returned (Ok tt)) w'
| once_success x1 x2 w' res row now :
    no_io (w_ext w) x1 -> Execute step sc x1 = (Returned (res, None), x2) ->
    validatePath (sg_State (sc_Saga sc)) (res_State res)
      (sg_State (saga_after step sc res)) = None ->
    row_keyed row (tx_TxID (sc_Tx sc)) (Name step) (sc_Attempt sc) ->
    row_Status row = StepSucceeded -> rows_set row (w_store w) (w_store w') ->
    tables_set (tx_TxID (sc_Tx sc))
      (tx_with_status (sc_Tx sc) (sg_State (saga_after step sc res))
         (tx_Version (sc_Tx sc) + 1) now) (saga_after step sc res)
      (w_store w) (w_store w') ->
    no_io x2 (w_ext w') -> w_lease w' = w_lease w ->
    once step sc w (Returned (Ok tt)) w'
| once_illegal x1 x2 w' res err terr pre row :
    no_io (w_ext w) x1 -> Execute step sc x1 = (Returned (res, None), x2) ->
    validatePath (sg_State (sc_Saga sc)) (res_State res)
      (sg_State (saga_after step sc res)) = Some terr ->
    err = Wrap pre terr "" ->
    row_keyed row (tx_TxID (sc_Tx sc)) (Name step) (sc_Attempt sc) ->
    row_Status row = StepSucceeded -> rows_set row (w_store w) (w_store w') ->
    tables_kept (w_store w) (w_store w') ->
    no_io x2 (w_ext w') -> w_lease w' = w_lease w ->
    once step sc w (Returned (Err err)) w'.

Lemma run_in_tx_spec {A} (fn : Runtime -> Tx MemStore A) (w : W) :
exists x, no_io (w_ext w) x /\
  run_in_tx env fn w =
  (let rt := env (x_tick (w_ext w)) in
   (Returned (fst (Mem.RunInTx (fn rt) (w_store w))),
    set_store (snd (Mem.RunInTx (fn rt) (w_store w))) (set_ext x w))).
Proof.
unfold run_in_tx, in_ext, zoom, runtime, bind. cbn. eexists; split; [|].
2:{ by destruct (Mem.RunInTx _ _). }
done.
Qed.

Lemma audit_spec e sc n b a err (w : W) :
exists x, audit env e sc n b a err w = (Returned tt, set_ext x w) /\
  only_audit (tx_TxID (sc_Tx sc)) (w_ext w) x.
Proof.
unfold audit. destruct (ex_Clients e) as [[? ? ? ? ? ? [au|]]|]; cbn.
- unfold in_ext, zoom, bind, runtime, invoke; cbn.
  destruct (Record_ au _ _) as [r p]; cbn. eexists; split; [done|].
  eexists; split; [done|]. by repeat constructor.
- exists (w_ext w). split; [by destruct w|]. exists []. by rewrite app_nil_r.
- exists (w_ext w). split; [by destruct w|]. exists []. by rewrite app_nil_r.
Qed.

Lemma bind_returned {A B} (m : Go W A) (k : A -> Go W B) w a w' :
m w = (Returned a, w') -> bind m k w = k a w'.
Proof. unfold bind. by intros ->. Qed.

(** The tail of an attempt, once [Execute] returned. *)
Definition after_execute e step sc (res : StepResult) (err : option error) (finished : Z)
: Go W (result unit) :=
match err with
| Some err =>
    if res_Terminal res then
      let! _ := persistTerminal env step sc res finished in ret (Ok tt)
    else
      let! _ := run_in_tx env (fun _ => record_failure step sc finished err) in
      let! _ := audit env e sc (Step_string (Name step)) (State_string (sg_State (sc_Saga sc)))
                  (State_string (res_State res)) (Some err) in
      ret (Err err)
| None => run_in_tx env (persist_success step sc res finished)
end.

(** The tail of an attempt, once [begin_attempt] has left the running row. *)
Definition after_begin e step sc : Go W (result unit) :=
let! (res, err) := in_ext (Execute step sc) in
let! rt := in_ext (runtime env) in
after_execute e step sc res err (rt_now rt).

Lemma runStepOnce_begin e step sc w :
exists x, no_io (w_ext w) x /\
((exists r, row_of (w_store w) (tx_TxID (sc_Tx sc)) (Name step) (sc_Attempt sc) = Some r /\
    row_Status r = StepSucceeded /\
    runStepOnce env e step sc w = (Returned (Ok tt), set_ext x w)) \/
 (exists s' row,
    (forall r, row_of (w_store w) (tx_TxID (sc_Tx sc)) (Name step) (sc_Attempt sc) = Some r ->
       row_Status r <> StepSucceeded) /\
    row_keyed row (tx_TxID (sc_Tx sc)) (Name step) (sc_Attempt sc) /\
    same_tables (w_store w) s' /\ rows_set row (w_store w) s' /\
    runStepOnce env e step sc w = after_begin e step sc (set_store s' (set_ext x w)))).
Proof.
destruct (run_in_tx_spec (begin_attempt step sc) w) as (x&Hx&Hrun).
exists x. split; [done|]. unfold runStepOnce, bind_err.
rewrite (bind_returned _ _ _ _ _ Hrun). clear Hrun.
destruct (begin_attempt_spec step sc (env (x_tick (w_ext w))) (w_store w))
  as [(r&Hr&Hs&->)|(s'&row&->&?&?&_&?&?)]; cbn.
- left. exists r. split_and!; [done|done|]. by destruct w.
- right. exists s', row. by split_and!.
Qed.

(** From [w] the attempt has left [row] in [s1], called the partners up to [x2]
  and read the clock, which gives the world [w3]. *)
Section Executed.
Context (e : Executor P) (step : StepImpl P) (sc : SagaContext P) (w w3 : W) (x1 x2 : Ext P) (row : StepRow).
Local Abbreviation id := (tx_TxID (sc_Tx sc)).
Hypothesis (Hst : stored id (w_store w3) (sc_Tx sc) (sc_Saga sc)).
Hypothesis (Hrow : row_of (w_store w3) id (Name step) (sc_Attempt sc) = Some row).
Hypothesis (Hkey : row_keyed row id (Name step) (sc_Attempt sc)).
Hypothesis (Hrows : rows_set row (w_store w) (w_store w3)).
Hypothesis (Htab : tables_kept (w_store w) (w_store w3)).
Hypothesis (Hx1 : no_io (w_ext w) x1) (Hx3 : no_io x2 (w_ext w3)) (Hl : w_lease w3 = w_lease w).

(** The row of the attempt is written again. *)
Lemma rewritten st b f m s :
rows_set (attempt_row step sc st b f m) (w_store w3) s ->
rows_set (attempt_row step sc st b f m) (w_store w) s.
Proof. intros Hs. exact (rows_set_trans _ _ _ _ _ _ _ _ Hkey (attempt_row_keyed _ _ _ _ _ _) Hrows Hs). Qed.

Lemma tables_after tx sg s : tables_set id tx sg (w_store w3) s -> tables_set id tx sg (w_store w) s.
Proof. intros [Ht1 Ht2]. destruct Htab as [E1 E2]. split; congruence. Qed.

Lemma terminal_once res err fin o w' :
Execute step sc x1 = (Returned (res, Some err), x2) -> res_Terminal res = true ->
after_execute e step sc res (Some err) fin w3 = (o, w') -> once step sc w o w'.
Proof.
intros Hex Hterm Hrun. unfold after_execute in Hrun. rewrite Hterm in Hrun.
destruct (persistTerminal_spec step sc res fin w3 row Hst Hrow) as (r&w4&Hp&Hio&Hl4&Hr%rewritten&Hout).
rewrite (bind_returned _ _ _ _ _ Hp) in Hrun. unfold ret in Hrun. simplify_eq.
destruct (snd (Transition _ _)) as [terr|] eqn:Htr.
- eapply (once_terminal_illegal _ _ _ x1 x2 _ res err terr (attempt_row step sc StepFailed None (Some fin) ""));
    try done; by etrans.
- destruct Hout as (sg'&now&?&?&?&Ht%tables_after).
  eapply (once_terminal _ _ _ x1 x2 _ res err (attempt_row step sc StepFailed None (Some fin) "") sg' now);
    try done; by etrans.
Qed.

Lemma failed_once res err fin o w' :
Execute step sc x1 = (Returned (res, Some err), x2) -> res_Terminal res = false ->
after_execute e step sc res (Some err) fin w3 = (o, w') -> once step sc w o w'.
Proof.
intros Hex Hterm Hrun. unfold after_execute in Hrun. rewrite Hterm in Hrun. unfold record_failure in Hrun.
set (frow := attempt_row step sc StepFailed None (Some fin) (Error err)) in Hrun.
destruct (run_in_tx_spec (fun _ => UpdateStep frow) w3) as (x4&Hx4&Hr4).
rewrite (bind_returned _ _ _ _ _ Hr4) in Hrun.
destruct (UpdateStep_keyed frow (w_store w3) row _ _ _ (attempt_row_keyed _ _ _ _ _ _) Hrow)
  as (s5&Hu&Htab5&Hrows5%rewritten).
match type of Hrun with bind (audit _ _ ?c ?n ?b ?a ?er) _ ?ww = _ =>
  destruct (audit_spec e c n b a er ww) as (x6&Ha&Hau) end.
rewrite (bind_returned _ _ _ _ _ Ha) in Hrun. unfold ret in Hrun. simplify_eq.
cbn in *. unfold Mem.RunInTx in *. cbn in *. rewrite Hu in *. cbn in *.
eapply (once_fail _ _ _ x1 x2 _ res err frow); try done.
- etrans; [exact Htab|by apply same_tables_kept].
- destruct Hau as (l'&Hc&Hl'). exists l'. split; [|done].
  cbn. rewrite Hc. destruct Hx4 as [_ ->]. by destruct Hx3 as [_ ->].
Qed.

Lemma succeeded_once res fin o w' :
Execute step sc x1 = (Returned (res, None), x2) ->
after_execute e step sc res None fin w3 = (o, w') -> once step sc w o w'.
Proof.
intros Hex Hrun. unfold after_execute in Hrun.
destruct (run_in_tx_spec (persist_success step sc res fin) w3) as (x4&Hx4&Hr4).
rewrite Hr4 in Hrun. clear Hr4.
destruct (persist_success_spec step sc res fin (env (x_tick (w_ext w3))) (w_store w3) row Hst Hrow)
  as (r&s5&Hp&Hr5%rewritten&Hout).
cbn in Hrun. cbn in Hp. rewrite Hp in Hrun. cbn in Hrun. simplify_eq.
destruct (validatePath _ _ _) as [terr|] eqn:Hv.
- destruct Hout as [[pre ->] Hkept].
  eapply (once_illegal _ _ _ x1 x2 _ res _ terr pre (attempt_row step sc StepSucceeded None (Some fin) ""));
    try done; by etrans.
- destruct Hout as [-> (now&Ht%tables_after)].
  eapply (once_success _ _ _ x1 x2 _ res (attempt_row step sc StepSucceeded None (Some fin) "") now);
    try done; by etrans.
Qed.
End Executed.

(** Every attempt started on the stored snapshot ends in one of these ways. *)
Lemma runStepOnce_once e step sc w o w' :
stored (tx_TxID (sc_Tx sc)) (w_store w) (sc_Tx sc) (sc_Saga sc) ->
runStepOnce env e step sc w = (o, w') -> once step sc w o w'.
Proof.
intros Hst Hrun.
destruct (runStepOnce_begin e step sc w)
  as (x1&Hx1&[(r&Hr&Hsucc&Heq)|(s1&row&_&Hkey&Htab&Hrows&Heq)]);
  rewrite Heq in Hrun; clear Heq.
{ simplify_eq. by eapply once_skip. }
assert (row_of s1 (tx_TxID (sc_Tx sc)) (Name step) (sc_Attempt sc) = Some row) as Hrow1
  by by eapply rows_set_lookup.
assert (stored (tx_TxID (sc_Tx sc)) s1 (sc_Tx sc) (sc_Saga sc)) as Hst1.
{ destruct Htab as (E1&E2&_). destruct Hst. split; congruence. }
apply same_tables_kept in Htab. unfold after_begin in Hrun.
destruct (Execute step sc x1) as [[[res err]| |] x2] eqn:Hex;
  unfold bind at 1, in_ext at 1, zoom in Hrun; cbn in Hrun; rewrite Hex in Hrun.
2:{ simplify_eq. by eapply (once_abort _ _ _ _ _ _ true). }
2:{ simplify_eq. by eapply (once_abort _ _ _ _ _ _ false). }
unfold bind at 1, in_ext at 1, zoom, runtime at 1 in Hrun; cbn in Hrun.
set (w3 := set_ext _ (set_ext _ _)) in Hrun.
destruct err as [err|]; [destruct (res_Terminal res) eqn:Hterm|].
- by eapply (terminal_once e step sc w w3 x1 x2 row).
- by eapply (failed_once e step sc w w3 x1 x2 row).
- by eapply (succeeded_once e step sc w w3 x1 x2 row).
Qed.

(** *** The retry loop as a relation *)

(** Nothing happened but readings of the runtime. *)
Definition quiet (w w' : W) : Prop :=
w_store w' = w_store w /\ no_io (w_ext w) (w_ext w') /\ w_lease w' = w_lease w.

#[export] Instance quiet_preorder : PreOrder quiet.
Proof.
split; [by intros w; split_and!|].
intros x y z (?&?&?) (?&?&?). split_and!; [congruence|by etrans|congruence].
Qed.

(** [retried step sc n a w o w']: the loop with [n] attempts left, the next
  being [a], goes from [w] to [w'] with outcome [o]. *)
Inductive retried (step : StepImpl P) (sc : SagaContext P)
: nat -> Z -> W -> outcome (result unit) -> W -> Prop :=
| retried_none a w err : retried step sc 0 a w (Returned (Err err)) w
| retried_ok n a w w' :
    once step (with_attempt sc a) w (Returned (Ok tt)) w' ->
    retried step sc (S n) a w (Returned (Ok tt)) w'
| retried_abort n a w (panicked : bool) w' :
    once step (with_attempt sc a) w (if panicked then Panicked else Diverged) w' ->
    retried step sc (S n) a w (if panicked then Panicked else Diverged) w'
| retried_final n a w w1 o w' err :
    once step (with_attempt sc a) w (Returned (Err err)) w1 -> quiet w1 w' ->
    (o = Panicked \/ exists err', o = Returned (Err err')) ->
    retried step sc (S n) a w o w'
| retried_again n a w w1 w2 o w' err :
    once step (with_attempt sc a) w (Returned (Err err)) w1 ->
    IsNonRetriable (Some err) = false -> quiet w1 w2 ->
    retried step sc n (a + 1) w2 o w' ->
    retried step sc (S n) a w o w'.

Lemma once_err_tables step sc w err w' :
once step sc w (Returned (Err err)) w' -> tables_kept (w_store w) (w_store w').
Proof.
intros Ho. inversion Ho; subst; try done.
Qed.

Lemma stored_kept id s s' tx sg : tables_kept s s' -> stored id s tx sg -> stored id s' tx sg.
Proof. intros [E1 E2] []. split; congruence. Qed.

Lemma backoff_spec e a w :
(exists w', backoff env e a w = (Panicked, w') /\ quiet w w') \/
(exists d w', backoff env e a w = (Returned d, w') /\ quiet w w').
Proof.
unfold backoff. case_match; [left|right].
- by eexists.
- by eexists _, _.
Qed.

Lemma wait_or_done_spec w :
exists w', wait_or_done env w = (Returned (rt_ctx (env (x_tick (w_ext w)))), w') /\ quiet w w'.
Proof. by eexists. Qed.

Lemma retry_loop_retried e step sc n : forall a last w o w',
stored (tx_TxID (sc_Tx sc)) (w_store w) (sc_Tx sc) (sc_Saga sc) ->
retry_loop env e step sc n a last w = (o, w') -> retried step sc n a w o w'.
Proof.
induction n as [|n IH]; intros a last w o w' Hst Hrun; cbn in Hrun.
{ unfold ret in Hrun. simplify_eq. constructor. }
unfold bind at 1 in Hrun.
destruct (runStepOnce env e step (with_attempt sc a) w) as [o1 w1] eqn:Ho.
pose proof (runStepOnce_once e step (with_attempt sc a) w o1 w1 Hst Ho) as Honce.
destruct o1 as [[[]|err]| |]; simplify_eq/=.
- unfold ret in Hrun. simplify_eq. by constructor.
- destruct (IsNonRetriable (Some err)) eqn:Hn; cbn in Hn; rewrite Hn in Hrun.
  { unfold ret in Hrun. simplify_eq. eapply retried_final; eauto; reflexivity. }
  destruct (backoff_spec e a w1) as [(w2&Hb&Hq)|(d&w2&Hb&Hq)].
  { unfold bind at 1 in Hrun. rewrite Hb in Hrun. simplify_eq.
    eapply retried_final; eauto. }
  rewrite (bind_returned _ _ _ _ _ Hb) in Hrun.
  destruct (wait_or_done_spec w2) as (w3&Hw&Hq3).
  rewrite (bind_returned _ _ _ _ _ Hw) in Hrun.
  destruct (rt_ctx _) as [cerr|].
  { unfold ret in Hrun. simplify_eq. eapply retried_final; eauto. by etrans. }
  eapply (retried_again _ _ _ _ _ w1 w3); [done|done|by etrans|].
  eapply IH; [|exact Hrun].
  assert (w_store w3 = w_store w1) as ->.
  { destruct Hq as (E&_), Hq3 as (E3&_). by rewrite E3. }
  eapply stored_kept; [by eapply once_err_tables|done].
- by apply (retried_abort _ _ _ _ _ true).
- by apply (retried_abort _ _ _ _ _ false).
Qed.

(** *** Row bookkeeping *)

(** Every step row is filed under its own transaction id. *)
Definition rows_keyed (s : MemStore) : Prop :=
forall id n a r, row_of s id n a = Some r -> row_TxID r = id.

(** Only step rows of transaction [id] changed. *)
Definition rows_only (id : string) (s s' : MemStore) : Prop :=
same_tables s s' /\
(rows_keyed s -> rows_keyed s' /\
   forall id' n a, id' <> id -> row_of s' id' n a = row_of s id' n a).

#[export] Instance rows_only_preorder id : PreOrder (rows_only id).
Proof.
split; [by intros s; split; [|intros ?; split]|].
intros x y z [H1 K1] [H2 K2]. split; [by etrans|]. intros Hk.
destruct (K1 Hk) as [Hk1 E1]. destruct (K2 Hk1) as [Hk2 E2]. split; [done|].
intros. by rewrite E2, E1.
Qed.

Lemma rows_set_keyed row s s' : rows_set row s s' -> rows_keyed s -> rows_keyed s'.
Proof.
intros Hs Hk id n a r. rewrite (Hs id n a).
destruct (row_answers row id n a) eqn:E; [|by apply Hk].
intros [= ->]. unfold row_answers in E. apply andb_true_iff in E as [E _].
by apply bool_decide_eq_true in E.
Qed.

Lemma rows_set_only row id s s' :
row_TxID row = id -> same_tables s s' -> rows_set row s s' -> rows_only id s s'.
Proof.
intros Hid Ht Hs. split; [done|]. intros Hk. split; [by eapply rows_set_keyed|].
intros id' n a Hne. rewrite (Hs id' n a). unfold row_answers.
by rewrite bool_decide_eq_false_2 by congruence.
Qed.

(** An update of the status of the row [LoadStep] returned. *)
Lemma update_loaded id n a r st m s :
row_of s id n a = Some r -> row_TxID r = id ->
exists s', Mem.UpdateStep (row_with_status r st m) s = (Ok tt, s') /\ rows_only id s s'.
Proof.
intros Hr Hid. apply find_first_Some in Hr as Hr'. destruct Hr' as [_ Hat].
apply row_at_key in Hat. unfold row_key in Hat. simplify_eq.
destruct (UpdateStep_keyed (row_with_status r st m) s r (row_TxID r) (row_StepName r)
  (row_Attempt r)) as (s'&?&?&?); [done|done|].
exists s'. split; [done|]. by apply (rows_set_only (row_with_status r st m)).
Qed.

(** [same_tables] holds of an update whatever row it finds. *)
Lemma UpdateStep_same_tables row s : same_tables s (snd (Mem.UpdateStep row s)).
Proof.
pose proof (UpdateStep_spec row s) as Hs. destruct (row_of _ _ _ _).
- destruct Hs as (s'&->&?&_). done.
- by rewrite Hs.
Qed.

(** The bookkeeping units of work of the cascade. *)
Definition bookkeeping (id : string) (m : Go W (result unit)) : Prop :=
forall w, exists w', m w = (Returned (Ok tt), w') /\
  no_io (w_ext w) (w_ext w') /\ w_lease w' = w_lease w /\
  rows_only id (w_store w) (w_store w').

Lemma run_in_tx_bookkeeping id (fn : Runtime -> Tx MemStore unit) :
(forall rt s, exists s', fn rt s = (Ok tt, s') /\ rows_only id s s') ->
bookkeeping id (run_in_tx env fn).
Proof.
intros Hfn w. destruct (run_in_tx_spec fn w) as (x&Hx&->). cbn.
destruct (Hfn (env (x_tick (w_ext w))) (w_store w)) as (s'&E&Hr).
unfold Mem.RunInTx. rewrite E. cbn. by eexists.
Qed.

Lemma update_bookkeeping id n a r st m s :
row_of s id n a = Some r ->
rows_only id s (snd (Mem.UpdateStep (row_with_status r st m) s)).
Proof.
intros Hr. split; [apply UpdateStep_same_tables|]. intros Hk.
destruct (update_loaded id n a r st m s Hr (Hk _ _ _ _ Hr)) as (s'&E&Ho).
rewrite E. by apply Ho.
Qed.

Lemma mark_compensating_bookkeeping id n : bookkeeping id (mark_compensating env id n).
Proof.
apply run_in_tx_bookkeeping. intros _ s. unfold compensating_unit, tx_try. cbn.
rewrite LoadStep_row_of. destruct (row_of s id n 1) as [r|] eqn:Hr; [|by eexists].
pose proof (update_bookkeeping id n 1 r StepCompensating (row_Error r) s Hr) as Hb.
destruct (Mem.UpdateStep _ s) as [u s']. by eexists.
Qed.

Lemma mark_row_bookkeeping id n st f : bookkeeping id (mark_row env id n st f).
Proof.
apply run_in_tx_bookkeeping. intros _ s. unfold mark_unit, tx_try. cbn.
rewrite LoadStep_row_of. destruct (row_of s id n 1) as [r|] eqn:Hr; cbn; [|by eexists].
case_bool_decide; [by eexists|].
pose proof (update_bookkeeping id n 1 r st (f r) s Hr) as Hb.
destruct (Mem.UpdateStep _ s) as [u s']. by eexists.
Qed.

(** *** The cascade as a relation on the outside world *)

Definition comp_context e tx sg : SagaContext P :=
{| sc_Tx := tx; sc_Saga := sg; sc_Attempt := 1; sc_Partners := ex_Clients e |}.

Inductive cascaded (sc : SagaContext P)
: list (StepImpl P) -> Ext P -> outcome (option error) -> Ext P -> Prop :=
| cascaded_nil x : cascaded sc [] x (Returned None) x
| cascaded_abort step rest x x1 x2 (panicked : bool) :
    no_io x x1 ->
    Compensate step sc x1 = (if panicked then Panicked else Diverged, x2) ->
    cascaded sc (step :: rest) x (if panicked then Panicked else Diverged) x2
| cascaded_err step rest x x1 x2 x3 err :
    no_io x x1 -> Compensate step sc x1 = (Returned (Some err), x2) -> no_io x2 x3 ->
    cascaded sc (step :: rest) x (Returned (Some err)) x3
| cascaded_next step rest x x1 x2 x3 o x' :
    no_io x x1 -> Compensate step sc x1 = (Returned None, x2) -> no_io x2 x3 ->
    cascaded sc rest x3 o x' ->
    cascaded sc (step :: rest) x o x'.

Lemma compensate_steps_cascaded e tx sg id steps : forall (w : W) o w',
compensate_steps env e tx sg id steps w = (o, w') ->
cascaded (comp_context e tx sg) steps (w_ext w) o (w_ext w') /\
w_lease w' = w_lease w /\ rows_only id (w_store w) (w_store w').
Proof.
induction steps as [|step rest IH]; intros w o w' Hrun; cbn in Hrun.
{ unfold ret in Hrun. simplify_eq. split_and!; [constructor|done|done]. }
destruct (mark_compensating_bookkeeping id (Name step) w) as (w1&E1&Hx1&Hl1&Hr1).
rewrite (bind_returned _ _ _ _ _ E1) in Hrun. clear E1.
unfold bind at 1, in_ext, zoom in Hrun. fold (comp_context e tx sg) in Hrun.
destruct (Compensate step (comp_context e tx sg) (w_ext w1)) as [[[err|]| |] x2] eqn:Hc;
  cbn in Hrun.
- destruct (mark_row_bookkeeping id (Name step) StepFailed
    (fun _ => "compensation: " +:+ Error err) (set_ext x2 w1)) as (w3&E3&Hx3&Hl3&Hr3).
  rewrite (bind_returned _ _ _ _ _ E3) in Hrun. unfold ret in Hrun. simplify_eq.
  split_and!; [by eapply cascaded_err|cbn in *; congruence|by etrans].
- destruct (mark_row_bookkeeping id (Name step) StepCompensated row_Error (set_ext x2 w1))
    as (w3&E3&Hx3&Hl3&Hr3).
  rewrite (bind_returned _ _ _ _ _ E3) in Hrun.
  destruct (IH _ _ _ Hrun) as (Hc'&Hl'&Hr').
  split_and!; [by eapply cascaded_next|cbn in *; congruence|].
  etrans; [exact Hr1|]. by etrans.
- simplify_eq. split_and!; [by apply (cascaded_abort _ _ _ _ _ _ true Hx1)|done|done].
- simplify_eq. split_and!; [by apply (cascaded_abort _ _ _ _ _ _ false Hx1)|done|done].
Qed.

(** The failure states end the saga whatever the cascade did before. *)
Lemma persist_compensated_spec tx sg id target (w : W) :
stored id (w_store w) tx sg ->
exists w' now, persist_compensated env tx sg id target w = (Returned (Ok tt), w') /\
  no_io (w_ext w) (w_ext w') /\ w_lease w' = w_lease w /\
  mem_steps (w_store w') = mem_steps (w_store w) /\
  tables_set id (tx_with_status tx target (tx_Version tx + 1) now)
    (sg_advance sg (sg_CurrentStep sg) target (sg_Payload sg) (sg_Version sg + 1))
    (w_store w) (w_store w').
Proof.
intros Hst. unfold persist_compensated.
match goal with |- context [run_in_tx env ?f w] =>
  destruct (run_in_tx_spec f w) as (x&Hx&->) end.
set (rt := env _). cbn. unfold Mem.RunInTx, compensated_unit, tx_try. cbn.
destruct (save_and_status id (w_store w) tx sg rt (sg_CurrentStep sg) target
  (sg_Payload sg) Hst) as (s1&s2&->&->&[Ht1 Ht2]&Hsteps&_).
pose proof (AppendOutbox_tables [terminal_event rt id target] s2) as (A1&A2&A3).
destruct (Mem.AppendOutbox _ s2) as [r3 s3]. cbn in *.
eexists _, (rt_now rt). split; [done|]. cbn.
split_and!; [done|done|congruence|split; cbn; congruence].
Qed.

(** *** The confirmation write *)

Lemma persistConfirmedInline_spec tx sg id (w : W) :
stored id (w_store w) tx sg -> sg_State sg = StateBroadcasted ->
exists w' now, persistConfirmedInline env id sg w = (Returned (Ok tt), w') /\
  no_io (w_ext w) (w_ext w') /\ w_lease w' = w_lease w /\
  mem_steps (w_store w') = mem_steps (w_store w) /\
  tables_set id (tx_with_status tx StateConfirmed (tx_Version tx + 1) now)
    (sg_advance sg StepLedger StateConfirmed (sg_Payload sg) (sg_Version sg + 1))
    (w_store w) (w_store w').
Proof.
intros Hst Hb. unfold persistConfirmedInline, bind_err, bind at 1, reading.
cbn. unfold Mem.LoadTx. rewrite (stored_tx _ _ _ _ Hst).
match goal with |- context [run_in_tx env ?f w] =>
  destruct (run_in_tx_spec f w) as (x&Hx&->) end.
assert (snd (Transition (sg_State sg) StateConfirmed) = None) as Htr by by rewrite Hb.
set (rt := env _). cbn. unfold Mem.RunInTx, confirmed_unit. cbn. rewrite Htr. unfold tx_bind, tx_try. cbn.
destruct (save_and_status id (w_store w) tx sg rt StepLedger StateConfirmed
  (sg_Payload sg) Hst) as (s1&s2&->&->&[Ht1 Ht2]&Hsteps&_).
pose proof (AppendOutbox_tables [confirmed_event rt id sg] s2) as (A1&A2&A3).
destruct (Mem.AppendOutbox _ s2) as [r3 s3]. cbn in *.
eexists _, (rt_now rt). split; [done|]. cbn.
split_and!; [done|done|congruence|split; cbn; congruence].
Qed.

(** Polling: some [Status] calls, then either the confirmation is stored or
  nothing is. *)
Definition only_status (txHash : string) (x x' : Ext P) : Prop :=
exists l, x_calls x' = x_calls x ++ l /\
  Forall (fun c => match c with CStatus h _ => h = txHash | _ => False end) l.

Lemma poll_confirmed_spec client id h tx sg fuel : forall (w : W) o w',
stored id (w_store w) tx sg -> sg_State sg = StateBroadcasted ->
poll_confirmed env client id h sg fuel w = (o, w') ->
only_status h (w_ext w) (w_ext w') /\ w_lease w' = w_lease w /\
mem_steps (w_store w') = mem_steps (w_store w) /\
((o = Returned (Ok tt) /\ confirmed h (x_calls (w_ext w')) /\ exists now,
    tables_set id (tx_with_status tx StateConfirmed (tx_Version tx + 1) now)
      (sg_advance sg StepLedger StateConfirmed (sg_Payload sg) (sg_Version sg + 1))
      (w_store w) (w_store w')) \/
 ((o = Diverged \/ exists err, o = Returned (Err err)) /\
    tables_kept (w_store w) (w_store w'))).
Proof.
induction fuel as [|fuel IH]; intros w o w' Hst Hb Hrun; cbn in Hrun.
{ unfold diverge in Hrun. simplify_eq. split_and!; [|done|done|by right; split; [left|]].
  exists []. by rewrite app_nil_r. }
unfold bind at 1, in_ext, zoom, invoke in Hrun.
destruct (Status client h (x_partners (w_ext w))) as [r p] eqn:Hs. cbn in Hrun.
set (w1 := set_ext _ w) in Hrun.
assert (only_status h (w_ext w) (w_ext w1)) as Hio1.
{ exists [CStatus h r]. cbn. by split; [|repeat constructor]. }
destruct (match r with Ok st => Confirmed st | Err _ => false end) eqn:Hconf.
- destruct (persistConfirmedInline_spec tx sg id w1) as (w2&now&E&Hx&Hl&Hsteps&Ht); [done..|].
  rewrite E in Hrun. simplify_eq.
  assert (confirmed h (x_calls (w_ext w'))) as Hch.
  { destruct Hx as [_ ->]. apply confirmed_app. right. cbn. left. by destruct r. }
  split_and!; [|done|done|left; by eauto].
  destruct Hio1 as (l'&Hc&Hl'). exists l'. split; [|done]. destruct Hx as [_ ->]. done.
- destruct (wait_or_done_spec w1) as (w2&E&Hst2&Hio2&Hl2).
  rewrite (bind_returned _ _ _ _ _ E) in Hrun.
  assert (only_status h (w_ext w) (w_ext w2)) as Hio12.
  { destruct Hio1 as (l'&Hc&Hl'). exists l'. split; [|done]. destruct Hio2 as [_ ->]. done. }
  destruct (rt_ctx _) as [cerr|].
  + unfold ret in Hrun. simplify_eq. rewrite Hst2. cbn.
    split_and!; [done|done|done|]. right. split; [eauto|done].
  + assert (stored id (w_store w2) tx sg) as Hst3 by by rewrite Hst2.
    destruct (IH w2 o w' Hst3 Hb Hrun) as (Hio3&Hl3&Hs3&Hout).
    rewrite Hst2 in Hs3, Hout. cbn in *.
    split_and!; [|congruence|done|done].
    destruct Hio12 as (l1&Hc1&Hl1), Hio3 as (l3&Hc3&Hl3').
    exists (l1 ++ l3). rewrite Hc3, Hc1, app_assoc. split; [done|by apply Forall_app].
Qed.
End Attempt.
