(* ===== verification/RunFacts.v ===== *)
(** One turn of the loop of [Executor.Run] as a relation, on a [MemStore]. *)

From S2P Require Import Prelude StateMachine Store Partner Steps Lease Executor SagaLog.
From S2P Require Import ExecutorFacts.

Local Open Scope Z_scope.
Local Open Scope go_scope.

Section Run.
Context {P L : Type} `{GoStd} `{LeaseManager L} (env : nat -> Runtime).
Implicit Types (e : Executor P) (step : StepImpl P).
Local Abbreviation W := (World MemStore P L).

(** Same store, no partner call; the leases may differ. *)
Definition calm (w w' : W) : Prop :=
w_store w' = w_store w /\ no_io (w_ext w) (w_ext w').

#[export] Instance calm_preorder : PreOrder calm.
Proof.
split; [by intros w; split|]. intros x y z [??] [??]. split; [congruence|by etrans].
Qed.

Lemma set_lease_calm l w : calm w (set_lease l w).
Proof. done. Qed.

Lemma quiet_calm (w w' : W) : quiet w w' -> calm w w'.
Proof. by intros (?&?&_). Qed.

(** The context [Run] gives to a step. *)
Definition run_context e tx sg : SagaContext P :=
{| sc_Tx := tx; sc_Saga := sg; sc_Attempt := 1; sc_Partners := ex_Clients e |}.

Definition budget e : nat := Z.to_nat (MaxRetries (ex_Cfg e)).

Definition stop_with (o : outcome (result unit)) : outcome iter :=
match o with
| Returned r => Returned (Stop r)
| Panicked => Panicked
| Diverged => Diverged
end.

(** The lease was granted. *)
Definition granted (r : (Handle * bool * option error) * L) : bool :=
let '((_, ok, err), _) := r in ok && match err with None => true | Some _ => false end.

(** The time to live of the lease of a step. *)
Definition lease_ttl e (step : StepImpl P) : Z :=
StepTimeout (ex_Cfg e) (Step_string (Name step)) + 5 * Second.

Inductive iterated e (id owner : string) (pf : nat) (w : W) (tx : Transaction) (sg : SagaState)
: outcome iter -> W -> Prop :=
| iter_terminal :
    Terminal (sg_State sg) = true ->
    iterated e id owner pf w tx sg (Returned (Stop (Ok tt))) w
| iter_nostep err :
    Terminal (sg_State sg) = false -> StepByName e (sg_CurrentStep sg) = None ->
    iterated e id owner pf w tx sg (Returned (Stop (Err err))) w
| iter_lease step w' o :
    Terminal (sg_State sg) = false -> StepByName e (sg_CurrentStep sg) = Some step ->
    granted (Acquire id owner (lease_ttl e step) (w_lease w)) = false -> calm w w' ->
    (o = Continue \/ exists err, o = Stop (Err err)) ->
    iterated e id owner pf w tx sg (Returned o) w'
| iter_abort step w1 w' (panicked : bool) :
    Terminal (sg_State sg) = false -> StepByName e (sg_CurrentStep sg) = Some step ->
    calm w w1 ->
    runStepWithRetry env e step (run_context e tx sg) w1 =
      (if panicked then Panicked else Diverged, w') ->
    iterated e id owner pf w tx sg (if panicked then Panicked else Diverged) w'
| iter_failed step w1 w2 w3 o w' err :
    Terminal (sg_State sg) = false -> StepByName e (sg_CurrentStep sg) = Some step ->
    calm w w1 ->
    runStepWithRetry env e step (run_context e tx sg) w1 = (Returned (Err err), w2) ->
    calm w2 w3 -> compensateCascade env e id step w3 = (o, w') ->
    iterated e id owner pf w tx sg (stop_with o) w'
| iter_ended step w1 w2 w' sg2 :
    Terminal (sg_State sg) = false -> StepByName e (sg_CurrentStep sg) = Some step ->
    calm w w1 ->
    runStepWithRetry env e step (run_context e tx sg) w1 = (Returned (Ok tt), w2) ->
    calm w2 w' -> Mem.LoadSagaState id (w_store w') = Ok sg2 ->
    Terminal (sg_State sg2) = true ->
    iterated e id owner pf w tx sg (Returned (Stop (Ok tt))) w'
| iter_next step w1 w2 w' :
    Terminal (sg_State sg) = false -> StepByName e (sg_CurrentStep sg) = Some step ->
    calm w w1 ->
    runStepWithRetry env e step (run_context e tx sg) w1 = (Returned (Ok tt), w2) ->
    calm w2 w' ->
    (forall sg2, Mem.LoadSagaState id (w_store w') = Ok sg2 ->
       Terminal (sg_State sg2) = false /\ sg_State sg2 <> StateBroadcasted) ->
    iterated e id owner pf w tx sg (Returned Continue) w'
| iter_confirm step w1 w2 w3 o w' sg2 :
    Terminal (sg_State sg) = false -> StepByName e (sg_CurrentStep sg) = Some step ->
    calm w w1 ->
    runStepWithRetry env e step (run_context e tx sg) w1 = (Returned (Ok tt), w2) ->
    calm w2 w3 -> Mem.LoadSagaState id (w_store w3) = Ok sg2 ->
    sg_State sg2 = StateBroadcasted ->
    advanceToConfirmed env e id pf w3 = (o, w') ->
    iterated e id owner pf w tx sg
      (match o with Returned _ => Returned Continue
                  | Panicked => Panicked | Diverged => Diverged end) w'.

Lemma runStepWithRetry_retried e step sc (w : W) o w' :
stored (tx_TxID (sc_Tx sc)) (w_store w) (sc_Tx sc) (sc_Saga sc) ->
runStepWithRetry env e step sc w = (o, w') -> retried step sc (budget e) 1 w o w'.
Proof. apply retry_loop_retried. Qed.

(** The end of a turn whose step went through. *)
Definition after_step e id pf (release : Handle (L := L)) : Go W iter :=
let! _ := modify (fun w => set_lease (Release release (w_lease w)) w) in
let! sg2 := reading (LoadSagaState id) in
let st2 := match sg2 with Ok g => sg_State g | Err _ => StateOther "" end in
if Terminal st2 then ret (Stop (Ok tt))
else if bool_decide (st2 = StateBroadcasted) then
  let! _ := advanceToConfirmed env e id pf in ret Continue
else ret Continue.

Lemma after_step_iterated e id owner pf w w1 w2 tx sg step release o w' :
Terminal (sg_State sg) = false -> StepByName e (sg_CurrentStep sg) = Some step -> calm w w1 ->
runStepWithRetry env e step (run_context e tx sg) w1 = (Returned (Ok tt), w2) ->
after_step e id pf release w2 = (o, w') -> iterated e id owner pf w tx sg o w'.
Proof.
intros Hterm Hstep Hw1 Hretry Hrun. unfold after_step in Hrun.
unfold bind at 1, modify in Hrun.
match type of Hrun with bind _ _ ?ww = _ => set (w3 := ww) in Hrun end.
assert (calm w2 w3) as Hw3 by apply set_lease_calm.
unfold bind at 1, reading in Hrun. cbn in Hrun.
change (w_store w2) with (w_store w3) in Hrun.
destruct (Mem.LoadSagaState id (w_store w3)) as [sg2|err2] eqn:Hsg2.
- destruct (Terminal (sg_State sg2)) eqn:Hterm2.
  { unfold ret in Hrun. simplify_eq. by eapply iter_ended. }
  case_bool_decide as Hb.
  + unfold bind in Hrun. destruct (advanceToConfirmed env e id pf w3) as [o4 w4] eqn:Ha.
    pose proof (iter_confirm e id owner pf w tx sg step w1 w2 w3 o4 w4 sg2
      Hterm Hstep Hw1 Hretry Hw3 Hsg2 Hb Ha) as Hi.
    destruct o4; unfold ret in Hrun; simplify_eq; done.
  + unfold ret in Hrun. simplify_eq.
    eapply iter_next; [done|done|exact Hw1|exact Hretry|exact Hw3|].
    intros sg3 Hsg3. by assert (sg3 = sg2) as -> by congruence.
- cbn in Hrun. change (bool_decide (StateOther "" = StateBroadcasted)) with false in Hrun.
  unfold ret in Hrun. simplify_eq.
  eapply iter_next; [done|done|exact Hw1|exact Hretry|exact Hw3|].
  intros sg3 Hsg3. congruence.
Qed.

Lemma run_iter_iterated e id owner pf w tx sg o w' :
stored id (w_store w) tx sg ->
run_iter env e id owner pf w = (o, w') -> iterated e id owner pf w tx sg o w'.
Proof.
intros Hst Hrun. unfold run_iter in Hrun.
unfold bind at 1, reading at 1 in Hrun. cbn in Hrun. unfold Mem.LoadTx at 1 in Hrun.
rewrite (stored_tx _ _ _ _ Hst) in Hrun.
unfold bind at 1, reading at 1 in Hrun. cbn in Hrun. unfold Mem.LoadSagaState at 1 in Hrun.
rewrite (stored_sg _ _ _ _ Hst) in Hrun.
destruct (Terminal (sg_State sg)) eqn:Hterm.
{ unfold ret in Hrun. simplify_eq. by constructor. }
destruct (StepByName e (sg_CurrentStep sg)) as [step|] eqn:Hstep.
2:{ unfold ret in Hrun. simplify_eq. by constructor. }
unfold bind at 1, zoom in Hrun.
destruct (Acquire id owner _ (w_lease w)) as [[[rel ok] err] l1] eqn:Hacq.
set (w1 := set_lease l1 w) in Hrun.
destruct err as [err|].
{ unfold ret in Hrun. simplify_eq.
  eapply iter_lease; [done|done| |done|by eauto]. unfold lease_ttl. rewrite Hacq. cbn.
  by rewrite andb_false_r. }
destruct ok; cbn [negb] in Hrun.
2:{ unfold bind at 1, modify in Hrun.
    match type of Hrun with bind _ _ ?ww = _ => set (w2 := ww) in Hrun end.
    destruct (wait_or_done_spec env w2) as (w3&E&Hq).
    rewrite (bind_returned _ _ _ _ _ E) in Hrun.
    apply quiet_calm in Hq.
    destruct (rt_ctx _); unfold ret in Hrun; simplify_eq;
      (eapply iter_lease; [done|done| |exact Hq|by eauto]);
      unfold lease_ttl; by rewrite Hacq. }
unfold bind at 1 in Hrun. fold (run_context e tx sg) in Hrun.
destruct (runStepWithRetry env e step (run_context e tx sg) w1) as [o1 w2] eqn:Hretry.
assert (calm w w1) as Hw1 by apply set_lease_calm.
destruct o1 as [[[]|err]| |].
- by eapply (after_step_iterated e id owner pf w w1 w2 tx sg step rel).
- unfold bind at 1, modify in Hrun.
  match type of Hrun with bind _ _ ?ww = _ => set (w3 := ww) in Hrun end.
  unfold bind in Hrun. destruct (compensateCascade env e id step w3) as [o4 w4] eqn:Hc.
  pose proof (iter_failed e id owner pf w tx sg step w1 w2 w3 o4 w4 err
    Hterm Hstep Hw1 Hretry (set_lease_calm _ _) Hc) as Hi.
  destruct o4; unfold ret in Hrun; simplify_eq; done.
- simplify_eq. by eapply (iter_abort e id owner pf w tx sg step w1 w' true).
- simplify_eq. by eapply (iter_abort e id owner pf w tx sg step w1 w' false).
Qed.

(** *** The cascade and the confirmation, from the stored snapshot *)

Lemma compensateCascade_spec e id step (w : W) o w' tx sg i :
stored id (w_store w) tx sg -> index_of (Name step) (ex_Steps e) = Some i ->
compensateCascade env e id step w = (o, w') ->
exists o1 x s1,
  cascaded (comp_context e tx sg) (rev (take (Datatypes.S i) (ex_Steps e))) (w_ext w) o1 x /\
  rows_only id (w_store w) s1 /\ no_io x (w_ext w') /\
  match o1 with
  | Returned cerr =>
      let target := match cerr with Some _ => StateFailed | None => StateFailedCompensated end in
      o = Returned (match cerr with Some err => Err err | None => Ok tt end) /\
      mem_steps (w_store w') = mem_steps s1 /\
      exists now, tables_set id (tx_with_status tx target (tx_Version tx + 1) now)
        (sg_advance sg (sg_CurrentStep sg) target (sg_Payload sg) (sg_Version sg + 1))
        (w_store w) (w_store w')
  | Panicked => o = Panicked /\ w_store w' = s1
  | Diverged => o = Diverged /\ w_store w' = s1
  end.
Proof.
intros Hst Hi Hrun. unfold compensateCascade, bind_err, bind at 1, reading at 1 in Hrun.
cbn in Hrun. unfold Mem.LoadSagaState in Hrun. rewrite (stored_sg _ _ _ _ Hst) in Hrun.
unfold bind at 1, reading in Hrun. cbn in Hrun. unfold Mem.LoadTx in Hrun.
rewrite (stored_tx _ _ _ _ Hst), Hi in Hrun. unfold bind at 1 in Hrun.
destruct (compensate_steps env e tx sg id _ w) as [o1 w1] eqn:Hc.
apply compensate_steps_cascaded in Hc as (Hc&_&Hr).
exists o1, (w_ext w1), (w_store w1).
destruct o1 as [cerr| |]; simplify_eq; [|by split_and!|by split_and!].
assert (stored id (w_store w1) tx sg) as Hst1.
{ destruct Hr as [(E1&E2&_) _]. destruct Hst. split; congruence. }
match type of Hrun with bind (persist_compensated _ _ _ _ ?t) _ _ = _ =>
  destruct (persist_compensated_spec env tx sg id t w1 Hst1)
    as (w2&now&Hp&Hx&_&Hsteps&[Ht1 Ht2]) end.
rewrite (bind_returned _ _ _ _ _ Hp) in Hrun. unfold ret in Hrun. simplify_eq.
cbv zeta. split_and!; [done|done|done|done|done|]. exists now.
destruct Hr as [(E1&E2&_) _]. split; congruence.
Qed.

Lemma advanceToConfirmed_spec e id pf (w : W) o w' tx sg :
stored id (w_store w) tx sg -> sg_State sg = StateBroadcasted ->
advanceToConfirmed env e id pf w = (o, w') ->
only_status (payload_string (sg_Payload sg) "tx_hash") (w_ext w) (w_ext w') /\
mem_steps (w_store w') = mem_steps (w_store w) /\
((exists now,
    tables_set id (tx_with_status tx StateConfirmed (tx_Version tx + 1) now)
      (sg_advance sg StepLedger StateConfirmed (sg_Payload sg) (sg_Version sg + 1))
      (w_store w) (w_store w') /\ o = Returned (Ok tt) /\
    confirmed (payload_string (sg_Payload sg) "tx_hash") (x_calls (w_ext w'))) \/
 (tables_kept (w_store w) (w_store w') /\ (o = Diverged \/ exists r, o = Returned r))).
Proof.
intros Hst Hb Hrun. unfold advanceToConfirmed in Hrun.
generalize (eq_refl (payload_string (sg_Payload sg) "tx_hash")).
generalize (payload_string (sg_Payload sg) "tx_hash") at -2. intros h Hh.
assert (only_status h (w_ext w) (w_ext w)) as Hnil.
{ exists []. by rewrite app_nil_r. }
destruct (ex_Clients e) as [[? ? ? ? [client|] ? ?]|];
  [|unfold ret in Hrun; injection Hrun as <- <-; split_and!; [done|done|right; split; [done|eauto]]..].
unfold bind_err, bind, reading in Hrun. cbn in Hrun. unfold Mem.LoadSagaState in Hrun.
rewrite (stored_sg _ _ _ _ Hst) in Hrun. rewrite <- Hh in Hrun.
destruct (bool_decide (h = "")); [unfold ret in Hrun; injection Hrun as <- <-; split_and!; [done|done|right; split; [done|eauto]]|].
destruct (poll_confirmed_spec env client id h tx sg pf w o w' Hst Hb Hrun)
  as (Hs&_&Hsteps&[(->&Hch&now&Htab)|[Ho ?]]).
- split_and!; [done|done|]. left. exists now. by split_and!.
- split_and!; [done|done|right]. split; [done|]. destruct Ho as [->|[err ->]]; eauto.
Qed.

Lemma index_of_Some name (steps : list (StepImpl P)) i :
index_of name steps = Some i -> exists s, steps !! i = Some s /\ Name s = name.
Proof.
revert i. induction steps as [|s steps IH]; intros i Hi; cbn in *; [done|].
case_bool_decide; simplify_eq; [by exists s|].
destruct (index_of name steps) as [j|]; simplify_eq/=. by apply IH.
Qed.

Lemma StepByName_index e name step :
StepByName e name = Some step ->
Name step = name /\ exists i, index_of (Name step) (ex_Steps e) = Some i.
Proof.
unfold StepByName. intros Hf. apply find_first_Some in Hf as [Hin Hn].
apply bool_decide_eq_true in Hn. split; [done|]. rewrite Hn.
induction (ex_Steps e) as [|s l IH]; [by inversion Hin|]. cbn.
case_bool_decide; [eauto|].
apply elem_of_cons in Hin as [->|Hin]; [done|]. destruct (IH Hin) as [i ->]. cbn. eauto.
Qed.
End Run.
