(* ===== verification/Legality.v ===== *)
(** What a run of the executor may do to the store, whatever the steps, the
    partners and the lease manager are: the records of the transaction move
    along the lifecycle together, and nothing of another transaction moves. *)

From S2P Require Import Prelude StateMachine Store Partner Steps Lease Executor ExecutorFacts.
From S2P Require Import RunFacts.

Local Open Scope Z_scope.
Local Open Scope go_scope.

(** Every record is filed under its own transaction id, and a transaction has
    a saga snapshot. *)
Record filed (s : MemStore) : Prop := {
  filed_tx : forall id tx, mem_txs s !! id = Some tx -> tx_TxID tx = id;
  filed_sg : forall id sg, mem_sagas s !! id = Some sg -> sg_TxID sg = id;
  filed_saga : forall id tx, mem_txs s !! id = Some tx -> exists sg, mem_sagas s !! id = Some sg;
  filed_rows : rows_keyed s;
}.

(** The status of the transaction is the state of its saga. *)
Definition in_sync (s : MemStore) (id : string) : Prop :=
  forall tx sg, stored id s tx sg -> tx_Status tx = sg_State sg.

(** [tx'] is a later version of [tx]: the business fields are the same, and a
    record that differs has a higher version. *)
Definition later (tx tx' : Transaction) : Prop :=
  tx' = tx_with_status tx (tx_Status tx') (tx_Version tx') (tx_UpdatedAt tx') /\
  (tx' = tx \/ tx_Version tx < tx_Version tx').

(** The records of transaction [id] moved along the lifecycle. *)
Definition moved_tables (id : string) (s s' : MemStore) : Prop :=
  (forall id', id' <> id -> mem_txs s' !! id' = mem_txs s !! id' /\
                            mem_sagas s' !! id' = mem_sagas s !! id') /\
  forall tx sg, stored id s tx sg -> tx_Status tx = sg_State sg ->
  exists tx' sg', stored id s' tx' sg' /\ tx_Status tx' = sg_State sg' /\
    star legal (sg_State sg) (sg_State sg') /\ later tx tx' /\ (tx' = tx -> sg' = sg).

(** The step rows of the other transactions did not change. *)
Definition moved_rows (id : string) (s s' : MemStore) : Prop :=
  rows_keyed s -> rows_keyed s' /\
    forall id' n a, id' <> id -> row_of s' id' n a = row_of s id' n a.

Definition moved (id : string) (s s' : MemStore) : Prop :=
  moved_tables id s s' /\ moved_rows id s s'.

Lemma later_refl tx : later tx tx.
Proof. split; [by destruct tx|by left]. Qed.

Lemma later_trans x y z : later x y -> later y z -> later x z.
Proof.
  intros [Ey Hy] [Ez Hz]. split.
  - rewrite Ez. rewrite Ey. done.
  - destruct Hy as [->|Hy], Hz as [->|Hz]; [by left|by right|by right|right; lia].
Qed.

#[export] Instance moved_tables_preorder id : PreOrder (moved_tables id).
Proof.
  split.
  - intros s. split; [done|]. intros tx sg ??. exists tx, sg.
    split_and!; [done|done|done|apply later_refl|done].
  - intros x y z [I1 M1] [I2 M2]. split.
    { intros id' Hne. destruct (I1 id' Hne), (I2 id' Hne). split; congruence. }
    intros tx sg Hst Hsync. destruct (M1 tx sg Hst Hsync) as (tx1&sg1&Hst1&Hsync1&L1&T1&E1).
    destruct (M2 tx1 sg1 Hst1 Hsync1) as (tx2&sg2&Hst2&Hsync2&L2&T2&E2).
    exists tx2, sg2. split_and!; [done|done|by etrans|by eapply later_trans|].
    intros ->. destruct T1 as [? T1], T2 as [? T2].
    assert (tx1 = tx) as ->.
    { destruct T1 as [?|?]; [done|]. destruct T2 as [?|?]; [done|lia]. }
    rewrite E2, E1; done.
Qed.

#[export] Instance moved_rows_preorder id : PreOrder (moved_rows id).
Proof.
  split; [by intros s Hk; split|]. intros x y z H1 H2 Hk.
  destruct (H1 Hk) as [Hk1 E1], (H2 Hk1) as [Hk2 E2]. split; [done|].
  intros. by rewrite E2, E1.
Qed.

#[export] Instance moved_preorder id : PreOrder (moved id).
Proof.
  split; [by intros s; split|].
  intros x y z [??] [??]. split; by etrans.
Qed.

Lemma moved_kept id s s' : tables_kept s s' -> moved_tables id s s'.
Proof.
  intros Hk. split; [by destruct Hk as [-> ->]|]. intros tx sg Hst ?. exists tx, sg.
  split_and!; [by eapply stored_kept|done|done|apply later_refl|done].
Qed.

Lemma moved_set id tx sg sg' st now s s' :
  stored id s tx sg -> star legal (sg_State sg) st -> sg_State sg' = st -> sg_TxID sg' = id ->
  tables_set id (tx_with_status tx st (tx_Version tx + 1) now) sg' s s' -> moved_tables id s s'.
Proof.
  intros [Htx Hsg Hid Hgid] Hleg Hst Hid' [E1 E2]. split.
  { intros id' Hne. rewrite E1, E2. by rewrite !lookup_insert_ne. }
  intros tx1 sg1 [Htx1 Hsg1 _ _] _. simplify_eq.
  eexists _, sg'. split; [split; [rewrite E1; apply lookup_insert_eq|
    rewrite E2; by rewrite <- Hid', lookup_insert_eq|done|done]|].
  split; [done|]. split; [done|]. split; [split; [done|right; cbn; lia]|].
  intros Heq. apply (f_equal tx_Version) in Heq. cbn in Heq. lia.
Qed.

Lemma moved_rows_set id n a row s s' :
  row_keyed row id n a -> rows_set row s s' -> moved_rows id s s'.
Proof.
  intros (Hid&_&_) Hs Hk. split; [by eapply rows_set_keyed|].
  intros id' n' a' Hne. rewrite (Hs id' n' a'). unfold row_answers.
  by rewrite bool_decide_eq_false_2 by congruence.
Qed.

Lemma moved_rows_same id s s' : mem_steps s' = mem_steps s -> moved_rows id s s'.
Proof.
  intros E Hk. assert (forall i n a, row_of s' i n a = row_of s i n a) as Hr.
  { intros. unfold row_of, rows_of. by rewrite E. }
  split; [|done]. intros i n a r. rewrite Hr. apply Hk.
Qed.

Lemma rows_only_moved id s s' : rows_only id s s' -> moved id s s'.
Proof. intros [Ht Hr]. split; [by apply moved_kept, same_tables_kept|done]. Qed.

#[export] Hint Resolve moved_kept moved_rows_set moved_rows_same : orch.

(** A path accepted by [validatePath] is a run of legal moves. *)
Lemma validatePath_legal from mid to : validatePath from mid to = None -> star legal from to.
Proof.
  unfold validatePath. case_bool_decide; subst; [constructor|].
  destruct (bool_decide (mid = to) || bool_decide (mid = from)); [by eauto with orch|].
  destruct (snd (Transition from mid)) eqn:E1; [done|]. intros E2.
  eapply star_step; [by apply Transition_ok_legal|by eauto with orch].
Qed.

Section Moves.
Context {P L : Type} `{GoStd} `{LeaseManager L} (env : nat -> Runtime).
Implicit Types (e : Executor P) (step : StepImpl P) (sc : SagaContext P).
Local Abbreviation W := (World MemStore P L).

Lemma once_moved step sc (w : W) o w' id :
once step sc w o w' -> stored id (w_store w) (sc_Tx sc) (sc_Saga sc) ->
moved id (w_store w) (w_store w').
Proof.
intros Ho Hst. destruct (stored_tx_id _ _ _ _ Hst).
destruct Ho as [w' r Hr Hs E ? ? | | |
  x1 x2 w' res err row sg' now ? ? ? Htr ? ? ? Hsg' Hid' ? ? ? ? | |
  x1 x2 w' res row now ? ? Hv ? ? ? ? ? ? | ].
2,3,5,7: split; by eauto with orch.
- by rewrite E.
- split; [|by eauto with orch].
  eapply (moved_set _ _ _ _ (res_State res)); [done|by eauto with orch|done| |done].
  rewrite Hid'. apply Hst.
- split; [|by eauto with orch].
  eapply moved_set; [done|by eapply validatePath_legal|done| |done].
  unfold saga_after. destruct (if res_Terminal res then _ else _). apply Hst.
Qed.

(** A failed step leaves the snapshot it was run on. *)
Lemma retried_err_stored step sc n a (w : W) o w' id :
retried step sc n a w o w' -> o <> Returned (Ok tt) ->
stored id (w_store w) (sc_Tx sc) (sc_Saga sc) ->
stored id (w_store w') (sc_Tx sc) (sc_Saga sc).
Proof.
induction 1 as [| |n a w p w' Ho|n a w w1 o w' err Ho Hq|
  n a w w1 w2 o w' err Ho ? [Hq _] Hr IH]; intros Hne Hst; [done|done| | |].
- destruct p; inversion Ho; by eapply stored_kept.
- destruct Hq as [-> _]. eapply stored_kept; [by eapply once_err_tables|done].
- apply IH; [done|]. rewrite Hq. eapply stored_kept; [by eapply once_err_tables|done].
Qed.

Lemma retried_moved step sc n a (w : W) o w' id :
retried step sc n a w o w' -> stored id (w_store w) (sc_Tx sc) (sc_Saga sc) ->
moved id (w_store w) (w_store w').
Proof.
induction 1 as [|n a w w' Ho|n a w p w' Ho|n a w w1 o w' err Ho [Hq _]|
  n a w w1 w2 o w' err Ho ? [Hq _] Hr IH]; intros Hst; [done|..].
- by apply (once_moved _ _ _ _ _ id Ho).
- by apply (once_moved _ _ _ _ _ id Ho).
- rewrite Hq. by apply (once_moved _ _ _ _ _ id Ho).
- etrans; [by apply (once_moved _ _ _ _ _ id Ho)|]. rewrite <- Hq. apply IH.
  rewrite Hq. eapply stored_kept; [by eapply once_err_tables|done].
Qed.
(** The cascade ends a saga that is not terminal in a failure state. *)
Lemma compensateCascade_moved e id step (w : W) o w' tx sg i :
stored id (w_store w) tx sg -> Terminal (sg_State sg) = false ->
index_of (Name step) (ex_Steps e) = Some i ->
compensateCascade env e id step w = (o, w') -> moved id (w_store w) (w_store w').
Proof.
intros Hst Ht Hi Hrun.
destruct (compensateCascade_spec env e id step w o w' tx sg i Hst Hi Hrun)
  as (o1&x&s1&_&Hs1&_&Hout).
destruct o1 as [cerr| |]; [|destruct Hout as [_ ->]; by apply rows_only_moved..].
destruct Hout as (_&Hsteps&now&Htab). split.
- eapply moved_set; [exact Hst|..|exact Htab]; [|done|apply Hst].
  apply star_one, legal_fail; [done|]. by destruct cerr.
- etrans; [by apply rows_only_moved|]. by apply moved_rows_same.
Qed.

Lemma advanceToConfirmed_moved e id pf (w : W) o w' tx sg :
stored id (w_store w) tx sg -> sg_State sg = StateBroadcasted ->
advanceToConfirmed env e id pf w = (o, w') -> moved id (w_store w) (w_store w').
Proof.
intros Hst Hb Hrun.
destruct (advanceToConfirmed_spec env e id pf w o w' tx sg Hst Hb Hrun)
  as (_&Hsteps&[(now&Htab&_)|(Hk&_)]); (split; [|by apply moved_rows_same]).
- eapply moved_set; [exact Hst|..|exact Htab]; [|done|apply Hst].
  rewrite Hb. apply star_one. constructor.
- by apply moved_kept.
Qed.

Lemma iterated_moved e id owner pf (w : W) tx sg o w' :
stored id (w_store w) tx sg -> tx_Status tx = sg_State sg ->
iterated env e id owner pf w tx sg o w' -> moved id (w_store w) (w_store w').
Proof.
intros Hst Hsync.
assert (forall step (w1 : W) o1 w2, w_store w1 = w_store w ->
  runStepWithRetry env e step (run_context e tx sg) w1 = (o1, w2) ->
  retried step (run_context e tx sg) (budget e) 1 w1 o1 w2) as Hretry.
{ intros step w1 o1 w2 E. apply runStepWithRetry_retried. rewrite E. cbn.
  by rewrite (stored_tx_id _ _ _ _ Hst). }
destruct 1 as [| |step w' o _ _ _ [-> _] _|step w1 w' p _ _ [E1 _] Hr
  |step w1 w2 w3 o w' err Ht Hs [E1 _] Hr [E3 _] Hc|step w1 w2 w' sg2 _ _ [E1 _] Hr [-> _] _ _
  |step w1 w2 w' _ _ [E1 _] Hr [-> _] _
  |step w1 w2 w3 o w' sg2 _ _ [E1 _] Hr [E3 _] Hl Hb Ha]; try done;
  apply (Hretry _ _ _ _ E1) in Hr; rewrite <- E1 in Hst |- *.
1,3,4: by eapply retried_moved.
- pose proof (retried_moved _ _ _ _ _ _ _ _ Hr Hst) as Hm. etrans; [exact Hm|].
  rewrite <- E3. apply StepByName_index in Hs as [_ [i Hi]].
  eapply compensateCascade_moved; [|exact Ht|exact Hi|exact Hc].
  rewrite E3. by eapply (retried_err_stored step (run_context e tx sg)).
- pose proof (retried_moved _ _ _ _ _ _ _ _ Hr Hst) as Hm. etrans; [exact Hm|].
  destruct Hm as [[_ Hm] _]. destruct (Hm tx sg Hst Hsync) as (tx2&sg3&Hst2&_).
  rewrite <- E3 in Hst2 |- *. eapply advanceToConfirmed_moved; [exact Hst2| |exact Ha].
  unfold Mem.LoadSagaState in Hl. rewrite (stored_sg _ _ _ _ Hst2) in Hl. by simplify_eq.
Qed.

Lemma Run_moved e id owner pf fuel : forall (w : W) o w' tx sg,
stored id (w_store w) tx sg -> tx_Status tx = sg_State sg ->
Run env e id owner pf fuel w = (o, w') -> moved id (w_store w) (w_store w').
Proof.
induction fuel as [|fuel IH]; intros w o w' tx sg Hst Hsync Hrun; cbn in Hrun.
{ unfold diverge in Hrun. by simplify_eq. }
unfold bind in Hrun. destruct (run_iter env e id owner pf w) as [o1 w1] eqn:Hi.
apply (run_iter_iterated env e id owner pf w tx sg) in Hi; [|done].
pose proof (iterated_moved _ _ _ _ _ _ _ _ _ Hst Hsync Hi) as Hm.
destruct o1 as [[r|]| |]; try (unfold ret in Hrun; by simplify_eq).
etrans; [exact Hm|]. destruct Hm as [[_ Hm] _].
destruct (Hm tx sg Hst Hsync) as (tx1&sg1&?&?&_). by eapply IH.
Qed.

(** A run on an id with no transaction touches nothing. *)
Lemma Run_unknown e id owner pf fuel (w : W) :
mem_txs (w_store w) !! id = None ->
Run env e id owner pf (Datatypes.S fuel) w = (Returned (Err ErrNotFound), w).
Proof.
intros Hn. cbn. unfold bind at 1, run_iter, bind at 1, reading. cbn.
unfold Mem.LoadTx. by rewrite Hn.
Qed.
End Moves.
