(* ===== verification/CascadeCorrect.v ===== *)
(** What the compensation cascade does to the call log: a capture that
    happened is refunded once, nothing else is touched. *)

From S2P Require Import Prelude StateMachine Store Partner Steps Lease Executor ExecutorFacts.
From S2P Require Import SagaLog StepsCorrect.

Local Open Scope go_scope.

(** The refunds a cascade owes: the captures made, when they carry an id. *)
Definition owed (cs : list string) : list string :=
  List.filter (fun a => negb (bool_decide (a = ""))) cs.

Section Cascade.
Context {P : Type} `{GoStd} (env : nat -> Runtime).
Implicit Types (c : Clients P) (step : StepImpl P) (sc : SagaContext P) (x : Ext P).

(** Only inert calls, all allowed, were made. *)
Definition quietly (t : Transaction) (x x' : Ext P) : Prop :=
exists k, x_calls x' = x_calls x ++ k /\ inert k /\ gated t (x_calls x) k.

#[export] Instance quietly_preorder t : PreOrder (quietly t).
Proof.
split; [intros x; exists []; rewrite app_nil_r; by repeat split; constructor|].
intros x y z (k1&E1&I1&G1) (k2&E2&I2&G2). exists (k1 ++ k2).
rewrite E2, E1, app_assoc. split_and!; [done|by apply Forall_app|].
apply gated_app. by rewrite <- E1.
Qed.

Lemma no_io_quietly t x x' : no_io x x' -> quietly t x x'.
Proof. intros [_ E]. exists []. rewrite app_nil_r. by repeat split; [|constructor]. Qed.

(** A compensation that never fails and only records. *)
Definition harmless step : Prop :=
forall sc x o x', Compensate step sc x = (o, x') ->
o = Returned None /\ quietly (sc_Tx sc) x x'.

Lemma noCompensation_harmless step : Compensate step = noCompensation -> harmless step.
Proof. intros E sc x o x'. rewrite E. intros [= <- <-]. done. Qed.

Lemma broadcast_harmless c : harmless (NewBroadcastStep env (cl_Blockchain c)).
Proof.
intros sc x o x' Hx. cbn in Hx. unfold BroadcastStep_Compensate in Hx.
destruct (sc_Partners sc) as [[? ? ? ? ? ? [au|]]|]; try (by injection Hx as <- <-).
destruct (negb _); [|by injection Hx as <- <-].
unfold bind, runtime, invoke in Hx. cbn in Hx. destruct (Record_ au _ _) as [r p].
injection Hx as <- <-. split; [done|]. eexists [_]. split_and!; [done| |done].
by repeat constructor.
Qed.

Lemma cascaded_harmless sc l1 l2 x o x' :
Forall harmless l1 -> cascaded sc (l1 ++ l2) x o x' ->
exists x1, quietly (sc_Tx sc) x x1 /\ cascaded sc l2 x1 o x'.
Proof.
intros Hl. revert x. induction Hl as [|step l1 Hs Hl IH]; intros x Hc; [by exists x|].
cbn in Hc. inversion Hc as [|? ? ? x1 x2 p Hio Hx|? ? ? x1 x2 x3 err Hio Hx|
  ? ? ? x1 x2 x3 ? ? Hio Hx Hio2 Hc2]; subst;
  apply Hs in Hx as [Ho Hq]; try (by destruct p); try done.
destruct (IH _ Hc2) as (x4&Hq4&Hc4). exists x4. split; [|done].
etrans; [by apply no_io_quietly|]. etrans; [exact Hq|].
etrans; [by apply no_io_quietly|done].
Qed.

(** The compensation of the payment step. *)
Lemma payment_compensate c sc x o x' n :
let id := tx_TxID (sc_Tx sc) in
evidence id n (sg_Payload (sc_Saga sc)) (x_calls x) ->
Compensate (NewPaymentStep (cl_Payment c)) sc x = (o, x') ->
exists cerr k, o = Returned cerr /\ x_calls x' = x_calls x ++ k /\
  gated (sc_Tx sc) (x_calls x) k /\ captures id k = [] /\ broadcasts id k = [] /\
  posts id k = [] /\
  refunds id k = match cerr with None => owed (captures id (x_calls x)) | Some _ => [] end.
Proof.
intros id He Hx. subst id. cbn in Hx. unfold PaymentStep_Compensate in Hx.
destruct (cl_Payment c) as [cp|].
2:{ injection Hx as <- <-. eexists _, []. rewrite app_nil_r. by repeat split. }
pose proof (ev_refund _ _ _ _ He) as Hr.
pose proof (ev_capture _ _ _ _ He) as Hc.
assert (payload_string (sg_Payload (sc_Saga sc)) "capture_id" <> "" \/
        payload_string (sg_Payload (sc_Saga sc)) "auth_id" <> "" ->
        captures (tx_TxID (sc_Tx sc)) (x_calls x) =
          [payload_string (sg_Payload (sc_Saga sc)) "capture_id"] /\
        payload_string (sg_Payload (sc_Saga sc)) "auth_id" ∈
          auths (tx_TxID (sc_Tx sc)) (x_calls x)) as Hcap.
{ intros Hne. destruct (Nat.ltb_spec n 2) as [Hn|Hn].
  - destruct (ev_no_capture _ _ _ _ He Hn) as [??]. by destruct Hne.
  - split; [done|]. by apply (ev_auth _ _ _ _ He). }
unfold bind, invoke in Hx.
case_bool_decide as Hcid; cbn [negb] in Hx; [case_bool_decide as Haid; cbn [negb] in Hx|].
- injection Hx as <- <-. eexists None, []. rewrite app_nil_r.
  split_and!; try done. rewrite Hc, Hcid. by destruct (n <? 2).
- destruct (VoidAuthorization cp _ _) as [r p]. destruct Hcap as [Hcs Ha]; [by right|].
  assert (owed (captures (tx_TxID (sc_Tx sc)) (x_calls x)) = []) as Ho.
  { rewrite Hcs, Hcid. done. }
  destruct r; injection Hx as <- <-; eexists _, [_];
    (split_and!; [done|done|split; [by eexists|done]|done|done|done|by rewrite ?Ho]).
- destruct (Refund cp _ _) as [r p]. destruct Hcap as [Hcs _]; [by left|].
  assert (owed (captures (tx_TxID (sc_Tx sc)) (x_calls x)) =
          [payload_string (sg_Payload (sc_Saga sc)) "capture_id"]) as Ho.
  { rewrite Hcs. cbn. by rewrite bool_decide_eq_false_2. }
  destruct r; injection Hx as <- <-; eexists _, [_];
    (split_and!; [done|done|split; [split; [by eexists|done]|done]|done|done|done|];
     cbn; by rewrite ?Ho, ?mine_self).
Qed.
(** The steps to compensate after the [i]-th one failed: without the
  payment step only when the policy step itself failed. *)
Lemma cascade_split c i :
i < 6 ->
exists l1 l2, Forall harmless l1 /\ Forall harmless l2 /\
  rev (take (S i) (canonical_steps env c)) =
  if i <? 1 then l1 else l1 ++ NewPaymentStep (cl_Payment c) :: l2.
Proof.
intros Hi.
assert (harmless (NewPolicyStep (cl_Policy c))) by by apply noCompensation_harmless.
assert (harmless (NewKytStep (cl_Kyt c))) by by apply noCompensation_harmless.
assert (harmless (NewMpcSignStep (cl_Mpc c))) by by apply noCompensation_harmless.
assert (harmless (NewLedgerStep (cl_Ledger c))) by by apply noCompensation_harmless.
pose proof (broadcast_harmless c).
set (l2 := [NewPolicyStep (cl_Policy c)]).
set (k := NewKytStep (cl_Kyt c)). set (m := NewMpcSignStep (cl_Mpc c)).
set (b := NewBroadcastStep env (cl_Blockchain c)). set (g := NewLedgerStep (cl_Ledger c)).
assert (Forall harmless l2) by by constructor.
destruct i as [|[|[|[|[|[|i]]]]]]; [| | | | | |lia].
- exists l2, []. by split_and!; [|apply Forall_nil_2|].
- exists [], l2. by split_and!; [apply Forall_nil_2|..].
- exists [k], l2. split_and!; [by rewrite !Forall_cons; split_and!|done|done].
- exists [m; k], l2. split_and!; [by rewrite !Forall_cons; split_and!|done|done].
- exists [b; m; k], l2. split_and!; [by rewrite !Forall_cons; split_and!|done|done].
- exists [g; b; m; k], l2. split_and!; [by rewrite !Forall_cons; split_and!|done|done].
Qed.

(** The cascade from the [i]-th step returns, refunds what is owed or
  reports an error, and has no other effect. *)
Lemma cascade_correct c sc x o x' n i :
let id := tx_TxID (sc_Tx sc) in
evidence id n (sg_Payload (sc_Saga sc)) (x_calls x) ->
i < 6 -> (i = 0 -> n < 2) ->
cascaded sc (rev (take (S i) (canonical_steps env c))) x o x' ->
exists cerr k, o = Returned cerr /\ x_calls x' = x_calls x ++ k /\
  gated (sc_Tx sc) (x_calls x) k /\ captures id k = [] /\ broadcasts id k = [] /\
  posts id k = [] /\
  refunds id k = match cerr with None => owed (captures id (x_calls x)) | Some _ => [] end.
Proof.
intros id He Hi Hn Hc. destruct (cascade_split c i Hi) as (l1&l2&Hl1&Hl2&Heq).
rewrite Heq in Hc. clear Heq.
destruct (Nat.ltb_spec i 1).
{ rewrite <- (app_nil_r l1) in Hc.
  destruct (cascaded_harmless _ _ _ _ _ _ Hl1 Hc) as (x1&(k&Hk&Hin&Hg)&Hnil).
  inversion Hnil; subst. destruct (inert_nil id k Hin) as (_&_&?&?&_&_&?&?).
  exists None, k. split_and!; try done.
  rewrite (ev_capture _ _ _ _ He), (proj2 (Nat.ltb_lt n 2)); [done|]. apply Hn. lia. }
destruct (cascaded_harmless _ _ _ _ _ _ Hl1 Hc) as (x1&(k1&Hk1&Hin1&Hg1)&Hc1).
pose proof (evidence_inert _ _ _ _ _ He Hin1) as He1. rewrite <- Hk1 in He1.
destruct (inert_nil id k1 Hin1) as (_&_&Ic1&Ir1&_&_&Ib1&Ip1).
assert (captures id (x_calls x1) = captures id (x_calls x)) as Hcap.
{ rewrite Hk1, captures_app. by rewrite Ic1, app_nil_r. }
(* the payment step, then the harmless rest *)
assert (exists x2 x3 cerr, no_io x1 x2 /\
  Compensate (NewPaymentStep (cl_Payment c)) sc x2 = (Returned cerr, x3) /\
  o = Returned cerr /\ quietly (sc_Tx sc) x3 x') as (x2&x3&cerr&Hio&Hpay&->&Hq).
{ inversion Hc1 as [|? ? ? y1 y2 p Hio Hx|? ? ? y1 y2 y3 err Hio Hx Hio2|
    ? ? ? y1 y2 y3 ? ? Hio Hx Hio2 Hc2]; subst.
  - assert (evidence id n (sg_Payload (sc_Saga sc)) (x_calls y1)) as He2.
    { destruct Hio as [_ ->]. done. }
    destruct (payment_compensate c sc y1 _ _ n He2 Hx) as (?&?&Hbad&_). by destruct p.
  - exists y1, y2, (Some err). split_and!; [done|done|done|by apply no_io_quietly].
  - exists y1, y2, None. rewrite <- (app_nil_r l2) in Hc2.
    destruct (cascaded_harmless _ _ _ _ _ _ Hl2 Hc2) as (y4&Hq4&Hnil).
    inversion Hnil; subst. split_and!; [done|done|done|].
    etrans; [by apply no_io_quietly|done]. }
assert (x_calls x2 = x_calls x1) as E2 by apply Hio.
assert (evidence id n (sg_Payload (sc_Saga sc)) (x_calls x2)) as He2 by by rewrite E2.
destruct (payment_compensate c sc x2 _ _ n He2 Hpay)
  as (cerr'&k2&[= <-]&Hk2&Hg2&Hc2&Hb2&Hp2&Hr2).
destruct Hq as (k3&Hk3&Hin3&Hg3).
destruct (inert_nil id k3 Hin3) as (_&_&Ic3&Ir3&_&_&Ib3&Ip3).
fold id in Hc2, Hb2, Hp2, Hr2.
exists cerr, (k1 ++ k2 ++ k3). split_and!; [done|..].
- by rewrite Hk3, Hk2, E2, Hk1, <- !app_assoc.
- rewrite !gated_app. rewrite <- Hk1, <- E2. split_and!; [done|done|]. by rewrite <- Hk2.
- by rewrite !captures_app, Ic1, Hc2, Ic3.
- by rewrite !broadcasts_app, Ib1, Hb2, Ib3.
- by rewrite !posts_app, Ip1, Hp2, Ip3.
- rewrite !refunds_app, Ir1, Hr2, Ir3, app_nil_r, E2, Hcap. done.
Qed.
End Cascade.
