(* ===== verification/Attempting.v ===== *)
(** The invariant of a saga driven by the six canonical steps (its records,
    its step rows and the call log agree, whatever the partners answer), and
    its preservation by one attempt of a step and by the retry loop. *)

From S2P Require Import Prelude StateMachine Store Partner Steps Lease Executor ExecutorFacts.
From S2P Require Import RunFacts Legality SagaLog StepsCorrect CascadeCorrect.

Local Open Scope go_scope.

(** The step a saga in a given state executes next. *)
Definition step_at (st : State) : option Step :=
  match st with
  | StateCreated => Some StepPolicy
  | StatePolicyChecked => Some StepPayment
  | StatePaymentCaptured => Some StepKyt
  | StateKytScreened => Some StepMpcSign
  | StateSigned => Some StepBroadcast
  | StateBroadcasted | StateConfirmed => Some StepLedger
  | _ => None
  end.

(** The position of a step in the canonical order. *)
Definition step_pos (k : Step) : nat :=
  match k with
  | StepPolicy => 0 | StepPayment => 1 | StepKyt => 2 | StepMpcSign => 3
  | StepBroadcast => 4 | StepLedger => 5 | StepOther _ => 6
  end.

(** No attempt of [k] or of a later step has succeeded yet. *)
Definition pending_from (id : string) (s : MemStore) (k : Step) : Prop :=
  forall k' a r, step_pos k <= step_pos k' -> row_of s id k' a = Some r ->
  row_Status r <> StepSucceeded.

(** The same from attempt [a] of [k] on. *)
Definition pending_at (id : string) (s : MemStore) (k : Step) (a : Z) : Prop :=
  forall k' a' r, step_pos k < step_pos k' \/ (k' = k /\ (a <= a')%Z) ->
  row_of s id k' a' = Some r -> row_Status r <> StepSucceeded.

(** A saga in progress. *)
Record on_track (id : string) (sg : SagaState) (s : MemStore) (l : list Call) : Prop := {
  ot_step : step_at (sg_State sg) = Some (sg_CurrentStep sg);
  ot_evidence : evidence id (rank (sg_State sg)) (sg_Payload sg) l;
  ot_journal : payload_string (sg_Payload sg) "ledger_journal_id" = "";
  ot_posts : posts id l = [];
  ot_rows : pending_from id s (sg_CurrentStep sg);
}.

(** What a terminal state says about the money. *)
Definition final (id : string) (st : State) (l : list Call) : Prop :=
  match st with
  | StateCompleted =>
      passes id l <> [] /\ (exists cap, captures id l = [cap]) /\ clears id l <> [] /\
      (exists h, broadcasts id l = [h] /\ confirmed h l) /\ (exists j, posts id l = [j]) /\
      refunds id l = []
  | StateFailedCompensated =>
      refunds id l = owed (captures id l) /\ length (captures id l) <= 1 /\
      length (broadcasts id l) <= 1
  | _ =>
      refunds id l = [] /\ length (captures id l) <= 1 /\ length (broadcasts id l) <= 1
  end.

Definition settled (id : string) (sg : SagaState) (s : MemStore) (l : list Call) : Prop :=
  if Terminal (sg_State sg) then final id (sg_State sg) l else on_track id sg s l.

Lemma step_at_starts st k : step_at st = Some k -> starts k (rank st).
Proof. destruct st; intros; simplify_eq/=; auto. Qed.

Lemma step_at_not_terminal st k : step_at st = Some k -> Terminal st = false.
Proof. by destruct st. Qed.

Lemma step_at_rank st k : step_at st = Some k -> rank st <= 6.
Proof. destruct st; intros; simplify_eq/=; lia. Qed.

Lemma evidence_lengths id n p l :
  evidence id n p l -> length (captures id l) <= 1 /\ length (broadcasts id l) <= 1.
Proof.
  intros He. rewrite (ev_capture _ _ _ _ He), (ev_broadcast _ _ _ _ He).
  destruct (n <? 2), (n <? 5); cbn; lia.
Qed.

Lemma owed_sublist cs : owed cs `sublist_of` cs.
Proof.
  induction cs as [|a cs IH]; cbn; [constructor|].
  destruct (negb _); by constructor.
Qed.

(** Wherever a saga is, no effect happened twice. *)
Lemma settled_once id sg s l :
  settled id sg s l ->
  length (captures id l) <= 1 /\ length (broadcasts id l) <= 1 /\
  refunds id l `sublist_of` captures id l.
Proof.
  unfold settled. destruct (Terminal (sg_State sg)) eqn:Ht.
  - destruct (sg_State sg); try done; unfold final.
    + intros (_&[cap ->]&_&(h&->&_)&_&->). cbn. split_and!; [lia|lia|apply sublist_nil_l].
    + intros (->&?&?). split_and!; [done|done|apply owed_sublist].
    + intros (->&?&?). split_and!; [done|done|apply sublist_nil_l].
  - intros [_ He _ _ _]. destruct (evidence_lengths _ _ _ _ He) as [??].
    rewrite (ev_refund _ _ _ _ He). split_and!; [done|done|apply sublist_nil_l].
Qed.

Lemma pending_from_at id s k a : pending_from id s k -> pending_at id s k a.
Proof. intros Hp k' a' r [Hlt|[-> _]]; apply Hp; lia. Qed.

(** A write to the row of attempt [a] leaves the later ones. *)
Lemma pending_write id s s' k a row :
  pending_at id s k a -> row_keyed row id k a -> rows_set row s s' ->
  pending_at id s' k (a + 1).
Proof.
  intros Hp Hk Hs k' a' r Hk' Hr.
  rewrite (rows_set_other _ _ _ _ _ _ id k' a' Hs Hk) in Hr.
  - eapply (Hp k' a' r); [|done]. destruct Hk' as [?|[-> ?]]; [by left|right; split; [done|lia]].
  - intros [= <- <-]. destruct Hk' as [?|[_ ?]]; lia.
Qed.

Lemma pending_next id s s' k k' a row :
  pending_at id s k a -> row_keyed row id k a -> rows_set row s s' ->
  step_pos k < step_pos k' -> pending_from id s' k'.
Proof.
  intros Hp Hk Hs Hlt k2 a2 r Hle Hr.
  rewrite (rows_set_other _ _ _ _ _ _ id k2 a2 Hs Hk) in Hr.
  - eapply (Hp k2 a2 r); [left; lia|done].
  - intros [= <- <-]. lia.
Qed.

Section Inv.
Context {P L : Type} `{GoStd} `{LeaseManager L} (env : nat -> Runtime).
Implicit Types (step : StepImpl P) (sc : SagaContext P).
Local Abbreviation W := (World MemStore P L).

(** The records are in a state of rank at least [n] and the saga is sound
  there. *)
Definition advanced (n : nat) (id : string) (tx : Transaction) (w : W) : Prop :=
exists sg st v u, stored id (w_store w) (tx_with_status tx st v u) sg /\
  sg_State sg = st /\ n <= rank st /\ settled id sg (w_store w) (x_calls (w_ext w)).

(** What holds between two attempts of a step. *)
Record attempting (step : StepImpl P) (sc : SagaContext P) (a : Z) (w : W) : Prop := {
at_executes : executes step;
at_step : step_at (sg_State (sc_Saga sc)) = Some (Name step);
at_stored : stored (tx_TxID (sc_Tx sc)) (w_store w) (sc_Tx sc) (sc_Saga sc);
at_evidence : evidence (tx_TxID (sc_Tx sc)) (rank (sg_State (sc_Saga sc)))
                (sg_Payload (sc_Saga sc)) (x_calls (w_ext w));
at_journal : payload_string (sg_Payload (sc_Saga sc)) "ledger_journal_id" = "";
at_posts : posts (tx_TxID (sc_Tx sc)) (x_calls (w_ext w)) = [] \/
           sg_State (sc_Saga sc) = StateBroadcasted;
at_rows : pending_at (tx_TxID (sc_Tx sc)) (w_store w) (Name step) a;
}.

(** The snapshot a success leaves, when it is not the last step. *)
Lemma saga_after_next step sc res :
step_at (sg_State (sc_Saga sc)) = Some (Name step) -> Name step <> StepLedger ->
res_Terminal res = false -> StateForStep (Name step) = Some (res_State res) ->
exists next, saga_after step sc res =
    sg_advance (sc_Saga sc) next (res_State res)
      (mergePayload (sg_Payload (sc_Saga sc)) (res_PayloadMerge res))
      (sg_Version (sc_Saga sc) + 1)%Z /\
  step_at (res_State res) = Some next /\ step_pos (Name step) < step_pos next /\
  rank (res_State res) = S (rank (sg_State (sc_Saga sc))) /\
  validatePath (sg_State (sc_Saga sc)) (res_State res) (res_State res) = None.
Proof.
intros Hat Hne Ht Hs. unfold saga_after. rewrite Ht.
destruct (sg_State (sc_Saga sc)); cbn in Hat; simplify_eq; rewrite <- Hat in Hs, Hne |- *;
  cbn in Hs; simplify_eq; rewrite <- Hs; try done;
  (eexists; split; [done|]; split_and!; [done|cbn; lia|done|done]).
Qed.

Lemma only_audit_quietly (t : Transaction) (x x' : Ext P) :
only_audit (tx_TxID t) x x' -> quietly t x x'.
Proof.
intros (l&E&Hl). exists l. split; [done|]. clear E.
generalize (x_calls x). induction Hl as [|c l Hc Hl IH]; intros seen.
- split; [constructor|done].
- destruct (IH (seen ++ [c])) as [Hi Hg]. destruct c; try done.
  split; [by constructor|by split].
Qed.

(** The calls around an execution, as one extension of the log. *)
Lemma around (t : Transaction) (x x1 x2 x' : Ext P) (k : list Call) :
no_io x x1 -> x_calls x2 = x_calls x1 ++ k -> gated t (x_calls x1) k ->
quietly t x2 x' ->
exists k', x_calls x' = (x_calls x ++ k) ++ k' /\ inert k' /\ calls_ok t x x'.
Proof.
intros [_ E1] E2 Hg (k'&E3&Hi&Hg'). rewrite E1 in *.
exists k'. split_and!; [by rewrite E3, E2|done|].
exists (k ++ k'). split; [by rewrite E3, E2, app_assoc|].
apply gated_app. split; [done|]. by rewrite <- E2.
Qed.

(** A failed attempt keeps what the next one needs. *)
Lemma attempting_again step sc (w w' : W) row (k k' : list Call) :
let id := tx_TxID (sc_Tx sc) in
attempting step sc (sc_Attempt sc) w ->
row_keyed row id (Name step) (sc_Attempt sc) -> rows_set row (w_store w) (w_store w') ->
tables_kept (w_store w) (w_store w') ->
x_calls (w_ext w') = (x_calls (w_ext w) ++ k) ++ k' -> inert k' ->
evidence id (rank (sg_State (sc_Saga sc))) (sg_Payload (sc_Saga sc)) (x_calls (w_ext w) ++ k) ->
posts id k = [] \/ sg_State (sc_Saga sc) = StateBroadcasted ->
attempting step sc (sc_Attempt sc + 1)%Z w'.
Proof.
intros id [Hex Hat Hst He Hj Hp Hr] Hk Hrows Htab Hx Hi He' Hp'.
split; try done.
- by eapply stored_kept.
- rewrite Hx. by apply evidence_inert.
- destruct Hp as [Hp|?]; [|by right]. destruct Hp' as [Hp'|?]; [|by right]. left.
  rewrite Hx, !posts_app. fold id in Hp |- *. rewrite Hp, Hp'.
  by destruct (inert_nil id k' Hi) as (_&_&_&_&_&_&_&->).
- by eapply pending_write.
Qed.

(** A terminal answer: the policy denied, or the ledger refused for good. *)
Lemma answered_final id n p (l k : list Call) name res err :
answered id name n p l k res (Some err) -> res_Terminal res = true -> starts name n ->
Terminal (res_State res) = true /\ final id (res_State res) (l ++ k).
Proof.
intros (He&_&Hst&Hname) Ht Hn. rewrite (Hst Ht).
pose proof (evidence_lengths _ _ _ _ He) as [Hc Hb].
destruct (Hname Ht) as [-> | ->].
- rewrite bool_decide_eq_true_2 by done. cbn in Hn. subst n.
  split; [done|]. split_and!; [|done|done].
  by rewrite (ev_refund _ _ _ _ He), (ev_capture _ _ _ _ He).
- rewrite bool_decide_eq_false_2 by done. split; [done|].
  split_and!; [by rewrite (ev_refund _ _ _ _ He)|done|done].
Qed.

Lemma final_inert id st (l k : list Call) : inert k -> final id st l -> final id st (l ++ k).
Proof.
intros Hi. destruct (inert_nil id k Hi) as (E1&E2&E3&E4&E5&E6&E7&E8).
unfold final. autorewrite with proj. rewrite E1, E3, E4, E5, E7, E8, !app_nil_r.
destruct st; try done. intros (?&?&?&(h&?&?)&?&?). split_and!; try done.
exists h. split; [done|]. apply confirmed_app. by left.
Qed.

(** The records after a success or a terminal answer. *)
Lemma advanced_intro n id tx (w w' : W) sg sg' st v now :
stored id (w_store w) tx sg -> sg_TxID sg' = id -> sg_State sg' = st -> n <= rank st ->
tables_set id (tx_with_status tx st v now) sg' (w_store w) (w_store w') ->
settled id sg' (w_store w') (x_calls (w_ext w')) ->
advanced n id tx w'.
Proof.
intros [Htx Hsg Hid Hgid] Hid' Hst Hn [E1 E2] Hset. exists sg', st, v, now.
split; [|by split_and!]. split; [rewrite E1; apply lookup_insert_eq|
  rewrite E2; apply lookup_insert_eq|done|done].
Qed.

(** The last step completes the saga when the confirmation was stored, and
  is refused when it was not. *)
Lemma saga_after_ledger step sc res :
Name step = StepLedger -> res_Terminal res = false -> res_State res = StateLedgered ->
sg_State (saga_after step sc res) = StateCompleted /\
sg_TxID (saga_after step sc res) = sg_TxID (sc_Saga sc).
Proof. intros Hn Ht Hs. unfold saga_after. rewrite Ht, Hn, Hs. done. Qed.

Lemma evidence_completed id p (l k : list Call) j :
evidence id 6 p (l ++ k) -> posts id l = [] -> posts id k = [j] ->
final id StateCompleted (l ++ k).
Proof.
intros [E1 E2 _ _ E5 _ E7 _ E9 E10] Hl Hk. split_and!.
- apply E1. lia.
- rewrite E2. by eexists.
- apply E5. lia.
- rewrite E7. eexists. split; [done|]. apply E9. lia.
- rewrite posts_app, Hl, Hk. by eexists.
- done.
Qed.

(** What the implementation of the step answers on the way. *)
Lemma attempting_run step sc a (w : W) x1 o x2 :
attempting step sc a w -> no_io (w_ext w) x1 -> Execute step sc x1 = (o, x2) ->
executed (Name step) sc (rank (sg_State (sc_Saga sc))) x1 o x2.
Proof.
intros [Hex Hat _ He Hj _ _] [_ Hx1] Hx.
eapply Hex; [by apply step_at_starts|by rewrite Hx1|exact Hj|exact Hx].
Qed.

(** A success whose path of states is legal moves the saga on. *)
Lemma success_advanced step sc (w : W) x1 x2 w' res row now :
attempting step sc (sc_Attempt sc) w -> no_io (w_ext w) x1 ->
Execute step sc x1 = (Returned (res, None), x2) ->
validatePath (sg_State (sc_Saga sc)) (res_State res) (sg_State (saga_after step sc res)) = None ->
row_keyed row (tx_TxID (sc_Tx sc)) (Name step) (sc_Attempt sc) ->
rows_set row (w_store w) (w_store w') ->
tables_set (tx_TxID (sc_Tx sc))
  (tx_with_status (sc_Tx sc) (sg_State (saga_after step sc res)) (tx_Version (sc_Tx sc) + 1) now)
  (saga_after step sc res) (w_store w) (w_store w') ->
no_io x2 (w_ext w') ->
calls_ok (sc_Tx sc) (w_ext w) (w_ext w') /\
advanced (S (rank (sg_State (sc_Saga sc)))) (tx_TxID (sc_Tx sc)) (sc_Tx sc) w'.
Proof.
intros Hatt Hio Hx Hv Hk Hrows Htab Hq.
destruct (attempting_run _ _ _ _ _ _ _ Hatt Hio Hx) as (res'&err'&k&[= <- <-]&Hk1&Hg&(Ht&Hsf&Ha)).
destruct (around _ _ _ _ _ _ Hio Hk1 Hg (no_io_quietly _ _ _ Hq)) as (k'&Hk'&Hi&Hok).
destruct Hatt as [Hex Hat Hst He Hj Hp Hr]. set (id := tx_TxID (sc_Tx sc)) in *.
split; [done|]. rewrite (proj2 Hio) in Ha.
case_bool_decide as Hn.
- rewrite Hn in Hsf, Hat. cbn in Hsf. injection Hsf as Hsf.
  destruct (saga_after_ledger step sc res Hn Ht (eq_sym Hsf)) as [Hc Hid'].
  destruct Ha as (He'&j&Hj'). rewrite <- Hsf, Hc in Hv.
  eapply advanced_intro; [exact Hst|..|exact Htab|];
    [rewrite Hid'; apply Hst|done|rewrite Hc; pose proof (step_at_rank _ _ Hat); cbn; lia|].
  unfold settled. rewrite Hc. cbn [Terminal]. rewrite Hk'. apply final_inert; [done|].
  destruct (sg_State (sc_Saga sc)) eqn:E; try done.
  destruct Hp as [Hp|]; [|done]. by eapply evidence_completed.
- destruct (saga_after_next step sc res Hat Hn Ht Hsf) as (next&Heq&Hat'&Hpos&Hrank&_).
  destruct Ha as (He'&Hj'&Hp'). rewrite Heq in Htab.
  eapply advanced_intro; [exact Hst|..|exact Htab|]; [apply Hst|done|by rewrite <- Hrank|].
  unfold settled. cbn [sg_State sg_advance]. rewrite (step_at_not_terminal _ _ Hat').
  split; cbn; [done| |done| |by eapply pending_next].
  + rewrite Hk', Hrank. by apply evidence_inert.
  + destruct (inert_nil id k' Hi) as (_&_&_&_&_&_&_&Hp3).
    fold id in Hp'. rewrite Hk', !posts_app, Hp', Hp3, !app_nil_r.
    destruct Hp as [Hp|Hb]; [done|]. rewrite Hb in Hat. cbn in Hat. by simplify_eq.
Qed.

(** A success whose path is not legal can only be the ledger's: the attempt
    failed. *)
Lemma illegal_attempting step sc (w : W) x1 x2 w' res terr row :
attempting step sc (sc_Attempt sc) w -> no_io (w_ext w) x1 ->
Execute step sc x1 = (Returned (res, None), x2) ->
validatePath (sg_State (sc_Saga sc)) (res_State res) (sg_State (saga_after step sc res)) = Some terr ->
row_keyed row (tx_TxID (sc_Tx sc)) (Name step) (sc_Attempt sc) ->
rows_set row (w_store w) (w_store w') -> tables_kept (w_store w) (w_store w') ->
no_io x2 (w_ext w') ->
calls_ok (sc_Tx sc) (w_ext w) (w_ext w') /\ attempting step sc (sc_Attempt sc + 1)%Z w'.
Proof.
intros Hatt Hio Hx Hv Hk Hrows Htab Hq.
destruct (attempting_run _ _ _ _ _ _ _ Hatt Hio Hx) as (res'&err'&k&[= <- <-]&Hk1&Hg&(Ht&Hsf&Ha)).
destruct (around _ _ _ _ _ _ Hio Hk1 Hg (no_io_quietly _ _ _ Hq)) as (k'&Hk'&Hi&Hok).
pose proof Hatt as [_ Hat _ _ _ _ _]. split; [done|]. rewrite (proj2 Hio) in Ha.
case_bool_decide as Hn.
- destruct Ha as (He'&j&Hj').
  eapply attempting_again; [done|exact Hk|done|done|exact Hk'|done|done|].
  right. rewrite Hn in Hsf, Hat. cbn in Hsf. injection Hsf as Hsf.
  destruct (saga_after_ledger step sc res Hn Ht (eq_sym Hsf)) as [Hc _].
  rewrite <- Hsf, Hc in Hv. by destruct (sg_State (sc_Saga sc)).
- exfalso. destruct (saga_after_next step sc res Hat Hn Ht Hsf) as (next&Heq&_&_&_&Hv').
  rewrite Heq in Hv. cbn in Hv. congruence.
Qed.

(** One attempt: it stays within its gates; a success moves the saga on, a
  failure keeps everything the next attempt needs. *)
Lemma once_correct step sc (w : W) o w' :
attempting step sc (sc_Attempt sc) w -> once step sc w o w' ->
calls_ok (sc_Tx sc) (w_ext w) (w_ext w') /\
match o with
| Returned (Ok _) =>
    advanced (S (rank (sg_State (sc_Saga sc)))) (tx_TxID (sc_Tx sc)) (sc_Tx sc) w'
| Returned (Err _) => attempting step sc (sc_Attempt sc + 1)%Z w'
| _ => False
end.
Proof.
intros Hatt. pose proof (fun x1 o x2 => attempting_run step sc _ w x1 o x2 Hatt) as Hrun.
pose proof Hatt as [_ Hat Hst _ _ _ Hr]. pose proof (step_at_starts _ _ Hat) as Hstarts.
destruct 1 as [w' r Hrow Hs E Hio _ | x1 x2 w' p row Hio Hx
  | x1 x2 w' res err row Hio Hx Hterm Hk Hs Hrows Htab Hq _
  | x1 x2 w' res err row sg' now Hio Hx Hterm Htr Hk Hs Hrows Hst' Hid' Hp' Htab Hq _
  | x1 x2 w' res err terr row Hio Hx Hterm Htr
  | x1 x2 w' res row now Hio Hx Hv Hk Hs Hrows Htab Hq _
  | x1 x2 w' res err terr pre row Hio Hx Hv -> Hk Hs Hrows Htab Hq _].
- exfalso. eapply Hr; [|exact Hrow|done]. right. split; [done|lia].
- destruct (Hrun _ _ _ Hio Hx) as (?&?&?&Hbad&_). by destruct p.
- destruct (Hrun _ _ _ Hio Hx) as (res'&err'&k&[= <- <-]&Hk1&Hg&Ha).
  destruct (around _ _ _ _ _ _ Hio Hk1 Hg (only_audit_quietly _ _ _ Hq))
    as (k'&Hk'&Hi&Hok).
  split; [done|]. eapply attempting_again; [done|exact Hk|done|done|exact Hk'|done|..].
  + destruct Hio as [_ <-]. apply Ha.
  + left. apply Ha.
- destruct (Hrun _ _ _ Hio Hx) as (res'&err'&k&[= <- <-]&Hk1&Hg&Ha).
  destruct (around _ _ _ _ _ _ Hio Hk1 Hg (no_io_quietly _ _ _ Hq))
    as (k'&Hk'&Hi&Hok).
  split; [done|]. destruct (answered_final _ _ _ _ _ _ _ _ Ha Hterm Hstarts) as [Ht Hf].
  eapply advanced_intro; [exact Hst| |done| |exact Htab|].
  + rewrite Hid'. apply Hst.
  + pose proof (step_at_rank _ _ Hat). by destruct (res_State res); try done; cbn; lia.
  + unfold settled. rewrite Hst', Ht, Hk'. apply final_inert; [done|].
    destruct Hio as [_ <-]. done.
- destruct (Hrun _ _ _ Hio Hx) as (res'&err'&k&[= <- <-]&Hk1&Hg&Ha).
  exfalso. destruct (answered_final _ _ _ _ _ _ _ _ Ha Hterm Hstarts) as [Ht _].
  destruct Ha as (_&_&Hst'&_). rewrite (Hst' Hterm) in Htr.
  pose proof (step_at_not_terminal _ _ Hat) as Hnt.
  rewrite legal_Transition in Htr; [done|].
  apply legal_fail; [done|]. by case_bool_decide.
- by eapply success_advanced.
- by eapply illegal_attempting.
Qed.
Lemma attempting_with step sc a a' (w : W) :
attempting step (with_attempt sc a') a w <-> attempting step sc a w.
Proof. by split; intros []; split. Qed.

(** The retry loop: a success moved the saga on, and after anything else the
  records are as they were. *)
Lemma retried_correct step sc n a (w : W) o w' :
retried step sc n a w o w' -> attempting step sc a w ->
calls_ok (sc_Tx sc) (w_ext w) (w_ext w') /\
match o with
| Returned (Ok _) =>
    advanced (S (rank (sg_State (sc_Saga sc)))) (tx_TxID (sc_Tx sc)) (sc_Tx sc) w'
| Diverged => False
| _ => stored (tx_TxID (sc_Tx sc)) (w_store w') (sc_Tx sc) (sc_Saga sc) /\
       evidence (tx_TxID (sc_Tx sc)) (rank (sg_State (sc_Saga sc)))
         (sg_Payload (sc_Saga sc)) (x_calls (w_ext w'))
end.
Proof.
induction 1 as [a w err|n a w w' Ho|n a w p w' Ho|n a w w1 o w' err Ho (Es&[_ Ex]&_) Hout|
  n a w w1 w2 o w' err Ho _ (Es&[Ep Ex]&_) Hr IH]; intros Hat.
{ split; [done|]. split; apply Hat. }
all: apply (once_correct step (with_attempt sc a)) in Ho as [Hok Hres];
  [|by apply attempting_with].
- done.
- by destruct p.
- split; [destruct Hok as (l&?&?); exists l; by rewrite Ex|].
  apply (attempting_with step sc (a + 1) a w1) in Hres. destruct Hres as [_ _ Hst He _ _ _].
  destruct Hout as [-> |[err' ->]]; by rewrite Es, Ex.
- assert (attempting step sc (a + 1) w2) as Hat2.
  { apply (attempting_with step sc (a + 1) a w1) in Hres. destruct Hres.
    split; try done; by rewrite ?Es, ?Ex. }
  destruct (IH Hat2) as [Hok2 Hres2]. split; [|done].
  etrans; [exact Hok|]. destruct Hok2 as (l&?&?). exists l. by rewrite <- Ex.
Qed.
End Inv.
