(* ===== verification/Returns.v ===== *)
(** The loops of the executor return: the back-off does not panic, the retry
    loop is bounded, polling stops when the context does. *)

From S2P Require Import Prelude StateMachine Store Partner Steps Lease Executor SagaLog.
From S2P Require Import StepsCorrect ExecutorFacts RunFacts Attempting.

Local Open Scope go_scope.

(** ** The back-off delay *)

Section Backoff.
Local Open Scope Z_scope.

Lemma backoff_delay_bounds cfg a :
1 <= a -> BaseBackoff cfg <> 1 -> MaxBackoff cfg <> 1 ->
2 <= backoff_delay cfg a <= (if MaxBackoff cfg <=? 0 then 10 * Second else MaxBackoff cfg).
Proof.
intros Ha Hb Hm. unfold backoff_delay, Second, Millisecond.
assert (1 <= 2 ^ (a - 1)) by (apply (Z.pow_le_mono_r 2 0); lia).
destruct (Z.leb_spec (BaseBackoff cfg) 0), (Z.leb_spec (MaxBackoff cfg) 0); nia.
Qed.

(** The delay doubles with every attempt until it reaches the cap. *)
Lemma backoff_delay_mono cfg a : 1 <= a -> backoff_delay cfg a <= backoff_delay cfg (a + 1).
Proof.
intros Ha. unfold backoff_delay. replace (a + 1 - 1) with (a - 1 + 1) by lia.
rewrite Z.pow_add_r by lia. assert (0 < 2 ^ (a - 1)) by (apply Z.pow_pos_nonneg; lia).
apply Z.min_le_compat_r.
destruct (Z.leb_spec (BaseBackoff cfg) 0); unfold Millisecond; nia.
Qed.

Lemma backoff_delay_pos cfg a :
1 <= a -> BaseBackoff cfg <> 1 -> MaxBackoff cfg <> 1 ->
0 < Z.quot (backoff_delay cfg a) 2.
Proof.
intros Ha Hb Hm. destruct (backoff_delay_bounds cfg a Ha Hb Hm) as [Hd _].
assert (Z.quot 2 2 <= Z.quot (backoff_delay cfg a) 2) by (apply Z.quot_le_mono; lia).
change (Z.quot 2 2) with 1 in *. lia.
Qed.

(** [int64] is the identity on the range of the type. *)
Lemma int64_id z : - 2 ^ 63 <= z < 2 ^ 63 -> int64 z = z.
Proof. intros ?. unfold int64. rewrite Z.mod_small; lia. Qed.
End Backoff.

Section Returns.
Context {P L : Type} `{GoStd} `{LeaseManager L} (env : nat -> Runtime).
Implicit Types (step : StepImpl P) (sc : SagaContext P) (e : Executor P).
Local Abbreviation W := (World MemStore P L).

(** The delays of the configuration are not the single value that makes
  [rand.Int63n] panic. *)
Definition delays_ok (cfg : Config) : Prop := BaseBackoff cfg <> 1%Z /\ MaxBackoff cfg <> 1%Z.

(** The lease manager grants every lease. *)
Definition grants : Prop :=
forall id owner ttl l, granted (Acquire id owner ttl l) = true.

(** The context ends within [pf] waits, whenever one starts to wait. *)
Definition expires (pf : nat) : Prop :=
forall k, exists i, i < pf /\ rt_ctx (env (k + i)) <> None.

Lemma backoff_returns e a (w : W) :
(1 <= a)%Z -> delays_ok (ex_Cfg e) ->
exists d w', backoff env e a w = (Returned d, w') /\ quiet w w'.
Proof.
intros Ha [Hb Hm]. unfold backoff.
destruct (Z.leb_spec (Z.quot (backoff_delay (ex_Cfg e) a) 2) 0) as [Hle|].
- pose proof (backoff_delay_pos _ _ Ha Hb Hm). lia.
- by eexists _, _.
Qed.

Lemma retry_loop_returns e step sc n : forall a last (w : W),
(1 <= a)%Z -> delays_ok (ex_Cfg e) -> attempting step sc a w ->
exists r w', retry_loop env e step sc n a last w = (Returned r, w').
Proof.
induction n as [|n IH]; intros a last w Ha Hd Hat; cbn.
{ by eexists _, _. }
destruct (runStepOnce env e step (with_attempt sc a) w) as [o1 w1] eqn:Ho.
pose proof (runStepOnce_once env e step (with_attempt sc a) w o1 w1
  (at_stored _ _ _ _ Hat) Ho) as Honce.
apply (once_correct step (with_attempt sc a)) in Honce as [_ Hres]; [|by apply attempting_with].
destruct o1 as [[u|err]| |]; [..|done|done].
- rewrite (bind_returned _ _ _ _ _ Ho). by eexists _, _.
- rewrite (bind_returned _ _ _ _ _ Ho).
  destruct (_ || _); [by eexists _, _|].
  destruct (backoff_returns e a w1 Ha Hd) as (d&w2&Hb&Hq2).
  rewrite (bind_returned _ _ _ _ _ Hb).
  destruct (wait_or_done_spec env w2) as (w3&Hw&Hq3).
  rewrite (bind_returned _ _ _ _ _ Hw).
  destruct (rt_ctx _); [by eexists _, _|]. apply IH; [lia|done|].
  apply (attempting_with step sc _ a) in Hres. destruct Hres.
  destruct Hq2 as (E2&[_ X2]&_), Hq3 as (E3&[_ X3]&_).
  split; try done; by rewrite ?E3, ?X3, ?E2, ?X2.
Qed.

Lemma poll_confirmed_returns client id h tx sg fuel : forall (w : W),
stored id (w_store w) tx sg -> sg_State sg = StateBroadcasted ->
(exists i, i < fuel /\ rt_ctx (env (x_tick (w_ext w) + i)) <> None) ->
exists r w', poll_confirmed env client id h sg fuel w = (Returned r, w').
Proof.
induction fuel as [|fuel IH]; intros w Hst Hb (i&Hi&Hctx); [lia|]. cbn.
unfold bind at 1, in_ext, zoom, invoke.
destruct (Status client h (x_partners (w_ext w))) as [r p] eqn:Hs. cbn.
set (w1 := set_ext _ w).
destruct (match r with Ok st => Confirmed st | Err _ => false end).
- destruct (persistConfirmedInline_spec env tx sg id w1) as (w2&now&E&_); [done..|].
  rewrite E. by eexists _, _.
- unfold bind, wait_or_done, in_ext, zoom, runtime, bind. cbn.
  destruct (rt_ctx (env (x_tick (w_ext w)))) as [cerr|] eqn:Hc; [by eexists _, _|].
  apply IH; [done|done|]. destruct i as [|i]; [by rewrite Nat.add_0_r in Hctx|].
  exists i. split; [lia|]. cbn. by rewrite <- plus_n_Sm in Hctx.
Qed.

Lemma advanceToConfirmed_returns e id pf tx sg (w : W) :
stored id (w_store w) tx sg -> sg_State sg = StateBroadcasted -> expires pf ->
exists r w', advanceToConfirmed env e id pf w = (Returned r, w').
Proof.
intros Hst Hb Hexp. unfold advanceToConfirmed.
destruct (ex_Clients e) as [[? ? ? ? [client|] ? ?]|]; try by eexists _, _.
unfold bind_err, bind, reading. cbn. unfold Mem.LoadSagaState.
rewrite (stored_sg _ _ _ _ Hst).
case_bool_decide; [by eexists _, _|]. by eapply poll_confirmed_returns.
Qed.

Lemma advanceToConfirmed_outcome e id pf (w : W) o w' tx sg :
stored id (w_store w) tx sg -> sg_State sg = StateBroadcasted ->
advanceToConfirmed env e id pf w = (o, w') -> o = Diverged \/ exists r, o = Returned r.
Proof.
intros Hst Hb Hrun.
destruct (advanceToConfirmed_spec env e id pf w o w' tx sg Hst Hb Hrun)
  as (_&_&[(_&_&->&_)|(_&?)]); eauto.
Qed.
End Returns.
