(* ===== verification/SagaInv.v ===== *)
(** The invariant along the loop of [Executor.Run]: the cascade, the
    confirmation, one turn, and whole runs, which end. *)

From S2P Require Import Prelude StateMachine Store Partner Steps Lease Executor SagaLog.
From S2P Require Import StepsCorrect ExecutorFacts RunFacts Legality CascadeCorrect Attempting.
From S2P Require Import Returns.

Local Open Scope go_scope.

Section Inv.
Context {P L : Type} `{GoStd} `{LeaseManager L} (env : nat -> Runtime).
Implicit Types (step : StepImpl P) (sc : SagaContext P).
Local Abbreviation W := (World MemStore P L).

(** *** The cascade and the confirmation *)

Lemma cascade_final id n p (l k : list Call) (cerr : option error) :
evidence id n p l -> captures id k = [] -> broadcasts id k = [] ->
refunds id k = match cerr with None => owed (captures id l) | Some _ => [] end ->
final id (match cerr with Some _ => StateFailed | None => StateFailedCompensated end) (l ++ k).
Proof.
intros He Hc Hb Hr. destruct (evidence_lengths _ _ _ _ He) as [Lc Lb].
pose proof (ev_refund _ _ _ _ He) as Href.
destruct cerr; cbn; autorewrite with proj; rewrite Hr, Hc, Hb, Href, !app_nil_r;
  by split_and!.
Qed.

Lemma canonical_index (c : Clients P) st step i :
step_at st = Some (Name step) -> index_of (Name step) (canonical_steps env c) = Some i ->
i < 6 /\ (i = 0 -> rank st < 2).
Proof. destruct st; intros Hn; cbn in Hn; simplify_eq; rewrite <- Hn; intros [= <-]; cbn; lia. Qed.

(** What the cascade reports is what it stored: [nil] for a compensated saga,
  the error of a compensation for a failed one. *)
Definition cascade_reports (id : string) (o : outcome (result unit)) (w' : W) : Prop :=
exists r sg', o = Returned r /\ mem_sagas (w_store w') !! id = Some sg' /\
  sg_State sg' = if is_Ok r then StateFailedCompensated else StateFailed.

Lemma compensateCascade_correct (c : Clients P) cfg id step (w : W) o w' tx sg :
let e := NewExecutor env c cfg in
stored id (w_store w) tx sg -> step_at (sg_State sg) = Some (Name step) ->
step ∈ ex_Steps e ->
evidence id (rank (sg_State sg)) (sg_Payload sg) (x_calls (w_ext w)) ->
compensateCascade env e id step w = (o, w') ->
calls_ok tx (w_ext w) (w_ext w') /\ advanced 8 id tx w' /\ cascade_reports id o w'.
Proof.
intros e Hst Hat Hin He Hrun.
destruct (index_of (Name step) (ex_Steps e)) as [i|] eqn:Hi.
2:{ exfalso. clear -Hi Hin. induction (ex_Steps e) as [|s l IH]; [by inversion Hin|].
    cbn in Hi. case_bool_decide; [done|]. apply elem_of_cons in Hin as [-> |]; [done|].
    destruct (index_of _ l); [done|]. by apply IH. }
destruct (canonical_index c _ _ _ Hat Hi) as [Hi6 Hi0].
destruct (compensateCascade_spec env e id step w o w' tx sg i Hst Hi Hrun)
  as (o1&x&s1&Hc&Hs1&Hio&Hout).
destruct (stored_tx_id _ _ _ _ Hst).
destruct (cascade_correct env c (comp_context e tx sg) _ _ _ _ i He Hi6 Hi0 Hc)
  as (cerr&k&->&Hk&Hg&Hcap&Hbr&_&Href).
destruct Hout as (->&Hsteps&now&Htab). destruct Hio as [_ Ex]. cbn in Hg.
split_and!; [by exists k; rewrite Ex| |].
2:{ do 2 eexists. split; [done|]. destruct Htab as [_ ->]. rewrite lookup_insert_eq.
    split; [done|]. by destruct cerr. }
eapply advanced_intro; [exact Hst|..|exact Htab|]; [apply Hst|done|by destruct cerr|].
unfold settled. cbn [sg_State sg_advance].
replace (Terminal _) with true by by destruct cerr.
rewrite Ex, Hk. by eapply cascade_final.
Qed.
Lemma only_status_quietly (t : Transaction) h (x x' : Ext P) :
only_status h x x' -> broadcasts (tx_TxID t) (x_calls x) = [h] -> quietly t x x'.
Proof.
intros (l&E&Hl) Hb. exists l. split; [done|]. clear E. revert Hb.
generalize (x_calls x). induction Hl as [|c l Hc Hl IH]; intros seen Hb.
- split; [constructor|done].
- destruct c as [| | | | | | | |h' r| |]; try done. cbn in Hc. subst h'.
  destruct (IH (seen ++ [CStatus h r])) as [Hi Hg].
  { by rewrite broadcasts_app, Hb. }
  split; [by constructor|by split].
Qed.

Lemma evidence_confirm id p l :
evidence id 5 p l -> confirmed (payload_string p "tx_hash") l -> evidence id 6 p l.
Proof. intros [E1 E2 E3 E4 E5 E6 E7 E8 _ E10] Hc. split; try done; intros; auto with lia. Qed.

(** The record is looked up under its own id, whatever its status. *)
Definition sound (t : Transaction) (w : W) : Prop := advanced 0 (tx_TxID t) t w.

Lemma advanced_status n id t st v u (w : W) :
advanced n id (tx_with_status t st v u) w <-> advanced n id t w.
Proof. done. Qed.

Lemma settled_steps id sg (s s' : MemStore) l :
mem_steps s' = mem_steps s -> settled id sg s l -> settled id sg s' l.
Proof.
intros E. unfold settled. destruct (Terminal _); [done|]. intros [? ? ? ? Hr]. split; try done.
intros k a r Hk Hrow. eapply (Hr k a r); [done|]. unfold row_of, rows_of in *. by rewrite <- E.
Qed.

Lemma advanced_calm n id t (w w' : W) : calm w w' -> advanced n id t w -> advanced n id t w'.
Proof.
intros [Es [_ Ex]] (sg&st&v&u&Hst&Hs&Hn&Hset). exists sg, st, v, u. by rewrite Es, Ex.
Qed.

Lemma advanced_le m n id t (w : W) : m <= n -> advanced n id t w -> advanced m id t w.
Proof. intros Hle (sg&st&v&u&?&?&?&?). exists sg, st, v, u. split_and!; try done. lia. Qed.

Lemma calls_ok_calm t (w w' : W) : calm w w' -> calls_ok t (w_ext w) (w_ext w').
Proof. intros [_ [_ Ex]]. exists []. by rewrite Ex, app_nil_r. Qed.

(** Polling a broadcast of the saga, and recording its confirmation, keeps the
  saga on track. *)
Lemma confirming_correct id (w w' : W) tx sg :
stored id (w_store w) tx sg -> sg_State sg = StateBroadcasted ->
tx_Status tx = sg_State sg ->
on_track id sg (w_store w) (x_calls (w_ext w)) ->
only_status (payload_string (sg_Payload sg) "tx_hash") (w_ext w) (w_ext w') ->
mem_steps (w_store w') = mem_steps (w_store w) ->
(exists now,
    tables_set id (tx_with_status tx StateConfirmed (tx_Version tx + 1) now)
      (sg_advance sg StepLedger StateConfirmed (sg_Payload sg) (sg_Version sg + 1))
      (w_store w) (w_store w') /\
    confirmed (payload_string (sg_Payload sg) "tx_hash") (x_calls (w_ext w'))) \/
 tables_kept (w_store w) (w_store w') ->
calls_ok tx (w_ext w) (w_ext w') /\ advanced 5 id tx w'.
Proof.
intros Hst Hb Hsync [Hat He Hj Hp Hr] Hs Hsteps Hout.
rewrite Hb in He, Hat. cbn in He, Hat. injection Hat as Hat.
destruct (stored_tx_id _ _ _ _ Hst).
destruct (only_status_quietly tx _ _ _ Hs) as (k&Hk&Hi&Hg).
{ by rewrite (ev_broadcast _ _ _ _ He). }
split; [by exists k|].
pose proof (evidence_inert _ _ _ _ _ He Hi) as He'. rewrite <- Hk in He'.
assert (posts (tx_TxID tx) (x_calls (w_ext w')) = []) as Hp'.
{ rewrite Hk, posts_app, Hp. by destruct (inert_nil (tx_TxID tx) k Hi) as (_&_&_&_&_&_&_&->). }
assert (pending_from (tx_TxID tx) (w_store w') StepLedger) as Hr'.
{ rewrite Hat. intros k' a r Hle Hrow. eapply (Hr k' a r); [done|].
  unfold row_of, rows_of in *. by rewrite <- Hsteps. }
destruct Hout as [(now&Htab&Hc)|Hkept].
- eapply advanced_intro; [exact Hst|..|exact Htab|]; [apply Hst|done|cbn; lia|].
  split; cbn; [done|by apply evidence_confirm|done|done|done].
- exists sg, (tx_Status tx), (tx_Version tx), (tx_UpdatedAt tx).
  replace (tx_with_status _ _ _ _) with tx by by destruct tx.
  split; [by eapply stored_kept|]. split; [done|].
  split; [by rewrite Hsync, Hb|]. unfold settled. rewrite Hb.
  split; cbn; rewrite ?Hb; cbn; try done; by rewrite <- ?Hat.
Qed.

Lemma advanceToConfirmed_correct (c : Clients P) cfg id pf (w : W) o w' tx sg :
let e := NewExecutor env c cfg in
stored id (w_store w) tx sg -> sg_State sg = StateBroadcasted ->
tx_Status tx = sg_State sg ->
on_track id sg (w_store w) (x_calls (w_ext w)) ->
advanceToConfirmed env e id pf w = (o, w') ->
calls_ok tx (w_ext w) (w_ext w') /\ advanced 5 id tx w'.
Proof.
intros e Hst Hb Hsync Ht Hrun.
destruct (advanceToConfirmed_spec env e id pf w o w' tx sg Hst Hb Hrun) as (Hs&Hsteps&Hout).
eapply confirming_correct; try done.
destruct Hout as [(now&Htab&_&Hc)|(Hkept&_)]; [left; by exists now|by right].
Qed.

(** What one turn of the loop may do, started in a state of rank [r]:
  every call is allowed; the loop goes on only from a higher rank, and
  stops only with a lease that was not granted or a terminal state; it
  panics only with a bad delay, and polls for ever only when the context
  never ends. *)
Definition turned (cfg : Config) (t : Transaction) (owner : string) (pf r : nat) (w : W)
  (o : outcome iter) (w' : W) : Prop :=
calls_ok t (w_ext w) (w_ext w') /\
match o with
| Panicked => ~ delays_ok cfg
| Diverged => sound t w' /\ ~ expires env pf
| Returned i =>
    (sound t w' /\ exists ttl,
       granted (Acquire (tx_TxID t) owner ttl (w_lease w)) = false) \/
    match i with
    | Continue => r <= 6 /\ advanced (S r) (tx_TxID t) t w'
    | Stop _ => advanced 8 (tx_TxID t) t w'
    end
end.

(** The invariant at the start of a turn. *)
Definition under_way (t : Transaction) (w : W) (tx : Transaction) (sg : SagaState) : Prop :=
stored (tx_TxID t) (w_store w) tx sg /\ tx_Status tx = sg_State sg /\
(exists st v u, tx = tx_with_status t st v u) /\
settled (tx_TxID t) sg (w_store w) (x_calls (w_ext w)).

Lemma under_way_advanced t (w : W) tx sg n :
under_way t w tx sg -> n <= rank (sg_State sg) -> advanced n (tx_TxID t) t w.
Proof.
intros (Hst&Hsync&(st&v&u&Htx)&Hset) Hn.
assert (sg_State sg = st) as Hs by by rewrite <- Hsync, Htx.
exists sg, st, v, u. rewrite <- Htx. split; [done|]. split; [done|]. split; [by rewrite <- Hs|done].
Qed.

(** What was claimed of the stored transaction holds of the created one. *)
Lemma under_way_calls t (w : W) tx sg (x x' : Ext P) :
under_way t w tx sg -> calls_ok tx x x' <-> calls_ok t x x'.
Proof. intros (_&_&(st&v&u&->)&_). apply calls_ok_status. Qed.

Lemma under_way_other t (w w2 : W) tx sg n :
under_way t w tx sg -> advanced n (tx_TxID t) tx w2 <-> advanced n (tx_TxID t) t w2.
Proof. intros (_&_&(st&v&u&->)&_). apply advanced_status. Qed.

(** The step that runs, and what its retries leave. *)
Lemma step_left (c : Clients P) cfg t (w w1 : W) tx sg step o1 w2 :
let e := NewExecutor env c cfg in
let id := tx_TxID t in
under_way t w tx sg -> Terminal (sg_State sg) = false ->
StepByName e (sg_CurrentStep sg) = Some step -> calm w w1 ->
runStepWithRetry env e step (run_context e tx sg) w1 = (o1, w2) ->
step_at (sg_State sg) = Some (Name step) /\ step ∈ ex_Steps e /\
calls_ok t (w_ext w) (w_ext w2) /\
match o1 with
| Returned (Ok _) => advanced (S (rank (sg_State sg))) id t w2
| Diverged => False
| Panicked => ~ delays_ok cfg
| Returned (Err _) => stored id (w_store w2) tx sg /\
       evidence id (rank (sg_State sg)) (sg_Payload sg) (x_calls (w_ext w2))
end.
Proof.
intros e id Huw Ht Hs Hc Hr. pose proof Huw as (Hst&Hsync&_&Hset). pose proof Hc as [Es [_ Ex]].
assert (tx_TxID tx = id) as Htxid by apply Hst.
unfold settled in Hset. rewrite Ht in Hset. destruct Hset as [Hat He Hj Hp Hrows].
apply find_first_Some in Hs as [Hin Hn]. apply bool_decide_eq_true in Hn.
pose proof Hr as Hloop.
apply runStepWithRetry_retried in Hr; [|cbn; by rewrite Htxid, Es].
assert (attempting step (run_context e tx sg) 1 w1) as Hatt.
{ split; cbn; rewrite ?Htxid, ?Es, ?Ex, ?Hn; try done.
  - by apply (canonical_executes env c).
  - by left.
  - by apply pending_from_at. }
destruct (retried_correct _ _ _ _ _ _ _ Hr Hatt) as [Hok Hres]. cbn in Hok, Hres.
rewrite Htxid in Hres. rewrite Hn. split_and!; [done|done| |].
- etrans; [by apply calls_ok_calm|]. by apply (under_way_calls t w tx sg).
- destruct o1 as [[]| |]; [by apply (under_way_other t w w2 tx sg)|done| |done]. intros Hd.
  destruct (retry_loop_returns env e step (run_context e tx sg) (budget e) 1 None w1)
    as (r&w3&Heq); [lia|done|done|].
  unfold runStepWithRetry in Hloop. fold (budget e) in Hloop. congruence.
Qed.

(** The wait for the confirmation keeps what the broadcast reached. *)
Lemma confirmation_left (c : Clients P) cfg t pf n (w w' : W) sg o :
let e := NewExecutor env c cfg in
let id := tx_TxID t in
advanced n id t w -> Mem.LoadSagaState id (w_store w) = Ok sg -> sg_State sg = StateBroadcasted ->
advanceToConfirmed env e id pf w = (o, w') ->
calls_ok t (w_ext w) (w_ext w') /\ advanced n id t w' /\
((exists r, o = Returned r) \/ o = Diverged /\ ~ expires env pf).
Proof.
intros e id (sg3&st3&v3&u3&Hst3&Hs3&Hn3&Hset3) Hl Hb Ha.
assert (sg3 = sg) as ->.
{ unfold Mem.LoadSagaState in Hl. pose proof (stored_sg _ _ _ _ Hst3) as Hl3.
  rewrite Hl3 in Hl. by simplify_eq. }
unfold settled in Hset3. rewrite Hb in Hset3. cbn in Hset3.
destruct (advanceToConfirmed_correct c cfg id pf w o w' _ sg Hst3 Hb) as [Hok4 Hadv4];
  [by cbn|done|done|].
split; [by apply calls_ok_status in Hok4|]. split.
- apply advanced_status in Hadv4. rewrite <- Hs3, Hb in Hn3. by eapply advanced_le.
- destruct (advanceToConfirmed_outcome env e id pf w o w' _ sg Hst3 Hb Ha)
    as [->|Hret]; [right; split; [done|]|by left].
  intros Hexp. destruct (advanceToConfirmed_returns env e id pf _ sg w Hst3 Hb Hexp)
    as (r&w4&Heq). congruence.
Qed.

Lemma ended_advanced t (w : W) n sg :
advanced n (tx_TxID t) t w -> Mem.LoadSagaState (tx_TxID t) (w_store w) = Ok sg ->
Terminal (sg_State sg) = true -> advanced 8 (tx_TxID t) t w.
Proof.
intros (sg3&st3&v3&u3&Hst3&Hs3&_&Hset3) Hl Ht. exists sg3, st3, v3, u3. split_and!; try done.
rewrite <- Hs3. unfold Mem.LoadSagaState in Hl. rewrite (stored_sg _ _ _ _ Hst3) in Hl.
simplify_eq. by destruct (sg_State sg).
Qed.

(** One turn of the loop. *)
Lemma iterated_turned (c : Clients P) cfg t owner pf (w : W) tx sg o w' :
let e := NewExecutor env c cfg in
let id := tx_TxID t in
under_way t w tx sg -> iterated env e id owner pf w tx sg o w' ->
turned cfg t owner pf (rank (sg_State sg)) w o w'.
Proof.
intros e id Huw Hi. unfold turned.
pose proof (fun n => under_way_advanced t w tx sg n Huw) as Hadv0.
pose proof (fun step w1 o1 w2 => step_left c cfg t w w1 tx sg step o1 w2 Huw) as Hstep.
cbv zeta in Hstep. fold e id in Hstep. pose proof Huw as (_&_&_&Hset).
destruct Hi as [Ht|err Ht Hs|step w' o Ht Hs Hg Hc Ho|step w1 w' p Ht Hs Hc Hr
  |step w1 w2 w3 o w' err Ht Hs Hc1 Hr Hc3 Hc|step w1 w2 w' sg2 Ht Hs Hc1 Hr Hc2 Hl Ht2
  |step w1 w2 w' Ht Hs Hc1 Hr Hc2 _
  |step w1 w2 w3 o w' sg2 Ht Hs Hc1 Hr Hc3 Hl Hb Ha].
- split; [done|]. right. apply Hadv0. by destruct (sg_State sg).
- exfalso. unfold settled in Hset. rewrite Ht in Hset. destruct Hset as [Hat _ _ _ _].
  destruct (sg_State sg); cbn in Hat; simplify_eq; by rewrite <- Hat in Hs.
- split; [by apply calls_ok_calm|].
  assert (sound t w') as Hso by (eapply advanced_calm; [exact Hc|apply Hadv0; lia]).
  left. by split; [|eexists].
- destruct (Hstep _ _ _ _ Ht Hs Hc Hr) as (_&_&Hok&Hres). by destruct p; split.
- destruct (Hstep _ _ _ _ Ht Hs Hc1 Hr) as (Hat&Hin&Hok&Hst2&He2).
  pose proof Hc3 as (Es3&_&Ex3). rewrite <- Es3 in Hst2. rewrite <- Ex3 in He2.
  destruct (compensateCascade_correct c cfg id step w3 o w' tx sg Hst2 Hat Hin He2 Hc)
    as (Hok2&Hadv2&r&?&->&_).
  split; [|right; by apply (under_way_other t w w' tx sg)]. etrans; [exact Hok|].
  etrans; [by eapply calls_ok_calm|]. by apply (under_way_calls t w tx sg).
- destruct (Hstep _ _ _ _ Ht Hs Hc1 Hr) as (_&_&Hok&Hres).
  split; [etrans; [exact Hok|by eapply calls_ok_calm]|]. right.
  eapply ended_advanced; [by eapply advanced_calm|done|done].
- destruct (Hstep _ _ _ _ Ht Hs Hc1 Hr) as (Hat&_&Hok&Hres).
  split; [etrans; [exact Hok|by eapply calls_ok_calm]|]. right.
  split; [by eapply step_at_rank|]. by eapply advanced_calm.
- destruct (Hstep _ _ _ _ Ht Hs Hc1 Hr) as (Hat&_&Hok&Hres).
  apply (advanced_calm _ _ _ _ _ Hc3) in Hres.
  destruct (confirmation_left c cfg t pf _ w3 w' sg2 o Hres Hl Hb Ha) as (Hok4&Hadv4&Hret).
  split; [etrans; [exact Hok|]; etrans; [by eapply calls_ok_calm|done]|].
  destruct Hret as [[r ->]|[-> Hexp]].
  + right. split; [by eapply step_at_rank|done].
  + split; [by eapply advanced_le; [|exact Hadv4]; lia|done].
Qed.

(** Any run from a sound world: every call is allowed, and unless a step
  panicked the world it leaves is sound. *)
Lemma Run_correct (c : Clients P) cfg t owner pf fuel : forall (w : W) o w',
sound t w -> Run env (NewExecutor env c cfg) (tx_TxID t) owner pf fuel w = (o, w') ->
calls_ok t (w_ext w) (w_ext w') /\ (o <> Panicked -> sound t w').
Proof.
induction fuel as [|fuel IH]; intros w o w' Hs Hrun; cbn in Hrun.
{ unfold diverge in Hrun. by simplify_eq. }
unfold bind in Hrun.
destruct (run_iter env (NewExecutor env c cfg) (tx_TxID t) owner pf w) as [o1 w1] eqn:Hi.
pose proof Hs as (sg&st&v&u&Hst&Hsg&_&Hset).
apply (run_iter_iterated env _ _ owner pf w (tx_with_status t st v u) sg) in Hi; [|exact Hst].
apply (iterated_turned c cfg t) in Hi as [Hok Hs1]; [|by split_and!; eauto].
destruct o1 as [i| |].
- assert (sound t w1) as Hsw1.
  { destruct Hs1 as [[? _]|Hs1]; [done|]. destruct i; [|destruct Hs1 as [_ Hs1]];
      by (eapply advanced_le; [|exact Hs1]; lia). }
  destruct i as [r|].
  + unfold ret in Hrun. simplify_eq. by split.
  + destruct (IH w1 o w' Hsw1 Hrun) as [Hok2 Hs2]. split; [by etrans|done].
- by simplify_eq.
- simplify_eq. split; [done|]. intros _. apply Hs1.
Qed.

(** With other delays no run panics. *)
Lemma Run_no_panic (c : Clients P) cfg t owner pf fuel : forall (w : W) o w',
delays_ok cfg -> sound t w ->
Run env (NewExecutor env c cfg) (tx_TxID t) owner pf fuel w = (o, w') -> o <> Panicked.
Proof.
induction fuel as [|fuel IH]; intros w o w' Hd Hs Hrun; cbn in Hrun.
{ unfold diverge in Hrun. by injection Hrun as <- _. }
unfold bind in Hrun.
destruct (run_iter env (NewExecutor env c cfg) (tx_TxID t) owner pf w) as [o1 w1] eqn:Hi.
pose proof Hs as (sg&st&v&u&Hst&Hsg&_&Hset).
apply (run_iter_iterated env _ _ owner pf w (tx_with_status t st v u) sg) in Hi; [|exact Hst].
apply (iterated_turned c cfg t) in Hi as [_ Hs1]; [|by split_and!; eauto].
destruct o1 as [[r|]| |]; [by injection Hrun as <- _| |by destruct Hs1|by injection Hrun as <- _].
eapply (IH w1); [done| |exact Hrun].
destruct Hs1 as [[? _]|[_ Hs1]]; [done|]. by eapply advanced_le; [|exact Hs1]; lia.
Qed.

Lemma advanced_terminal id t (w : W) :
advanced 7 id t w -> exists sg, mem_sagas (w_store w) !! id = Some sg /\
  Terminal (sg_State sg) = true /\ final id (sg_State sg) (x_calls (w_ext w)).
Proof.
intros (sg&st&v&u&Hst&Hs&Hn&Hset). exists sg. split; [apply Hst|].
unfold settled in Hset. destruct (Terminal (sg_State sg)) eqn:Ht; [done|].
pose proof (step_at_rank _ _ (ot_step _ _ _ _ Hset)). subst st. lia.
Qed.

(** From rank [r], [9 - r] turns are enough. *)
Lemma Run_ends (c : Clients P) cfg t owner pf fuel : forall r (w : W),
delays_ok cfg -> expires env pf -> grants ->
advanced r (tx_TxID t) t w -> r <= 8 -> 9 <= r + fuel ->
exists res w', Run env (NewExecutor env c cfg) (tx_TxID t) owner pf fuel w = (Returned res, w') /\
  advanced 7 (tx_TxID t) t w'.
Proof.
induction fuel as [|fuel IH]; intros r w Hd Hexp Hgr Hadv Hr Hf; [lia|]. cbn.
destruct (run_iter env (NewExecutor env c cfg) (tx_TxID t) owner pf w) as [o1 w1] eqn:Hi.
pose proof Hadv as (sg&st&v&u&Hst&Hsg&Hn&Hset).
apply (run_iter_iterated env _ _ owner pf w (tx_with_status t st v u) sg) in Hi as Hit;
  [|exact Hst].
apply (iterated_turned c cfg t) in Hit as [_ Hout]; [|by split_and!; eauto].
destruct o1 as [i| |]; [|by destruct Hout|by destruct Hout].
rewrite (bind_returned _ _ _ _ _ Hi).
destruct Hout as [[_ [ttl Hg]]|Hout]; [by rewrite Hgr in Hg|].
destruct i as [res|].
- exists res, w1. split; [done|]. by eapply advanced_le; [|exact Hout]; lia.
- destruct Hout as [H6 Hout]. eapply (IH (S (rank (sg_State sg)))); [done..|lia|].
  subst st. lia.
Qed.
End Inv.
