(* ===== verification/Worker.v ===== *)
(** The dispatcher and the control plane ([internal/worker/worker.go]): the
    partitioned queues, crash recovery, the worker loop, retry and manual
    compensation. *)

From S2P Require Import Prelude StateMachine Store Partner Steps Lease Executor.

Local Open Scope Z_scope.
Local Open Scope go_scope.

(** ** FNV-1a ([hash/fnv], [New32a]) *)

Definition fnv_step (h : Z) (c : Ascii.ascii) : Z :=
  (Z.lxor h (Z.of_N (Ascii.N_of_ascii c)) * 16777619) mod 2 ^ 32.

Fixpoint fnv_from (h : Z) (s : string) : Z :=
  match s with
  | EmptyString => h
  | String c s' => fnv_from (fnv_step h c) s'
  end.

Definition fnv32a (s : string) : Z := fnv_from 2166136261 s.

(** ** The dispatcher *)

(** A partition is the content of a Go channel whose capacity is
    [Concurrency]; [d_stopped] tells whether [stop] is closed. *)
Record Dispatcher := {
  d_Concurrency : nat;
  d_Owner : string;
  d_partitions : list (list string);
  d_stopped : bool;
}.

Definition with_partitions (d : Dispatcher) (ps : list (list string)) : Dispatcher :=
  {| d_Concurrency := d_Concurrency d; d_Owner := d_Owner d; d_partitions := ps;
     d_stopped := d_stopped d |}.

Definition worker_New (concurrency : Z) (owner : string) (rt : Runtime) : Dispatcher :=
  let n := Z.to_nat (if concurrency <=? 0 then 32 else concurrency) in
  {| d_Concurrency := n;
     d_Owner := if bool_decide (owner = "") then "orch-" +:+ itoa (rt_now rt) else owner;
     d_partitions := replicate n []; d_stopped := false |}.

Definition partitionOf (d : Dispatcher) (txID : string) : nat :=
  Z.to_nat (fnv32a txID mod Z.of_nat (length (d_partitions d))).

(** The two branches of the [select] of [Submit]: the channel has room, and
    [stop] is closed.  When both are ready Go picks one, [pick] says which;
    [None] means that the call blocks until a worker receives. *)
Definition Submit (txID : string) (pick : bool) (d : Dispatcher) : option Dispatcher :=
  let p := partitionOf d txID in
  let queue := default [] (d_partitions d !! p) in
  let sent := with_partitions d (<[p := queue ++ [txID]]> (d_partitions d)) in
  let room := (length queue <? d_Concurrency d)%nat in
  if room && (negb (d_stopped d) || pick) then Some sent
  else if d_stopped d then Some d
  else None.

Definition Stop (d : Dispatcher) : Dispatcher :=
  {| d_Concurrency := d_Concurrency d; d_Owner := d_Owner d; d_partitions := d_partitions d;
     d_stopped := true |}.

(** The loop of [Recover]: whether it ends or blocks in a [Submit], and what is
    queued by then. *)
Fixpoint submit_all (ids : list string) (pick : bool) (d : Dispatcher) : bool * Dispatcher :=
  match ids with
  | [] => (true, d)
  | id :: ids' =>
      match Submit id pick d with
      | Some d' => submit_all ids' pick d'
      | None => (false, d)
      end
  end.

(** The receive of a worker: the head of its partition. *)
Definition receive (idx : nat) (d : Dispatcher) : option (string * Dispatcher) :=
  match d_partitions d !! idx with
  | Some (txID :: rest) => Some (txID, with_partitions d (<[idx := rest]> (d_partitions d)))
  | _ => None
  end.

(** ** The process *)

(** The world of the executor and the queues. *)
Record Node (S P L : Type) := {
  n_world : World S P L;
  n_disp : Dispatcher;
}.
Arguments n_world {S P L} _.
Arguments n_disp {S P L} _.

Definition set_world {S P L} (w : World S P L) (n : Node S P L) : Node S P L :=
  {| n_world := w; n_disp := n_disp n |}.
Definition set_disp {S P L} (d : Dispatcher) (n : Node S P L) : Node S P L :=
  {| n_world := n_world n; n_disp := d |}.

Section Worker.
Context {S P L : Type} `{GoStd} `{Store S} `{LeaseManager L} (env : nat -> Runtime).
Implicit Types (e : Executor P).
Local Abbreviation N := (Node S P L).

Definition on_world {A} (m : Go (World S P L) A) : Go N A := zoom n_world set_world m.

(** A blocked [Submit] has no outcome of its own ([diverge]). *)
Definition submit (txID : string) (pick : bool) : Go N unit := fun n =>
match Submit txID pick (n_disp n) with
| Some d => (Returned tt, set_disp d n)
| None => (Diverged, n)
end.

(** [Recover]: every saga that is not terminal is submitted; where a [Submit]
  blocks the ids before it are queued. *)
Definition Recover (pick : bool) : Go N (result unit) :=
let? rows := on_world (reading ListInflightSagaIDs) in
fun n => let '(done, d) := submit_all rows pick (n_disp n) in
         (if done then Returned (Ok tt) else Diverged, set_disp d n).

(** One receive of [worker] and the run it starts; [false] when the channel
  is empty.  The error of [Run] is only logged. *)
Definition worker_turn e (idx : nat) (pf fuel : nat) : Go N bool := fun n =>
match receive idx (n_disp n) with
| None => (Returned false, n)
| Some (txID, d) =>
    bind (on_world (Run env e txID (d_Owner d) pf fuel)) (fun _ => ret true) (set_disp d n)
end.

(** *** [Control] *)

Definition Retry (txID : string) (step : Step) (pick : bool) : Go N (result unit) :=
let? sg := on_world (reading (LoadSagaState txID)) in
if Terminal (sg_State sg) then
  ret (Err (New ("saga is terminal (" +:+ State_string (sg_State sg)
                 +:+ "); nothing to retry")))
else
  let! _ := submit txID pick in ret (Ok tt).

Definition Compensate e (txID : string) : Go N (result unit) :=
let? sg := on_world (reading (LoadSagaState txID)) in
if IsFailure (sg_State sg) then
  ret (Err (New ("saga already in failure state " +:+ State_string (sg_State sg))))
else if Terminal (sg_State sg) then
  ret (Err (New ("saga is terminal (" +:+ State_string (sg_State sg)
                 +:+ "); nothing to compensate")))
else match StepByName e (sg_CurrentStep sg) with
| None => ret (Err (New ("no step for current_step=" +:+ Step_string (sg_CurrentStep sg))))
| Some step => on_world (compensateCascade env e txID step)
end.
End Worker.

(** ** Laws of the queues *)

(** A dispatcher as [worker_New] makes it: one queue per worker. *)
Definition disp_ok (d : Dispatcher) : Prop :=
  (0 < d_Concurrency d)%nat /\ length (d_partitions d) = d_Concurrency d.

(** Every queued id sits in the partition its hash names, and no queue is
    longer than its channel. *)
Definition routed (d : Dispatcher) : Prop :=
  forall i q id, d_partitions d !! i = Some q ->
  (length q <= d_Concurrency d)%nat /\ (id ∈ q -> partitionOf d id = i).

Lemma fnv_step_range h c : 0 <= fnv_step h c < 2 ^ 32.
Proof. apply Z.mod_pos_bound. lia. Qed.

Lemma fnv32a_range s : 0 <= fnv32a s < 2 ^ 32.
Proof.
  unfold fnv32a. generalize 2166136261 (conj (eq_refl : (0 <=? 2166136261) = true)
    (eq_refl : (2166136261 <? 2 ^ 32) = true)).
  induction s as [|c s IH]; intros h [H1 H2]; cbn [fnv_from].
  - apply Z.leb_le in H1. apply Z.ltb_lt in H2. lia.
  - apply IH. destruct (fnv_step_range h c). by split; [apply Z.leb_le|apply Z.ltb_lt].
Qed.

Lemma New_ok c o rt : disp_ok (worker_New c o rt) /\ routed (worker_New c o rt).
Proof.
  split.
  - unfold disp_ok, worker_New. cbn [d_Concurrency d_partitions]. rewrite length_replicate. split; [|done].
    destruct (Z.leb_spec c 0); lia.
  - intros i q id Hq. cbn in Hq. apply lookup_replicate in Hq as [-> _].
    cbn. split; [lia|]. intros Hin. inversion Hin.
Qed.

Lemma partitionOf_lt d id : disp_ok d -> (partitionOf d id < d_Concurrency d)%nat.
Proof.
  intros [Hpos Hlen]. unfold partitionOf. rewrite Hlen.
  pose proof (Z.mod_pos_bound (fnv32a id) (Z.of_nat (d_Concurrency d))). lia.
Qed.

Lemma with_partitions_of d ps id :
  length ps = length (d_partitions d) -> partitionOf (with_partitions d ps) id = partitionOf d id.
Proof. intros E. unfold partitionOf. cbn. by rewrite E. Qed.

Lemma Submit_ok id pick d d' :
  disp_ok d -> routed d -> Submit id pick d = Some d' -> disp_ok d' /\ routed d'.
Proof.
  intros Hok Hr Hs. unfold Submit in Hs.
  destruct (lookup_lt_is_Some_2 (d_partitions d) (partitionOf d id)) as [q Hq].
  { pose proof (partitionOf_lt d id Hok) as Hlt. destruct Hok as [_ E]. by rewrite E. }
  rewrite Hq in Hs. change (default [] (Some q)) with q in Hs.
  destruct (Nat.ltb_spec (length q) (d_Concurrency d)) as [Hlt|]; cbn in Hs.
  2:{ destruct (d_stopped d); simplify_eq; by split. }
  destruct (negb (d_stopped d) || pick); [|destruct (d_stopped d); simplify_eq; by split].
  simplify_eq. split.
  - destruct Hok as [? Hlen]. split; [done|]. cbn. by rewrite length_insert.
  - intros i q' id' Hi. cbn in Hi. rewrite with_partitions_of by by rewrite length_insert.
    cbn. destruct (decide (partitionOf d id = i)) as [<-|Hne].
    + rewrite list_lookup_insert_eq in Hi by by eapply lookup_lt_Some. simplify_eq.
      rewrite length_app. cbn. split; [lia|].
      intros [Hin|Hin]%elem_of_app; [by apply (Hr _ _ _ Hq)|].
      apply list_elem_of_singleton in Hin. by subst.
    + rewrite list_lookup_insert_ne in Hi by done. by apply Hr.
Qed.

(** No message changes the number of partitions. *)
Lemma Submit_conc id pick d d' : Submit id pick d = Some d' -> d_Concurrency d' = d_Concurrency d.
Proof.
  unfold Submit. destruct (_ && _); [by intros [= <-]|]. destruct (d_stopped d); [|done].
  by intros [= <-].
Qed.

Lemma submit_all_conc ids pick d :
  d_Concurrency (snd (submit_all ids pick d)) = d_Concurrency d.
Proof.
  revert d. induction ids as [|id ids IH]; cbn; intros d; [done|].
  destruct (Submit id pick d) as [d1|] eqn:E; [|done].
  rewrite IH. by eapply Submit_conc.
Qed.

Lemma receive_conc idx d id d' : receive idx d = Some (id, d') -> d_Concurrency d' = d_Concurrency d.
Proof. unfold receive. destruct (d_partitions d !! idx) as [[|]|]; by intros [= _ <-]. Qed.

Lemma receive_ok idx d id d' :
  disp_ok d -> routed d -> receive idx d = Some (id, d') ->
  disp_ok d' /\ routed d' /\ partitionOf d id = idx.
Proof.
  intros Hok Hr Hs. unfold receive in Hs.
  destruct (d_partitions d !! idx) as [[|id' rest]|] eqn:Hq; simplify_eq. split_and!.
  - destruct Hok as [? Hlen]. split; [done|]. cbn. by rewrite length_insert.
  - intros i q' id' Hi. cbn in Hi. rewrite with_partitions_of by by rewrite length_insert.
    cbn. destruct (decide (idx = i)) as [<-|Hne].
    + rewrite list_lookup_insert_eq in Hi by by eapply lookup_lt_Some. simplify_eq.
      destruct (Hr _ _ id' Hq) as [Hl Hi]. cbn in Hl. split; [lia|].
      intros Hin. apply Hi. by right.
    + rewrite list_lookup_insert_ne in Hi by done. by apply Hr.
  - apply (Hr _ _ id Hq). by left.
Qed.
