(* ===== verification/Api.v ===== *)
(** The REST handlers ([internal/api/api.go]) and the quote lock they take
    ([internal/quotelocker/quotelocker.go]).  A request body is what the JSON
    decoder made of it ([None] when it failed), a response is the status code
    and the value that is encoded. *)

From S2P Require Import Prelude StateMachine Store Partner Steps Lease Executor Worker.

Local Open Scope Z_scope.
Local Open Scope go_scope.

(** ** The quote lock *)

Class Locker (K : Type) := {
  LockHandle : Type;
  LockAcquire : string -> K -> (LockHandle * bool * option error) * K;
  LockRelease : LockHandle -> K -> K;
}.

Definition NoopLocker : Type := unit.

#[export] Instance NoopLocker_Locker : Locker NoopLocker := {
  LockHandle := unit;
  LockAcquire _ k := ((tt, true, None), k);
  LockRelease _ k := k;
}.

(** ** Bodies and responses *)

Record CreateTxRequest := {
  rq_UserID : string; rq_QuoteID : string; rq_Amount : string; rq_Asset : string;
  rq_Rail : string; rq_DestAddress : string }.

Record StepRowResponse := {
  sr_StepName : string; sr_Status : string; sr_Attempt : Z; sr_StartedAt : option Z;
  sr_FinishedAt : option Z; sr_Error : string; sr_IdempotencyKey : string }.

Record TxResponse := {
  rs_TxID : string; rs_UserID : string; rs_QuoteID : string; rs_Amount : string;
  rs_Asset : string; rs_Rail : string; rs_DestAddress : string; rs_Status : string;
  rs_CurrentStep : string; rs_State : string; rs_Version : Z; rs_CreatedAt : Z;
  rs_UpdatedAt : Z; rs_Steps : list StepRowResponse }.

Inductive Body :=
  | BError (msg : string)
  | BStatus (status : string) (step : option string)
  | BCreated (txID : string)
  | BTx (r : TxResponse)
  | BSteps (rows : list StepRowResponse).

Definition Response : Type := Z * Body.

Definition StatusOK : Z := 200.
Definition StatusCreated : Z := 201.
Definition StatusAccepted : Z := 202.
Definition StatusBadRequest : Z := 400.
Definition StatusNotFound : Z := 404.
Definition StatusConflict : Z := 409.
Definition StatusInternalServerError : Z := 500.

Definition writeErr (code : Z) (msg : string) : Response := (code, BError msg).

(** ** [strings.TrimSpace(v) == ""]

    Every rune of [v] is white space ([unicode.IsSpace]); the text is scanned
    by the UTF-8 encodings of those runes. *)
Fixpoint is_blank_bytes (l : list nat) : bool :=
  match l with
  | [] => true
  | (9 | 10 | 11 | 12 | 13 | 32)%nat :: l' => is_blank_bytes l'
  | 194%nat :: (133 | 160)%nat :: l' => is_blank_bytes l'
  | 225%nat :: 154%nat :: 128%nat :: l' => is_blank_bytes l'
  | 226%nat :: 128%nat ::
      (128 | 129 | 130 | 131 | 132 | 133 | 134 | 135 | 136 | 137 | 138
       | 168 | 169 | 175)%nat :: l' => is_blank_bytes l'
  | 226%nat :: 129%nat :: 159%nat :: l' => is_blank_bytes l'
  | 227%nat :: 128%nat :: 128%nat :: l' => is_blank_bytes l'
  | _ => false
  end.

Definition is_blank (s : string) : bool :=
  is_blank_bytes (Ascii.nat_of_ascii <$> String.list_ascii_of_string s).

(** The map [validateCreate] ranges over. *)
Definition required_fields (r : CreateTxRequest) : list (string * string) :=
  [("user_id", rq_UserID r); ("quote_id", rq_QuoteID r); ("amount", rq_Amount r);
   ("asset", rq_Asset r); ("rail", rq_Rail r); ("dest_address", rq_DestAddress r)].

Definition toStepResponse (r : StepRow) : StepRowResponse := {|
  sr_StepName := Step_string (row_StepName r); sr_Status := StepStatus_string (row_Status r);
  sr_Attempt := row_Attempt r; sr_StartedAt := row_StartedAt r;
  sr_FinishedAt := row_FinishedAt r; sr_Error := row_Error r;
  sr_IdempotencyKey := row_IdempotencyKey r |}.

Definition toStepResponses (rows : list StepRow) : list StepRowResponse :=
  map toStepResponse rows.

(** [api.Control]. *)
Record Control (W : Type) := {
  ct_Retry : string -> Step -> Go W (result unit);
  ct_Compensate : string -> Go W (result unit) }.
Arguments ct_Retry {W} _.
Arguments ct_Compensate {W} _.

(** The server's world: the process and the quote locks. *)
Record Server (S P L K : Type) := {
  sv_node : Node S P L;
  sv_lock : K;
}.
Arguments sv_node {S P L K} _.
Arguments sv_lock {S P L K} _.

Definition set_node {S P L K} (n : Node S P L) (v : Server S P L K) : Server S P L K :=
  {| sv_node := n; sv_lock := sv_lock v |}.
Definition set_lock {S P L K} (k : K) (v : Server S P L K) : Server S P L K :=
  {| sv_node := sv_node v; sv_lock := k |}.

Section Api.
Context {S P L K : Type} `{GoStd} `{Store S} `{LeaseManager L} `{Locker K}.
(** The runtime, and the order in which Go ranges over a map literal. *)
Context (env : nat -> Runtime) (order : list (string * string) -> list (string * string)).
Local Abbreviation V := (Server S P L K).

Definition on_node {A} (m : Go (Node S P L) A) : Go V A := zoom sv_node set_node m.
Definition on_store {A} (m : Go (World S P L) A) : Go V A := on_node (on_world m).

Definition validateCreate (r : CreateTxRequest) : option error :=
let missing := map fst (List.filter (fun '(_, v) => is_blank v)
                          (order (required_fields r))) in
match missing with
| [] => None
| _ => Some (New ("missing required fields: " +:+ join ", " missing))
end.

(** The rows [handleCreate] builds. *)
Definition new_tx (txID : string) (now : Z) (req : CreateTxRequest) : Transaction := {|
tx_ID := 0; tx_TxID := txID; tx_UserID := rq_UserID req; tx_QuoteID := rq_QuoteID req;
tx_Amount := rq_Amount req; tx_Asset := rq_Asset req; tx_Rail := rq_Rail req;
tx_DestAddress := rq_DestAddress req; tx_Status := StateCreated; tx_CreatedAt := now;
tx_UpdatedAt := now; tx_Version := 1 |}.

Definition new_step_row (txID : string) (st : Step) : StepRow := {|
row_ID := 0; row_TxID := txID; row_StepName := st; row_Status := StepPending;
row_Attempt := 1; row_StartedAt := None; row_FinishedAt := None; row_Error := "";
row_IdempotencyKey := IdempotencyKey txID st 1 |}.

Definition new_steps (txID : string) : list StepRow := map (new_step_row txID) StepOrder.

Definition new_saga (txID : string) : SagaState := {|
sg_ID := 0; sg_TxID := txID; sg_CurrentStep := StepPolicy; sg_State := StateCreated;
sg_LeaseOwner := ""; sg_LeaseExpiresAt := None; sg_Payload := ∅; sg_Version := 1 |}.

Definition new_events (rt : Runtime) (txID : string) (now : Z) (req : CreateTxRequest)
: list OutboxEvent := [{|
ev_ID := 0; ev_EventID := rt_uuid_string rt 1; ev_TxID := txID;
ev_EventType := "transaction.created"; ev_Step := ""; ev_Attempt := 0;
ev_Payload := <["tx_id" := AString txID]> (<["user_id" := AString (rq_UserID req)]>
                {["quote_id" := AString (rq_QuoteID req)]});
ev_CreatedAt := now; ev_PublishedAt := None; ev_Status := OutboxPending;
ev_DedupKey := DedupKey txID "transaction.created" "" 0 |}].

(** The deferred [release()] runs when the handler returns. *)
Definition handleCreate (body : option CreateTxRequest) : Go V Response :=
match body with
| None => ret (writeErr StatusBadRequest "invalid json body")
| Some req =>
    match validateCreate req with
    | Some err => ret (writeErr StatusBadRequest (Error err))
    | None =>
        let! (release, ok, err) := zoom sv_lock set_lock (fun k =>
          let '(r, k') := LockAcquire (rq_QuoteID req) k in (Returned r, k')) in
        match err with
        | Some _ => ret (writeErr StatusInternalServerError "quote lock error")
        | None =>
            if negb ok then ret (writeErr StatusConflict "quote already in use")
            else
              let! rt := on_store (in_ext (runtime env)) in
              let txID := rt_uuid_string rt 0 in
              let now := rt_now rt in
              let! r := on_store (run_in_tx env (fun rt' =>
                CreateTx rt' (new_tx txID now req) (new_steps txID) (new_saga txID)
                  (new_events rt txID now req))) in
              let! _ := modify (fun v => set_lock (LockRelease release (sv_lock v)) v) in
              match r with
              | Err err =>
                  if errors_Is err ErrDuplicate
                  then ret (writeErr StatusConflict "tx already exists")
                  else ret (writeErr StatusInternalServerError "create tx failed")
              | Ok _ => ret (StatusCreated, BCreated txID)
              end
        end
    end
end.

(** [SagaState{}], which [handleGet] answers with when there is no saga. *)
Definition SagaState_zero : SagaState := {|
sg_ID := 0; sg_TxID := ""; sg_CurrentStep := StepOther ""; sg_State := StateOther "";
sg_LeaseOwner := ""; sg_LeaseExpiresAt := None; sg_Payload := ∅; sg_Version := 0 |}.

Definition tx_response (tx : Transaction) (sg : SagaState) (steps : list StepRow) : TxResponse := {|
rs_TxID := tx_TxID tx; rs_UserID := tx_UserID tx; rs_QuoteID := tx_QuoteID tx;
rs_Amount := tx_Amount tx; rs_Asset := tx_Asset tx; rs_Rail := tx_Rail tx;
rs_DestAddress := tx_DestAddress tx; rs_Status := State_string (tx_Status tx);
rs_CurrentStep := Step_string (sg_CurrentStep sg); rs_State := State_string (sg_State sg);
rs_Version := tx_Version tx; rs_CreatedAt := tx_CreatedAt tx;
rs_UpdatedAt := tx_UpdatedAt tx; rs_Steps := toStepResponses steps |}.

Definition handleGet (txID : string) : Go V Response :=
let! tx := on_store (reading (LoadTx txID)) in
match tx with
| Err err =>
    if errors_Is err ErrNotFound then ret (writeErr StatusNotFound "not found")
    else ret (writeErr StatusInternalServerError "load tx failed")
| Ok tx =>
    let! sg := on_store (reading (LoadSagaState txID)) in
    match match sg with
          | Ok sg => Some sg
          | Err err => if errors_Is err ErrNotFound then Some SagaState_zero else None
          end with
    | None => ret (writeErr StatusInternalServerError "load saga failed")
    | Some sg =>
        let! steps := on_store (reading (ListSteps txID)) in
        match steps with
        | Err _ => ret (writeErr StatusInternalServerError "load steps failed")
        | Ok steps => ret (StatusOK, BTx (tx_response tx sg steps))
        end
    end
end.

Definition handleSteps (txID : string) : Go V Response :=
let! tx := on_store (reading (LoadTx txID)) in
match tx with
| Err err =>
    if errors_Is err ErrNotFound then ret (writeErr StatusNotFound "not found")
    else ret (writeErr StatusInternalServerError "load tx failed")
| Ok _ =>
    let! steps := on_store (reading (ListSteps txID)) in
    match steps with
    | Err _ => ret (writeErr StatusInternalServerError "load steps failed")
    | Ok steps => ret (StatusOK, BSteps (toStepResponses steps))
    end
end.

(** [body] is the [step] field, [""] when it is absent or does not decode. *)
Definition handleRetry (control : option (Control V)) (txID : string) (body : string)
: Go V Response :=
match control with
| None => ret (StatusAccepted, BStatus "retry-accepted" None)
| Some c =>
    let! step :=
      (if bool_decide (body = "") then
         let! sg := on_store (reading (LoadSagaState txID)) in
         ret (match sg with Ok sg => Some (sg_CurrentStep sg) | Err _ => None end)
       else ret (Some (Step_of_string body))) in
    match step with
    | None => ret (writeErr StatusBadRequest "missing --step or current saga state")
    | Some step =>
        let! r := ct_Retry c txID step in
        match r with
        | Err err => ret (writeErr StatusConflict (Error err))
        | Ok _ => ret (StatusAccepted, BStatus "retry-accepted" (Some (Step_string step)))
        end
    end
end.

Definition handleCompensate (control : option (Control V)) (txID : string) : Go V Response :=
match control with
| None => ret (StatusAccepted, BStatus "compensate-accepted" None)
| Some c =>
    let! r := ct_Compensate c txID in
    match r with
    | Err err => ret (writeErr StatusConflict (Error err))
    | Ok _ => ret (StatusAccepted, BStatus "compensate-accepted" None)
    end
end.

(** [worker.Control] behind the interface, as [cmd/orchestrator] wires it. *)
Definition worker_control (e : Executor P) (pick : bool) : Control V := {|
ct_Retry := fun txID step => on_node (Retry txID step pick);
ct_Compensate := fun txID => on_node (Compensate env e txID) |}.
End Api.
