(* ===== verification/ApiFacts.v ===== *)
(** What the REST handlers do to a [MemStore]: the rows a creation writes, and
    that a new transaction is a sound saga. *)

From S2P Require Import Prelude StateMachine Store Partner Steps Lease Executor SagaLog.
From S2P Require Import StepsCorrect ExecutorFacts RunFacts Legality Attempting Returns SagaInv.
From S2P Require Import Worker Api.

Local Open Scope Z_scope.
Local Open Scope go_scope.

(** No partner call of transaction [id] had an effect so far. *)
Definition untouched (id : string) (l : list Call) : Prop :=
  captures id l = [] /\ broadcasts id l = [] /\ refunds id l = [] /\ posts id l = [].

Section Create.
Context `{GoStd}.

(** The rows of a new transaction, as [MemStore.CreateTx] stores them. *)
Lemma CreateTx_fresh rt now req txID evs s :
mem_txs s !! txID = None ->
exists t sg rows, Mem.CreateTx rt (new_tx txID now req) (new_steps txID) (new_saga txID) evs s =
    (Ok tt, {| mem_txs := <[txID := t]> (mem_txs s);
               mem_steps := <[txID := rows]> (mem_steps s);
               mem_sagas := <[txID := sg]> (mem_sagas s);
               mem_outbox := mem_outbox s ++
                 imap (fun i e => ev_with_ID e (Mem.fresh_ID rt (8 + i) (ev_ID e))) evs |}) /\
  t = tx_with_ID (new_tx txID now req) (rt_uuid rt 0) /\
  sg = sg_with_ID (new_saga txID) (rt_uuid rt 7) /\
  map row_StepName rows = StepOrder /\
  Forall (fun r => exists u st, r = row_with_ID (new_step_row txID st) u) rows.
Proof.
intros Hn. unfold Mem.CreateTx. cbn [tx_TxID new_tx]. rewrite Hn.
eexists _, _, _. split; [done|]. split_and!; [done|done|done|].
unfold new_steps, StepOrder. cbn [map imap]. rewrite !Forall_cons.
by split_and!; try (do 2 eexists; reflexivity).
Qed.

Lemma CreateTx_clash rt now req txID evs s t :
mem_txs s !! txID = Some t ->
Mem.CreateTx rt (new_tx txID now req) (new_steps txID) (new_saga txID) evs s =
(Err ErrDuplicate, s).
Proof. intros Hn. unfold Mem.CreateTx. cbn [tx_TxID new_tx]. by rewrite Hn. Qed.

Lemma evidence_untouched id l : untouched id l -> evidence id 0 ∅ l.
Proof. intros (Hc&Hb&Hr&Hp). split; try done; lia. Qed.

(** A transaction just created is a saga at its first step. *)
Lemma created_sound {P L} `{LeaseManager L} t sg rows txs sagas steps outbox txID now req u v
  (x : Ext P) (lease : L) :
t = tx_with_ID (new_tx txID now req) u -> sg = sg_with_ID (new_saga txID) v ->
Forall (fun r => exists u st, r = row_with_ID (new_step_row txID st) u) rows ->
untouched txID (x_calls x) ->
sound t {| w_store := {| mem_txs := <[txID := t]> txs; mem_steps := <[txID := rows]> steps;
                         mem_sagas := <[txID := sg]> sagas; mem_outbox := outbox |};
           w_ext := x; w_lease := lease |}.
Proof.
intros Ht Hsg Hrows Hu. exists sg, (tx_Status t), (tx_Version t), (tx_UpdatedAt t).
replace (tx_with_status t _ _ _) with t by by destruct t.
assert (tx_TxID t = txID) as Hid by by rewrite Ht. rewrite Hid.
split; [split; cbn; [by rewrite lookup_insert_eq|by rewrite lookup_insert_eq|done|by rewrite Hsg]|].
split; [by rewrite Ht, Hsg|]. split; [lia|]. unfold settled. rewrite Hsg. cbn.
split; cbn; [done|by apply evidence_untouched|done|apply Hu|].
intros k a r _ Hr. unfold row_of, rows_of in Hr. cbn in Hr.
rewrite lookup_insert_eq in Hr. cbn in Hr. apply find_first_Some in Hr as [Hin _].
rewrite Forall_forall in Hrows. by destruct (Hrows r Hin) as (u'&st&->).
Qed.
End Create.
