(* ===== verification/Frame.v ===== *)
(** What the runs of one transaction leave alone of another: its calls, its
    records, and with them the soundness of its saga; and the invariant of a
    world that holds many sagas. *)

From S2P Require Import Prelude StateMachine Store Partner Steps Lease Executor SagaLog.
From S2P Require Import StepsCorrect ExecutorFacts RunFacts Legality CascadeCorrect Attempting.
From S2P Require Import Returns SagaInv Worker Api ApiFacts.

Local Open Scope go_scope.

(** No call of [k] is about transaction [id], apart from status queries,
    which name a hash. *)
Definition foreign (id : string) (k : list Call) : Prop :=
  passes id k = [] /\ auths id k = [] /\ captures id k = [] /\ refunds id k = [] /\
  clears id k = [] /\ signs id k = [] /\ broadcasts id k = [] /\ posts id k = [].

Lemma foreign_nil id : foreign id [].
Proof. done. Qed.

Lemma foreign_app id k1 k2 : foreign id k1 -> foreign id k2 -> foreign id (k1 ++ k2).
Proof.
  intros (A1&A2&A3&A4&A5&A6&A7&A8) (B1&B2&B3&B4&B5&B6&B7&B8). unfold foreign.
  autorewrite with proj. rewrite A1, A2, A3, A4, A5, A6, A7, A8.
  by rewrite B1, B2, B3, B4, B5, B6, B7, B8.
Qed.

Lemma mine_other {A} id id' (a : A) : id' <> id -> mine id id' a = None.
Proof. intros. unfold mine. by rewrite bool_decide_eq_false_2. Qed.

(** A call that is allowed for [t] is about [t]. *)
Lemma enabled_foreign t l c id : enabled t l c -> id <> tx_TxID t -> foreign id [c].
Proof.
  intros He Hne. assert (tx_TxID t <> id) as Hne' by done.
  unfold foreign. destruct c as [q r|q r|q r|q r|q r|q r|q r|q r|h r|q r|ev r]; cbn in He;
    destruct r as [a|]; try done; cbn.
  - subst q. cbn. rewrite (mine_other id _ _ Hne'). by destruct (bool_decide _).
  - destruct He as [-> _]. cbn. by rewrite (mine_other id _ _ Hne').
  - destruct He as [(?&_&->) _]. cbn. by rewrite (mine_other id _ _ Hne').
  - destruct He as [(?&_&->) _]. cbn. by rewrite (mine_other id _ _ Hne').
  - destruct He as [-> _]. cbn. rewrite (mine_other id _ _ Hne'). by destruct (bool_decide _).
  - destruct He as [-> _]. by rewrite (mine_other id _ _ Hne').
  - destruct He as [-> _]. by rewrite (mine_other id _ _ Hne').
  - destruct He as [-> _]. cbn. by rewrite (mine_other id _ _ Hne').
Qed.

Lemma gated_foreign t k id : forall seen, gated t seen k -> id <> tx_TxID t -> foreign id k.
Proof.
  induction k as [|c k IH]; intros seen Hg Hne; [apply foreign_nil|].
  destruct Hg as [He Hg]. apply (foreign_app id [c] k); [by eapply enabled_foreign|by eapply IH].
Qed.

Lemma untouched_foreign id l k : untouched id l -> foreign id k -> untouched id (l ++ k).
Proof.
  intros (C1&C2&C3&C4) (_&_&K1&K2&_&_&K3&K4). unfold untouched.
  autorewrite with proj. by rewrite C1, C2, C3, C4, K1, K2, K3, K4.
Qed.

Lemma final_foreign id st l k : final id st l -> foreign id k -> final id st (l ++ k).
Proof.
  intros Hf (K1&K2&K3&K4&K5&K6&K7&K8).
  destruct st; cbn in *; autorewrite with proj;
    rewrite K1, ?K3, ?K4, ?K5, ?K7, ?K8, ?app_nil_r || rewrite ?K3, ?K4, ?K7, ?app_nil_r; try done.
  destruct Hf as (?&?&?&(h&?&Hc)&?&?). split_and!; try done.
  exists h. split; [done|]. apply confirmed_app. by left.
Qed.

Lemma settled_frame id sg s s' l k :
  settled id sg s l -> foreign id k -> (forall n a, row_of s' id n a = row_of s id n a) ->
  settled id sg s' (l ++ k).
Proof.
  intros Hset Hk Hrows. unfold settled in *. destruct (Terminal (sg_State sg)).
  - by apply final_foreign.
  - destruct Hset as [Hat He Hj Hp Hr]. pose proof Hk as (_&_&K3&K4&_&_&K7&K8).
    split; [done|by apply evidence_app|done|by rewrite posts_app, Hp, K8|].
    intros n a r Hle Hrow. rewrite Hrows in Hrow. by eapply Hr.
Qed.

(** What a creation stores for the transaction [id]: the record with the
    fields of the request, its six pending steps, its saga at the first step,
    and one pending event. *)
Record created `{GoStd} (id : string) (req : CreateTxRequest) (s s' : MemStore) : Prop := {
  crd_new : mem_txs s !! id = None;
  crd_tables : exists u v rows now e,
    mem_txs s' = <[id := tx_with_ID (new_tx id now req) u]> (mem_txs s) /\
    mem_sagas s' = <[id := sg_with_ID (new_saga id) v]> (mem_sagas s) /\
    mem_steps s' = <[id := rows]> (mem_steps s) /\
    map row_StepName rows = StepOrder /\
    Forall (fun r => exists u' st, r = row_with_ID (new_step_row id st) u') rows /\
    mem_outbox s' = mem_outbox s ++ [e] /\ ev_EventType e = "transaction.created" /\
    ev_TxID e = id /\ ev_Status e = OutboxPending;
}.

Section Frame.
Context {P L : Type} `{GoStd} `{LeaseManager L} (env : nat -> Runtime).
Local Abbreviation W := (World MemStore P L).

(** The records of [id] are the same and the new calls are not about it. *)
Definition frames (id : string) (w w' : W) : Prop :=
mem_txs (w_store w') !! id = mem_txs (w_store w) !! id /\
mem_sagas (w_store w') !! id = mem_sagas (w_store w) !! id /\
(forall n a, row_of (w_store w') id n a = row_of (w_store w) id n a) /\
exists k, x_calls (w_ext w') = x_calls (w_ext w) ++ k /\ foreign id k.

Lemma sound_frames t (w w' : W) : frames (tx_TxID t) w w' -> sound t w -> sound t w'.
Proof.
intros (E1&E2&E3&k&Ek&Hk) (sg&st&v&u&Hst&Hs&Hn&Hset). exists sg, st, v, u.
split_and!; [|done|done|].
- destruct Hst. split; [by rewrite E1|by rewrite E2|done|done].
- rewrite Ek. by eapply settled_frame.
Qed.

Lemma untouched_frames id (w w' : W) :
frames id w w' -> untouched id (x_calls (w_ext w)) -> untouched id (x_calls (w_ext w')).
Proof. intros (_&_&_&k&->&Hk) Hu. by apply untouched_foreign. Qed.

(** A world of sagas: the records are filed under their ids and come in pairs,
  every stored transaction has a sound saga, and no partner was called for an id that is
  not stored. *)
Record sys_ok (w : W) : Prop := {
sys_filed : filed (w_store w);
sys_txs : forall id sg, mem_sagas (w_store w) !! id = Some sg -> is_Some (mem_txs (w_store w) !! id);
sys_sound : forall id tx, mem_txs (w_store w) !! id = Some tx -> sound tx w;
sys_fresh : forall id, mem_txs (w_store w) !! id = None -> untouched id (x_calls (w_ext w));
}.

Lemma sys_stored (w : W) id tx :
sys_ok w -> mem_txs (w_store w) !! id = Some tx ->
exists sg, stored id (w_store w) tx sg /\ tx_Status tx = sg_State sg /\
  settled id sg (w_store w) (x_calls (w_ext w)).
Proof.
intros Hok Htx. pose proof (sys_sound w Hok id tx Htx) as (sg&st&v&u&Hst&Hs&_&Hset).
pose proof (filed_tx _ (sys_filed w Hok) _ _ Htx) as Hid. rewrite Hid in Hst, Hset.
pose proof (stored_tx _ _ _ _ Hst) as Heq. rewrite Htx in Heq. injection Heq as Heq.
exists sg. split_and!; [by rewrite <- Heq in Hst| |done]. rewrite Heq. by cbn.
Qed.

(** One operation on the saga of [id] keeps the invariant when it moves that
  saga, makes only calls allowed for it and leaves it sound. *)
Lemma sys_moved (w w' : W) id tx :
sys_ok w -> mem_txs (w_store w) !! id = Some tx ->
moved id (w_store w) (w_store w') -> calls_ok tx (w_ext w) (w_ext w') -> sound tx w' ->
sys_ok w'.
Proof.
intros Hok Htx [[Hother Hmine] Hrows] (k&Hk&Hg) Hsound.
destruct (sys_stored w id tx Hok Htx) as (sg&Hst&Hsync&_).
destruct (Hmine tx sg Hst Hsync) as (tx'&sg'&Hst'&_&_&[Hlater _]&_).
destruct (Hrows (filed_rows _ (sys_filed w Hok))) as [Hkeyed Hrow].
pose proof (stored_tx_id _ _ _ _ Hst) as Hid.
assert (forall id', id' <> id -> frames id' w w') as Hframe.
{ intros id' Hne. destruct (Hother id' Hne). split_and!; [done|done|by intros; apply Hrow|].
  exists k. split; [done|]. eapply gated_foreign; [exact Hg|]. by rewrite Hid. }
split.
- split; [intros id' tx1 E|intros id' sg1 E|intros id' tx1 E|done];
    destruct (decide (id' = id)) as [->|Hne].
  + rewrite (stored_tx _ _ _ _ Hst') in E. injection E as <-. apply Hst'.
  + rewrite (proj1 (Hother id' Hne)) in E. by apply (filed_tx _ (sys_filed w Hok)).
  + rewrite (stored_sg _ _ _ _ Hst') in E. injection E as <-. apply Hst'.
  + rewrite (proj2 (Hother id' Hne)) in E. by apply (filed_sg _ (sys_filed w Hok)).
  + exists sg'. apply Hst'.
  + rewrite (proj1 (Hother id' Hne)) in E. rewrite (proj2 (Hother id' Hne)).
    by apply (filed_saga _ (sys_filed w Hok) id' tx1).
- intros id' sg1 E. destruct (decide (id' = id)) as [->|Hne].
  + exists tx'. apply Hst'.
  + rewrite (proj2 (Hother id' Hne)) in E. rewrite (proj1 (Hother id' Hne)).
    by eapply (sys_txs w Hok).
- intros id' tx1 E. destruct (decide (id' = id)) as [->|Hne].
  + rewrite (stored_tx _ _ _ _ Hst') in E. injection E as <-. rewrite Hlater.
    unfold sound in *. by apply advanced_status.
  + pose proof (Hframe id' Hne) as Hf. pose proof Hf as (E1&_). rewrite E1 in E.
    pose proof (filed_tx _ (sys_filed w Hok) _ _ E) as Hid1.
    apply (sound_frames tx1 w w'); [by rewrite Hid1|by apply (sys_sound w Hok id')].
- intros id' E. destruct (decide (id' = id)) as [->|Hne].
  + by rewrite (stored_tx _ _ _ _ Hst') in E.
  + eapply untouched_frames; [by apply Hframe|]. apply (sys_fresh w Hok).
    by rewrite <- (proj1 (Hother id' Hne)).
Qed.

(** Nothing of the invariant depends on the outbox, the runtime or the
  leases. *)
Lemma sys_same (w w' : W) :
sys_ok w -> mem_txs (w_store w') = mem_txs (w_store w) ->
mem_sagas (w_store w') = mem_sagas (w_store w) ->
mem_steps (w_store w') = mem_steps (w_store w) ->
x_calls (w_ext w') = x_calls (w_ext w) -> sys_ok w'.
Proof.
intros [[F1 F2 F3 F4] Ht Hs Hu] E1 E2 E3 E4. split; [split|..]; rewrite ?E1, ?E2, ?E4; try done.
- intros id n a r Hr. apply (F4 id n a). unfold row_of, rows_of in *. by rewrite <- E3.
- intros id tx Htx. apply (sound_frames tx w w'); [|by eapply Hs].
  split_and!; [by rewrite E1|by rewrite E2|intros; unfold row_of, rows_of; by rewrite E3|].
  exists []. by rewrite app_nil_r.
Qed.

Lemma sys_init (x : Ext P) (l : L) :
x_calls x = [] -> sys_ok {| w_store := NewMemStore; w_ext := x; w_lease := l |}.
Proof.
intros Hx. split.
- split; cbn; [intros id tx E|intros id sg E|intros id tx E|intros id n a r Hr].
  1-3: by rewrite lookup_empty in E.
  unfold row_of, rows_of in Hr. cbn in Hr. by rewrite lookup_empty in Hr.
- intros id sg E. cbn in E. by rewrite lookup_empty in E.
- intros id tx E. cbn in E. by rewrite lookup_empty in E.
- intros id _. cbn. by rewrite Hx.
Qed.

(** A creation keeps the invariant: the new saga is sound, the others are
  framed. *)
Lemma created_sys_ok id req (w w' : W) :
sys_ok w -> created id req (w_store w) (w_store w') -> no_io (w_ext w) (w_ext w') -> sys_ok w'.
Proof.
intros Hok [Hnew (u&v&rows&now&e&E1&E2&E3&_&Hrows&_)] [_ Hx].
assert (forall id', id' <> id -> frames id' w w') as Hframe.
{ intros id' Hne. split_and!.
  - by rewrite E1, lookup_insert_ne.
  - by rewrite E2, lookup_insert_ne.
  - intros n a. unfold row_of, rows_of. by rewrite E3, lookup_insert_ne.
  - exists []. by rewrite app_nil_r. }
assert (forall n a r, row_of (w_store w') id n a = Some r -> row_TxID r = id) as Hown.
{ intros n a r Hr. unfold row_of, rows_of in Hr. rewrite E3, lookup_insert_eq in Hr.
  apply find_first_Some in Hr as [Hin _]. rewrite Forall_forall in Hrows.
  by destruct (Hrows r Hin) as (?&?&->). }
destruct Hok as [[F1 F2 F3 F4] Ht Hs Hu].
split; [split|..].
- intros id' tx E. rewrite E1 in E. apply lookup_insert_Some in E as [[<- <-]|[_ E]]; [done|].
  by apply F1.
- intros id' sg E. rewrite E2 in E. apply lookup_insert_Some in E as [[<- <-]|[_ E]]; [done|].
  by apply F2.
- intros id' tx E. rewrite E1 in E. rewrite E2.
  destruct (decide (id' = id)) as [->|Hne]; [by rewrite lookup_insert_eq; eexists|].
  rewrite lookup_insert_ne in E by done. rewrite lookup_insert_ne by done. by eapply F3.
- intros id' n a r Hr. destruct (decide (id' = id)) as [->|Hne]; [by eapply Hown|].
  destruct (Hframe id' Hne) as (_&_&Er&_). rewrite Er in Hr. by eapply F4.
- intros id' sg E. rewrite E2 in E. rewrite E1.
  destruct (decide (id' = id)) as [->|Hne]; [by rewrite lookup_insert_eq|].
  rewrite lookup_insert_ne in E by done. rewrite lookup_insert_ne by done. by eapply Ht.
- intros id' tx E. destruct (decide (id' = id)) as [->|Hne].
  + rewrite E1, lookup_insert_eq in E. injection E as <-.
    pose proof (created_sound _ _ rows (mem_txs (w_store w)) (mem_sagas (w_store w))
      (mem_steps (w_store w)) (mem_outbox (w_store w')) id now req u v (w_ext w') (w_lease w')
      eq_refl eq_refl Hrows ltac:(rewrite Hx; by apply Hu)) as Hsound.
    destruct w' as [[] ? ?]. cbn in *. by subst.
  + pose proof (Hframe id' Hne) as Hf. pose proof Hf as (Ef&_). rewrite Ef in E.
    apply (sound_frames tx w w'); [by rewrite (F1 _ _ E)|by eapply Hs].
- intros id' E. rewrite E1 in E. rewrite Hx. apply Hu.
  destruct (decide (id' = id)) as [->|Hne]; [done|]. by rewrite lookup_insert_ne in E.
Qed.
(** What one operation does to a world of sagas: nothing to the records and
  the calls; a creation; or a move of one stored saga along its lifecycle,
  with calls allowed for it. *)
Inductive effect (w w' : W) : Prop :=
| eff_same :
    mem_txs (w_store w') = mem_txs (w_store w) ->
    mem_sagas (w_store w') = mem_sagas (w_store w) ->
    mem_steps (w_store w') = mem_steps (w_store w) ->
    x_calls (w_ext w') = x_calls (w_ext w) -> effect w w'
| eff_created id req :
    created id req (w_store w) (w_store w') -> no_io (w_ext w) (w_ext w') -> effect w w'
| eff_moved id tx :
    mem_txs (w_store w) !! id = Some tx -> moved id (w_store w) (w_store w') ->
    calls_ok tx (w_ext w) (w_ext w') -> sound tx w' -> effect w w'.

Lemma effect_refl (w : W) : effect w w.
Proof. by apply eff_same. Qed.

Lemma effect_ok (w w' : W) : sys_ok w -> effect w w' -> sys_ok w'.
Proof.
intros Hok [E1 E2 E3 E4|id req Hc Hio|id tx Htx Hm Hc Hs];
  [by eapply sys_same|by eapply created_sys_ok|by eapply sys_moved].
Qed.

(** The transactions of the world stay, with their business fields, and their
  sagas move along the lifecycle. *)
Definition progressed (id : string) (s s' : MemStore) : Prop :=
forall tx sg, stored id s tx sg -> exists tx' sg', stored id s' tx' sg' /\
  later tx tx' /\ star legal (sg_State sg) (sg_State sg').

#[export] Instance progressed_preorder id : PreOrder (progressed id).
Proof.
split.
- intros s tx sg Hst. exists tx, sg. split_and!; [done|apply later_refl|reflexivity].
- intros s1 s2 s3 H12 H23 tx sg Hst. destruct (H12 tx sg Hst) as (tx2&sg2&Hst2&Hl2&Hs2).
  destruct (H23 tx2 sg2 Hst2) as (tx3&sg3&Hst3&Hl3&Hs3). exists tx3, sg3.
  split_and!; [done|by eapply later_trans|by etrans].
Qed.

Lemma effect_progressed (w w' : W) id :
sys_ok w -> effect w w' -> progressed id (w_store w) (w_store w').
Proof.
intros Hok He tx sg Hst. destruct He as [E1 E2 E3 E4|id' req [Hnew Ht] Hio|id' tx' Htx' [[Ho Hm] _] Hc Hs].
- exists tx, sg. split_and!; [|apply later_refl|reflexivity].
  destruct Hst. split; [by rewrite E1|by rewrite E2|done|done].
- destruct Ht as (u&v&rows&now&e&E1&E2&_). exists tx, sg.
  split_and!; [|apply later_refl|reflexivity].
  assert (id' <> id) as Hne by (intros ->; by rewrite (stored_tx _ _ _ _ Hst) in Hnew).
  destruct Hst. split; [by rewrite E1, lookup_insert_ne|by rewrite E2, lookup_insert_ne|done|done].
- destruct (decide (id = id')) as [->|Hne].
  + destruct (sys_stored w id' tx Hok (stored_tx _ _ _ _ Hst)) as (sg0&Hst0&Hsync&_).
    assert (sg0 = sg) as -> by (pose proof (stored_sg _ _ _ _ Hst0);
      pose proof (stored_sg _ _ _ _ Hst); congruence).
    destruct (Hm tx sg Hst Hsync) as (tx1&sg1&Hst1&_&Hl&Hlater&_). exists tx1, sg1. by split_and!.
  + exists tx, sg. split_and!; [|apply later_refl|reflexivity].
    destruct (Ho id Hne) as [E1 E2]. destruct Hst. by split; [rewrite E1|rewrite E2|..].
Qed.

(** Every call made so far was allowed, when it was made, for a transaction
  that is stored. *)
Definition history_ok (w : W) : Prop :=
forall l1 call l2, x_calls (w_ext w) = l1 ++ call :: l2 ->
exists tx, mem_txs (w_store w) !! tx_TxID tx = Some tx /\ enabled tx l1 call.

Lemma effect_history (w w' : W) : sys_ok w -> effect w w' -> history_ok w -> history_ok w'.
Proof.
intros Hok He Hh l1 call l2 E.
assert (forall id tx, mem_txs (w_store w) !! id = Some tx -> enabled tx l1 call ->
  exists tx', mem_txs (w_store w') !! tx_TxID tx' = Some tx' /\ enabled tx' l1 call) as Hkeep.
{ intros id tx Htx Hen. destruct (sys_stored w id tx Hok Htx) as (sg&Hst&_).
  destruct (effect_progressed w w' id Hok He tx sg Hst) as (tx'&sg'&Hst'&[Hl _]&_).
  exists tx'. rewrite (stored_tx_id _ _ _ _ Hst'). split; [apply Hst'|].
  rewrite Hl. by apply enabled_status. }
assert (forall k, x_calls (w_ext w') = x_calls (w_ext w) ++ k ->
  (exists l2', x_calls (w_ext w) = l1 ++ call :: l2') \/
  exists k1 k2, k = k1 ++ call :: k2 /\ l1 = x_calls (w_ext w) ++ k1) as Hsplit.
{ intros k Ek. rewrite E in Ek. symmetry in Ek. apply app_eq_app in Ek as (m&[[E1 E2]|[E1 E2]]).
  - destruct m as [|c m]; cbn in E2.
    + right. exists [], l2. rewrite app_nil_r in E1. by rewrite app_nil_r, E1, E2.
    + left. injection E2 as <- ->. by exists m.
  - right. by exists m, l2. }
destruct He as [E1 E2 E3 E4|id req Hc [_ E4]|id tx Htx Hm (k&Ek&Hg) Hs].
- rewrite E4 in E. destruct (Hh _ _ _ E) as (tx&Htx&Hen). by eapply Hkeep.
- rewrite E4 in E. destruct (Hh _ _ _ E) as (tx&Htx&Hen). by eapply Hkeep.
- destruct (Hsplit k Ek) as [[l2' E']|(k1&k2&->&->)].
  + destruct (Hh _ _ _ E') as (tx'&Htx'&Hen). by eapply Hkeep.
  + eapply Hkeep; [exact Htx|]. by eapply gated_lookup.
Qed.

(** Any run of any saga is such an operation. *)
Lemma sys_run (c : Clients P) cfg id owner pf fuel (w w' : W) o :
delays_ok cfg -> sys_ok w ->
Run env (NewExecutor env c cfg) id owner pf fuel w = (o, w') -> effect w w'.
Proof.
intros Hd Hok Hrun. destruct (mem_txs (w_store w) !! id) as [tx|] eqn:Htx.
- destruct (sys_stored w id tx Hok Htx) as (sg&Hst&Hsync&_).
  pose proof (sys_sound w Hok id tx Htx) as Hs. destruct (stored_tx_id _ _ _ _ Hst).
  destruct (Run_correct env c cfg tx owner pf fuel w o w' Hs Hrun) as [Hcalls Hs'].
  apply (eff_moved w w' (tx_TxID tx) tx); [done| |done|].
  + by eapply Run_moved.
  + by eapply Hs', Run_no_panic.
- destruct fuel as [|fuel]; [injection Hrun as <- <-; apply effect_refl|].
  rewrite Run_unknown in Hrun by done. injection Hrun as <- <-. apply effect_refl.
Qed.

(** A manual compensation of a saga under way settles it. *)
Lemma sys_compensate (c : Clients P) cfg id (w w' : W) tx sg step o :
let e := NewExecutor env c cfg in
sys_ok w -> stored id (w_store w) tx sg -> Terminal (sg_State sg) = false ->
StepByName e (sg_CurrentStep sg) = Some step ->
compensateCascade env e id step w = (o, w') ->
effect w w' /\ advanced 8 id tx w' /\ cascade_reports id o w'.
Proof.
intros e Hok Hst Ht Hstep Hrun.
destruct (sys_stored w id tx Hok (stored_tx _ _ _ _ Hst)) as (sg'&Hst'&_&Hset).
assert (sg' = sg) as -> by (pose proof (stored_sg _ _ _ _ Hst'); pose proof (stored_sg _ _ _ _ Hst);
  congruence).
unfold settled in Hset. rewrite Ht in Hset. pose proof Hset as [Hat He _ _ _].
unfold StepByName in Hstep. apply find_first_Some in Hstep as [Hin Hname].
apply bool_decide_eq_true in Hname. rewrite <- Hname in Hat.
destruct (compensateCascade_correct env c cfg id step w o w' tx sg Hst Hat Hin He Hrun)
  as (Hcalls&Hadv&Hret).
split; [|done]. destruct (stored_tx_id _ _ _ _ Hst).
assert (exists i, index_of (Name step) (ex_Steps e) = Some i) as [i Hi].
{ clear -Hin. induction (ex_Steps e) as [|s l IH]; [by inversion Hin|]. cbn.
  case_bool_decide as E; [by eexists|]. apply elem_of_cons in Hin as [->|Hin]; [done|].
  destruct (IH Hin) as [i ->]. by eexists. }
apply (eff_moved w w' (tx_TxID tx) tx); [apply Hst| |done|].
- by eapply compensateCascade_moved.
- unfold sound. by eapply advanced_le; [|exact Hadv]; lia.
Qed.
End Frame.
