(* ===== verification/Scenario.v ===== *)
(** A concrete world for the witnesses: one transaction created through the
    API's rows on an empty [MemStore], the stub partners, no leases. *)

From S2P Require Import Prelude StateMachine Store Partner Steps Lease Executor SagaLog.
From S2P Require Import ExecutorFacts Worker Api ApiFacts SagaInv Returns RunFacts Legality.

Local Open Scope Z_scope.
Local Open Scope go_scope.

(** The functions of the standard library, as the identity. *)
#[export] Instance demo_std : GoStd := {| sha256_hex := id; strconv_quote := id |}.

(** A runtime whose context ends at the readings [cancel] names. *)
Definition demo_rt (cancel : nat -> bool) (n : nat) : Runtime := {|
  rt_now := 1000 + Z.of_nat n; rt_uuid := fun i => Z.of_nat (i + 1);
  rt_uuid_string := fun i => "id-" +:+ itoa (Z.of_nat n) +:+ "-" +:+ itoa (Z.of_nat i);
  rt_ctx := if cancel n then Some (Sentinel "context canceled") else None;
  rt_rand := fun n => n - 1 |}.

Definition calm_env : nat -> Runtime := demo_rt (fun _ => false).

(** A context that ends at every tenth reading. *)
Definition ticking_env : nat -> Runtime := demo_rt (fun n => Nat.eqb (n mod 10) 9).

Definition demo_req : CreateTxRequest := {|
  rq_UserID := "u1"; rq_QuoteID := "q1"; rq_Amount := "100.00"; rq_Asset := "BTC";
  rq_Rail := "CARD"; rq_DestAddress := "bc1q" |}.

Definition demo_tx : Transaction := tx_with_ID (new_tx "t1" 1000 demo_req) 1.

Definition demo_store : MemStore :=
  snd (Mem.CreateTx (calm_env 0) (new_tx "t1" 1000 demo_req) (new_steps "t1") (new_saga "t1")
         (new_events (calm_env 0) "t1" 1000 demo_req) NewMemStore).

Definition demo_ext : Ext Stub := {| x_partners := NewStub; x_calls := []; x_tick := 0 |}.

Definition demo_world : World MemStore Stub NoopLease :=
  {| w_store := demo_store; w_ext := demo_ext; w_lease := tt |}.

Definition demo_saga : SagaState := sg_with_ID (new_saga "t1") 8.

(** The executor on the stub, with the default configuration. *)
Definition demo_exec (env : nat -> Runtime) (cfg : StubConfig) : Executor Stub :=
  NewExecutor env (stub_clients cfg) DefaultConfig.

Lemma demo_stored : stored "t1" demo_store demo_tx demo_saga.
Proof. split; reflexivity. Qed.

Lemma demo_sound : sound demo_tx demo_world.
Proof.
  unfold demo_world, demo_store.
  destruct (CreateTx_fresh (calm_env 0) 1000 demo_req "t1"
    (new_events (calm_env 0) "t1" 1000 demo_req) NewMemStore) as (t&sg&rows&->&Ht&Hsg&_&Hrows);
    [done|].
  assert (t = demo_tx) as <- by done.
  by eapply created_sound.
Qed.

(** A store with the records of one transaction. *)
Lemma demo_lookups id' :
  mem_txs demo_store !! id' = (if bool_decide ("t1" = id') then Some demo_tx else None) /\
  mem_sagas demo_store !! id' = (if bool_decide ("t1" = id') then Some demo_saga else None).
Proof.
  case_bool_decide as Hid; [by subst|].
  split; by apply (lookup_singleton_ne "t1" id').
Qed.

Lemma demo_rows : rows_keyed demo_store.
Proof.
  intros id' n a r Hr. unfold row_of in Hr. apply find_first_Some in Hr as [Hin _].
  unfold rows_of in Hin. destruct (decide ("t1" = id')) as [<-|Hne].
  - assert (Forall (fun r => row_TxID r = "t1") (default [] (mem_steps demo_store !! "t1"))) as Hf.
    { by repeat constructor. }
    rewrite Forall_forall in Hf. by apply Hf.
  - assert (mem_steps demo_store !! id' = None) as E by by apply (lookup_singleton_ne "t1" id').
    rewrite E in Hin. inversion Hin.
Qed.

Lemma demo_filed : filed demo_store.
Proof.
  split; [intros id' tx|intros id' sg|intros id' tx|apply demo_rows];
    rewrite ?(proj1 (demo_lookups id')), ?(proj2 (demo_lookups id'));
    case_bool_decide; try done; intros [= <-]; by eauto.
Qed.

Lemma demo_in_sync : in_sync demo_store "t1".
Proof.
  intros tx sg [Htx Hsg _ _].
  rewrite (proj1 (demo_lookups "t1")) in Htx. rewrite (proj2 (demo_lookups "t1")) in Hsg.
  rewrite bool_decide_eq_true_2 in Htx, Hsg by done. by simplify_eq.
Qed.

Lemma demo_grants : @grants NoopLease _.
Proof. intros ????. done. Qed.

Lemma demo_delays : delays_ok DefaultConfig.
Proof. split; discriminate. Qed.

Lemma ticking_expires : expires ticking_env 10.
Proof.
  intros k. exists (9 - k mod 10)%nat.
  pose proof (Nat.mod_upper_bound k 10). split; [lia|].
  unfold ticking_env, demo_rt. cbn [rt_ctx].
  assert ((k + (9 - k mod 10)) mod 10 = 9)%nat as ->; [|done].
  pose proof (Nat.div_mod_eq k 10) as Hk.
  replace (k + (9 - k mod 10))%nat with (9 + (k / 10) * 10)%nat by lia.
  by rewrite Nat.Div0.mod_add.
Qed.
