(* ===== verification/Cooperation.v ===== *)
(** The happy path: with partners that never refuse, leases that are granted and
    a context that does not end, a run completes the saga. *)

From S2P Require Import Prelude StateMachine Store Partner Steps Lease Executor SagaLog.
From S2P Require Import StepsCorrect ExecutorFacts RunFacts Legality CascadeCorrect Attempting.
From S2P Require Import Returns SagaInv Worker Api ApiFacts Scenario.

Local Open Scope go_scope.

(** ** Partners that never refuse *)

Section Cooperative.
Context {P : Type}.

(** [Status] reports the confirmation of [h] within [n] polls, the first one in
  state [p]. *)
Fixpoint confirms (b : Blockchain P) (h : string) (n : nat) (p : P) : Prop :=
match n with
| O => False
| S n' =>
    let '(r, p') := Status b h p in
    match r with
    | Ok st => Confirmed st = true \/ confirms b h n' p'
    | Err _ => confirms b h n' p'
    end
end.

(** Every service is configured, grants what it is asked, and names what it
  made; the chain confirms within [polls] polls. *)
Record cooperative (c : Clients P) (polls : nat) : Prop := {
coop_policy : exists cl, cl_Policy c = Some cl /\ forall req p, exists resp p',
  Evaluate cl req p = (Ok resp, p') /\ pp_Decision resp <> PolicyDeny;
coop_payment : exists cl, cl_Payment c = Some cl /\
  (forall req p, exists a p', Authorize cl req p = (Ok a, p')) /\
  (forall req p, exists a p', Capture cl req p = (Ok a, p'));
coop_kyt : exists cl, cl_Kyt c = Some cl /\ forall req p, exists resp p',
  Screen cl req p = (Ok resp, p') /\ kp_Decision resp = KytClear;
coop_mpc : exists cl, cl_Mpc c = Some cl /\ forall req p, exists resp p',
  Sign cl req p = (Ok resp, p') /\ SignedTxHex resp <> "";
coop_blockchain : exists cl, cl_Blockchain c = Some cl /\
  (forall req p, exists resp p', Broadcast cl req p = (Ok resp, p') /\ TxHash resp <> "") /\
  (forall h p, confirms cl h polls p);
coop_ledger : exists cl, cl_Ledger c = Some cl /\
  forall req p, exists resp p', PostDoubleEntry cl req p = (Ok resp, p');
}.

(** The state a turn of the loop leaves; the turn that broadcasts also polls
  for the confirmation. *)
Definition turn_of (st : State) : option State :=
match st with
| StateCreated => Some StatePolicyChecked
| StatePolicyChecked => Some StatePaymentCaptured
| StatePaymentCaptured => Some StateKytScreened
| StateKytScreened => Some StateSigned
| StateSigned => Some StateConfirmed
| StateConfirmed => Some StateCompleted
| _ => None
end.

(** A saga that waits to broadcast holds a signed payload. *)
Definition signed (sg : SagaState) : Prop :=
sg_State sg = StateSigned -> payload_string (sg_Payload sg) "signed_tx_hex" <> "".
End Cooperative.

Section Coop.
Context {P L : Type} `{GoStd} `{LeaseManager L} (env : nat -> Runtime).
Context (c : Clients P) (polls : nat) (Hcoop : cooperative c polls).
Implicit Types (step : StepImpl P) (sc : SagaContext P).
Local Abbreviation W := (World MemStore P L).

(** What an execution of [step] adds when it is granted. *)
Definition granted_step step sc : Prop :=
forall x, exists st m x', Execute step sc x = (Returned (advance_to st m, None), x') /\
  StateForStep (Name step) = Some st /\
  let p' := mergePayload (sg_Payload (sc_Saga sc)) m in
  (Name step = StepMpcSign -> payload_string p' "signed_tx_hex" <> "") /\
  (Name step = StepBroadcast -> payload_string p' "tx_hash" <> "").

Lemma coop_executes step sc :
step ∈ canonical_steps env c ->
payload_string (sg_Payload (sc_Saga sc)) "ledger_journal_id" = "" ->
(Name step = StepBroadcast -> payload_string (sg_Payload (sc_Saga sc)) "tx_hash" = "" /\
   payload_string (sg_Payload (sc_Saga sc)) "signed_tx_hex" <> "") ->
granted_step step sc.
Proof.
unfold canonical_steps. rewrite !elem_of_cons, elem_of_nil. intros Hin Hj Hb x.
destruct Hcoop as [(pol&Epol&Hpol) (pay&Epay&Hauth&Hcap) (kyt&Ekyt&Hkyt) (mpc&Empc&Hmpc)
  (chain&Echain&Hbr&_) (led&Eled&Hled)].
destruct Hin as [->|[->|[->|[->|[->|[->|[]]]]]]]; cbn in Hb |- *.
- unfold PolicyStep_Execute, bind, invoke. rewrite Epol.
  destruct (Hpol {| pr_TxID := tx_TxID (sc_Tx sc); pr_UserID := tx_UserID (sc_Tx sc);
    pr_QuoteID := tx_QuoteID (sc_Tx sc); pr_Amount := tx_Amount (sc_Tx sc);
    pr_Asset := tx_Asset (sc_Tx sc); pr_Rail := tx_Rail (sc_Tx sc);
    pr_DestAddress := tx_DestAddress (sc_Tx sc) |} (x_partners x)) as (resp&p'&->&Hd).
  destruct (pp_Decision resp); [|done|]; do 3 eexists; (split; [done|]; by split).
- unfold PaymentStep_Execute, bind, invoke. rewrite Epay.
  match goal with |- context [Authorize pay ?r ?p] => destruct (Hauth r p) as (a&p1&->) end. cbn.
  match goal with |- context [Capture pay ?r ?p] => destruct (Hcap r p) as (cp&p2&->) end.
  do 3 eexists. split; [done|]. by split.
- unfold KytStep_Execute, bind, invoke. rewrite Ekyt.
  match goal with |- context [Screen kyt ?r ?p] => destruct (Hkyt r p) as (resp&p1&->&Hd) end.
  rewrite Hd. do 3 eexists. split; [done|]. by split.
- unfold MpcSignStep_Execute, bind, invoke. rewrite Empc.
  match goal with |- context [Sign mpc ?r ?p] => destruct (Hmpc r p) as (resp&p1&->&Hd) end.
  do 3 eexists. split; [done|]. split; [done|]. split; [|done]. intros _.
  unfold mergePayload. by payload_keys.
- unfold BroadcastStep_Execute, bind, invoke. rewrite Echain.
  destruct (Hb eq_refl) as [-> Hs]. rewrite bool_decide_eq_true_2 by done. cbn [negb].
  rewrite bool_decide_eq_false_2 by done.
  match goal with |- context [Broadcast chain ?r ?p] => destruct (Hbr r p) as (resp&p1&->&Hd) end.
  do 3 eexists. split; [done|]. split; [done|]. split; [done|]. intros _.
  by destruct (broadcast_payload_keys resp (sg_Payload (sc_Saga sc))) as (->&_).
- unfold LedgerStep_Execute, bind, invoke. rewrite Eled, Hj, bool_decide_eq_true_2 by done.
  cbn [negb].
  match goal with |- context [PostDoubleEntry led ?r ?p] => destruct (Hled r p) as (resp&p1&->) end.
  do 3 eexists. split; [done|]. by split.
Qed.

(** The snapshot after a turn's step: its state, and the records of it. *)
Definition after_step step sc sg' : Prop :=
exists st m, StateForStep (Name step) = Some st /\
  sg' = saga_after step sc (advance_to st m) /\
  let p' := mergePayload (sg_Payload (sc_Saga sc)) m in
  (Name step = StepMpcSign -> payload_string p' "signed_tx_hex" <> "") /\
  (Name step = StepBroadcast -> payload_string p' "tx_hash" <> "").

(** The transition a granted step asks for is legal, unless the ledger is
  posted without a confirmation. *)
Lemma granted_legal step sc st m :
step_at (sg_State (sc_Saga sc)) = Some (Name step) ->
sg_State (sc_Saga sc) <> StateBroadcasted -> StateForStep (Name step) = Some st ->
validatePath (sg_State (sc_Saga sc)) st (sg_State (saga_after step sc (advance_to st m))) = None.
Proof.
intros Hat Hne Hst. destruct (decide (Name step = StepLedger)) as [El|El].
- rewrite El in Hst, Hat. cbn in Hst. injection Hst as <-.
  destruct (saga_after_ledger step sc (advance_to StateLedgered m) El) as [-> _]; [done..|].
  by destruct (sg_State (sc_Saga sc)).
- destruct (saga_after_next step sc (advance_to st m) Hat El) as (next&->&_&_&_&Hv); done.
Qed.

(** A granted attempt succeeds. *)
Lemma coop_once step sc (w : W) o w' :
granted_step step sc -> attempting step sc (sc_Attempt sc) w ->
sg_State (sc_Saga sc) <> StateBroadcasted -> once step sc w o w' ->
o = Returned (Ok tt) /\ exists sg' now row, after_step step sc sg' /\
  row_keyed row (tx_TxID (sc_Tx sc)) (Name step) (sc_Attempt sc) /\
  row_Status row = StepSucceeded /\ rows_set row (w_store w) (w_store w') /\
  tables_set (tx_TxID (sc_Tx sc)) (tx_with_status (sc_Tx sc) (sg_State sg')
    (tx_Version (sc_Tx sc) + 1)%Z now) sg' (w_store w) (w_store w').
Proof.
intros Hg Hat Hne.
assert (forall x1 o1 x2, Execute step sc x1 = (o1, x2) ->
  exists st m, o1 = Returned (advance_to st m, None) /\
    StateForStep (Name step) = Some st /\ after_step step sc (saga_after step sc (advance_to st m)))
  as Hx.
{ intros x1 o1 x2 E. destruct (Hg x1) as (st&m&x'&E'&Hst&Hp). rewrite E' in E. simplify_eq.
  exists st, m. split; [done|]. split; [done|]. by exists st, m. }
destruct 1 as [w' r Hrow Hs E Hio _ | x1 x2 w' p row Hio Hexec
  | x1 x2 w' res err row Hio Hexec | x1 x2 w' res err row sg' now Hio Hexec
  | x1 x2 w' res err terr row Hio Hexec
  | x1 x2 w' res row now Hio Hexec Hv Hk Hs Hrows Htab _ _
  | x1 x2 w' res err terr pre row Hio Hexec Hv].
- exfalso. eapply (at_rows _ _ _ _ Hat); [|exact Hrow|done]. right. split; [done|lia].
- destruct (Hx _ _ _ Hexec) as (st&m&E&_). by destruct p.
- by destruct (Hx _ _ _ Hexec) as (st&m&[=]&_).
- by destruct (Hx _ _ _ Hexec) as (st&m&[=]&_).
- by destruct (Hx _ _ _ Hexec) as (st&m&[=]&_).
- destruct (Hx _ _ _ Hexec) as (st&m&[= ->]&_&Ha). split; [done|].
  by exists (saga_after step sc (advance_to st m)), now, row.
- exfalso. destruct (Hx _ _ _ Hexec) as (st&m&[= ->]&Hst&_).
  pose proof (granted_legal step sc st m (at_step _ _ _ _ Hat) Hne Hst) as Hl.
  cbn in Hv. congruence.
Qed.

Lemma coop_retried step sc n (w : W) o w' :
granted_step step (with_attempt sc 1) -> attempting step sc 1 w ->
sg_State (sc_Saga sc) <> StateBroadcasted -> retried step sc (S n) 1 w o w' ->
o = Returned (Ok tt) /\ exists sg' now row, after_step step (with_attempt sc 1) sg' /\
  row_keyed row (tx_TxID (sc_Tx sc)) (Name step) 1 /\
  row_Status row = StepSucceeded /\ rows_set row (w_store w) (w_store w') /\
  tables_set (tx_TxID (sc_Tx sc)) (tx_with_status (sc_Tx sc) (sg_State sg')
    (tx_Version (sc_Tx sc) + 1)%Z now) sg' (w_store w) (w_store w').
Proof.
intros Hg Hat Hne Hr. apply (attempting_with step sc 1 1) in Hat.
assert (forall o1 w1, once step (with_attempt sc 1) w o1 w1 -> o1 = Returned (Ok tt)) as Hok.
{ intros o1 w1 Ho. by destruct (coop_once step (with_attempt sc 1) w o1 w1 Hg Hat Hne Ho). }
inversion Hr as [|? ? ? ? Ho|? ? ? p ? Ho|? ? ? ? ? ? ? Ho|? ? ? ? ? ? ? ? Ho]; subst.
- by apply (coop_once step (with_attempt sc 1) w _ w' Hg Hat Hne).
- apply Hok in Ho. by destruct p.
- by apply Hok in Ho.
- by apply Hok in Ho.
Qed.

(** Polling ends with the confirmation stored. *)
Lemma coop_polled client id h tx sg : forall n fuel (w : W),
confirms client h n (x_partners (w_ext w)) -> n <= fuel ->
(forall k, rt_ctx (env k) = None) ->
stored id (w_store w) tx sg -> sg_State sg = StateBroadcasted ->
exists w', poll_confirmed env client id h sg fuel w = (Returned (Ok tt), w').
Proof.
induction n as [|n IH]; intros [|fuel] w Hc Hle Hctx Hst Hb; [done|done|lia|]. cbn in Hc |- *.
unfold bind at 1, in_ext, zoom, invoke.
destruct (Status client h (x_partners (w_ext w))) as [r p].
set (w1 := set_ext _ w).
destruct (match r with Ok st => Confirmed st | Err _ => false end) eqn:E.
{ destruct (persistConfirmedInline_spec env tx sg id w1) as (w2&now&->&_); [done..|].
  by eexists. }
destruct (wait_or_done_spec env w1) as (w2&Ew&Es&[Ep _]&_).
rewrite (bind_returned _ _ _ _ _ Ew), Hctx. apply IH.
- rewrite Ep. cbn. destruct r as [st|]; [|done]. destruct Hc; [congruence|done].
- lia.
- done.
- by rewrite Es.
- done.
Qed.

Lemma coop_confirmed cfg id pf (w : W) o w' tx sg :
stored id (w_store w) tx sg -> sg_State sg = StateBroadcasted ->
payload_string (sg_Payload sg) "tx_hash" <> "" -> polls <= pf ->
(forall k, rt_ctx (env k) = None) ->
advanceToConfirmed env (NewExecutor env c cfg) id pf w = (o, w') ->
mem_steps (w_store w') = mem_steps (w_store w) /\ exists r, o = Returned r /\ exists now,
  tables_set id (tx_with_status tx StateConfirmed (tx_Version tx + 1)%Z now)
    (sg_advance sg StepLedger StateConfirmed (sg_Payload sg) (sg_Version sg + 1)%Z)
    (w_store w) (w_store w').
Proof.
intros Hst Hb Hh Hle Hctx Hrun. destruct (coop_blockchain _ _ Hcoop) as (cl&Ecl&_&Hconf).
unfold advanceToConfirmed in Hrun. cbn [ex_Clients NewExecutor] in Hrun.
destruct c as [? ? ? ? b ? ?]. cbn in Ecl. subst b.
unfold bind_err, bind, reading in Hrun. cbn in Hrun. unfold Mem.LoadSagaState in Hrun.
rewrite (stored_sg _ _ _ _ Hst), bool_decide_eq_false_2 in Hrun by done.
destruct (coop_polled cl id (payload_string (sg_Payload sg) "tx_hash") tx sg polls pf w)
  as (w2&E); [apply Hconf|done..|].
destruct (poll_confirmed_spec env cl id _ tx sg pf w o w' Hst Hb Hrun)
  as (_&_&Hsteps&[(->&_&Ht)|[Ho _]]); [by eauto|].
rewrite E in Hrun. injection Hrun as <- _. by destruct Ho as [|[]].
Qed.

(** *** One turn of the loop *)

(** The first attempts of the steps before position [n] succeeded. *)
Definition done_before (id : string) (s : MemStore) (n : nat) : Prop :=
forall k, step_pos k < n -> exists r, row_of s id k 1 = Some r /\ row_Status r = StepSucceeded.

Lemma done_step id s s' k row :
row_keyed row id k 1 -> row_Status row = StepSucceeded -> rows_set row s s' ->
step_pos k < 6 -> done_before id s (step_pos k) -> done_before id s' (S (step_pos k)).
Proof.
intros Hk Hs Hr Hlt Hd k' Hk'. destruct (decide (k = k')) as [<-|Hne].
- exists row. split; [by eapply rows_set_lookup|done].
- rewrite (rows_set_other _ _ _ _ _ _ id k' 1 Hr Hk) by congruence. apply Hd.
  destruct k, k'; cbn in *; try done; lia.
Qed.

Lemma done_steps id s s' n : mem_steps s' = mem_steps s -> done_before id s n -> done_before id s' n.
Proof. intros E Hd k Hk. unfold row_of, rows_of. rewrite E. by apply Hd. Qed.

(** The step a turn runs, and what its retries start from. *)
Lemma turn_attempting cfg id step (w w1 : W) tx sg :
let e := NewExecutor env c cfg in
stored id (w_store w) tx sg -> settled id sg (w_store w) (x_calls (w_ext w)) ->
Terminal (sg_State sg) = false -> StepByName e (sg_CurrentStep sg) = Some step ->
calm w w1 ->
step_at (sg_State sg) = Some (Name step) /\ step ∈ canonical_steps env c /\
Name step = sg_CurrentStep sg /\ attempting step (run_context e tx sg) 1 w1.
Proof.
intros e Hst Hset Ht Hs (Es&_&Ex). unfold settled in Hset. rewrite Ht in Hset.
destruct Hset as [Hat He Hj Hp Hrows]. apply find_first_Some in Hs as [Hin Hn].
apply bool_decide_eq_true in Hn. split; [by rewrite Hn|]. split; [done|]. split; [done|].
pose proof (stored_tx_id _ _ _ _ Hst) as Htxid.
split; cbn; rewrite ?Htxid, ?Es, ?Ex, ?Hn; try done.
- by apply (canonical_executes env c).
- by left.
- by apply pending_from_at.
Qed.

(** What a turn of a cooperative run leaves. *)
Definition turned_to (id : string) (sg : SagaState) (w : W) (st : State) (o : outcome iter)
  (w' : W) : Prop :=
exists sg', mem_sagas (w_store w') !! id = Some sg' /\ sg_State sg' = st /\ signed sg' /\
  (done_before id (w_store w) (step_pos (sg_CurrentStep sg)) ->
   done_before id (w_store w') (if Terminal st then 6 else step_pos (sg_CurrentStep sg'))) /\
  o = Returned (if Terminal st then Executor.Stop (Ok tt) else Continue).

(** The record after a step that is not the last. *)
Lemma after_step_next step sc sg' :
step_at (sg_State (sc_Saga sc)) = Some (Name step) -> Name step <> StepLedger ->
after_step step sc sg' ->
exists st next m, StateForStep (Name step) = Some st /\
  sg' = sg_advance (sc_Saga sc) next st m (sg_Version (sc_Saga sc) + 1)%Z /\
  step_at st = Some next /\ step_pos next = S (step_pos (Name step)) /\
  (Name step = StepMpcSign -> payload_string m "signed_tx_hex" <> "") /\
  (Name step = StepBroadcast -> payload_string m "tx_hash" <> "").
Proof.
intros Hat Hne (st&m&Hst&->&Hs&Hb).
destruct (saga_after_next step sc (advance_to st m) Hat Hne) as (next&->&Hn&_&_&_); [done..|].
cbn in Hn. exists st, next, (mergePayload (sg_Payload (sc_Saga sc)) m).
split_and!; [done|done|done| |done|done].
destruct (sg_State (sc_Saga sc)); cbn in Hat; simplify_eq; rewrite <- Hat in Hst |- *;
  cbn in Hst; simplify_eq; cbn in Hn; by simplify_eq.
Qed.

(** The record a granted step leaves, and what the turn goes on with. *)
Lemma after_step_turn step sc sg' st' :
step_at (sg_State (sc_Saga sc)) = Some (Name step) ->
turn_of (sg_State (sc_Saga sc)) = Some st' -> after_step step sc sg' ->
(sg_State (sc_Saga sc) = StateConfirmed /\ st' = StateCompleted /\ sg_State sg' = st' /\
   Name step = StepLedger) \/
(Terminal (sg_State sg') = false /\ Terminal st' = false /\ sg_State sg' <> StateConfirmed /\
 step_pos (sg_CurrentStep sg') = S (step_pos (Name step)) /\ signed sg' /\
 (sg_State sg' = StateBroadcasted -> st' = StateConfirmed /\
    payload_string (sg_Payload sg') "tx_hash" <> "") /\
 (sg_State sg' <> StateBroadcasted -> sg_State sg' = st')).
Proof.
intros Hat Hturn Ha. destruct (decide (Name step = StepLedger)) as [El|El].
- left. destruct Ha as (st&m&Hst&->&_). rewrite El in Hst, Hat. cbn in Hst. injection Hst as <-.
  destruct (saga_after_ledger step sc (advance_to StateLedgered m) El) as [-> _]; [done..|].
  destruct (sg_State (sc_Saga sc)); cbn in Hat, Hturn; by simplify_eq.
- right. destruct (after_step_next _ _ _ Hat El Ha) as (st&next&m&Hst&->&Hn&Hpos&Hs&Hb).
  unfold signed. cbn [sg_State sg_CurrentStep sg_Payload sg_advance].
  destruct (sg_State (sc_Saga sc)); cbn in Hat, Hturn; simplify_eq;
    rewrite <- Hat in Hst, Hs, Hb, Hpos |- *; cbn in Hst; simplify_eq;
    (split_and!; [done|done|done|exact Hpos|intros; first [done|by apply Hs]|
       intros; split; first [done|by apply Hb]|done]).
Qed.

(** The step of a turn succeeds at its first attempt. *)
Lemma coop_step cfg id step (w w1 w2 : W) tx sg st' o1 :
let e := NewExecutor env c cfg in
(1 <= MaxRetries cfg)%Z ->
stored id (w_store w) tx sg -> settled id sg (w_store w) (x_calls (w_ext w)) ->
signed sg -> turn_of (sg_State sg) = Some st' ->
StepByName e (sg_CurrentStep sg) = Some step -> calm w w1 ->
runStepWithRetry env e step (run_context e tx sg) w1 = (o1, w2) ->
o1 = Returned (Ok tt) /\ step_at (sg_State sg) = Some (Name step) /\
Name step = sg_CurrentStep sg /\
exists sg' now, after_step step (with_attempt (run_context e tx sg) 1) sg' /\
tables_set id (tx_with_status tx (sg_State sg') (tx_Version tx + 1)%Z now) sg'
  (w_store w1) (w_store w2) /\
(done_before id (w_store w) (step_pos (Name step)) ->
 done_before id (w_store w2) (S (step_pos (Name step)))).
Proof.
intros e Hmax Hst Hset Hsig Hturn Hs Hc Hr. pose proof (proj1 Hc) as Es.
assert (Terminal (sg_State sg) = false /\ sg_State sg <> StateBroadcasted) as [Hnt Hnb]
  by by destruct (sg_State sg).
destruct (turn_attempting cfg id step w w1 tx sg Hst Hset Hnt Hs Hc) as (Hat&Hin&Hn&Ha).
pose proof (stored_tx_id _ _ _ _ Hst) as Hid.
apply runStepWithRetry_retried in Hr; [|cbn; by rewrite Hid, Es].
assert (budget e = S (pred (budget e))) as Eb by (unfold budget; cbn; lia).
rewrite Eb in Hr.
assert (granted_step step (with_attempt (run_context e tx sg) 1)) as Hg.
{ apply coop_executes; [done|apply Ha|]. cbn. intros Ebr. rewrite Ebr in Hat.
  pose proof (at_evidence _ _ _ _ Ha) as He. cbn in He.
  assert (sg_State sg = StateSigned) as E by (destruct (sg_State sg); cbn in Hat; congruence).
  rewrite E in He. split; [by apply (ev_no_hash _ _ _ _ He); cbn; lia|by apply Hsig]. }
destruct (coop_retried step _ _ _ _ _ Hg Ha Hnb Hr) as (->&sg'&now&row&Haft&Hk&Hrs&Hrows&Htab).
cbn in Hk, Htab. rewrite Hid in Hk, Htab.
split_and!; [done|done|done|]. exists sg', now. split_and!; [done|done|]. intros Hd.
eapply (done_step id (w_store w1) _ _ row); try done.
- destruct (sg_State sg); cbn in Hat; simplify_eq; rewrite <- Hat; cbn; lia.
- by rewrite Es.
Qed.

Lemma coop_turn cfg id owner pf (w : W) tx sg o w' st' :
let e := NewExecutor env c cfg in
(1 <= MaxRetries cfg)%Z -> grants (L := L) -> polls <= pf ->
(forall k, rt_ctx (env k) = None) ->
stored id (w_store w) tx sg -> settled id sg (w_store w) (x_calls (w_ext w)) ->
signed sg -> turn_of (sg_State sg) = Some st' ->
iterated env e id owner pf w tx sg o w' -> turned_to id sg w st' o w'.
Proof.
intros e Hmax Hgr Hpf Hctx Hst Hset Hsig Hturn Hi. unfold turned_to.
assert (Terminal (sg_State sg) = false) as Hnt by by destruct (sg_State sg).
pose proof (fun step w1 o1 w2 => coop_step cfg id step w w1 w2 tx sg st' o1 Hmax Hst Hset Hsig Hturn)
  as Hstep.
destruct Hi as [Ht|err Ht Hs|step w' o Ht Hs Hg Hc Ho|step w1 w' p Ht Hs Hc Hr
  |step w1 w2 w3 o w' err Ht Hs Hc1 Hr Hc3 Hc|step w1 w2 w' sg2 Ht Hs Hc1 Hr Hc2 Hl Ht2
  |step w1 w2 w' Ht Hs Hc1 Hr Hc2 Hl2
  |step w1 w2 w3 o w' sg2 Ht Hs Hc1 Hr Hc3 Hl Hb Ha].
- congruence.
- exfalso. unfold settled in Hset. rewrite Ht in Hset. destruct Hset as [Hat _ _ _ _].
  destruct (sg_State sg); cbn in Hat; simplify_eq; by rewrite <- Hat in Hs.
- by rewrite Hgr in Hg.
- exfalso. destruct (Hstep _ _ _ _ Hs Hc Hr) as [E _]. by destruct p.
- exfalso. by destruct (Hstep _ _ _ _ Hs Hc1 Hr) as [E _].
- destruct (Hstep _ _ _ _ Hs Hc1 Hr) as (_&Hat&Hn&sg'&now&Haft&[_ Htab]&Hd).
  pose proof Hc2 as (Es2&_). unfold Mem.LoadSagaState in Hl.
  rewrite Es2, Htab, lookup_insert_eq in Hl. injection Hl as ->.
  destruct (after_step_turn step (with_attempt (run_context e tx sg) 1) sg2 st' Hat Hturn Haft) as [(E1&->&E2&El)|(E&_)];
    [|congruence].
  exists sg2. rewrite Es2, Htab, lookup_insert_eq. split_and!; [done|done|by intros; congruence| |done].
  cbn. rewrite <- Hn. intros Hd0. rewrite El in Hd, Hd0. by apply Hd.
- destruct (Hstep _ _ _ _ Hs Hc1 Hr) as (_&Hat&Hn&sg'&now&Haft&[_ Htab]&Hd).
  pose proof Hc2 as (Es2&_).
  assert (mem_sagas (w_store w') !! id = Some sg') as Hl by by rewrite Es2, Htab, lookup_insert_eq.
  destruct (Hl2 sg') as [Hnt' Hnb']; [by unfold Mem.LoadSagaState; rewrite Hl|].
  destruct (after_step_turn step (with_attempt (run_context e tx sg) 1) sg' st' Hat Hturn Haft)
    as [(E1&->&E2&_)|(_&->&_&Hpos&Hsig'&_&Hst')]; [by rewrite E2 in Hnt'|].
  exists sg'. split_and!; [done|by apply Hst'|done| |done].
  rewrite <- Hn, Hpos. intros Hd0. apply (done_steps id (w_store w2)); [by rewrite Es2|by apply Hd].
- destruct (Hstep _ _ _ _ Hs Hc1 Hr) as (_&Hat&Hn&sg'&now&Haft&[Htab1 Htab]&Hd).
  pose proof Hc3 as (Es3&_). unfold Mem.LoadSagaState in Hl.
  rewrite Es3, Htab, lookup_insert_eq in Hl. injection Hl as ->.
  destruct (after_step_turn step (with_attempt (run_context e tx sg) 1) sg2 st' Hat Hturn Haft)
    as [(E1&->&E2&_)|(_&Ht'&_&Hpos&_&Hbr&_)]; [congruence|].
  destruct (Hbr Hb) as [-> Hh]. cbn [Terminal].
  assert (stored id (w_store w3) (tx_with_status tx (sg_State sg2) (tx_Version tx + 1)%Z now) sg2)
    as Hst3.
  { rewrite Es3. split; [by rewrite Htab1, lookup_insert_eq|by rewrite Htab, lookup_insert_eq|
      apply Hst|]. destruct Haft as (st&m&_&->&_). unfold saga_after.
    destruct (if res_Terminal _ then _ else _). apply Hst. }
  destruct (coop_confirmed cfg id pf w3 o w' _ sg2 Hst3 Hb Hh Hpf Hctx Ha)
    as (Hsteps&r&->&now2&[_ Htab2]).
  eexists. split; [by rewrite Htab2, lookup_insert_eq|]. cbn [sg_State sg_CurrentStep sg_advance].
  split_and!; [done|by intros [=]| |done].
  intros Hd0. apply (done_steps id (w_store w2)); [by rewrite Hsteps, Es3|].
  rewrite <- Hn in Hd0. specialize (Hd Hd0).
  assert (Name step = StepBroadcast) as En; [|by rewrite En in Hd].
  destruct (sg_State sg); cbn in Hat, Hturn; by simplify_eq.
Qed.

(** The turns a cooperative run takes from a state. *)
Definition turns_left (st : State) : nat :=
match st with
| StateCreated => 6 | StatePolicyChecked => 5 | StatePaymentCaptured => 4
| StateKytScreened => 3 | StateSigned => 2 | StateConfirmed => 1 | _ => 0
end.

Lemma turn_of_left st st' : turn_of st = Some st' ->
turns_left st = S (turns_left st') /\
(if Terminal st' then st' = StateCompleted else is_Some (turn_of st')).
Proof. destruct st; intros [= <-]; by split; cbn; eauto. Qed.

Lemma coop_run cfg t owner pf fuel : forall (w : W) sg,
(1 <= MaxRetries cfg)%Z -> grants (L := L) -> polls <= pf ->
(forall k, rt_ctx (env k) = None) -> sound t w ->
mem_sagas (w_store w) !! tx_TxID t = Some sg -> is_Some (turn_of (sg_State sg)) -> signed sg ->
turns_left (sg_State sg) <= fuel ->
exists w' sg', Run env (NewExecutor env c cfg) (tx_TxID t) owner pf fuel w = (Returned (Ok tt), w') /\
  sound t w' /\ mem_sagas (w_store w') !! tx_TxID t = Some sg' /\ sg_State sg' = StateCompleted /\
  (done_before (tx_TxID t) (w_store w) (step_pos (sg_CurrentStep sg)) ->
   done_before (tx_TxID t) (w_store w') 6).
Proof.
induction fuel as [|fuel IH]; intros w sg Hmax Hgr Hpf Hctx Hs Hsg [st' Hturn] Hsig Hf;
  destruct (turn_of_left _ _ Hturn) as [Hl Hst']; [lia|]. cbn.
destruct (run_iter env (NewExecutor env c cfg) (tx_TxID t) owner pf w) as [o1 w1] eqn:Hi.
pose proof Hs as (sg0&st&v&u&Hst&Hsg0&_&Hset).
assert (sg0 = sg) as -> by (pose proof (stored_sg _ _ _ _ Hst); congruence).
apply (run_iter_iterated env _ _ owner pf w (tx_with_status t st v u) sg) in Hi as Hit;
  [|exact Hst].
destruct (coop_turn cfg _ owner pf w _ sg o1 w1 st' Hmax Hgr Hpf Hctx Hst Hset Hsig Hturn Hit)
  as (sg1&Hsg1&<-&Hsig1&Hd1&->).
apply (iterated_turned env c cfg t) in Hit as [_ Hout]; [|by split_and!; eauto].
rewrite (bind_returned _ _ _ _ _ Hi).
assert (sound t w1) as Hs1.
{ destruct Hout as [[? _]|Hout]; [done|]. destruct (Terminal (sg_State sg1));
    [|destruct Hout as [_ Hout]]; by (eapply advanced_le; [|exact Hout]; lia). }
destruct (Terminal (sg_State sg1)) eqn:Ht.
- exists w1, sg1. by split_and!.
- destruct (IH w1 sg1 Hmax Hgr Hpf Hctx Hs1 Hsg1 Hst' Hsig1) as (w2&sg2&->&?&?&?&Hd2); [lia|].
  exists w2, sg2. split_and!; try done. by intros ?%Hd1%Hd2.
Qed.
End Coop.

(** C20: with partners that grant what they are asked, leases that are granted,
    at least one attempt per step and a context that does not end, a run takes
    a sound saga from any state it may be found in, but for a broadcast that is
    not confirmed, to [COMPLETED] and returns nil: each step succeeds at its
    first attempt, one turn each. *)
Theorem cooperative_completes {P L} `{GoStd} `{LeaseManager L} (env : nat -> Runtime)
  (c : Clients P) polls cfg t owner pf fuel (w : World MemStore P L) sg :
  cooperative c polls -> (1 <= MaxRetries cfg)%Z -> grants (L := L) -> polls <= pf ->
  (forall k, rt_ctx (env k) = None) -> sound t w ->
  mem_sagas (w_store w) !! tx_TxID t = Some sg -> is_Some (turn_of (sg_State sg)) -> signed sg ->
  turns_left (sg_State sg) <= fuel ->
  exists w' sg', Run env (NewExecutor env c cfg) (tx_TxID t) owner pf fuel w = (Returned (Ok tt), w') /\
    sound t w' /\ mem_sagas (w_store w') !! tx_TxID t = Some sg' /\
    sg_State sg' = StateCompleted /\
    (done_before (tx_TxID t) (w_store w) (step_pos (sg_CurrentStep sg)) ->
     done_before (tx_TxID t) (w_store w') 6).
Proof. intros Hcoop. by apply coop_run. Qed.

(** The default stub never refuses and confirms at the first poll. *)
Lemma default_stub_cooperative : cooperative (stub_clients DefaultStubConfig) 1.
Proof.
  split; eexists; (split; [done|]).
  - intros req p. do 2 eexists. by split.
  - by split; intros req p; do 2 eexists.
  - intros req p. do 2 eexists. by split.
  - intros req p. do 2 eexists. by split.
  - split; [|by left]. intros req p. do 2 eexists. by split.
  - intros req p. by do 2 eexists.
Qed.

Lemma cooperative_completes_witness :
  exists w' sg', Run calm_env (demo_exec calm_env DefaultStubConfig) "t1" "owner" 1 6 demo_world =
      (Returned (Ok tt), w') /\
    sound demo_tx w' /\ mem_sagas (w_store w') !! "t1" = Some sg' /\
    sg_State sg' = StateCompleted /\
    (done_before "t1" demo_store 0 -> done_before "t1" (w_store w') 6).
Proof.
  apply (cooperative_completes calm_env (stub_clients DefaultStubConfig) 1 DefaultConfig demo_tx
    "owner" 1 6 demo_world demo_saga default_stub_cooperative); [done|exact demo_grants|lia|done|
    exact demo_sound|done|by eexists|done|cbn; lia].
Defined.
