(* ===== verification/Poller.v ===== *)
(** The stand-alone confirmation poller ([internal/saga/confirm_poller.go]) and
    that it keeps a saga on track. *)

From S2P Require Import Prelude StateMachine Store Partner Steps Lease Executor SagaLog.
From S2P Require Import StepsCorrect ExecutorFacts RunFacts Legality CascadeCorrect Attempting.
From S2P Require Import Returns SagaInv Worker Api ApiFacts Scenario.

Local Open Scope Z_scope.
Local Open Scope go_scope.

(** [broadcastStatus] and the interface [partnerBlockchain]. *)
Record broadcastStatus := { bs_Confirmed : bool; bs_TxHash : string }.

Record partnerBlockchain (P : Type) := {
  pb_Status : string -> P -> result broadcastStatus * P }.
Arguments pb_Status {P} _.

Record ConfirmPoller (P : Type) := {
  cpl_Client : partnerBlockchain P;
  cpl_Interval : Z;
  cpl_MaxWait : Z }.
Arguments cpl_Client {P} _.
Arguments cpl_Interval {P} _.
Arguments cpl_MaxWait {P} _.

(** The status query in the call log, which knows the fuller answer of the
    gateway. *)
Definition log_status (h : string) (r : result broadcastStatus) : Call :=
  CStatus h (match r with
             | Ok st => Ok {| TxHash := bs_TxHash st; InMempool := false;
                              Confirmed := bs_Confirmed st |}
             | Err err => Err err
             end).

Section Poller.
Context {S P L : Type} `{GoStd} `{Store S} `{LeaseManager L} (env : nat -> Runtime).
Local Abbreviation W := (World S P L).

Definition persistConfirmed (txID : string) (sg : SagaState) : Go W (result unit) :=
let? tx := reading (LoadTx txID) in
run_in_tx env (fun rt =>
  (let newSaga := sg_advance sg StepLedger StateConfirmed (sg_Payload sg)
                    (sg_Version sg + 1) in
   match snd (Transition (sg_State sg) (sg_State newSaga)) with
   | Some err => tx_fail err
   | None =>
       let? _ := SaveSagaState newSaga in
       let? _ := UpdateTransactionStatus rt txID (sg_State newSaga) (tx_Version tx) in
       let! _ := AppendOutbox rt [confirmed_event rt txID sg] in
       tx_ret tt
   end)%tx).

Definition past_broadcast (s : State) : bool :=
match s with StateConfirmed | StateLedgered | StateCompleted => true | _ => false end.

(** The loop of [ConfirmPoller.Run]; [fuel] bounds the number of polls. *)
Fixpoint poll (p : ConfirmPoller P) (txID : string) (deadline : Z) (fuel : nat)
: Go W (result unit) :=
match fuel with
| O => diverge
| Datatypes.S fuel' =>
    let? sg := reading (LoadSagaState txID) in
    if past_broadcast (sg_State sg) then ret (Ok tt)
    else if negb (bool_decide (sg_State sg = StateBroadcasted))
    then ret (Err (New "confirm: saga not in broadcasted state"))
    else
      let txHash := payload_string (sg_Payload sg) "tx_hash" in
      if bool_decide (txHash = "") then ret (Err (New "confirm: missing tx_hash in saga payload"))
      else
        let! st := in_ext (invoke (pb_Status (cpl_Client p)) log_status txHash) in
        if match st with Ok st => bs_Confirmed st | Err _ => false end
        then persistConfirmed txID sg
        else
          let! rt := in_ext (runtime env) in
          if deadline <? rt_now rt then ret (Err (New "confirm: deadline exceeded"))
          else
            let! done := wait_or_done env in
            match done with
            | Some err => ret (Err err)
            | None => poll p txID deadline fuel'
            end
end.

Definition ConfirmPoller_Run (p : ConfirmPoller P) (txID : string) (fuel : nat)
: Go W (result unit) :=
let! rt := in_ext (runtime env) in
poll p txID (int64 (rt_now rt + cpl_MaxWait p)) fuel.
End Poller.

Section PollerFacts.
Context {P L : Type} `{GoStd} `{LeaseManager L} (env : nat -> Runtime).
Local Abbreviation W := (World MemStore P L).

(** The poller writes what the executor's inline confirmation writes. *)
Lemma persistConfirmed_inline txID sg (w : W) :
persistConfirmed env txID sg w = persistConfirmedInline env txID sg w.
Proof. reflexivity. Qed.

Lemma poll_spec (p : ConfirmPoller P) tx sg deadline fuel : forall (w : W) o w',
stored (tx_TxID tx) (w_store w) tx sg -> sg_State sg = StateBroadcasted ->
poll env p (tx_TxID tx) deadline fuel w = (o, w') ->
let h := payload_string (sg_Payload sg) "tx_hash" in
only_status h (w_ext w) (w_ext w') /\ mem_steps (w_store w') = mem_steps (w_store w) /\
((o = Returned (Ok tt) /\ confirmed h (x_calls (w_ext w')) /\ exists now,
    tables_set (tx_TxID tx) (tx_with_status tx StateConfirmed (tx_Version tx + 1) now)
      (sg_advance sg StepLedger StateConfirmed (sg_Payload sg) (sg_Version sg + 1))
      (w_store w) (w_store w')) \/
 ((o = Diverged \/ exists err, o = Returned (Err err)) /\
    tables_kept (w_store w) (w_store w'))).
Proof.
induction fuel as [|fuel IH]; intros w o w' Hst Hb Hrun h; cbn [poll] in Hrun.
{ unfold diverge in Hrun. simplify_eq. split_and!; [|done|by right; split; [left|]].
  exists []. by rewrite app_nil_r. }
assert (only_status h (w_ext w) (w_ext w)) as Hnil by (exists []; by rewrite app_nil_r).
unfold bind_err, bind at 1, reading in Hrun. cbn [LoadSagaState MemStore_Store] in Hrun.
unfold Mem.LoadSagaState in Hrun. rewrite (stored_sg _ _ _ _ Hst) in Hrun.
cbn beta iota in Hrun. rewrite Hb in Hrun. cbn [past_broadcast] in Hrun.
rewrite (bool_decide_eq_true_2 (StateBroadcasted = _)) in Hrun by done.
cbn [negb] in Hrun. fold h in Hrun.
destruct (bool_decide (h = "")).
{ unfold ret in Hrun. injection Hrun as <- <-.
  split_and!; [done|done|right; split; [by eauto|done]]. }
unfold bind at 1, in_ext at 1, zoom at 1, invoke at 1 in Hrun.
destruct (pb_Status (cpl_Client p) h (x_partners (w_ext w))) as [r q] eqn:Hs. cbn in Hrun.
set (w1 := set_ext _ w) in Hrun.
assert (only_status h (w_ext w) (w_ext w1)) as Hio1.
{ exists [log_status h r]. cbn. by split; [|repeat constructor]. }
destruct (match r with Ok st => bs_Confirmed st | Err _ => false end) eqn:Hconf.
- rewrite persistConfirmed_inline in Hrun.
  destruct (persistConfirmedInline_spec env tx sg (tx_TxID tx) w1)
    as (w2&now&E&[_ Hx]&_&Hsteps&Ht); [done..|].
  rewrite E in Hrun. injection Hrun as <- <-.
  assert (confirmed h (x_calls (w_ext w2))) as Hch.
  { rewrite Hx. apply confirmed_app. right. cbn. left. by destruct r. }
  split_and!; [|done|left; by eauto].
  destruct Hio1 as (l'&Hc&Hl'). exists l'. split; [|done]. by rewrite Hx.
- unfold bind at 1, in_ext at 1, zoom at 1, runtime at 1 in Hrun.
  set (w2 := set_ext _ w1) in Hrun.
  assert (only_status h (w_ext w) (w_ext w2)) as Hio2 by done.
  destruct (deadline <? _).
  { unfold ret in Hrun. injection Hrun as <- <-.
    split_and!; [done|done|right; split; [by eauto|done]]. }
  destruct (wait_or_done_spec env w2) as (w3&E&Hst3&Hio3&_).
  rewrite (bind_returned _ _ _ _ _ E) in Hrun.
  assert (only_status h (w_ext w) (w_ext w3)) as Hio13.
  { destruct Hio2 as (l'&Hc&Hl'). exists l'. split; [|done]. destruct Hio3 as [_ ->]. done. }
  destruct (rt_ctx _) as [cerr|].
  + unfold ret in Hrun. injection Hrun as <- <-. rewrite Hst3. cbn.
    split_and!; [done|done|]. right. split; [eauto|done].
  + assert (stored (tx_TxID tx) (w_store w3) tx sg) as Hst' by by rewrite Hst3.
    destruct (IH w3 o w' Hst' Hb Hrun) as (Hio4&Hs4&Hout).
    rewrite Hst3 in Hs4, Hout. cbn in Hs4, Hout.
    split_and!; [|done|done].
    destruct Hio13 as (l1&Hc1&Hl1), Hio4 as (l3&Hc3&Hl3').
    exists (l1 ++ l3). rewrite Hc3, Hc1, app_assoc. split; [done|by apply Forall_app].
Qed.

(** The saga of [t] is confirmed or further on its way forward. *)
Definition confirmed_saga (id : string) (s : MemStore) : Prop :=
exists sg, mem_sagas s !! id = Some sg /\ past_broadcast (sg_State sg) = true.

(** The hash of the broadcast the saga has on record. *)
Definition recorded_hash (id : string) (s : MemStore) : string :=
match mem_sagas s !! id with Some sg => payload_string (sg_Payload sg) "tx_hash" | None => "" end.

(** All that polling does: status queries for the recorded hash, and either no
  change or, after an answer that confirms it, the move from [BROADCASTED] to
  [CONFIRMED] in the two tables; the step rows stay. *)
Definition only_confirms (id : string) (w w' : W) : Prop :=
let h := recorded_hash id (w_store w) in
only_status h (w_ext w) (w_ext w') /\ mem_steps (w_store w') = mem_steps (w_store w) /\
(tables_kept (w_store w) (w_store w') \/
 exists tx sg now, stored id (w_store w) tx sg /\ sg_State sg = StateBroadcasted /\
   confirmed h (x_calls (w_ext w')) /\
   tables_set id (tx_with_status tx StateConfirmed (tx_Version tx + 1) now)
     (sg_advance sg StepLedger StateConfirmed (sg_Payload sg) (sg_Version sg + 1))
     (w_store w) (w_store w')).

Lemma only_confirms_nothing id (w w' : W) :
x_calls (w_ext w') = x_calls (w_ext w) -> w_store w' = w_store w -> only_confirms id w w'.
Proof.
intros Hx Hst. split_and!; [exists []; by rewrite app_nil_r|by rewrite Hst|left; by rewrite Hst].
Qed.

Lemma poll_correct (p : ConfirmPoller P) t deadline fuel (w : W) o w' :
sound t w -> poll env p (tx_TxID t) deadline fuel w = (o, w') ->
only_confirms (tx_TxID t) w w' /\ calls_ok t (w_ext w) (w_ext w') /\ sound t w' /\
(o = Returned (Ok tt) -> confirmed_saga (tx_TxID t) (w_store w')).
Proof.
intros Hs Hrun. pose proof Hs as (sg&st&v&u&Hst&Hsg&_&Hset).
destruct (decide (sg_State sg = StateBroadcasted)) as [Hb|Hb].
- destruct (poll_spec p (tx_with_status t st v u) sg deadline fuel w o w' Hst Hb Hrun)
    as (Hio&Hsteps&Hout).
  assert (on_track (tx_TxID t) sg (w_store w) (x_calls (w_ext w))) as Ht.
  { unfold settled in Hset. by rewrite Hb in Hset. }
  destruct (confirming_correct (tx_TxID t) w w' (tx_with_status t st v u) sg Hst Hb) as [Hok Hadv];
    [done|done|done|done| |].
  { destruct Hout as [(_&Hc&now&Htab)|(_&Hkept)]; [left; by exists now|by right]. }
  split_and!; [|by apply calls_ok_status in Hok|by eapply advanced_le; [|exact Hadv]; lia|].
  + unfold only_confirms, recorded_hash. rewrite (stored_sg _ _ _ _ Hst). cbv zeta.
    split_and!; [done|done|].
    destruct Hout as [(_&Hc&now&Htab)|(_&Hkept)]; [right; by eexists _, sg, now|by left].
  + intros ->. destruct Hout as [(_&_&now&[_ Hsgs])|([?|[? ?]]&_)]; [|done..].
    eexists. rewrite Hsgs. split; [apply lookup_insert_eq|done].
- destruct fuel as [|fuel]; cbn [poll] in Hrun.
  { unfold diverge in Hrun. injection Hrun as <- <-.
    split_and!; [by apply only_confirms_nothing|by exists []; rewrite app_nil_r|done|done]. }
  unfold bind_err, bind at 1, reading in Hrun. cbn [LoadSagaState MemStore_Store] in Hrun.
  unfold Mem.LoadSagaState in Hrun. rewrite (stored_sg _ _ _ _ Hst) in Hrun.
  cbn beta iota in Hrun. rewrite (bool_decide_eq_false_2 (sg_State sg = _)) in Hrun by done.
  destruct (past_broadcast (sg_State sg)) eqn:Hpast; cbn [negb] in Hrun;
    unfold ret in Hrun; injection Hrun as <- <-;
    (split_and!; [by apply only_confirms_nothing|by exists []; rewrite app_nil_r|done|]); [|done].
  intros _. exists sg. by split; [apply Hst|].
Qed.


Lemma poll_returns (p : ConfirmPoller P) tx sg deadline fuel : forall (w : W),
stored (tx_TxID tx) (w_store w) tx sg -> sg_State sg = StateBroadcasted ->
(exists i, (i < fuel)%nat /\ deadline < rt_now (env (x_tick (w_ext w) + 2 * i))) ->
exists r w', poll env p (tx_TxID tx) deadline fuel w = (Returned r, w').
Proof.
induction fuel as [|fuel IH]; intros w Hst Hb (i&Hi&Hlate); [lia|]. cbn [poll].
unfold bind_err, bind at 1, reading. cbn [LoadSagaState MemStore_Store].
unfold Mem.LoadSagaState. rewrite (stored_sg _ _ _ _ Hst). cbn beta iota. rewrite Hb.
cbn [past_broadcast]. rewrite (bool_decide_eq_true_2 (StateBroadcasted = _)) by done. cbn [negb].
set (h := payload_string _ _). destruct (bool_decide (h = "")); [by eexists _, _|].
unfold bind at 1, in_ext at 1, zoom at 1, invoke at 1.
destruct (pb_Status (cpl_Client p) h (x_partners (w_ext w))) as [r q].
set (w1 := set_ext _ w).
destruct (match r with Ok st => bs_Confirmed st | Err _ => false end).
{ rewrite persistConfirmed_inline.
  destruct (persistConfirmedInline_spec env tx sg (tx_TxID tx) w1) as (w2&now&->&_); [done..|].
  by eexists _, _. }
unfold bind at 1, in_ext at 1, zoom at 1, runtime at 1. set (w2 := set_ext _ w1).
destruct (deadline <? _) eqn:Hd; [by eexists _, _|].
destruct (wait_or_done_spec env w2) as (w3&E&Hst3&_&_). rewrite (bind_returned _ _ _ _ _ E).
unfold wait_or_done, bind, in_ext, zoom, runtime, ret in E. injection E as E3.
destruct (rt_ctx _); [by eexists _, _|]. apply IH; [by rewrite Hst3|done|].
destruct i as [|i].
- rewrite Nat.mul_0_r, Nat.add_0_r in Hlate. apply Z.ltb_ge in Hd.
  change (x_tick (w_ext w1)) with (x_tick (w_ext w)) in Hd. lia.
- exists i. split; [lia|]. rewrite <- E3. cbn [w_ext set_ext x_tick w2 w1].
  replace (Datatypes.S (Datatypes.S (x_tick (w_ext w))) + 2 * i)%nat
    with (x_tick (w_ext w) + 2 * Datatypes.S i)%nat by lia. done.
Qed.

(** The poller returns: when its clock passes the deadline by the poll
  number [fuel], no more polls than that are made, whatever the chain
  answers.  (The poll number [i] reads the clock [1 + 2 i] readings after
  the start.) *)
Theorem poller_returns (p : ConfirmPoller P) t fuel (w : W) :
sound t w ->
let start := x_tick (w_ext w) in
(exists i, (i < fuel)%nat /\
   int64 (rt_now (env start) + cpl_MaxWait p) < rt_now (env (start + 1 + 2 * i)%nat)) ->
exists r w', ConfirmPoller_Run env p (tx_TxID t) fuel w = (Returned r, w').
Proof.
intros (sg&st&v&u&Hst&Hsg&_&_) start (i&Hi&Hlate).
unfold ConfirmPoller_Run, bind, in_ext, zoom, runtime. set (w1 := set_ext _ w).
destruct (decide (sg_State sg = StateBroadcasted)) as [Hb|Hb].
- apply (poll_returns p (tx_with_status t st v u) sg); [done|done|]. exists i. split; [done|].
  cbn [w_ext set_ext x_tick w1]. fold start.
  by replace (Datatypes.S start + 2 * i)%nat with (start + 1 + 2 * i)%nat by lia.
- destruct fuel as [|fuel]; [lia|]. cbn [poll].
  unfold bind_err, bind at 1, reading. cbn [LoadSagaState MemStore_Store].
  unfold Mem.LoadSagaState. cbn [w_store set_ext w1]. rewrite (stored_sg _ _ _ _ Hst).
  cbn beta iota. rewrite (bool_decide_eq_false_2 (sg_State sg = _)) by done.
  destruct (past_broadcast (sg_State sg)); by eexists _, _.
Qed.
End PollerFacts.

(** ** A concrete poller

    The stub that never confirms leaves the saga in [BROADCASTED]; the poller
    then asks a gateway that does, or does not, confirm. *)

Definition unconfirmed_stub : StubConfig := {|
  sc_PolicyDecision := PolicyAllow; sc_PolicyError := None;
  sc_KytDecision := KytClear; sc_KytError := None;
  sc_BroadcastInMem := true; sc_BroadcastConfirmed := false; sc_BroadcastError := None;
  sc_SignError := None; sc_AuthorizeError := None; sc_CaptureError := None;
  sc_LedgerError := None |}.

Definition broadcast_world : World MemStore Stub NoopLease :=
  snd (Run calm_env (demo_exec calm_env unconfirmed_stub) "t1" "orch" 2 9 demo_world).

Lemma broadcast_world_sound : sound demo_tx broadcast_world.
Proof.
  apply (Run_correct calm_env (stub_clients unconfirmed_stub) DefaultConfig demo_tx "orch" 2 9
    demo_world Diverged); [exact demo_sound| |discriminate].
  vm_compute. reflexivity.
Qed.

Definition sample_poller (answer : bool) : ConfirmPoller Stub := {|
  cpl_Client := {| pb_Status h p := (Ok {| bs_Confirmed := answer; bs_TxHash := h |}, p) |};
  cpl_Interval := 5; cpl_MaxWait := 10 |}.


Lemma poller_returns_witness :
  exists r w', ConfirmPoller_Run calm_env (sample_poller false) "t1" 8 broadcast_world
    = (Returned r, w').
Proof.
  apply (poller_returns calm_env (sample_poller false) demo_tx 8 broadcast_world
    broadcast_world_sound).
  exists 7%nat. split; [lia|]. vm_compute. reflexivity.
Defined.
