(* ===== verification/SagaTheorems.v ===== *)
(** The properties of the executor: what a run does to the partners, to the
    records and to other transactions, and that it ends. *)

From S2P Require Import Prelude StateMachine Store Partner Steps Lease Executor SagaLog.
From S2P Require Import StepsCorrect ExecutorFacts RunFacts Legality CascadeCorrect Attempting.
From S2P Require Import Returns SagaInv Worker Api ApiFacts Scenario.

Local Open Scope go_scope.

(** The concrete run the witnesses use. *)
Definition demo_run (env : nat -> Runtime) (cfg : StubConfig)
  : outcome (result unit) * World MemStore Stub NoopLease :=
  Run env (demo_exec env cfg) "t1" "owner" 10 9 demo_world.

Section Theorems.
Context {P L : Type} `{GoStd} `{LeaseManager L} (env : nat -> Runtime).
Local Abbreviation W := (World MemStore P L).

(** C6: every partner call a run makes carries the data of its transaction
  and is made only after what must precede it: authorization and capture
  after the policy passed, screening after the capture, signing after the
  clearance, broadcast of a payload that was signed, and only once, ledger
  post after the broadcast, refund only of the one capture made. *)
Theorem run_calls_gated (c : Clients P) cfg t owner pf fuel (w w' : W) o :
sound t w ->
Run env (NewExecutor env c cfg) (tx_TxID t) owner pf fuel w = (o, w') ->
exists l, x_calls (w_ext w') = x_calls (w_ext w) ++ l /\
  forall l1 call l2, l = l1 ++ call :: l2 -> enabled t (x_calls (w_ext w) ++ l1) call.
Proof.
intros Hs Hrun. destruct (Run_correct env c cfg t owner pf fuel w o w' Hs Hrun)
  as [(l&El&Hg) _].
exists l. split; [done|]. intros l1 call l2 ->. by eapply gated_lookup.
Qed.

(** C7: a run of a sound saga on a [MemStore] that nobody else changes meanwhile:
  when it returns with the saga in [COMPLETED], the payment was captured once,
  the destination was cleared, one transaction was broadcast and its
  confirmation received, the ledger was posted once, and nothing was
  refunded. *)
Theorem run_completed (c : Clients P) cfg t owner pf fuel (w w' : W) r sg :
sound t w ->
Run env (NewExecutor env c cfg) (tx_TxID t) owner pf fuel w = (Returned r, w') ->
mem_sagas (w_store w') !! tx_TxID t = Some sg -> sg_State sg = StateCompleted ->
let l := x_calls (w_ext w') in
exists cap h j, captures (tx_TxID t) l = [cap] /\ broadcasts (tx_TxID t) l = [h] /\
  confirmed h l /\ posts (tx_TxID t) l = [j] /\ refunds (tx_TxID t) l = [] /\
  clears (tx_TxID t) l <> [] /\ passes (tx_TxID t) l <> [].
Proof.
intros Hs Hrun Hsg Hst. destruct (Run_correct env c cfg t owner pf fuel w _ w' Hs Hrun)
  as [_ Hsound].
destruct (Hsound ltac:(done)) as (sg'&st&v&u&Hstored&<-&_&Hset).
rewrite (stored_sg _ _ _ _ Hstored) in Hsg. simplify_eq.
unfold settled in Hset. rewrite Hst in Hset.
destruct Hset as (?&[cap ?]&?&(h&?&?)&[j ?]&?). exists cap, h, j. by split_and!.
Qed.

(** C8: a run of a sound saga on a [MemStore] that nobody else changes meanwhile:
  when it returns with the saga in [FAILED_COMPENSATED], at most one capture
  was made, and exactly the captures answered with an id that is not empty
  were refunded, each once.  (A capture without an id is only voided: see
  [Deviations.capture_without_id_kept].) *)
Theorem run_compensated (c : Clients P) cfg t owner pf fuel (w w' : W) r sg :
sound t w ->
Run env (NewExecutor env c cfg) (tx_TxID t) owner pf fuel w = (Returned r, w') ->
mem_sagas (w_store w') !! tx_TxID t = Some sg -> sg_State sg = StateFailedCompensated ->
let l := x_calls (w_ext w') in
captures (tx_TxID t) l = [] /\ refunds (tx_TxID t) l = [] \/
exists cap, captures (tx_TxID t) l = [cap] /\
  refunds (tx_TxID t) l = (if bool_decide (cap = "") then [] else [cap]).
Proof.
intros Hs Hrun Hsg Hst. destruct (Run_correct env c cfg t owner pf fuel w _ w' Hs Hrun)
  as [_ Hsound].
destruct (Hsound ltac:(done)) as (sg'&st&v&u&Hstored&<-&_&Hset).
rewrite (stored_sg _ _ _ _ Hstored) in Hsg. simplify_eq.
unfold settled in Hset. rewrite Hst in Hset. destruct Hset as (Hr&Hc&_).
cbn zeta. revert Hr. destruct (captures (tx_TxID t) (x_calls (w_ext w'))) as [|cap [|]]; cbn in Hc |- *;
  intros ->; [by left| |lia].
right. exists cap. split; [done|]. by case_bool_decide.
Qed.

(** Whatever runs happened, and wherever the saga is, at most one
  capture, one broadcast and one refund ever succeeded, and every refund
  is of a capture that was made. *)
Lemma run_at_most_once (c : Clients P) cfg t owner pf fuel (w w' : W) r :
sound t w ->
Run env (NewExecutor env c cfg) (tx_TxID t) owner pf fuel w = (Returned r, w') ->
let l := x_calls (w_ext w') in
length (captures (tx_TxID t) l) <= 1 /\ length (broadcasts (tx_TxID t) l) <= 1 /\
refunds (tx_TxID t) l `sublist_of` captures (tx_TxID t) l.
Proof.
intros Hs Hrun l. destruct (Run_correct env c cfg t owner pf fuel w _ w' Hs Hrun)
  as [_ Hsound].
destruct (Hsound ltac:(done)) as (sg&st&v&u&_&_&_&Hset). by eapply settled_once.
Qed.
(** C9: a run ends.  With any partners and any retry budget, when leases
  are granted, the context ends within [pf] waits and the delays are not
  one nanosecond, nine turns of the loop are enough: the run returns and
  leaves the saga in a terminal state. *)
Theorem run_terminates (c : Clients P) cfg t owner pf fuel (w : W) :
sound t w -> delays_ok cfg -> expires env pf -> grants (L := L) -> 9 <= fuel ->
exists r w' sg,
  Run env (NewExecutor env c cfg) (tx_TxID t) owner pf fuel w = (Returned r, w') /\
  mem_sagas (w_store w') !! tx_TxID t = Some sg /\ Terminal (sg_State sg) = true.
Proof.
intros Hs Hd Hexp Hg Hf.
destruct (Run_ends env c cfg t owner pf fuel 0 w Hd Hexp Hg Hs) as (r&w'&Hrun&Hadv); [lia..|].
destruct (advanced_terminal _ _ _ Hadv) as (sg&Hsg&Ht&_). by exists r, w', sg.
Qed.

(** C10: whatever the steps, the partners and the leases do, a run moves the
  transaction and its saga together along legal transitions, changes no
  business field, and gives every changed record a higher version. *)
Theorem run_follows_lifecycle (e : Executor P) id owner pf fuel (w w' : W) o tx sg :
stored id (w_store w) tx sg -> tx_Status tx = sg_State sg ->
Run env e id owner pf fuel w = (o, w') ->
exists tx' sg', stored id (w_store w') tx' sg' /\ tx_Status tx' = sg_State sg' /\
  star legal (sg_State sg) (sg_State sg') /\ later tx tx' /\ (tx' = tx -> sg' = sg).
Proof.
intros Hst Hsync Hrun.
destruct (Run_moved env e id owner pf fuel w o w' tx sg Hst Hsync Hrun) as [[_ Hm] _].
by apply Hm.
Qed.

(** C21: a run touches no record and no step row of another transaction. *)
Theorem run_isolated (e : Executor P) id owner pf fuel (w w' : W) o id' :
filed (w_store w) -> in_sync (w_store w) id ->
Run env e id owner pf fuel w = (o, w') -> id' <> id ->
mem_txs (w_store w') !! id' = mem_txs (w_store w) !! id' /\
mem_sagas (w_store w') !! id' = mem_sagas (w_store w) !! id' /\
forall n a, row_of (w_store w') id' n a = row_of (w_store w) id' n a.
Proof.
intros Hfiled Hsync Hrun Hne.
destruct (mem_txs (w_store w) !! id) as [tx|] eqn:Htx.
- destruct (filed_saga _ Hfiled _ _ Htx) as [sg Hsg].
  assert (stored id (w_store w) tx sg) as Hst.
  { split; [done|done|by eapply filed_tx|by eapply filed_sg]. }
  destruct (Run_moved env e id owner pf fuel w o w' tx sg Hst (Hsync _ _ Hst) Hrun)
    as [[Ht _] Hr].
  destruct (Ht id' Hne) as [E1 E2], (Hr (filed_rows _ Hfiled)) as [_ E3].
  split_and!; [done|done|]. intros. by apply E3.
- destruct fuel as [|fuel]; [by injection Hrun as <- <-|].
  rewrite Run_unknown in Hrun by done. by injection Hrun as <- <-.
Qed.

(** Running a saga that is terminal changes nothing and calls nobody. *)
Theorem run_terminal_noop (e : Executor P) id owner pf fuel (w : W) tx sg :
stored id (w_store w) tx sg -> Terminal (sg_State sg) = true ->
Run env e id owner pf (S fuel) w = (Returned (Ok tt), w).
Proof.
intros Hst Ht. cbn. unfold bind at 1, run_iter, bind at 1, reading at 1. cbn.
unfold Mem.LoadTx. rewrite (stored_tx _ _ _ _ Hst).
unfold bind at 1, reading at 1. cbn. unfold Mem.LoadSagaState.
by rewrite (stored_sg _ _ _ _ Hst), Ht.
Qed.
End Theorems.

(** ** Witnesses *)

(** The happy path of the stub ends completed. *)
Lemma demo_completes :
  sg_State <$> mem_sagas (w_store (snd (demo_run calm_env DefaultStubConfig))) !! "t1" =
  Some StateCompleted.
Proof. vm_compute. reflexivity. Qed.

(** With screening in review the saga is compensated. *)
Definition review_stub : StubConfig := {|
  sc_PolicyDecision := PolicyAllow; sc_PolicyError := None;
  sc_KytDecision := KytReview; sc_KytError := None;
  sc_BroadcastInMem := true; sc_BroadcastConfirmed := true; sc_BroadcastError := None;
  sc_SignError := None; sc_AuthorizeError := None; sc_CaptureError := None;
  sc_LedgerError := None |}.

Lemma demo_compensates :
  sg_State <$> mem_sagas (w_store (snd (demo_run calm_env review_stub))) !! "t1" =
  Some StateFailedCompensated.
Proof. vm_compute. reflexivity. Qed.

Lemma demo_returns env cfg :
  is_Some (match fst (demo_run env cfg) with Returned r => Some r | _ => None end) ->
  exists r, demo_run env cfg = (Returned r, snd (demo_run env cfg)).
Proof. destruct (demo_run env cfg) as [[r| |] w']; intros [x Hx]; simplify_eq/=. by exists x. Qed.

Lemma run_calls_gated_witness :
  exists l, x_calls (w_ext (snd (demo_run calm_env review_stub))) = [] ++ l /\
    forall l1 call l2, l = l1 ++ call :: l2 -> enabled demo_tx ([] ++ l1) call.
Proof.
  exact (run_calls_gated calm_env (stub_clients review_stub) DefaultConfig demo_tx "owner" 10 9
    demo_world _ _ demo_sound (surjective_pairing (demo_run calm_env review_stub))).
Defined.

Lemma run_completed_witness :
  exists r sg, let w' := snd (demo_run calm_env DefaultStubConfig) in
    demo_run calm_env DefaultStubConfig = (Returned r, w') /\
    mem_sagas (w_store w') !! "t1" = Some sg /\
    exists cap h j, captures "t1" (x_calls (w_ext w')) = [cap] /\
      broadcasts "t1" (x_calls (w_ext w')) = [h] /\
      confirmed h (x_calls (w_ext w')) /\ posts "t1" (x_calls (w_ext w')) = [j] /\
      refunds "t1" (x_calls (w_ext w')) = [] /\ clears "t1" (x_calls (w_ext w')) <> [] /\
      passes "t1" (x_calls (w_ext w')) <> [].
Proof.
  destruct (demo_returns calm_env DefaultStubConfig) as [r Hr]; [vm_compute; by eexists|].
  pose proof demo_completes as Hc. apply fmap_Some in Hc as (sg&Hsg&Hst).
  exists r, sg. split; [exact Hr|]. split; [exact Hsg|].
  exact (run_completed calm_env (stub_clients DefaultStubConfig) DefaultConfig demo_tx "owner" 10 9
    demo_world _ r sg demo_sound Hr Hsg (eq_sym Hst)).
Defined.

Lemma run_compensated_witness :
  exists r sg, let w' := snd (demo_run calm_env review_stub) in
    demo_run calm_env review_stub = (Returned r, w') /\
    mem_sagas (w_store w') !! "t1" = Some sg /\
    captures "t1" (x_calls (w_ext w')) = ["cap-t1"] /\ refunds "t1" (x_calls (w_ext w')) = ["cap-t1"].
Proof.
  destruct (demo_returns calm_env review_stub) as [r Hr]; [vm_compute; by eexists|].
  pose proof demo_compensates as Hc. apply fmap_Some in Hc as (sg&Hsg&Hst).
  exists r, sg. split; [exact Hr|]. split; [exact Hsg|].
  destruct (run_compensated calm_env (stub_clients review_stub) DefaultConfig demo_tx "owner" 10 9
    demo_world _ r sg demo_sound Hr Hsg (eq_sym Hst)) as [[E _]|(cap&E&Er)];
    [vm_compute in E; discriminate E|].
  assert (captures "t1" (x_calls (w_ext (snd (demo_run calm_env review_stub)))) = ["cap-t1"]) as Ec
    by (vm_compute; reflexivity).
  split; [exact Ec|]. pose proof (eq_trans (eq_sym Ec) E) as [= <-]. exact Er.
Defined.

Lemma run_at_most_once_witness :
  exists r, let l := x_calls (w_ext (snd (demo_run calm_env review_stub))) in
    demo_run calm_env review_stub = (Returned r, snd (demo_run calm_env review_stub)) /\
    length (captures "t1" l) <= 1 /\ length (broadcasts "t1" l) <= 1 /\
    refunds "t1" l `sublist_of` captures "t1" l.
Proof.
  destruct (demo_returns calm_env review_stub) as [r Hr]; [vm_compute; by eexists|].
  exists r. split; [exact Hr|].
  exact (run_at_most_once calm_env (stub_clients review_stub) DefaultConfig demo_tx "owner" 10 9
    demo_world _ r demo_sound Hr).
Defined.

Lemma run_terminates_witness :
  exists r w' sg, demo_run ticking_env review_stub = (Returned r, w') /\
    mem_sagas (w_store w') !! "t1" = Some sg /\ Terminal (sg_State sg) = true.
Proof.
  exact (run_terminates ticking_env (stub_clients review_stub) DefaultConfig demo_tx "owner" 10 9
    demo_world demo_sound demo_delays ticking_expires demo_grants (le_n 9)).
Defined.

Lemma run_follows_lifecycle_witness :
  exists tx' sg', let w' := snd (demo_run calm_env review_stub) in
    stored "t1" (w_store w') tx' sg' /\ tx_Status tx' = sg_State sg' /\
    star legal StateCreated (sg_State sg') /\ later demo_tx tx' /\
    (tx' = demo_tx -> sg' = demo_saga).
Proof.
  exact (run_follows_lifecycle calm_env (demo_exec calm_env review_stub) "t1" "owner" 10 9
    demo_world _ _ demo_tx demo_saga demo_stored eq_refl
    (surjective_pairing (demo_run calm_env review_stub))).
Defined.

Lemma run_isolated_witness :
  mem_txs (w_store (snd (demo_run calm_env review_stub))) !! "t2" = None /\
  mem_sagas (w_store (snd (demo_run calm_env review_stub))) !! "t2" = None /\
  forall n a, row_of (w_store (snd (demo_run calm_env review_stub))) "t2" n a = None.
Proof.
  exact (run_isolated calm_env (demo_exec calm_env review_stub) "t1" "owner" 10 9
    demo_world _ _ "t2" demo_filed demo_in_sync
    (surjective_pairing (demo_run calm_env review_stub)) ltac:(discriminate)).
Defined.

(** The demo transaction moved straight to a terminal state. *)
Definition ended_world : World MemStore Stub NoopLease :=
  set_store (set_sagas (<["t1" := sg_advance demo_saga StepPolicy StateFailed ∅ 2]>
                          (mem_sagas demo_store)) demo_store) demo_world.

Lemma run_terminal_noop_witness :
  Run calm_env (demo_exec calm_env review_stub) "t1" "owner" 10 1 ended_world =
  (Returned (Ok tt), ended_world).
Proof.
  apply (run_terminal_noop calm_env (demo_exec calm_env review_stub) "t1" "owner" 10 0
    ended_world demo_tx (sg_advance demo_saga StepPolicy StateFailed ∅ 2)); [by split|done].
Defined.
