(* ===== verification/RetryTheorems.v ===== *)
(** The properties of the retry loop: how often a step is attempted, what is
    never attempted again, and how long the executor waits in between. *)

From S2P Require Import Prelude StateMachine Store Partner Steps Lease Executor SagaLog.
From S2P Require Import StepsCorrect ExecutorFacts RunFacts Legality Attempting Returns SagaInv.
From S2P Require Import Worker Api ApiFacts Scenario SagaTheorems.

Local Open Scope go_scope.

(** The number of calls of a log that satisfy [p]. *)
Definition count (p : Call -> bool) (l : list Call) : nat := length (List.filter p l).

Lemma count_app p l k : count p (l ++ k) = count p l + count p k.
Proof. unfold count. by rewrite List.filter_app, length_app. Qed.

(** [p] is about the partners a step calls, not about the audit trail. *)
Definition not_audit (p : Call -> bool) : Prop := forall ev r, p (CRecord ev r) = false.

Section Retry.
Context {P L : Type} `{GoStd} `{LeaseManager L} (env : nat -> Runtime).
Implicit Types (e : Executor P) (step : StepImpl P) (sc : SagaContext P).
Local Abbreviation W := (World MemStore P L).

(** One execution makes at most [m] calls that satisfy [p]. *)
Definition calls_at_most (step : StepImpl P) (p : Call -> bool) (m : nat) : Prop :=
forall sc x o x', Execute step sc x = (o, x') ->
exists k, x_calls x' = x_calls x ++ k /\ count p k <= m.

(** Between two worlds at most [m] calls that satisfy [p] were made. *)
Definition made (p : Call -> bool) (m : nat) (w w' : W) : Prop :=
exists k, x_calls (w_ext w') = x_calls (w_ext w) ++ k /\ count p k <= m.

Lemma made_trans p m n (w w1 w' : W) : made p m w w1 -> made p n w1 w' -> made p (m + n) w w'.
Proof.
intros (k1&E1&H1) (k2&E2&H2). exists (k1 ++ k2).
rewrite E2, E1, app_assoc, count_app. split; [done|lia].
Qed.

Lemma made_le p m n (w w' : W) : m <= n -> made p m w w' -> made p n w w'.
Proof. intros Hle (k&?&?). exists k. split; [done|lia]. Qed.

Lemma made_same p m (w w' : W) : x_calls (w_ext w') = x_calls (w_ext w) -> made p m w w'.
Proof. intros E. exists []. rewrite app_nil_r. split; [done|unfold count; cbn; lia]. Qed.

Lemma only_audit_count p id (x x' : Ext P) :
not_audit p -> only_audit id x x' -> exists k, x_calls x' = x_calls x ++ k /\ count p k = 0.
Proof.
intros Hp (k&E&Hk). exists k. split; [done|]. clear E. unfold count.
induction Hk as [|c k Hc _ IH]; [done|]. destruct c; try done. cbn. by rewrite Hp.
Qed.

(** An attempt makes the calls of one execution and audit records. *)
Lemma once_made p m step sc (w : W) o w' :
not_audit p -> calls_at_most step p m -> once step sc w o w' -> made p m w w'.
Proof.
intros Hp Hm Ho.
assert (forall x1 x2 o k, no_io (w_ext w) x1 -> Execute step sc x1 = (o, x2) ->
  x_calls (w_ext w') = x_calls x2 ++ k -> count p k = 0 -> made p m w w') as Haround.
{ intros x1 x2 o1 k [_ E1] Hx E3 Hk. destruct (Hm _ _ _ _ Hx) as (k1&E2&H1).
  exists (k1 ++ k). rewrite E3, E2, E1, app_assoc, count_app. split; [done|lia]. }
assert (forall x2 : Ext P, no_io x2 (w_ext w') -> x_calls (w_ext w') = x_calls x2 ++ []) as Hnil.
{ intros x2 [_ ->]. by rewrite app_nil_r. }
destruct Ho; try (by eapply Haround; [eassumption|eassumption|by apply Hnil|]).
- match goal with Hq : no_io _ _ |- _ => by apply made_same, Hq end.
- match goal with Hq : only_audit _ _ _ |- _ =>
    destruct (only_audit_count p _ _ _ Hp Hq) as (k&E&Hk) end.
  by eapply Haround.
Qed.

Lemma quiet_same (w w' : W) : quiet w w' -> x_calls (w_ext w') = x_calls (w_ext w).
Proof. by intros (_&[_ ?]&_). Qed.

Lemma retried_made p m step sc n a (w : W) o w' :
not_audit p -> calls_at_most step p m -> retried step sc n a w o w' -> made p (m * n) w w'.
Proof.
intros Hp Hm. induction 1 as [a w err|n a w w' Ho|n a w pk w' Ho|n a w w1 o w' err Ho Hq _|
  n a w w1 w2 o w' err Ho _ Hq Hr IH]; [by apply made_same|..];
  apply (once_made p m) in Ho; [|done|done| |done|done| |done|done| |done|done].
- eapply made_le; [|exact Ho]. lia.
- eapply made_le; [|exact Ho]. lia.
- eapply (made_le _ (m + 0)); [lia|]. eapply made_trans; [exact Ho|].
  by apply made_same, quiet_same.
- eapply (made_le _ (m + (0 + m * n))); [lia|]. eapply made_trans; [exact Ho|].
  eapply made_trans; [by apply made_same, quiet_same|exact IH].
Qed.

(** C23: a step is attempted at most [MaxRetries] times: if one execution makes
  at most [m] calls of some kind, the whole retry loop makes at most
  [m * MaxRetries] of them. *)
Theorem attempts_bounded e step sc p m (w : W) o w' :
stored (tx_TxID (sc_Tx sc)) (w_store w) (sc_Tx sc) (sc_Saga sc) ->
not_audit p -> calls_at_most step p m ->
runStepWithRetry env e step sc w = (o, w') ->
exists k, x_calls (w_ext w') = x_calls (w_ext w) ++ k /\
  count p k <= m * Z.to_nat (MaxRetries (ex_Cfg e)).
Proof.
intros Hst Hp Hm Hrun. apply runStepWithRetry_retried in Hrun; [|done].
by eapply retried_made.
Qed.

(** A failure that is not retriable (a denial, or an error a step marked
  so) ends the loop at its first attempt: the error is returned as it is,
  and the calls are those of one execution. *)
Theorem final_failure_not_retried e step sc p m (w w1 : W) err :
stored (tx_TxID (sc_Tx sc)) (w_store w) (sc_Tx sc) (sc_Saga sc) ->
not_audit p -> calls_at_most step p m -> (0 < MaxRetries (ex_Cfg e))%Z ->
runStepOnce env e step (with_attempt sc 1) w = (Returned (Err err), w1) ->
IsNonRetriable (Some err) = true ->
runStepWithRetry env e step sc w = (Returned (Err err), w1) /\
exists k, x_calls (w_ext w1) = x_calls (w_ext w) ++ k /\ count p k <= m.
Proof.
intros Hst Hp Hm Hmax Hrun Hn. split.
- unfold runStepWithRetry. destruct (Z.to_nat (MaxRetries (ex_Cfg e))) as [|n] eqn:E; [lia|].
  cbn [retry_loop]. rewrite (bind_returned _ _ _ _ _ Hrun). by rewrite Hn.
- apply runStepOnce_once in Hrun; [|done]. by eapply once_made.
Qed.

(** An attempt whose row is already marked as succeeded is not executed
  again: it reports success, calls nobody and writes nothing. *)
Theorem succeeded_attempt_skipped e step sc (w : W) r :
row_of (w_store w) (tx_TxID (sc_Tx sc)) (Name step) (sc_Attempt sc) = Some r ->
row_Status r = StepSucceeded ->
exists w', runStepOnce env e step sc w = (Returned (Ok tt), w') /\
  w_store w' = w_store w /\ x_calls (w_ext w') = x_calls (w_ext w) /\
  x_partners (w_ext w') = x_partners (w_ext w).
Proof.
intros Hr Hs. destruct (runStepOnce_begin env e step sc w)
  as (x&[Ep Ec]&[(r'&_&_&Hrun)|(s'&row&Hne&_)]).
- rewrite Hrun. by eexists.
- by destruct (Hne r Hr).
Qed.

(** C24: with delays other than one nanosecond (with which [rand.Int63n] panics)
  and below [2^53] (104 days, where the float64 product of the source is
  exact) the back-off of any attempt does not panic and waits at least the
  exponential delay and less than one and a half times it, hence less than one
  and a half times the configured maximum; no [int64] overflows. *)
Theorem backoff_bounds e a (w : W) :
(1 <= a)%Z -> delays_ok (ex_Cfg e) ->
(BaseBackoff (ex_Cfg e) < 2 ^ 53)%Z -> (MaxBackoff (ex_Cfg e) < 2 ^ 53)%Z ->
(forall rt n, (0 < n)%Z -> (0 <= rt_rand (env rt) n < n)%Z) ->
let delay := backoff_delay (ex_Cfg e) a in
let cap := if (MaxBackoff (ex_Cfg e) <=? 0)%Z then (10 * Second)%Z
           else MaxBackoff (ex_Cfg e) in
exists d w', backoff env e a w = (Returned d, w') /\
  (delay <= d < delay + delay / 2)%Z /\ (2 * d < 3 * cap)%Z.
Proof.
intros Ha [Hb Hm] _ Hcap Hrand delay cap.
pose proof (backoff_delay_bounds (ex_Cfg e) a Ha Hb Hm) as Hd. fold delay cap in Hd.
pose proof (backoff_delay_pos (ex_Cfg e) a Ha Hb Hm) as Hq. fold delay in Hq.
assert (cap < 2 ^ 53)%Z as Hcap'.
{ unfold cap, Second. destruct (Z.leb_spec (MaxBackoff (ex_Cfg e)) 0); lia. }
unfold backoff. fold delay. destruct (Z.leb_spec (Z.quot delay 2) 0); [lia|].
unfold bind, in_ext, zoom, runtime, ret. cbn [fst snd].
pose proof (Hrand (x_tick (w_ext w)) (Z.quot delay 2) Hq) as Hr.
rewrite Z.quot_div_nonneg in Hr |- * by lia.
assert (2 * (delay / 2) <= delay)%Z by (apply Z.mul_div_le; lia).
eexists _, _. split; [done|]. rewrite int64_id by lia. lia.
Qed.
End Retry.

(** ** Witnesses *)

Definition is_screen (c : Call) : bool := match c with CScreen _ _ => true | _ => false end.

(** An execution of the screening step calls the partner at most once. *)
Lemma kyt_calls {P} `{GoStd} (client : option (Kyt P)) :
  calls_at_most (NewKytStep client) is_screen 1.
Proof.
  intros sc x o x' Hx. cbn in Hx. unfold KytStep_Execute in Hx.
  destruct client as [c|].
  2:{ injection Hx as <- <-. exists []. rewrite app_nil_r. split; [done|unfold count; cbn; lia]. }
  unfold bind, invoke in Hx. destruct (Screen c _ _) as [[resp|err] p'].
  - destruct (kp_Decision resp); injection Hx as <- <-; eexists [_]; (split; [done|]); apply le_n.
  - injection Hx as <- <-. eexists [_]. split; [done|]. apply le_n.
Qed.

Definition demo_context : SagaContext Stub := {|
  sc_Tx := demo_tx; sc_Saga := demo_saga; sc_Attempt := 1;
  sc_Partners := Some (stub_clients review_stub) |}.

Definition demo_kyt : StepImpl Stub := NewKytStep (cl_Kyt (stub_clients review_stub)).

Lemma attempts_bounded_witness :
  let r := runStepWithRetry calm_env (demo_exec calm_env review_stub) demo_kyt demo_context
             demo_world in
  exists k, x_calls (w_ext (snd r)) = [] ++ k /\ count is_screen k <= 1 * 5.
Proof.
  exact (attempts_bounded calm_env (demo_exec calm_env review_stub) demo_kyt demo_context
    is_screen 1 demo_world _ _ demo_stored (fun _ _ => eq_refl) (kyt_calls _)
    (surjective_pairing _)).
Defined.

Lemma final_failure_not_retried_witness :
  exists w1, let err := NonRetriable (New "kyt review: stub") in
    runStepWithRetry calm_env (demo_exec calm_env review_stub) demo_kyt demo_context demo_world =
      (Returned (Err err), w1) /\
    exists k, x_calls (w_ext w1) = [] ++ k /\ count is_screen k <= 1.
Proof.
  destruct (runStepOnce calm_env (demo_exec calm_env review_stub) demo_kyt
    (with_attempt demo_context 1) demo_world) as [o w1] eqn:E.
  assert (o = Returned (Err (NonRetriable (New "kyt review: stub")))) as ->.
  { change o with (fst (o, w1)). rewrite <- E. vm_compute. reflexivity. }
  exists w1.
  exact (final_failure_not_retried calm_env (demo_exec calm_env review_stub) demo_kyt
    demo_context is_screen 1 demo_world w1 _ demo_stored (fun _ _ => eq_refl) (kyt_calls _)
    ltac:(reflexivity) E ltac:(reflexivity)).
Defined.

(** The demo world after the policy step was recorded as done. *)
Definition policy_done_row : StepRow := row_with_status (new_step_row "t1" StepPolicy) StepSucceeded "".

Definition policy_done_world : World MemStore Stub NoopLease :=
  set_store (snd (Mem.UpdateStep policy_done_row demo_store)) demo_world.

Lemma succeeded_attempt_skipped_witness :
  exists w', runStepOnce calm_env (demo_exec calm_env review_stub)
      (NewPolicyStep (cl_Policy (stub_clients review_stub))) demo_context policy_done_world =
      (Returned (Ok tt), w') /\
    w_store w' = w_store policy_done_world /\ x_calls (w_ext w') = [] /\
    x_partners (w_ext w') = NewStub.
Proof.
  exact (succeeded_attempt_skipped calm_env (demo_exec calm_env review_stub)
    (NewPolicyStep (cl_Policy (stub_clients review_stub))) demo_context policy_done_world
    policy_done_row ltac:(reflexivity) eq_refl).
Defined.

Lemma demo_rand rt n : (0 < n)%Z -> (0 <= rt_rand (calm_env rt) n < n)%Z.
Proof. cbn. lia. Qed.

Lemma backoff_bounds_witness :
  exists d w', backoff calm_env (demo_exec calm_env review_stub) 3 demo_world = (Returned d, w') /\
    (800 * Millisecond <= d < 800 * Millisecond + 800 * Millisecond / 2)%Z /\
    (2 * d < 3 * (10 * Second))%Z.
Proof.
  exact (backoff_bounds calm_env (demo_exec calm_env review_stub) 3 demo_world
    ltac:(discriminate) demo_delays ltac:(reflexivity) ltac:(reflexivity) demo_rand).
Defined.
