(* ===== verification/Publishers.v ===== *)
(** The choice of an event bus by URL and the Kafka publisher
    ([internal/outbox/publisher.go], [Encode] of [internal/outbox/relay.go]).
    The Kafka writer is third-party code: [WriteMessages] is a parameter. *)

From S2P Require Import Prelude GoStrings StateMachine Store StoreFacts Outbox.

Local Open Scope Z_scope.
Local Open Scope go_scope.

(** ** [Encode] *)

(** The values of the map [Encode] marshals. *)
Inductive JSON :=
  | JString (s : string)
  | JInt (n : Z)
  | JTime (t : Z)
  | JPayload (p : Payload).

Class GoJSON := { json_Marshal : gmap string JSON -> result string }.

Definition event_fields (e : OutboxEvent) : gmap string JSON :=
  <["event_id" := JString (ev_EventID e)]> (<["tx_id" := JString (ev_TxID e)]>
  (<["event_type" := JString (ev_EventType e)]> (<["step" := JString (ev_Step e)]>
  (<["attempt" := JInt (ev_Attempt e)]> (<["dedup_key" := JString (ev_DedupKey e)]>
  (<["payload" := JPayload (ev_Payload e)]> {["created_at" := JTime (ev_CreatedAt e)]})))))).

(** The error of [json.Marshal] is dropped, which leaves no bytes. *)
Definition Encode `{GoJSON} (e : OutboxEvent) : string :=
  match json_Marshal (event_fields e) with Ok b => b | Err _ => "" end.

(** ** [KafkaPublisher] *)

(** The settings of [kafka.Writer] that come from the URL. *)
Record Writer := { kw_Addr : list string; kw_Topic : string }.

Record KafkaPublisher := { kp_writer : option Writer; kp_topic : string }.

Definition NewKafkaPublisher (brokers : list string) (topic : string) : result KafkaPublisher :=
  match brokers with
  | [] => Err (New "kafka: no brokers provided")
  | _ =>
      let topic := if bool_decide (topic = "") then "transactions" else topic in
      Ok {| kp_writer := Some {| kw_Addr := brokers; kw_Topic := topic |}; kp_topic := topic |}
  end.

Section Kafka.
Context {Q : Type} `{GoJSON} (WriteMessages : Writer -> string -> string -> Q -> option error * Q).

(** The message is keyed by the transaction; [subject] is not used. *)
Definition KafkaPublisher_Publish (p : KafkaPublisher) (subject : string) (event : OutboxEvent)
  (bus : Q) : option error * Q :=
match kp_writer p with
| None => (Some (New "kafka publisher: not connected"), bus)
| Some w => WriteMessages w (ev_TxID event) (Encode event) bus
end.

Definition KafkaPublisher_Publisher (p : KafkaPublisher) : Publisher Q :=
{| Publish := KafkaPublisher_Publish p |}.
End Kafka.

(** ** [NewPublisher] *)

Inductive AnyPublisher :=
  | PMemory (p : InMemoryPublisher)
  | PKafka (p : KafkaPublisher).

Definition isPlainBrokerList (url : string) : bool :=
  if Contains url "://" then false else Contains url ":".

(** The loop over the query: the last [topic=] wins. *)
Definition query_topic (q : string) : string :=
  fold_left (fun topic kv => if HasPrefix kv "topic=" then TrimPrefix kv "topic=" else topic)
    (split_byte ampersand q) "".

Definition newKafkaPublisherFromURL (url : string) : result KafkaPublisher :=
  let rest := TrimPrefix url "kafka://" in
  let '(rest, topic) := match cut_byte question rest with
                        | Some (a, q) => (a, query_topic q)
                        | None => (rest, "")
                        end in
  NewKafkaPublisher (map TrimSpace (split_byte comma rest)) topic.

Definition kafka_result (r : result KafkaPublisher) : result AnyPublisher :=
  match r with Ok p => Ok (PKafka p) | Err err => Err err end.

Definition NewPublisher `{GoStd} (url : string) : result AnyPublisher :=
  if bool_decide (url = "") || HasPrefix url "memory://" then Ok (PMemory NewInMemoryPublisher)
  else if HasPrefix url "kafka://" then kafka_result (newKafkaPublisherFromURL url)
  else if isPlainBrokerList url then kafka_result (newKafkaPublisherFromURL ("kafka://" +:+ url))
  else Err (New ("outbox: unknown event bus scheme in " +:+ strconv_quote url
                 +:+ " (use kafka://<brokers> or memory://)")).

(** ** Laws *)

(** A broker address as an operator writes it. *)
Definition plain_broker (b : string) : Prop :=
  free_of comma b = true /\ free_of question b = true /\ TrimSpace b = b.

Lemma free_of_app c a b : free_of c (a +:+ b) = free_of c a && free_of c b.
Proof.
  induction a as [|d a IH]; [done|].
  change (free_of c (String d a +:+ b)) with (negb (Ascii.eqb d c) && free_of c (a +:+ b)).
  rewrite IH. cbn [free_of]. by rewrite andb_assoc.
Qed.

Lemma free_of_join c sep l :
  free_of c sep = true -> Forall (fun s => free_of c s = true) l -> free_of c (join sep l) = true.
Proof.
  intros Hsep Hf. induction Hf as [|s l Hs Hl IH]; [done|]. destruct l as [|s' l]; [done|].
  change (join sep (s :: s' :: l)) with (s +:+ sep +:+ join sep (s' :: l)).
  by rewrite !free_of_app, Hs, Hsep, IH.
Qed.

Lemma brokers_parsed brokers :
  brokers <> [] -> Forall plain_broker brokers ->
  map TrimSpace (split_byte comma (join "," brokers)) = brokers.
Proof.
  intros Hne Hf. rewrite (split_join comma) by (done || by eapply Forall_impl; [exact Hf|intros b (?&?&?)]).
  clear Hne. induction Hf as [|b l (_&_&Hb) _ IH]; [done|]. cbn [map]. by rewrite Hb, IH.
Qed.

Lemma plain_no_question brokers :
  Forall plain_broker brokers -> free_of question (join "," brokers) = true.
Proof. intros Hf. apply free_of_join; [done|]. eapply Forall_impl; [exact Hf|]. by intros b (?&?&?). Qed.

Lemma query_topic_print topic :
  free_of ampersand topic = true -> query_topic ("topic=" +:+ topic) = topic.
Proof.
  intros Ht. unfold query_topic.
  rewrite split_byte_free by (by rewrite free_of_app, Ht). cbn [fold_left].
  unfold HasPrefix. by rewrite cut_prefix_app, TrimPrefix_app.
Qed.

Definition kafka_of (brokers : list string) (topic : string) : AnyPublisher :=
  PKafka {| kp_writer := Some {| kw_Addr := brokers; kw_Topic := topic |}; kp_topic := topic |}.

Lemma NewPublisher_kafka `{GoStd} rest :
  NewPublisher ("kafka://" +:+ rest) = kafka_result (newKafkaPublisherFromURL ("kafka://" +:+ rest)).
Proof. reflexivity. Qed.

Lemma from_url_plain brokers :
  brokers <> [] -> Forall plain_broker brokers ->
  kafka_result (newKafkaPublisherFromURL ("kafka://" +:+ join "," brokers)) =
  Ok (kafka_of brokers "transactions").
Proof.
  intros Hne Hf. unfold newKafkaPublisherFromURL. rewrite TrimPrefix_app, cut_byte_free by by apply plain_no_question.
  cbn beta iota. rewrite brokers_parsed by done. by destruct brokers.
Qed.

Lemma Contains_app a sub b : Contains (a +:+ sub +:+ b) sub = true.
Proof.
  induction a as [|d a IH].
  - assert (HasPrefix (sub +:+ b) sub = true) as Hp by (apply HasPrefix_true; by exists b).
    change (Contains (sub +:+ b) sub = true). destruct (sub +:+ b); cbn [Contains]; by rewrite Hp.
  - change (Contains (String d (a +:+ sub +:+ b)) sub = true). cbn [Contains].
    rewrite IH. apply orb_true_r.
Qed.

Lemma no_scheme p s : Contains s "://" = false -> HasPrefix s (p +:+ "://") = false.
Proof.
  intros Hc. destruct (HasPrefix s (p +:+ "://")) eqn:E; [|done].
  apply HasPrefix_true in E as [r ->].
  by rewrite append_assoc, Contains_app in Hc.
Qed.

(** A URL written from a list of brokers and a topic selects the Kafka
    publisher with exactly these brokers and this topic; without a topic, and
    for a bare broker list, the topic is [transactions]. *)
Theorem NewPublisher_roundtrip `{GoStd} brokers topic :
  brokers <> [] -> Forall plain_broker brokers -> free_of ampersand topic = true -> topic <> "" ->
  NewPublisher ("kafka://" +:+ join "," brokers +:+ "?topic=" +:+ topic) =
    Ok (kafka_of brokers topic) /\
  NewPublisher ("kafka://" +:+ join "," brokers) = Ok (kafka_of brokers "transactions") /\
  (Contains (join "," brokers) ":" = true -> Contains (join "," brokers) "://" = false ->
   NewPublisher (join "," brokers) = Ok (kafka_of brokers "transactions")).
Proof.
  intros Hne Hf Ht Hnt. split_and!.
  - rewrite NewPublisher_kafka. unfold newKafkaPublisherFromURL.
    rewrite TrimPrefix_app.
    change ("?topic=" +:+ topic) with (String question ("topic=" +:+ topic)).
    rewrite cut_byte_app by by apply plain_no_question. cbn beta iota.
    rewrite query_topic_print, brokers_parsed by done. unfold NewKafkaPublisher.
    destruct brokers; [done|]. by rewrite bool_decide_eq_false_2.
  - rewrite NewPublisher_kafka. by apply from_url_plain.
  - intros Hc Hs. unfold NewPublisher.
    rewrite (no_scheme "memory" _ Hs : HasPrefix _ "memory://" = false).
    rewrite (no_scheme "kafka" _ Hs : HasPrefix _ "kafka://" = false).
    unfold isPlainBrokerList. rewrite Hs, Hc. rewrite bool_decide_eq_false_2; [by apply from_url_plain|].
    intros E. by rewrite E in Hc.
Qed.

(** The guard against an empty broker list never fires: [NewPublisher]
    fails only on an unknown scheme, and [kafka://] alone is accepted with one
    empty broker address. *)
Lemma NewPublisher_no_broker_check `{GoStd} url :
  (forall err, NewPublisher url = Err err ->
     HasPrefix url "kafka://" = false /\ HasPrefix url "memory://" = false) /\
  NewPublisher "kafka://" = Ok (kafka_of [""] "transactions").
Proof.
  assert (forall u err, kafka_result (newKafkaPublisherFromURL u) <> Err err) as Hk.
  { intros u err. unfold newKafkaPublisherFromURL, NewKafkaPublisher.
    destruct (cut_byte question _) as [[a q]|].
    - pose proof (split_byte_ne comma a). by destruct (split_byte comma a).
    - pose proof (split_byte_ne comma (TrimPrefix u "kafka://")).
      by destruct (split_byte comma (TrimPrefix u "kafka://")). }
  split; [|vm_compute; reflexivity]. intros err. unfold NewPublisher.
  destruct (HasPrefix url "memory://"); [by rewrite orb_true_r|].
  destruct (bool_decide (url = "")); [done|]. cbn [orb].
  destruct (HasPrefix url "kafka://"); [by intros ?%Hk|done].
Qed.

Definition sample_std : GoStd := {| sha256_hex s := s; strconv_quote s := s |}.

Lemma NewPublisher_roundtrip_witness :
  @NewPublisher sample_std "kafka://k1:9092,k2:9092?topic=tx" =
    Ok (kafka_of ["k1:9092"; "k2:9092"] "tx") /\
  @NewPublisher sample_std "k1:9092,k2:9092" = Ok (kafka_of ["k1:9092"; "k2:9092"] "transactions").
Proof.
  assert (Forall plain_broker ["k1:9092"; "k2:9092"]) as Hf
    by (repeat constructor; vm_compute; reflexivity).
  destruct (@NewPublisher_roundtrip sample_std ["k1:9092"; "k2:9092"] "tx" ltac:(discriminate) Hf
    eq_refl ltac:(discriminate)) as (H1&_&H2).
  split; [exact H1|exact (H2 eq_refl eq_refl)].
Defined.
