(* ===== verification/AuthToken.v ===== *)
(** Service tokens ([internal/authtoken/middleware.go]): issuing, verification
    and the middleware in front of the REST handlers.  The primitives of the
    Go packages [crypto/hmac], [encoding/base64] and [encoding/json] are a
    class. *)

From S2P Require Import Prelude GoStrings.

Local Open Scope Z_scope.
Local Open Scope go_scope.

Record Claims := { Sub : string; Iat : Z; Exp : Z }.

(** HMAC-SHA256 of a message under a key, [base64.RawURLEncoding], and the JSON
    of the token header and of the claims. *)
Class GoCrypto := {
  hmac_sha256 : string -> string -> string;
  b64_encode : string -> string;
  b64_decode : string -> result string;
  json_header : gmap string string -> result string;
  json_claims : Claims -> result string;
  parse_claims : string -> result Claims;
}.

Definition skipPaths : list string := ["/healthz"; "/readyz"; "/metrics"].

Section Token.
Context `{GoCrypto}.

(** [SecretFromEnv]; [None] is [log.Fatal]. *)
Definition SecretFromEnv (getenv : string -> string) : option (string * bool) :=
let s := getenv "SERVICE_TOKEN_SECRET" in
if negb (bool_decide (s = "")) then Some (s, false)
else if bool_decide (getenv "DEV_MODE" = "1") then Some ("", true)
else None.

(** [encode(mac.Sum(nil))] over [head.body]. *)
Definition signature (secret head body : string) : string :=
b64_encode (hmac_sha256 secret (head +:+ "." +:+ body)).

Definition sign (header : gmap string string) (claims : Claims) (secret : string) : result string :=
match json_header header with
| Err err => Err err
| Ok hb =>
    match json_claims claims with
    | Err err => Err err
    | Ok cb =>
        let head := b64_encode hb in
        let body := b64_encode cb in
        Ok (head +:+ "." +:+ body +:+ "." +:+ signature secret head body)
    end
end.

Definition verify (token secret : string) : result Claims :=
match split_byte dot token with
| [p0; p1; p2] =>
    if negb (bool_decide (signature secret p0 p1 = p2)) then Err (New "invalid signature")
    else match b64_decode p1 with
         | Err err => Err (Wrap "decode payload: " err "")
         | Ok body =>
             match parse_claims body with
             | Err err => Err (Wrap "parse payload: " err "")
             | Ok c => Ok c
             end
         end
| _ => Err (New "malformed token")
end.

(** [now] is [time.Now()] in nanoseconds, [unix] its [Unix()]. *)
Definition unix (now : Z) : Z := now / 1000000000.

Definition issued_claims (serviceName : string) (now : Z) : Claims := {|
Sub := serviceName; Iat := unix now; Exp := unix (now + 24 * 3600 * 1000000000) |}.

Definition Issue (serviceName secret : string) (now : Z) : result string :=
if bool_decide (secret = "")
then Err (New "authtoken: secret is required to issue a token")
else sign (<["alg" := "HS256"]> {["typ" := "JWT"]}) (issued_claims serviceName now) secret.

(** The wrapped handler: it runs [h] or answers with [unauthorized msg]. *)
Definition Middleware {W R} (secret : string) (bypass : bool) (clock : Go W Z)
  (unauthorized : string -> R) (h : Go W R) (path auth : string) : Go W R :=
if bypass || bool_decide (path ∈ skipPaths) then h
else if negb (HasPrefix auth "Bearer ")
then ret (unauthorized "missing or malformed Authorization header")
else match verify (TrimPrefix auth "Bearer ") secret with
     | Err err => ret (unauthorized (Error err))
     | Ok claims =>
         let! now := clock in
         if Exp claims <? unix now then ret (unauthorized "token expired") else h
     end.

(** ** Laws *)

Lemma verify_accepts token secret c :
verify token secret = Ok c <->
exists head body text,
  free_of dot head = true /\ free_of dot body = true /\
  free_of dot (signature secret head body) = true /\
  token = head +:+ "." +:+ body +:+ "." +:+ signature secret head body /\
  b64_decode body = Ok text /\ parse_claims text = Ok c.
Proof.
split.
- unfold verify. pose proof (join_split dot token) as Hj.
  pose proof (split_byte_parts dot token) as Hp.
  destruct (split_byte dot token) as [|p0 [|p1 [|p2 [|? ?]]]]; try done.
  destruct (bool_decide (signature secret p0 p1 = p2)) eqn:Es; [|done]. cbn [negb].
  apply bool_decide_eq_true in Es. subst p2.
  destruct (b64_decode p1) as [text|] eqn:Ed; [|done].
  destruct (parse_claims text) as [c'|] eqn:Ec; [|done]. intros [= ->].
  apply Forall_cons in Hp as [H0 Hp]. apply Forall_cons in Hp as [H1 Hp].
  apply Forall_cons in Hp as [H2 _].
  exists p0, p1, text. by split_and!.
- intros (head&body&text&Hh&Hb&Hs&->&Hd&Hc). unfold verify.
  change (head +:+ "." +:+ body +:+ "." +:+ signature secret head body)
    with (head +:+ String dot (body +:+ String dot (signature secret head body))).
  rewrite !split_byte_cons, split_byte_free by done.
  rewrite bool_decide_eq_true_2 by done. cbn [negb]. by rewrite Hd, Hc.
Qed.

(** What [encoding/base64] documents: decoding undoes encoding, and the URL
  alphabet has no dot. *)
Class Base64Laws : Prop := {
b64_roundtrip s : b64_decode (b64_encode s) = Ok s;
b64_no_dot s : free_of dot (b64_encode s) = true;
}.

Lemma sign_verify `{!Base64Laws} header c secret token text :
sign header c secret = Ok token -> json_claims c = Ok text -> parse_claims text = Ok c ->
verify token secret = Ok c.
Proof.
unfold sign. destruct (json_header header) as [hb|]; [|done]. intros Hs Hj Hp.
rewrite Hj in Hs. simplify_eq. apply verify_accepts.
eexists _, _, text. split_and!; [apply b64_no_dot|apply b64_no_dot|apply b64_no_dot|done| |done].
apply b64_roundtrip.
Qed.

(** C33: a request that carries a token issued under the same secret reaches
  the handler for 24 hours and is refused afterwards. *)
Theorem issued_token_accepted {W R} `{!Base64Laws} name secret issued token text
  clock (unauthorized : string -> R) (h : Go W R) path now w w' :
Issue name secret issued = Ok token ->
json_claims (issued_claims name issued) = Ok text ->
parse_claims text = Ok (issued_claims name issued) ->
path ∉ skipPaths -> clock w = (Returned now, w') ->
Middleware secret false clock unauthorized h path ("Bearer " +:+ token) w =
  if unix now <=? unix issued + 24 * 3600 then h w'
  else (Returned (unauthorized "token expired"), w').
Proof.
unfold Issue. case_bool_decide; [done|]. intros Hs Hj Hp Hpath Hc. unfold Middleware.
rewrite bool_decide_eq_false_2 by done. cbn [orb].
rewrite (proj2 (HasPrefix_true _ "Bearer ")) by by eexists. cbn [negb].
rewrite TrimPrefix_app, (sign_verify _ _ _ _ _ Hs Hj Hp). unfold bind. rewrite Hc.
assert (unix (issued + 24 * 3600 * 1000000000) = unix issued + 24 * 3600) as He
  by (unfold unix; rewrite Z.div_add; lia). cbn [issued_claims Exp]. rewrite He.
destruct (Z.leb_spec (unix now) (unix issued + 24 * 3600)) as [Hle|Hgt];
  destruct (Z.ltb_spec (unix issued + 24 * 3600) (unix now)); done || lia.
Qed.

(** With authentication on, a request outside the health paths reaches the
  handler only with a bearer token whose last part is the encoded HMAC of the
  first two under the server's secret and whose claims have not expired;
  every other request is answered and the handler is not run. *)
Theorem Middleware_guards {W R} secret clock (unauthorized : string -> R) (h : Go W R)
  path auth now w w' :
path ∉ skipPaths -> clock w = (Returned now, w') ->
let served := exists head body text c,
  auth = "Bearer " +:+ head +:+ "." +:+ body +:+ "." +:+ signature secret head body /\
  free_of dot head = true /\ free_of dot body = true /\
  free_of dot (signature secret head body) = true /\
  b64_decode body = Ok text /\ parse_claims text = Ok c /\ unix now <= Exp c in
(served -> Middleware secret false clock unauthorized h path auth w = h w') /\
(~ served -> exists msg w1,
   Middleware secret false clock unauthorized h path auth w = (Returned (unauthorized msg), w1)).
Proof.
intros Hpath Hc served. unfold Middleware. rewrite bool_decide_eq_false_2 by done. cbn [orb].
split.
- intros (head&body&text&c&->&Hh&Hb&Hs&Hd&Hp&Hle).
  rewrite (proj2 (HasPrefix_true _ "Bearer ")) by by eexists. cbn [negb].
  rewrite TrimPrefix_app. rewrite (proj2 (verify_accepts _ secret c)) by
    (exists head, body, text; by split_and!).
  unfold bind. rewrite Hc. destruct (Z.ltb_spec (Exp c) (unix now)); [lia|done].
- intros Hn. destruct (HasPrefix auth "Bearer ") eqn:Ep; cbn [negb]; [|by eexists _, _].
  apply HasPrefix_true in Ep as [token ->]. rewrite TrimPrefix_app.
  destruct (verify token secret) as [c|err] eqn:Ev; [|by eexists _, _].
  unfold bind. rewrite Hc. destruct (Z.ltb_spec (Exp c) (unix now)); [by eexists _, _|].
  apply verify_accepts in Ev as (head&body&text&Hh&Hb&Hs&->&Hd&Hp). destruct Hn.
  exists head, body, text, c. by split_and!.
Qed.
End Token.

(** ** A concrete instance *)

Definition bit (b : bool) : string := if b then "1" else "0".

Definition encode_byte (c : Ascii.ascii) : string :=
  match c with
  | Ascii.Ascii b0 b1 b2 b3 b4 b5 b6 b7 =>
      bit b0 +:+ bit b1 +:+ bit b2 +:+ bit b3 +:+ bit b4 +:+ bit b5 +:+ bit b6 +:+ bit b7
  end.

Fixpoint encode_bits (s : string) : string :=
  match s with EmptyString => "" | String c s' => encode_byte c +:+ encode_bits s' end.

Definition is_one (c : Ascii.ascii) : bool := Ascii.eqb c (byte 49).

Fixpoint decode_bits (s : string) : string :=
  match s with
  | String c0 (String c1 (String c2 (String c3 (String c4 (String c5 (String c6 (String c7 s'))))))) =>
      String (Ascii.Ascii (is_one c0) (is_one c1) (is_one c2) (is_one c3) (is_one c4) (is_one c5)
                (is_one c6) (is_one c7)) (decode_bits s')
  | _ => ""
  end.

Definition toy_crypto : GoCrypto := {|
  hmac_sha256 k m := k +:+ "/" +:+ m;
  b64_encode := encode_bits;
  b64_decode s := Ok (decode_bits s);
  json_header _ := Ok "header";
  json_claims c := Ok (itoa (Iat c) +:+ "," +:+ itoa (Exp c) +:+ "," +:+ Sub c);
  parse_claims s :=
    match split_byte comma s with
    | [i; e; n] => match Atoi i, Atoi e with
                   | Some i, Some e => Ok {| Sub := n; Iat := i; Exp := e |}
                   | _, _ => Err (New "json: cannot unmarshal")
                   end
    | _ => Err (New "unexpected end of JSON input")
    end |}.

#[local] Arguments String.append !_ _ : simpl nomatch.

Lemma toy_laws : @Base64Laws toy_crypto.
Proof.
  split; induction s as [|[b0 b1 b2 b3 b4 b5 b6 b7] s IH]; [done| |done|]; cbn in *.
  - injection IH as IH. by destruct b0, b1, b2, b3, b4, b5, b6, b7; cbn; rewrite IH.
  - by destruct b0, b1, b2, b3, b4, b5, b6, b7; cbn; rewrite IH.
Qed.

Definition toy_clock (now : Z) : Go unit Z := fun w => (Returned now, w).

Lemma api_path_guarded : "/v1/transactions" ∉ skipPaths.
Proof. apply (bool_decide_unpack _). vm_compute. exact I. Defined.

Lemma issued_token_accepted_witness :
  let token := match @Issue toy_crypto "orchctl" "s3cret" 5000000000 with Ok t => t | Err _ => "" end in
  @Middleware toy_crypto unit string "s3cret" false (toy_clock 9000000000) (fun m => m)
    (ret "served") "/v1/transactions" ("Bearer " +:+ token) tt = (Returned "served", tt).
Proof.
  exact (@issued_token_accepted toy_crypto unit string toy_laws "orchctl" "s3cret" 5000000000 _ _
    (toy_clock 9000000000) (fun m => m) (ret "served") "/v1/transactions" 9000000000 tt tt
    eq_refl eq_refl eq_refl api_path_guarded eq_refl).
Defined.

Lemma Middleware_guards_witness :
  exists msg w1, @Middleware toy_crypto unit string "s3cret" false (toy_clock 0) (fun m => m)
    (ret "served") "/v1/transactions" "Basic abc" tt = (Returned msg, w1).
Proof.
  apply (proj2 (@Middleware_guards toy_crypto unit string "s3cret" (toy_clock 0) (fun m => m)
    (ret "served") "/v1/transactions" "Basic abc" 0 tt tt api_path_guarded eq_refl)).
  intros (head&body&text&c&E&_). discriminate E.
Defined.
