(* ===== verification/Http.v ===== *)
(** The HTTP front of the service: the routes of [api.Mux], the health checks,
    the request-id middleware ([internal/api/api.go]) and the token middleware
    around them.  [net/http]'s [ServeMux] is modelled as far as the seven
    patterns of the program use it. *)

From S2P Require Import Prelude GoStrings StateMachine Store Partner Steps Lease Executor Worker.
From S2P Require Import Api AuthToken.

Local Open Scope Z_scope.
Local Open Scope go_scope.

(** ** Paths ([net/url], [path]) *)

Definition slash := byte 47.
Definition percent := byte 37.

(** The value of a hexadecimal digit. *)
Definition hex_digit (c : Ascii.ascii) : option nat :=
  let n := Ascii.nat_of_ascii c in
  if ((48 <=? n) && (n <=? 57))%nat then Some (n - 48)%nat
  else if ((65 <=? n) && (n <=? 70))%nat then Some (n - 55)%nat
  else if ((97 <=? n) && (n <=? 102))%nat then Some (n - 87)%nat
  else None.

(** [url.PathUnescape]; [None] is a malformed escape. *)
Fixpoint PathUnescape (s : string) : option string :=
  match s with
  | EmptyString => Some ""
  | String c s' =>
      if Ascii.eqb c percent then
        match s' with
        | String h (String l s'') =>
            match hex_digit h, hex_digit l with
            | Some a, Some b => String (byte (16 * a + b)) <$> PathUnescape s''
            | _, _ => None
            end
        | _ => None
        end
      else String c <$> PathUnescape s'
  end.

(** The segments of [path.Clean]: empty ones and ["."] disappear, [".."] takes
    the one before it along. *)
Definition clean_step (acc : list string) (seg : string) : list string :=
  if bool_decide (seg = "") || bool_decide (seg = ".") then acc
  else if bool_decide (seg = "..") then removelast acc
  else acc ++ [seg].

Definition ends_in_slash (s : string) : bool :=
  match last (split_byte slash s) with Some "" => true | _ => false end.

(** [net/http]'s [cleanPath]. *)
Definition cleanPath (p : string) : string :=
  let np := "/" +:+ join "/" (fold_left clean_step (split_byte slash p) []) in
  if ends_in_slash p && negb (bool_decide (np = "/")) then np +:+ "/" else np.

(** ** Requests and replies *)

Record Request := {
  req_Method : string;
  req_EscapedPath : string;
  req_Authorization : string;
  req_RequestID : string;
  req_Body : string;
}.

(** [r.URL.Path]; a request whose path does not unescape is refused before any
    handler sees it. *)
Definition req_Path (r : Request) : string := default "" (PathUnescape (req_EscapedPath r)).

Inductive ReplyBody :=
  | Json (b : Body)
  | Unauthorized (msg : string)
  | NotAllowed (allow : string)
  | Text (s : string)
  | Location (path : string).

Record Reply := {
  rp_Status : Z;
  rp_RequestID : string;
  rp_Body : ReplyBody;
}.

Definition StatusMovedPermanently : Z := 301.
Definition StatusUnauthorized : Z := 401.
Definition StatusMethodNotAllowed : Z := 405.

(** [writeUnauthorized]. *)
Definition writeUnauthorized (msg : string) : Reply :=
  {| rp_Status := StatusUnauthorized; rp_RequestID := ""; rp_Body := Unauthorized msg |}.

(** ** Routing *)

(** The patterns [Mux] registers. *)
Inductive Endpoint :=
  | EHealthz | EReadyz | ECreate
  | EGet (id : string) | ESteps (id : string) | ERetry (id : string) | ECompensate (id : string).

(** The pattern a path matches with the method it names ([None]: any); a
    wildcard matches one segment that is not empty. *)
Definition endpoint_of (segs : list string) : option (option string * Endpoint) :=
  match segs with
  | ["healthz"] => Some (None, EHealthz)
  | ["readyz"] => Some (None, EReadyz)
  | ["v1"; "transactions"] => Some (Some "POST", ECreate)
  | ["v1"; "transactions"; id] =>
      if bool_decide (id = "") then None else Some (Some "GET", EGet id)
  | ["v1"; "transactions"; id; verb] =>
      if bool_decide (id = "") then None
      else if bool_decide (verb = "steps") then Some (Some "GET", ESteps id)
      else if bool_decide (verb = "retry") then Some (Some "POST", ERetry id)
      else if bool_decide (verb = "compensate") then Some (Some "POST", ECompensate id)
      else None
  | _ => None
  end.

(** A pattern for [GET] also matches [HEAD]. *)
Definition method_matches (pattern : option string) (method : string) : bool :=
  match pattern with
  | None => true
  | Some m => bool_decide (m = method) || bool_decide (m = "GET") && bool_decide (method = "HEAD")
  end.

Inductive Found :=
  | FEndpoint (e : Endpoint)
  | FRedirect (path : string)
  | FNotAllowed (allow : string)
  | FNotFound.

(** [firstSegment] unescapes each segment of the path. *)
Definition segments (path : string) : list string :=
  map (fun s => default s (PathUnescape s)) (tail (split_byte slash path)).

(** [ServeMux.findHandler]: the path is cleaned, except for [CONNECT], and a
    path that was not clean is redirected. *)
Definition findHandler (method escaped : string) : Found :=
  let path := if bool_decide (method = "CONNECT") then escaped else cleanPath escaped in
  if negb (bool_decide (path = escaped)) then FRedirect path
  else match endpoint_of (segments path) with
       | None => FNotFound
       | Some (pattern, e) =>
           if method_matches pattern method then FEndpoint e
           else FNotAllowed (match pattern with
                             | Some "GET" => "GET, HEAD" | Some m => m | None => "" end)
       end.

Section Http.
Context {S P L K : Type} `{GoStd} `{Store S} `{LeaseManager L} `{Locker K} `{GoCrypto}.
Context (env : nat -> Runtime) (order : list (string * string) -> list (string * string)).
(** [json.NewDecoder(r.Body).Decode] into the request types; [decode_step] is
  [""] where the field is missing or the body does not decode. *)
Context (decode_create : string -> option CreateTxRequest) (decode_step : string -> string).
Context (control : option (Control (Server S P L K))).
Local Abbreviation V := (Server S P L K).

Definition reply (r : Response) : Reply :=
{| rp_Status := fst r; rp_RequestID := ""; rp_Body := Json (snd r) |}.

Definition healthz : Response := (StatusOK, BStatus "ok" None).
Definition readyz : Response := (StatusOK, BStatus "ready" None).

(** The handler of an endpoint. *)
Definition handle (e : Endpoint) (body : string) : Go V Response :=
match e with
| EHealthz => ret healthz
| EReadyz => ret readyz
| ECreate => handleCreate env order (decode_create body)
| EGet id => handleGet id
| ESteps id => handleSteps id
| ERetry id => handleRetry control id (decode_step body)
| ECompensate id => handleCompensate control id
end.

Definition dispatch (r : Request) : Go V Reply :=
match findHandler (req_Method r) (req_EscapedPath r) with
| FEndpoint e => let! resp := handle e (req_Body r) in ret (reply resp)
| FRedirect path =>
    ret {| rp_Status := StatusMovedPermanently; rp_RequestID := ""; rp_Body := Location path |}
| FNotAllowed allow =>
    ret {| rp_Status := StatusMethodNotAllowed; rp_RequestID := ""; rp_Body := NotAllowed allow |}
| FNotFound =>
    ret {| rp_Status := StatusNotFound; rp_RequestID := ""; rp_Body := Text "404 page not found" |}
end.

(** [withRequestID]: the header of the request, or a fresh id. *)
Definition withRequestID (h : Request -> Go V Reply) (r : Request) : Go V Reply :=
let! id :=
  (if bool_decide (req_RequestID r = "") then
     let! rt := on_store (in_ext (runtime env)) in ret (rt_uuid_string rt 0)
   else ret (req_RequestID r)) in
let! rp := h r in
ret {| rp_Status := rp_Status rp; rp_RequestID := id; rp_Body := rp_Body rp |}.

Definition server_clock : Go V Z := let! rt := on_store (in_ext (runtime env)) in ret (rt_now rt).

(** [Mux(svc)]: [None] is [log.Fatal] in [SecretFromEnv]. *)
Definition serve (secret : string) (bypass : bool) (r : Request) : Go V Reply :=
Middleware secret bypass server_clock writeUnauthorized (withRequestID dispatch r)
  (req_Path r) (req_Authorization r).

Definition Mux (getenv : string -> string) : option (Request -> Go V Reply) :=
match SecretFromEnv getenv with
| None => None
| Some (secret, bypass) => Some (serve secret bypass)
end.
End Http.
