(* ===== verification/Context.v ===== *)
(** The values a context carries: the logger ([internal/logging/logging.go])
    and the request id ([internal/api/api.go]), and the service with its
    default locker. *)

From S2P Require Import Prelude StateMachine Store Steps Api Http.

Local Open Scope Z_scope.
Local Open Scope go_scope.

(** ** Contexts *)

(** The levels of [log/slog]. *)
Inductive Level := LevelDebug | LevelInfo | LevelWarn | LevelError.

Definition Level_Z (l : Level) : Z :=
  match l with LevelDebug => -4 | LevelInfo => 0 | LevelWarn => 4 | LevelError => 8 end.

(** A logger, by the level of its handler. *)
Record Logger := { lg_Level : Level }.

(** The keys [logging.ctxKey{}] and [api.reqIDKey{}] with the values stored
    under them; a nil logger can be stored. *)
Inductive Binding :=
  | BLogger (l : option Logger)
  | BRequestID (id : string).

(** The innermost [context.WithValue] comes first. *)
Definition Ctx := list Binding.
Definition Background : Ctx := [].

(** [ctx.Value(key)]: the innermost binding of the key. *)
Definition Value_logger (ctx : Ctx) : option (option Logger) :=
  head (omap (fun b => match b with BLogger l => Some l | _ => None end) ctx).
Definition Value_reqID (ctx : Ctx) : option string :=
  head (omap (fun b => match b with BRequestID id => Some id | _ => None end) ctx).

Definition WithLogger (ctx : Ctx) (l : option Logger) : Ctx := BLogger l :: ctx.

(** [slog.Default()] logs from [Info] on. *)
Definition slog_Default : Logger := {| lg_Level := LevelInfo |}.

Definition From (ctx : Ctx) : Logger :=
  match Value_logger ctx with
  | Some (Some l) => l
  | _ => slog_Default
  end.

Definition New_logger (level : string) : Logger :=
  {| lg_Level := if bool_decide (level = "debug") then LevelDebug
                 else if bool_decide (level = "warn") then LevelWarn
                 else if bool_decide (level = "error") then LevelError
                 else LevelInfo |}.

(** What the handler lets through. *)
Definition Enabled (l : Logger) (level : Level) : bool := Level_Z (lg_Level l) <=? Level_Z level.

Definition WithRequestID (ctx : Ctx) (id : string) : Ctx := BRequestID id :: ctx.

Definition RequestIDFrom (ctx : Ctx) : string :=
  match Value_reqID ctx with Some v => v | None => "" end.

(** [NewService]: a nil locker becomes the no-op one. *)
Definition NewService {K S} (noop : K) (s : S) (l : option K) : S * K :=
  (s, match l with Some l => l | None => noop end).

(** ** Laws *)

Lemma From_WithLogger ctx l : From (WithLogger ctx (Some l)) = l.
Proof. done. Qed.

Lemma From_nil ctx : From (WithLogger ctx None) = slog_Default.
Proof. done. Qed.

(** The two keys do not hide each other. *)
Lemma keys_apart ctx l id :
  From (WithRequestID ctx id) = From ctx /\ RequestIDFrom (WithLogger ctx l) = RequestIDFrom ctx.
Proof. done. Qed.

Lemma RequestIDFrom_WithRequestID ctx id : RequestIDFrom (WithRequestID ctx id) = id.
Proof. done. Qed.

(** Every error is logged, and debug messages only at the level "debug". *)
Lemma levels level :
  Enabled (New_logger level) LevelError = true /\
  (Enabled (New_logger level) LevelDebug = true <-> level = "debug") /\
  (Enabled (New_logger level) LevelInfo = true <-> level <> "warn" /\ level <> "error") /\
  (Enabled (New_logger level) LevelWarn = true <-> level <> "error").
Proof.
  unfold New_logger, Enabled. repeat case_bool_decide; subst; cbn; intuition congruence.
Qed.

(** The server sets no base context, so a request carries no logger: what a
    handler and the compensation it starts log goes to the default logger,
    whatever LOG_LEVEL is, and without the request id. *)
Lemma request_logger id : From (WithRequestID Background id) = slog_Default.
Proof. done. Qed.

(** What [run] logs and hands to the workers uses the configured level. *)
Lemma run_logger level : From (WithLogger Background (Some (New_logger level))) = New_logger level.
Proof. done. Qed.
