(* ===== verification/HttpFacts.v ===== *)
(** What the HTTP front guarantees: each endpoint's path leads to its handler,
    and nothing but a request with a valid token changes the server. *)

From S2P Require Import Prelude GoStrings StateMachine Store Partner Steps Lease Executor Worker.
From S2P Require Import ExecutorFacts RunFacts Api AuthToken Http Scenario.

Local Open Scope go_scope.

#[local] Arguments Ascii.eqb : simpl never.
#[local] Arguments String.append !_ _ : simpl nomatch.

(** ** Paths *)

(** A path segment that needs no escape. *)
Definition plain (s : string) : Prop :=
  s <> "" /\ s <> "." /\ s <> ".." /\ free_of slash s = true /\ free_of percent s = true.

Lemma PathUnescape_plain s : free_of percent s = true -> PathUnescape s = Some s.
Proof.
  induction s as [|c s IH]; cbn; [done|]. intros [Hc Hs]%andb_true_iff.
  apply negb_true_iff in Hc. by rewrite Hc, (IH Hs).
Qed.

(** A slash is no part of an escape, so a text unescapes piece by piece. *)
Lemma PathUnescape_slash n : forall a b x, (String.length a <= n)%nat ->
  PathUnescape (a +:+ String slash b) = Some x ->
  exists xa xb, PathUnescape a = Some xa /\ PathUnescape b = Some xb /\ x = xa +:+ String slash xb.
Proof.
  assert (hex_digit slash = None) as Hslash by done.
  induction n as [|n IH]; intros [|c a] b x Hn Hx; cbn in Hn; [|lia| |]; cbn in Hx |- *.
  1,2: destruct (PathUnescape b) as [xb|] eqn:Eb; simplify_eq/=; by exists "", xb.
  destruct (Ascii.eqb c percent).
  - destruct a as [|h [|l a]]; cbn in Hx.
    + rewrite Hslash in Hx. by destruct b.
    + rewrite Hslash in Hx. by destruct (hex_digit h).
    + destruct (hex_digit h), (hex_digit l); try done.
      destruct (PathUnescape (a +:+ String slash b)) as [y|] eqn:Ey; simplify_eq/=.
      destruct (IH a b y ltac:(cbn in Hn; lia) Ey) as (xa&xb&->&->&->). by eexists _, xb.
  - destruct (PathUnescape (a +:+ String slash b)) as [y|] eqn:Ey; simplify_eq/=.
    destruct (IH a b y ltac:(lia) Ey) as (xa&xb&->&->&->). by eexists _, xb.
Qed.

(** Segments that [cleanPath] keeps. *)
Lemma clean_plain l : forall acc, Forall plain l -> fold_left clean_step l acc = acc ++ l.
Proof.
  induction l as [|s l IH]; intros acc Hl; cbn; [by rewrite app_nil_r|].
  apply Forall_cons in Hl as [(H1&H2&H3&_) Hl]. unfold clean_step at 2.
  rewrite !bool_decide_eq_false_2 by done. cbn. by rewrite IH, <- app_assoc.
Qed.

(** The text of a path of plain segments. *)
Definition path_text (l : list string) : string := "/" +:+ join "/" l.

Lemma split_path_text l : l <> [] -> Forall plain l -> split_byte slash (path_text l) = "" :: l.
Proof.
  intros Hne Hl. unfold path_text. change ("/" +:+ join "/" l) with ("" +:+ String slash (join "/" l)).
  rewrite split_byte_cons by done. f_equal. apply (split_join slash); [done|].
  eapply Forall_impl; [exact Hl|]. by intros s (_&_&_&?&_).
Qed.

Lemma cleanPath_plain l : l <> [] -> Forall plain l -> cleanPath (path_text l) = path_text l.
Proof.
  intros Hne Hl. unfold cleanPath, ends_in_slash. rewrite split_path_text by done.
  cbn [fold_left]. change (clean_step [] "") with (@nil string).
  rewrite clean_plain by done. cbn [app].
  destruct (last ("" :: l)) as [s|] eqn:El; [|done].
  assert (plain s) as (Hs&_).
  { destruct (exists_last Hne) as (l'&s'&->). rewrite app_comm_cons, last_snoc in El.
    simplify_eq. by apply Forall_app in Hl as [_ [? _]%Forall_cons]. }
  by destruct s.
Qed.

(** The path of an endpoint, and the method of its pattern. *)
Definition endpoint_segs (e : Endpoint) : list string :=
  match e with
  | EHealthz => ["healthz"] | EReadyz => ["readyz"] | ECreate => ["v1"; "transactions"]
  | EGet id => ["v1"; "transactions"; id] | ESteps id => ["v1"; "transactions"; id; "steps"]
  | ERetry id => ["v1"; "transactions"; id; "retry"]
  | ECompensate id => ["v1"; "transactions"; id; "compensate"]
  end.

Definition path_of (e : Endpoint) : string := path_text (endpoint_segs e).

Definition method_of (e : Endpoint) : string :=
  match e with
  | EHealthz | EReadyz | EGet _ | ESteps _ => "GET"
  | ECreate | ERetry _ | ECompensate _ => "POST"
  end.

Definition endpoint_ok (e : Endpoint) : Prop :=
  match e with
  | EGet id | ESteps id | ERetry id | ECompensate id => plain id
  | _ => True
  end.

Lemma endpoint_segs_ok e : endpoint_ok e -> endpoint_segs e <> [] /\ Forall plain (endpoint_segs e).
Proof.
  intros Hok. split; [by destruct e|].
  destruct e; cbn in Hok |- *; rewrite ?Forall_cons; split_and!;
    first [exact Hok|by constructor|by unfold plain].
Qed.

(** Every endpoint is found under its own path and method. *)
Lemma findHandler_endpoint e : endpoint_ok e -> findHandler (method_of e) (path_of e) = FEndpoint e.
Proof.
  intros Hok. destruct (endpoint_segs_ok e Hok) as [Hne Hl].
  unfold findHandler, path_of. rewrite cleanPath_plain by done.
  rewrite (bool_decide_eq_false_2 (method_of e = "CONNECT")) by by destruct e.
  rewrite bool_decide_eq_true_2 by done. cbn [negb]. unfold segments.
  rewrite split_path_text by done. cbn [tail].
  assert (map (fun s => default s (PathUnescape s)) (endpoint_segs e) = endpoint_segs e) as ->.
  { clear Hne. induction Hl as [|s l (_&_&_&_&Hs) Hl IH]; cbn; [done|].
    by rewrite (PathUnescape_plain s Hs), IH. }
  destruct e as [| | |id|id|id|id]; cbn -[bool_decide] in Hok |- *; try done;
    rewrite (bool_decide_eq_false_2 (id = "")) by apply Hok; done.
Qed.

Lemma cleanPath_slash p : exists q, cleanPath p = String slash q.
Proof. unfold cleanPath. destruct (_ && _); cbn; by eexists. Qed.

(** The transaction endpoints, as the shape of their segments. *)
Lemma endpoint_segments segs pat e :
  endpoint_of segs = Some (pat, e) ->
  e = EHealthz \/ e = EReadyz \/
  (exists m rest, pat = Some m /\ (m = "GET" \/ m = "POST") /\ segs = "v1" :: "transactions" :: rest).
Proof.
  unfold endpoint_of. intros Hf.
  repeat (case_match; simplify_eq; try (by left); try (by right; left)); right; right;
    do 2 eexists; (split; [done|]); (split; [|done]); by (left + right).
Qed.

Lemma skip_cases p : p ∈ skipPaths -> p = "/healthz" \/ p = "/readyz" \/ p = "/metrics".
Proof.
  unfold skipPaths. rewrite !elem_of_cons, elem_of_nil. by intros [|[|[|[]]]]; auto.
Qed.

(** No spelling of a path that skips authentication leads to a transaction. *)
Lemma skip_found r e :
  req_Path r ∈ skipPaths -> findHandler (req_Method r) (req_EscapedPath r) = FEndpoint e ->
  e = EHealthz \/ e = EReadyz.
Proof.
  intros Hskip Hf. unfold findHandler in Hf.
  set (p := if bool_decide (req_Method r = "CONNECT") then _ else _) in Hf.
  case_bool_decide as Hp; [|done]. cbn [negb] in Hf.
  destruct (endpoint_of (segments p)) as [[pat e']|] eqn:Ee; [|done].
  destruct (method_matches pat (req_Method r)) eqn:Em; [|done]. injection Hf as <-.
  destruct (endpoint_segments _ _ _ Ee) as [|[|(m&rest&->&Hm&Hs)]]; [by left|by right|exfalso].
  assert (exists q, p = String slash q) as [q Eq].
  { subst p. case_bool_decide as Hc; [|apply cleanPath_slash].
    rewrite Hc in Em. by destruct Hm as [-> | ->]. }
  unfold segments in Hs. rewrite Eq in Hs. cbn in Hs. rewrite Ascii.eqb_refl in Hs. cbn in Hs.
  pose proof (join_split slash q) as Hj.
  destruct (split_byte slash q) as [|p1 [|p2 ps]]; [done|done|].
  cbn [map] in Hs. injection Hs as H1 _ _.
  assert (q = p1 +:+ String slash (join "/" (p2 :: ps))) as Eq2 by by rewrite <- Hj.
  apply skip_cases in Hskip. unfold req_Path in Hskip. rewrite <- Hp, Eq, Eq2 in Hskip.
  change (PathUnescape (String slash (p1 +:+ String slash (join "/" (p2 :: ps))))) with
    (String slash <$> PathUnescape (p1 +:+ String slash (join "/" (p2 :: ps)))) in Hskip.
  destruct (PathUnescape (p1 +:+ _)) as [x|] eqn:Ex; [|by destruct Hskip as [[=]|[[=]|[=]]]].
  destruct (PathUnescape_slash _ p1 _ x (le_n _) Ex) as (x1&x2&E1&_&->).
  rewrite E1 in H1. cbn in H1. subst x1. by destruct Hskip as [[=]|[[=]|[=]]].
Qed.

(** ** The server behind the front *)

Section Front.
Context {S P L K : Type} `{GoStd} `{Store S} `{LeaseManager L} `{Locker K} `{GoCrypto}.
Context (env : nat -> Runtime) (order : list (string * string) -> list (string * string)).
Context (decode_create : string -> option CreateTxRequest) (decode_step : string -> string).
Context (control : option (Control (Server S P L K))).
Local Abbreviation V := (Server S P L K).
Local Abbreviation srv := (serve env order decode_create decode_step control).

(** Nothing changed but the position in the readings of the runtime. *)
Definition same_server (v v' : V) : Prop :=
w_store (n_world (sv_node v')) = w_store (n_world (sv_node v)) /\
no_io (w_ext (n_world (sv_node v))) (w_ext (n_world (sv_node v'))) /\
w_lease (n_world (sv_node v')) = w_lease (n_world (sv_node v)) /\
n_disp (sv_node v') = n_disp (sv_node v) /\ sv_lock v' = sv_lock v.

#[export] Instance same_server_preorder : PreOrder same_server.
Proof.
split; [by intros v; split_and!|].
intros x y z (?&?&?&?&?) (?&?&?&?&?). split_and!; [congruence|by etrans|congruence..].
Qed.

(** One reading of the runtime. *)
Lemma reading_same (v : V) :
exists v1, on_store (in_ext (runtime env)) v =
  (Returned (env (x_tick (w_ext (n_world (sv_node v))))), v1) /\ same_server v v1.
Proof. by destruct v as [[[] ?] ?]; eexists. Qed.

(** The time at which the server in [v] checks a token. *)
Definition server_now (v : V) : Z := rt_now (env (x_tick (w_ext (n_world (sv_node v))))).

Lemma server_clock_same (v : V) :
exists v1, server_clock env v = (Returned (server_now v), v1) /\ same_server v v1.
Proof.
destruct (reading_same v) as (v1&E&Hs). exists v1. split; [|done].
unfold server_clock, bind. by rewrite E.
Qed.

(** The request carries a token signed under [secret] that has not expired. *)
Definition authorized (secret : string) (r : Request) (now : Z) : Prop :=
exists token cl, req_Authorization r = "Bearer " +:+ token /\ verify token secret = Ok cl /\
  (unix now <= Exp cl)%Z.

Lemma Middleware_authorized {R} secret (unauth : string -> R) (h : Go V R) r (v : V) :
authorized secret r (server_now v) \/ req_Path r ∈ skipPaths ->
exists v1, same_server v v1 /\
  Middleware secret false (server_clock env) unauth h (req_Path r) (req_Authorization r) v = h v1.
Proof.
intros Hr. unfold Middleware. case_bool_decide as Hp; [by exists v|]. cbn [orb].
destruct Hr as [(token&cl&Ha&Hv&Hexp)|]; [|done].
rewrite Ha, (proj2 (HasPrefix_true _ "Bearer ")) by by eexists. cbn [negb].
rewrite TrimPrefix_app, Hv. destruct (server_clock_same v) as (v1&E&Hs).
unfold bind. rewrite E. destruct (Z.ltb_spec (Exp cl) (unix (server_now v))); [lia|].
by exists v1.
Qed.

Lemma Middleware_refuses {R} secret (unauth : string -> R) (h : Go V R) r (v : V) :
~ authorized secret r (server_now v) -> req_Path r ∉ skipPaths ->
exists v1 msg, same_server v v1 /\
  Middleware secret false (server_clock env) unauth h (req_Path r) (req_Authorization r) v =
  (Returned (unauth msg), v1).
Proof.
intros Hr Hp. unfold Middleware. rewrite bool_decide_eq_false_2 by done. cbn [orb].
destruct (HasPrefix (req_Authorization r) "Bearer ") eqn:Ep; cbn [negb]; [|by eexists _, _].
apply HasPrefix_true in Ep as [token Ea]. rewrite Ea, TrimPrefix_app.
destruct (verify token secret) as [cl|err] eqn:Ev; [|by eexists _, _].
destruct (server_clock_same v) as (v1&E&Hs). unfold bind. rewrite E.
destruct (Z.ltb_spec (Exp cl) (unix (server_now v))); [by eexists v1, _|].
destruct Hr. by exists token, cl.
Qed.

Lemma withRequestID_spec h r (v : V) :
exists v1 id, same_server v v1 /\ (req_RequestID r <> "" -> id = req_RequestID r) /\
  withRequestID env h r v = bind (h r) (fun rp => ret
    {| rp_Status := rp_Status rp; rp_RequestID := id; rp_Body := rp_Body rp |}) v1.
Proof.
unfold withRequestID. case_bool_decide as E.
- destruct (reading_same v) as (v1&Er&Hs).
  exists v1, (rt_uuid_string (env (x_tick (w_ext (n_world (sv_node v))))) 0).
  split; [done|]. split; [done|]. unfold bind at 1 2. by rewrite Er.
- by exists v, (req_RequestID r).
Qed.

(** C16: with authentication on, a request without a valid token changes nothing
  in the server, whatever its method, path or body: it is answered 401, or its
  path is one of the health paths and it is answered without a handler that
  acts. *)
Theorem unauthenticated_changes_nothing secret r (v v' : V) o :
srv secret false r v = (o, v') -> ~ authorized secret r (server_now v) ->
same_server v v' /\ exists rp, o = Returned rp /\
  (rp_Status rp = StatusUnauthorized \/
   req_Path r ∈ skipPaths /\ rp_Status rp ∈ [StatusOK; StatusNotFound; StatusMovedPermanently;
                                           StatusMethodNotAllowed]).
Proof.
intros Hrun Ha. unfold serve in Hrun.
destruct (decide (req_Path r ∈ skipPaths)) as [Hp|Hp].
2:{ destruct (Middleware_refuses secret writeUnauthorized
      (withRequestID env (dispatch env order decode_create decode_step control) r) r v Ha Hp)
      as (v1&msg&Hs&E).
    rewrite E in Hrun. injection Hrun as <- <-. split; [done|]. eexists. split; [done|]. by left. }
destruct (Middleware_authorized secret writeUnauthorized
  (withRequestID env (dispatch env order decode_create decode_step control) r) r v
  (or_intror Hp)) as (v1&Hs1&E).
rewrite E in Hrun. clear E.
destruct (withRequestID_spec (dispatch env order decode_create decode_step control) r v1)
  as (v2&id&Hs2&_&E). rewrite E in Hrun. clear E.
unfold dispatch in Hrun.
destruct (findHandler (req_Method r) (req_EscapedPath r)) as [e|path|allow|] eqn:Ef.
- destruct (skip_found r e Hp Ef) as [-> | ->]; unfold bind, ret in Hrun; cbn in Hrun;
    injection Hrun as <- <-; (split; [by etrans|]); eexists; (split; [done|]); right;
    (split; [done|]); by left.
- unfold bind, ret in Hrun. injection Hrun as <- <-. split; [by etrans|]. eexists. split; [done|].
  right. split; [done|]. cbn. by do 2 right; left.
- unfold bind, ret in Hrun. injection Hrun as <- <-. split; [by etrans|]. eexists. split; [done|].
  right. split; [done|]. cbn. by do 3 right; left.
- unfold bind, ret in Hrun. injection Hrun as <- <-. split; [by etrans|]. eexists. split; [done|].
  right. split; [done|]. cbn. by right; left.
Qed.

(** The way of a request through the front to the handler of its endpoint. *)
Lemma serve_endpoint secret bypass e r (v : V) :
endpoint_ok e -> req_Method r = method_of e -> req_EscapedPath r = path_of e ->
bypass = true \/ req_Path r ∈ skipPaths \/ authorized secret r (server_now v) ->
exists v1 id, same_server v v1 /\ (req_RequestID r <> "" -> id = req_RequestID r) /\
  srv secret bypass r v =
  bind (handle env order decode_create decode_step control e (req_Body r)) (fun resp =>
    ret {| rp_Status := fst resp; rp_RequestID := id; rp_Body := Json (snd resp) |}) v1.
Proof.
intros Hok Hm Hp Ha. unfold serve.
assert (exists v1, same_server v v1 /\
  Middleware secret bypass (server_clock env) writeUnauthorized
    (withRequestID env (dispatch env order decode_create decode_step control) r)
    (req_Path r) (req_Authorization r) v =
  withRequestID env (dispatch env order decode_create decode_step control) r v1)
  as (v1&Hs1&->).
{ destruct bypass; [by exists v|]. apply Middleware_authorized. destruct Ha as [?|[?|?]]; [done|by right|by left]. }
destruct (withRequestID_spec (dispatch env order decode_create decode_step control) r v1)
  as (v2&id&Hs2&Hid&->).
exists v2, id. split; [by etrans|]. split; [done|].
unfold dispatch. rewrite Hm, Hp, findHandler_endpoint by done.
unfold bind, ret. by destruct (handle _ _ _ _ _ _ _ v2) as [[]?].
Qed.
(** C17: an authorized request with the method and path of an endpoint is
  answered by that endpoint's handler on the server as it is, under the
  request id it carries. *)
Theorem endpoint_served secret bypass e r (v : V) :
endpoint_ok e -> req_Method r = method_of e -> req_EscapedPath r = path_of e ->
bypass = true \/ req_Path r ∈ skipPaths \/ authorized secret r (server_now v) ->
exists v1 id, same_server v v1 /\ (req_RequestID r <> "" -> id = req_RequestID r) /\
  srv secret bypass r v =
  bind (handle env order decode_create decode_step control e (req_Body r)) (fun resp =>
    ret {| rp_Status := fst resp; rp_RequestID := id; rp_Body := Json (snd resp) |}) v1.
Proof. apply serve_endpoint. Qed.
End Front.

(** ** A concrete server *)

Definition sample_server : Server MemStore Stub NoopLease NoopLocker := {|
  sv_node := {| n_world := demo_world; n_disp := worker_New 2 "w" (calm_env 0) |};
  sv_lock := tt |}.

Definition sample_control : Control (Server MemStore Stub NoopLease NoopLocker) :=
  worker_control calm_env (demo_exec calm_env DefaultStubConfig) true.

(** A decoder that reads the body as the step. *)
Definition sample_serve := @serve MemStore Stub NoopLease NoopLocker _ _ _ toy_crypto
  calm_env id (fun _ => Some demo_req) id (Some sample_control).

Definition retry_request (auth : string) : Request := {|
  req_Method := "POST"; req_EscapedPath := "/v1/transactions/t1/retry";
  req_Authorization := auth; req_RequestID := "r1"; req_Body := "" |}.

Lemma unauthenticated_changes_nothing_witness :
  let '(o, v') := sample_serve "s3cret" false (retry_request "Bearer nobody") sample_server in
  same_server sample_server v' /\ exists rp, o = Returned rp /\
    (rp_Status rp = StatusUnauthorized \/
     "/v1/transactions/t1/retry" ∈ skipPaths /\
     rp_Status rp ∈ [StatusOK; StatusNotFound; StatusMovedPermanently; StatusMethodNotAllowed]).
Proof.
  destruct (sample_serve "s3cret" false (retry_request "Bearer nobody") sample_server)
    as [o v'] eqn:E.
  apply (unauthenticated_changes_nothing (H3 := toy_crypto) calm_env id (fun _ => Some demo_req) id
    (Some sample_control) "s3cret" (retry_request "Bearer nobody") sample_server v' o E).
  intros (token&cl&Ha&Hv&_). injection Ha as <-. vm_compute in Hv. discriminate Hv.
Defined.

Lemma endpoint_served_witness :
  exists v1 id', same_server sample_server v1 /\ ("r1" <> "" -> id' = "r1") /\
    sample_serve "" true (retry_request "") sample_server =
    bind (handleRetry (Some sample_control) "t1" "") (fun resp =>
      ret {| rp_Status := fst resp; rp_RequestID := id'; rp_Body := Json (snd resp) |}) v1.
Proof.
  apply (endpoint_served (H3 := toy_crypto) calm_env id (fun _ => Some demo_req) id
    (Some sample_control) "" true (ERetry "t1") (retry_request "") sample_server);
    [by unfold endpoint_ok, plain|done|done|by left].
Defined.
