(* ===== verification/Grpc.v ===== *)
(** The gRPC adapters of the partner services
    ([internal/grpcclient/grpcclient.go]).  The generated clients, the
    connection and the status of an error are third-party or generated code:
    a class. *)

From S2P Require Import Prelude Partner Steps.

Local Open Scope Z_scope.
Local Open Scope go_scope.

(** ** Generated messages *)

Module pb.
Record PolicyRequest := {
  pq_TxId : string; pq_UserId : string; pq_QuoteId : string; pq_Amount : string;
  pq_Asset : string; pq_Rail : string; pq_DestAddress : string }.
Record PolicyResponse := { pr_Decision : string; pr_Reason : string }.
Record PaymentAuthorizeRequest := {
  aq_TxId : string; aq_UserId : string; aq_QuoteId : string; aq_Amount : string;
  aq_Asset : string; aq_Rail : string }.
Record PaymentAuthorizeResponse := { ap_AuthId : string }.
Record PaymentCaptureRequest := {
  cq_TxId : string; cq_AuthId : string; cq_Amount : string; cq_Asset : string }.
Record PaymentCaptureResponse := { cp_CaptureId : string }.
Record PaymentVoidRequest := { vq_TxId : string; vq_AuthId : string }.
Record PaymentRefundRequest := {
  rq_TxId : string; rq_CaptureId : string; rq_Amount : string; rq_Asset : string }.
Record KytRequest := {
  kq_TxId : string; kq_UserId : string; kq_DestAddress : string; kq_Amount : string;
  kq_Asset : string }.
Record KytResponse := { kr_Decision : string; kr_Reason : string }.
Record MpcSignRequest := { mq_TxId : string; mq_UnsignedTxHex : string }.
Record MpcSignResponse := { mr_SignedTxHex : string }.
Record BroadcastRequest := { bq_TxId : string; bq_SignedTxHex : string }.
Record StatusRequest := { sq_TxHash : string }.
Record BroadcastResponse := { br_TxHash : string; br_InMempool : bool; br_Confirmed : bool }.
Record LedgerPostRequest := {
  lq_TxId : string; lq_UserId : string; lq_Amount : string; lq_Asset : string; lq_Rail : string }.
Record LedgerPostResponse := { lr_JournalId : string }.

(** The generated client interfaces on an outside world [P]. *)
Section Clients.
Context {P : Type}.
Record PolicyRiskEngineClient := {
Evaluate : PolicyRequest -> P -> result PolicyResponse * P }.
Record PaymentOrchestrationClient := {
Authorize : PaymentAuthorizeRequest -> P -> result PaymentAuthorizeResponse * P;
Capture : PaymentCaptureRequest -> P -> result PaymentCaptureResponse * P;
VoidAuthorization : PaymentVoidRequest -> P -> result unit * P;
Refund : PaymentRefundRequest -> P -> result unit * P }.
Record AmlKytScreeningClient := { Screen : KytRequest -> P -> result KytResponse * P }.
Record MpcSigningServiceClient := { Sign : MpcSignRequest -> P -> result MpcSignResponse * P }.
Record BlockchainGatewayClient := {
Broadcast : BroadcastRequest -> P -> result BroadcastResponse * P;
Status : StatusRequest -> P -> result BroadcastResponse * P }.
Record LedgerAccountingClient := {
PostDoubleEntry : LedgerPostRequest -> P -> result LedgerPostResponse * P }.
End Clients.
Arguments PolicyRiskEngineClient P : clear implicits.
Arguments PaymentOrchestrationClient P : clear implicits.
Arguments AmlKytScreeningClient P : clear implicits.
Arguments MpcSigningServiceClient P : clear implicits.
Arguments BlockchainGatewayClient P : clear implicits.
Arguments LedgerAccountingClient P : clear implicits.
End pb.

(** [google.golang.org/grpc/codes]. *)
Inductive Code :=
  | OK | Canceled | Unknown | InvalidArgument | DeadlineExceeded | NotFound | AlreadyExists
  | PermissionDenied | ResourceExhausted | FailedPrecondition | Aborted | OutOfRange
  | Unimplemented | Internal | Unavailable | DataLoss | Unauthenticated | CodeOther (n : Z).

#[export] Instance Code_eq_dec : EqDecision Code.
Proof. solve_decision. Defined.

(** [status.FromError]: the code and message of an error that carries a gRPC
    status. *)
Class GrpcStatus := { FromError : error -> option (Code * string) }.

Definition mapErr `{GrpcStatus} (err : error) : error :=
  match FromError err with
  | None => err
  | Some (code, msg) =>
      match code with
      | PermissionDenied | FailedPrecondition => Wrap "" ErrDenied (": " +:+ msg)
      | Unavailable | DeadlineExceeded => Wrap "" ErrTransient (": " +:+ msg)
      | _ => err
      end
  end.

(** The Go string types of the decisions. *)
Definition PolicyDecision_of_string (s : string) : PolicyDecision :=
  if bool_decide (s = "allow") then PolicyAllow
  else if bool_decide (s = "deny") then PolicyDeny else PolicyOther s.

Definition KytDecision_of_string (s : string) : KytDecision :=
  if bool_decide (s = "clear") then KytClear
  else if bool_decide (s = "review") then KytReview
  else if bool_decide (s = "reject") then KytReject else KytOther s.

(** ** The adapters *)

Section Adapters.
Context {P : Type} `{GrpcStatus}.

(** [if err != nil { return zero, mapErr(err) }; return f(resp), nil]. *)
Definition answer {A B} (f : A -> B) (r : result A * P) : result B * P :=
match r with
| (Err err, p) => (Err (mapErr err), p)
| (Ok resp, p) => (Ok (f resp), p)
end.

Definition PolicyClient (cc : pb.PolicyRiskEngineClient P) : Policy P := {|
Evaluate req p := answer
  (fun resp => {| pp_Decision := PolicyDecision_of_string (pb.pr_Decision resp);
                  pp_Reason := pb.pr_Reason resp |})
  (pb.Evaluate cc {| pb.pq_TxId := pr_TxID req; pb.pq_UserId := pr_UserID req;
     pb.pq_QuoteId := pr_QuoteID req; pb.pq_Amount := pr_Amount req;
     pb.pq_Asset := pr_Asset req; pb.pq_Rail := pr_Rail req;
     pb.pq_DestAddress := pr_DestAddress req |} p) |}.

Definition PaymentClient (cc : pb.PaymentOrchestrationClient P) : Payment P := {|
Authorize req p := answer (fun resp => {| AuthID := pb.ap_AuthId resp |})
  (pb.Authorize cc {| pb.aq_TxId := ar_TxID req; pb.aq_UserId := ar_UserID req;
     pb.aq_QuoteId := ar_QuoteID req; pb.aq_Amount := ar_Amount req;
     pb.aq_Asset := ar_Asset req; pb.aq_Rail := ar_Rail req |} p);
Capture req p := answer (fun resp => {| CaptureID := pb.cp_CaptureId resp |})
  (pb.Capture cc {| pb.cq_TxId := cr_TxID req; pb.cq_AuthId := cr_AuthID req;
     pb.cq_Amount := cr_Amount req; pb.cq_Asset := cr_Asset req |} p);
VoidAuthorization req p := answer (fun _ => tt)
  (pb.VoidAuthorization cc {| pb.vq_TxId := vr_TxID req; pb.vq_AuthId := vr_AuthID req |} p);
Refund req p := answer (fun _ => tt)
  (pb.Refund cc {| pb.rq_TxId := rr_TxID req; pb.rq_CaptureId := rr_CaptureID req;
     pb.rq_Amount := rr_Amount req; pb.rq_Asset := rr_Asset req |} p) |}.

Definition KytClient (cc : pb.AmlKytScreeningClient P) : Kyt P := {|
Screen req p := answer
  (fun resp => {| kp_Decision := KytDecision_of_string (pb.kr_Decision resp);
                  kp_Reason := pb.kr_Reason resp |})
  (pb.Screen cc {| pb.kq_TxId := kr_TxID req; pb.kq_UserId := kr_UserID req;
     pb.kq_DestAddress := kr_DestAddress req; pb.kq_Amount := kr_Amount req;
     pb.kq_Asset := kr_Asset req |} p) |}.

Definition MpcClient (cc : pb.MpcSigningServiceClient P) : Mpc P := {|
Sign req p := answer (fun resp => {| SignedTxHex := pb.mr_SignedTxHex resp |})
  (pb.Sign cc {| pb.mq_TxId := mr_TxID req; pb.mq_UnsignedTxHex := mr_UnsignedTxHex req |} p) |}.

Definition broadcast_response (resp : pb.BroadcastResponse) : BroadcastResponse := {|
TxHash := pb.br_TxHash resp; InMempool := pb.br_InMempool resp;
Confirmed := pb.br_Confirmed resp |}.

Definition BlockchainClient (cc : pb.BlockchainGatewayClient P) : Blockchain P := {|
Broadcast req p := answer broadcast_response
  (pb.Broadcast cc {| pb.bq_TxId := br_TxID req; pb.bq_SignedTxHex := br_SignedTxHex req |} p);
Status txHash p := answer broadcast_response
  (pb.Status cc {| pb.sq_TxHash := txHash |} p) |}.

Definition LedgerClient (cc : pb.LedgerAccountingClient P) : Ledger P := {|
PostDoubleEntry req p := answer (fun resp => {| JournalID := pb.lr_JournalId resp |})
  (pb.PostDoubleEntry cc {| pb.lq_TxId := lr_TxID req; pb.lq_UserId := lr_UserID req;
     pb.lq_Amount := lr_Amount req; pb.lq_Asset := lr_Asset req;
     pb.lq_Rail := lr_Rail req |} p) |}.
End Adapters.

(** ** Credentials *)

(** The files of the TLS material: [tls.LoadX509KeyPair], [os.ReadFile] and
    [AppendCertsFromPEM], which makes a pool of the certificates it finds. *)
Class TLSFiles := {
  KeyPair : Type;
  CertPool : Type;
  LoadX509KeyPair : string -> string -> result KeyPair;
  ReadFile : string -> result string;
  CertsFromPEM : string -> option CertPool;
}.

Record TLSConfig `{TLSFiles} := {
  tls_Certificates : list KeyPair; tls_RootCAs : CertPool; tls_MinVersion : Z }.

Inductive Creds `{TLSFiles} := Insecure | NewTLS (cfg : TLSConfig).

Section TLS.
Context `{TLSFiles} (Getenv : string -> string).

Definition loadTLSConfig : result (option TLSConfig) :=
let cert := Getenv "TLS_CERT_FILE" in
let key := Getenv "TLS_KEY_FILE" in
let ca := Getenv "TLS_CA_FILE" in
let unset (s : string) := bool_decide (s = "") in
if unset cert && unset key && unset ca then
  if bool_decide (Getenv "DEV_MODE" = "1") then Ok None
  else Err (New "grpcclient: TLS_CERT_FILE/TLS_KEY_FILE/TLS_CA_FILE required when DEV_MODE!=1")
else if unset cert || unset key || unset ca then
  Err (New "grpcclient: TLS_CERT_FILE, TLS_KEY_FILE and TLS_CA_FILE must all be set together")
else match LoadX509KeyPair cert key with
| Err err => Err (Wrap "grpcclient: load keypair: " err "")
| Ok keypair =>
    match ReadFile ca with
    | Err err => Err (Wrap "grpcclient: read CA: " err "")
    | Ok caPEM =>
        match CertsFromPEM caPEM with
        | None => Err (New ("grpcclient: failed to parse CA bundle " +:+ ca))
        | Some pool => Ok (Some {| tls_Certificates := [keypair]; tls_RootCAs := pool;
                                   tls_MinVersion := 771 |})
        end
    end
end.

Definition transportCredentials : result Creds :=
match loadTLSConfig with
| Err err => Err err
| Ok None => Ok Insecure
| Ok (Some cfg) => Ok (NewTLS cfg)
end.
End TLS.

(** A connection as [grpc.NewClient] makes it, and the generated clients on it. *)
Class GrpcConn (P : Type) `{TLSFiles} := {
  ClientConn : Type;
  NewClient : string -> Creds -> result ClientConn;
  NewPolicyRiskEngineClient : ClientConn -> pb.PolicyRiskEngineClient P;
  NewAmlKytScreeningClient : ClientConn -> pb.AmlKytScreeningClient P;
  NewMpcSigningServiceClient : ClientConn -> pb.MpcSigningServiceClient P;
  NewLedgerAccountingClient : ClientConn -> pb.LedgerAccountingClient P;
  NewPaymentOrchestrationClient : ClientConn -> pb.PaymentOrchestrationClient P;
  NewBlockchainGatewayClient : ClientConn -> pb.BlockchainGatewayClient P;
}.

Section Dial.
Context {P : Type} `{GrpcStatus} `{GrpcConn P} (Getenv : string -> string).

(** The common body of [NewPolicy], [NewKyt], [NewMpc], [NewLedger],
  [NewPayment] and [NewBlockchain]. *)
Definition dial {C} (name target : string) (make : ClientConn -> C) : result (C * ClientConn) :=
match transportCredentials Getenv with
| Err err => Err (Wrap (name +:+ " tls: ") err "")
| Ok creds =>
    match NewClient target creds with
    | Err err => Err (Wrap (name +:+ " dial " +:+ target +:+ ": ") err "")
    | Ok cc => Ok (make cc, cc)
    end
end.

Definition NewPolicy (target : string) : result (Policy P * ClientConn) :=
dial "policy" target (fun cc => PolicyClient (NewPolicyRiskEngineClient cc)).
Definition NewKyt (target : string) : result (Kyt P * ClientConn) :=
dial "kyt" target (fun cc => KytClient (NewAmlKytScreeningClient cc)).
Definition NewMpc (target : string) : result (Mpc P * ClientConn) :=
dial "mpc" target (fun cc => MpcClient (NewMpcSigningServiceClient cc)).
Definition NewLedger (target : string) : result (Ledger P * ClientConn) :=
dial "ledger" target (fun cc => LedgerClient (NewLedgerAccountingClient cc)).
Definition NewPayment (target : string) : result (Payment P * ClientConn) :=
dial "payment" target (fun cc => PaymentClient (NewPaymentOrchestrationClient cc)).
Definition NewBlockchain (target : string) : result (Blockchain P * ClientConn) :=
dial "blockchain" target (fun cc => BlockchainClient (NewBlockchainGatewayClient cc)).
End Dial.

(** ** Laws *)

Definition denial_code (c : Code) : bool := bool_decide (c ∈ [PermissionDenied; FailedPrecondition]).
Definition transient_code (c : Code) : bool := bool_decide (c ∈ [Unavailable; DeadlineExceeded]).

(** An error with a gRPC status is a denial for the saga exactly on
    [PermissionDenied] and [FailedPrecondition] and transient exactly on
    [Unavailable] and [DeadlineExceeded]; so the executor retries a step whose
    partner failed exactly on the latter two. *)
Theorem mapErr_classes `{GrpcStatus} err code msg :
  FromError err = Some (code, msg) ->
  errors_Is err ErrDenied = false -> errors_Is err ErrTransient = false ->
  errors_Is err ErrNonRetriable = false ->
  errors_Is (mapErr err) ErrDenied = denial_code code /\
  errors_Is (mapErr err) ErrTransient = transient_code code /\
  IsNonRetriable (Some (classify (mapErr err))) = negb (transient_code code).
Proof.
  intros Hf Hd Ht Hn. unfold mapErr. rewrite Hf.
  destruct code; (split_and!; [by vm_compute|by vm_compute|]) || split_and!; try done;
    unfold IsNonRetriable, classify; rewrite ?Ht; try done.
Qed.

(** Outside [DEV_MODE=1] no connection is made without TLS material, and
    a partial set of the three files is refused in every mode. *)
Theorem never_insecure `{TLSFiles} (Getenv : string -> string) :
  (Getenv "DEV_MODE" <> "1" -> transportCredentials Getenv <> Ok Insecure) /\
  ((exists k, k ∈ ["TLS_CERT_FILE"; "TLS_KEY_FILE"; "TLS_CA_FILE"] /\ Getenv k = "") ->
   forall cfg, transportCredentials Getenv <> Ok (NewTLS cfg)).
Proof.
  unfold transportCredentials, loadTLSConfig. split.
  - intros Hdev. rewrite (bool_decide_eq_false_2 (_ = "1")) by done.
    repeat case_bool_decide; cbn; try done;
      destruct (LoadX509KeyPair _ _); try done; destruct (ReadFile _); try done;
      by destruct (CertsFromPEM _).
  - intros (k&Hk&E) cfg.
    repeat (apply elem_of_cons in Hk as [->|Hk]); [| | |by inversion Hk];
      rewrite E; rewrite (bool_decide_eq_true_2 ("" = "")) by done; cbn;
      repeat case_bool_decide; by cbn.
Qed.

(** *** The adapters lose nothing

    A partner behind a server that reads every field of a message and writes
    every field of its answer. *)

Section Transparent.
Context {P : Type} `{GrpcStatus}.

Definition PolicyDecision_string (d : PolicyDecision) : string :=
match d with PolicyAllow => "allow" | PolicyDeny => "deny" | PolicyOther s => s end.

Definition reply {A B} (f : A -> B) (r : result A * P) : result B * P :=
(match fst r with Ok a => Ok (f a) | Err err => Err err end, snd r).

Definition serve_policy (c : Policy P) : pb.PolicyRiskEngineClient P := {|
pb.Evaluate q p := reply
  (fun r => {| pb.pr_Decision := PolicyDecision_string (pp_Decision r);
               pb.pr_Reason := pp_Reason r |})
  (Evaluate c {| pr_TxID := pb.pq_TxId q; pr_UserID := pb.pq_UserId q;
     pr_QuoteID := pb.pq_QuoteId q; pr_Amount := pb.pq_Amount q; pr_Asset := pb.pq_Asset q;
     pr_Rail := pb.pq_Rail q; pr_DestAddress := pb.pq_DestAddress q |} p) |}.

Definition serve_payment (c : Payment P) : pb.PaymentOrchestrationClient P := {|
pb.Authorize q p := reply (fun r => {| pb.ap_AuthId := AuthID r |})
  (Authorize c {| ar_TxID := pb.aq_TxId q; ar_UserID := pb.aq_UserId q;
     ar_QuoteID := pb.aq_QuoteId q; ar_Amount := pb.aq_Amount q; ar_Asset := pb.aq_Asset q;
     ar_Rail := pb.aq_Rail q |} p);
pb.Capture q p := reply (fun r => {| pb.cp_CaptureId := CaptureID r |})
  (Capture c {| cr_TxID := pb.cq_TxId q; cr_AuthID := pb.cq_AuthId q;
     cr_Amount := pb.cq_Amount q; cr_Asset := pb.cq_Asset q |} p);
pb.VoidAuthorization q p :=
  VoidAuthorization c {| vr_TxID := pb.vq_TxId q; vr_AuthID := pb.vq_AuthId q |} p;
pb.Refund q p :=
  Refund c {| rr_TxID := pb.rq_TxId q; rr_CaptureID := pb.rq_CaptureId q;
     rr_Amount := pb.rq_Amount q; rr_Asset := pb.rq_Asset q |} p |}.

Definition serve_kyt (c : Kyt P) : pb.AmlKytScreeningClient P := {|
pb.Screen q p := reply
  (fun r => {| pb.kr_Decision := KytDecision_string (kp_Decision r);
               pb.kr_Reason := kp_Reason r |})
  (Screen c {| kr_TxID := pb.kq_TxId q; kr_UserID := pb.kq_UserId q;
     kr_DestAddress := pb.kq_DestAddress q; kr_Amount := pb.kq_Amount q;
     kr_Asset := pb.kq_Asset q |} p) |}.

Definition serve_mpc (c : Mpc P) : pb.MpcSigningServiceClient P := {|
pb.Sign q p := reply (fun r => {| pb.mr_SignedTxHex := SignedTxHex r |})
  (Sign c {| mr_TxID := pb.mq_TxId q; mr_UnsignedTxHex := pb.mq_UnsignedTxHex q |} p) |}.

Definition serve_broadcast (r : BroadcastResponse) : pb.BroadcastResponse := {|
pb.br_TxHash := TxHash r; pb.br_InMempool := InMempool r; pb.br_Confirmed := Confirmed r |}.

Definition serve_blockchain (c : Blockchain P) : pb.BlockchainGatewayClient P := {|
pb.Broadcast q p := reply serve_broadcast
  (Broadcast c {| br_TxID := pb.bq_TxId q; br_SignedTxHex := pb.bq_SignedTxHex q |} p);
pb.Status q p := reply serve_broadcast (Status c (pb.sq_TxHash q) p) |}.

Definition serve_ledger (c : Ledger P) : pb.LedgerAccountingClient P := {|
pb.PostDoubleEntry q p := reply (fun r => {| pb.lr_JournalId := JournalID r |})
  (PostDoubleEntry c {| lr_TxID := pb.lq_TxId q; lr_UserID := pb.lq_UserId q;
     lr_Amount := pb.lq_Amount q; lr_Asset := pb.lq_Asset q; lr_Rail := pb.lq_Rail q |} p) |}.

(** What a client sees of a partner's answer: the errors are classified. *)
Definition seen {A} (r : result A * P) : result A * P :=
(match fst r with Ok a => Ok a | Err err => Err (mapErr err) end, snd r).

(** The decisions are strings, so a constructor and its text are one value. *)
Definition canonical_policy (r : PolicyResponse) : PolicyResponse := {|
pp_Decision := PolicyDecision_of_string (PolicyDecision_string (pp_Decision r));
pp_Reason := pp_Reason r |}.
Definition canonical_kyt (r : KytResponse) : KytResponse := {|
kp_Decision := KytDecision_of_string (KytDecision_string (kp_Decision r));
kp_Reason := kp_Reason r |}.

(** Through each adapter a partner is seen exactly as it is: every field
  of a request reaches it, every field of its answer comes back, and only
  its errors are classified. *)
Theorem adapters_transparent :
(forall c req p, Evaluate (PolicyClient (serve_policy c)) req p =
                 seen (reply canonical_policy (Evaluate c req p))) /\
(forall c req p, Authorize (PaymentClient (serve_payment c)) req p = seen (Authorize c req p)) /\
(forall c req p, Capture (PaymentClient (serve_payment c)) req p = seen (Capture c req p)) /\
(forall c req p, VoidAuthorization (PaymentClient (serve_payment c)) req p =
                 seen (VoidAuthorization c req p)) /\
(forall c req p, Refund (PaymentClient (serve_payment c)) req p = seen (Refund c req p)) /\
(forall c req p, Screen (KytClient (serve_kyt c)) req p =
                 seen (reply canonical_kyt (Screen c req p))) /\
(forall c req p, Sign (MpcClient (serve_mpc c)) req p = seen (Sign c req p)) /\
(forall c req p, Broadcast (BlockchainClient (serve_blockchain c)) req p =
                 seen (Broadcast c req p)) /\
(forall c hash p, Status (BlockchainClient (serve_blockchain c)) hash p =
                  seen (Status c hash p)) /\
(forall c req p, PostDoubleEntry (LedgerClient (serve_ledger c)) req p =
                 seen (PostDoubleEntry c req p)).
Proof.
split_and!; intros c req p; destruct req; cbn;
  match goal with
  | |- _ = seen (reply _ ?r) => destruct r as [[[]|] ?]; reflexivity
  | |- _ = seen ?r => destruct r as [[[]|] ?]; reflexivity
  end.
Qed.
End Transparent.

Definition sample_status : GrpcStatus := {|
  FromError err := match err with
                   | New "unavailable" => Some (Unavailable, "connection refused")
                   | _ => None
                   end |}.

Lemma mapErr_classes_witness :
  errors_Is (@mapErr sample_status (New "unavailable")) ErrTransient = true /\
  IsNonRetriable (Some (classify (@mapErr sample_status (New "unavailable")))) = false.
Proof.
  destruct (@mapErr_classes sample_status (New "unavailable") Unavailable "connection refused"
    eq_refl eq_refl eq_refl eq_refl) as (_&H1&H2).
  split; [exact H1|exact H2].
Defined.
