(* ===== verification/Settings.v ===== *)
(** The configuration read from the environment ([internal/config/config.go])
    and what [cmd/orchestrator] makes of it for the executor. *)

From S2P Require Import Prelude GoStrings StateMachine Store Partner Steps Lease Executor.
From S2P Require Import Returns.

Local Open Scope Z_scope.
Local Open Scope go_scope.

Module config.

Record Config := {
  c_Port : string; c_GRPCPort : string; c_DBURL : string; c_RedisURL : string;
  c_PolicyURL : string; c_PaymentURL : string; c_KytURL : string; c_MpcURL : string;
  c_BlockchainURL : string; c_LedgerURL : string;
  c_StepTimeoutSeconds : Z; c_StepTimeoutPolicySeconds : Z; c_StepTimeoutPaymentSeconds : Z;
  c_StepTimeoutKytSeconds : Z; c_StepTimeoutMpcSeconds : Z; c_StepTimeoutBroadcastSeconds : Z;
  c_StepTimeoutLedgerSeconds : Z;
  c_MaxRetries : Z; c_RetryBaseBackoffMS : Z; c_RetryMaxBackoffMS : Z;
  c_EventBusURL : string; c_OutboxPollIntervalMS : Z; c_OutboxBatchSize : Z;
  c_WorkerConcurrency : Z; c_LeaseTTLOffset : Z; c_LogLevel : string;
}.

Definition ErrRequired : error := Sentinel "config: required env var missing".

(** The environment is what [os.LookupEnv] answers; [ToLower] is
    [strings.ToLower]. *)
Section Load.
Context (LookupEnv : string -> option string) (ToLower : string -> string).

Definition Getenv (k : string) : string := default "" (LookupEnv k).

Definition getenv (k def : string) : string :=
match LookupEnv k with
| Some v => if bool_decide (v = "") then def else v
| None => def
end.

Definition getenvInt (k : string) (def : Z) : Z :=
match LookupEnv k with
| Some v => if bool_decide (v = "") then def else default def (Atoi v)
| None => def
end.

Definition loaded : Config := {|
c_Port := getenv "PORT" "8080"; c_GRPCPort := getenv "GRPC_PORT" "9090";
c_DBURL := Getenv "DB_URL"; c_RedisURL := Getenv "REDIS_URL";
c_PolicyURL := Getenv "POLICY_URL"; c_PaymentURL := Getenv "PAYMENT_URL";
c_KytURL := Getenv "KYT_URL"; c_MpcURL := Getenv "MPC_URL";
c_BlockchainURL := Getenv "BLOCKCHAIN_URL"; c_LedgerURL := Getenv "LEDGER_URL";
c_StepTimeoutSeconds := getenvInt "STEP_TIMEOUT_SECONDS" 30;
c_StepTimeoutPolicySeconds := getenvInt "STEP_TIMEOUT_POLICY_SECONDS" 5;
c_StepTimeoutPaymentSeconds := getenvInt "STEP_TIMEOUT_PAYMENT_SECONDS" 30;
c_StepTimeoutKytSeconds := getenvInt "STEP_TIMEOUT_KYT_SECONDS" 15;
c_StepTimeoutMpcSeconds := getenvInt "STEP_TIMEOUT_MPC_SECONDS" 20;
c_StepTimeoutBroadcastSeconds := getenvInt "STEP_TIMEOUT_BROADCAST_SECONDS" 30;
c_StepTimeoutLedgerSeconds := getenvInt "STEP_TIMEOUT_LEDGER_SECONDS" 10;
c_MaxRetries := getenvInt "MAX_RETRIES" 5;
c_RetryBaseBackoffMS := getenvInt "RETRY_BASE_BACKOFF_MS" 200;
c_RetryMaxBackoffMS := getenvInt "RETRY_MAX_BACKOFF_MS" 10000;
c_EventBusURL := Getenv "EVENT_BUS_URL";
c_OutboxPollIntervalMS := getenvInt "OUTBOX_POLL_INTERVAL_MS" 100;
c_OutboxBatchSize := getenvInt "OUTBOX_BATCH_SIZE" 100;
c_WorkerConcurrency := getenvInt "WORKER_CONCURRENCY" 256;
c_LeaseTTLOffset := int64 (getenvInt "LEASE_TTL_SECONDS" 30 * Second);
c_LogLevel := ToLower (getenv "LOG_LEVEL" "info") |}.

(** The configuration and the error are returned together. *)
Definition Load : Config * option error :=
let c := loaded in
let missing := map fst (List.filter (fun '(_, v) => bool_decide (v = ""))
                          [("EVENT_BUS_URL", c_EventBusURL c)]) in
match missing with
| [] => (c, None)
| _ => (c, Some (Wrap "" ErrRequired (": " +:+ join ", " missing)))
end.
End Load.

(** The [switch] of [StepTimeout]: the seconds it picks. *)
Definition step_seconds (c : Config) (step : string) : Z :=
  if bool_decide (step = "POLICY") then c_StepTimeoutPolicySeconds c
  else if bool_decide (step = "PAYMENT") then c_StepTimeoutPaymentSeconds c
  else if bool_decide (step = "KYT") then c_StepTimeoutKytSeconds c
  else if bool_decide (step = "MPC_SIGN") then c_StepTimeoutMpcSeconds c
  else if bool_decide (step = "BROADCAST") then c_StepTimeoutBroadcastSeconds c
  else if bool_decide (step = "LEDGER") then c_StepTimeoutLedgerSeconds c
  else c_StepTimeoutSeconds c.

(** [time.Duration(n) * time.Second] in [int64]. *)
Definition StepTimeout (c : Config) (step : string) : Z := int64 (step_seconds c step * Second).
End config.

(** [execCfg] of [run] in [cmd/orchestrator/main.go]. *)
Definition exec_config (c : config.Config) : Config := {|
  MaxRetries := config.c_MaxRetries c;
  BaseBackoff := int64 (config.c_RetryBaseBackoffMS c * Millisecond);
  MaxBackoff := int64 (config.c_RetryMaxBackoffMS c * Millisecond);
  StepTimeout := config.StepTimeout c |}.

(** ** Laws *)

(** An even number of nanoseconds stays even when it wraps around. *)
Lemma int64_even n k : (2 | k) -> int64 (n * k) <> 1.
Proof.
  intros [q ->] E. unfold int64 in E.
  pose proof (Z.div_mod (n * (q * 2) + 2 ^ 63) (2 ^ 64) ltac:(lia)) as Hm. lia.
Qed.

Section Env.
Context (LookupEnv : string -> option string) (ToLower : string -> string).

(** [Load] fails exactly when the bus address is missing, with the sentinel
  [ErrRequired], whatever the other variables hold. *)
Lemma Load_error :
match snd (config.Load LookupEnv ToLower) with
| None => exists v, LookupEnv "EVENT_BUS_URL" = Some v /\ v <> ""
| Some err => default "" (LookupEnv "EVENT_BUS_URL") = "" /\
              errors_Is err config.ErrRequired = true /\
              Error err = "config: required env var missing: EVENT_BUS_URL"
end.
Proof.
unfold config.Load, config.loaded. cbn [config.c_EventBusURL List.filter map fst snd].
unfold config.Getenv. case_bool_decide as E; cbn; [by rewrite E|].
destruct (LookupEnv "EVENT_BUS_URL") as [v|]; [by exists v|done].
Qed.

(** An integer variable set to the decimal text of an [int] gives that
  number; one that is unset, empty or no number gives the default. *)
Lemma getenvInt_reads k def n :
- 2 ^ 63 <= n < 2 ^ 63 ->
(LookupEnv k = Some (itoa n) -> config.getenvInt LookupEnv k def = n) /\
(LookupEnv k = None \/ LookupEnv k = Some "" \/
   (exists v, LookupEnv k = Some v /\ Atoi v = None) ->
 config.getenvInt LookupEnv k def = def).
Proof.
intros Hn. unfold config.getenvInt. split.
- intros ->. pose proof (Atoi_itoa n Hn) as Ha. rewrite Ha. case_bool_decide as E; [|done].
  by rewrite E in Ha.
- intros [->|[->|(v&->&Hv)]]; [done|done|]. rewrite Hv. by case_bool_decide.
Qed.

(** Whatever the environment holds, the executor's delays are such that no
  back-off panics, even where the conversion to nanoseconds overflows. *)
Lemma loaded_delays : delays_ok (exec_config (config.loaded LookupEnv ToLower)).
Proof.
assert (2 | Millisecond) as Hm by (by exists 500000). split; by apply int64_even.
Qed.

Lemma exec_config_delays : delays_ok (exec_config (fst (config.Load LookupEnv ToLower))).
Proof. unfold config.Load. destruct (map _ _); apply loaded_delays. Qed.
End Env.

(** Every step of the saga has a timeout of its own, taken from its own
    variable, so the global default [STEP_TIMEOUT_SECONDS] reaches none of
    them; up to 292 years the conversion to nanoseconds does not overflow. *)
Lemma step_timeouts c :
  Forall2 (fun step secs => config.StepTimeout c (Step_string step) = int64 (secs * Second) /\
             (Z.abs secs <= 9223372036 -> config.StepTimeout c (Step_string step) = secs * Second))
    StepOrder
    [config.c_StepTimeoutPolicySeconds c; config.c_StepTimeoutPaymentSeconds c;
     config.c_StepTimeoutKytSeconds c; config.c_StepTimeoutMpcSeconds c;
     config.c_StepTimeoutBroadcastSeconds c; config.c_StepTimeoutLedgerSeconds c].
Proof.
  unfold StepOrder. repeat constructor; intros; apply int64_id; unfold Second; lia.
Qed.

(** ** A concrete environment *)

Definition sample_lookup (k : string) : option string :=
  if bool_decide (k = "EVENT_BUS_URL") then Some "kafka://bus:9092"
  else if bool_decide (k = "MAX_RETRIES") then Some "7"
  else if bool_decide (k = "OUTBOX_BATCH_SIZE") then Some "many" else None.

Lemma getenvInt_reads_witness :
  config.getenvInt sample_lookup "MAX_RETRIES" 5 = 7 /\
  config.getenvInt sample_lookup "OUTBOX_BATCH_SIZE" 100 = 100.
Proof.
  split.
  - apply (getenvInt_reads sample_lookup "MAX_RETRIES" 5 7); [lia|]. vm_compute. reflexivity.
  - apply (getenvInt_reads sample_lookup "OUTBOX_BATCH_SIZE" 100 0); [lia|].
    right. right. exists "many". split; vm_compute; reflexivity.
Defined.
