(* ===== verification/Boot.v ===== *)
(** How [cmd/orchestrator/main.go] chooses the store and the partner clients. *)

From S2P Require Import Prelude GoStrings StateMachine Store Partner Steps Lease Executor.
From S2P Require Import Returns Settings Grpc.

Local Open Scope Z_scope.
Local Open Scope go_scope.

(** The store [run] opens: [NewPgStore] is a parameter. *)
Inductive AnyStore (PG : Type) :=
  | InMemory (s : MemStore)
  | Postgres (s : PG).
Arguments InMemory {PG} s.
Arguments Postgres {PG} s.

Definition open_store {PG} (NewPgStore : string -> result PG) (c : config.Config) (devMode : bool)
  : result (AnyStore PG) :=
  if bool_decide (config.c_DBURL c = "") then
    if negb devMode then
      Err (New "DB_URL not set and DEV_MODE!=1; refusing to start in production mode")
    else Ok (InMemory NewMemStore)
  else match NewPgStore (config.c_DBURL c) with
       | Err err => Err err
       | Ok ps => Ok (Postgres ps)
       end.

(** ** The clients [run] starts from

    One [partner.Stub] in every slot, beside whatever the remote partners are:
    the partners of the process are the stub and the world [G] of the remote
    services. *)

Section Stubs.
Context {G : Type}.

(** An operation of the stub. *)
Definition at_stub {Req Resp} (op : Req -> Stub -> result Resp * Stub) (req : Req)
  (p : Stub * G) : result Resp * (Stub * G) :=
let '(r, st) := op req (fst p) in (r, (st, snd p)).

(** [partner.NewStub(partner.DefaultStubConfig())] as the seven clients. *)
Definition stubs : Clients (Stub * G) :=
let cfg := DefaultStubConfig in {|
cl_Policy := Some {| Evaluate := at_stub (StubOps.Evaluate cfg) |};
cl_Payment := Some {| Authorize := at_stub (StubOps.Authorize cfg);
                      Capture := at_stub (StubOps.Capture cfg);
                      VoidAuthorization := at_stub StubOps.VoidAuthorization;
                      Refund := at_stub StubOps.Refund |};
cl_Kyt := Some {| Screen := at_stub (StubOps.Screen cfg) |};
cl_Mpc := Some {| Sign := at_stub (StubOps.Sign cfg) |};
cl_Blockchain := Some {| Broadcast := at_stub (StubOps.Broadcast cfg);
                         Status := at_stub (StubOps.Status cfg) |};
cl_Ledger := Some {| PostDoubleEntry := at_stub (StubOps.PostDoubleEntry cfg) |};
cl_Audit := Some {| Record_ := at_stub StubOps.Record_ |} |}.

(** Nothing was called when the process starts. *)
Definition boot_ext (g : G) : Ext (Stub * G) :=
{| x_partners := (NewStub, g); x_calls := []; x_tick := 0 |}.
End Stubs.

Section Partners.
Context {P : Type} `{GrpcStatus} `{GrpcConn P} (Getenv : string -> string).

Definition set_Policy (c : Policy P) (cl : Clients P) : Clients P := {|
cl_Policy := Some c; cl_Payment := cl_Payment cl; cl_Kyt := cl_Kyt cl; cl_Mpc := cl_Mpc cl;
cl_Blockchain := cl_Blockchain cl; cl_Ledger := cl_Ledger cl; cl_Audit := cl_Audit cl |}.
Definition set_Kyt (c : Kyt P) (cl : Clients P) : Clients P := {|
cl_Policy := cl_Policy cl; cl_Payment := cl_Payment cl; cl_Kyt := Some c; cl_Mpc := cl_Mpc cl;
cl_Blockchain := cl_Blockchain cl; cl_Ledger := cl_Ledger cl; cl_Audit := cl_Audit cl |}.
Definition set_Mpc (c : Mpc P) (cl : Clients P) : Clients P := {|
cl_Policy := cl_Policy cl; cl_Payment := cl_Payment cl; cl_Kyt := cl_Kyt cl; cl_Mpc := Some c;
cl_Blockchain := cl_Blockchain cl; cl_Ledger := cl_Ledger cl; cl_Audit := cl_Audit cl |}.
Definition set_Ledger (c : Ledger P) (cl : Clients P) : Clients P := {|
cl_Policy := cl_Policy cl; cl_Payment := cl_Payment cl; cl_Kyt := cl_Kyt cl; cl_Mpc := cl_Mpc cl;
cl_Blockchain := cl_Blockchain cl; cl_Ledger := Some c; cl_Audit := cl_Audit cl |}.

(** A dial that succeeded replaces a client; one that failed keeps the stub in
  stub mode and is an error otherwise. *)
Definition dialled {C} (r : result (C * ClientConn)) (set : C -> Clients P -> Clients P)
  (clients : Clients P) (stubMode : bool) : result (option ClientConn) * Clients P :=
match r with
| Ok (c, cc) => (Ok (Some cc), set c clients)
| Err err => (if stubMode then Ok None else Err err, clients)
end.

Definition dialOnePartner (name url : string) (clients : Clients P) (stubMode : bool)
: result (option ClientConn) * Clients P :=
if bool_decide (name = "policy") then
  dialled (NewPolicy Getenv url) set_Policy clients stubMode
else if bool_decide (name = "kyt") then dialled (NewKyt Getenv url) set_Kyt clients stubMode
else if bool_decide (name = "mpc") then dialled (NewMpc Getenv url) set_Mpc clients stubMode
else if bool_decide (name = "ledger") then
  dialled (NewLedger Getenv url) set_Ledger clients stubMode
else (Ok None, clients).

Definition no_url (url : string) : bool := bool_decide (url = "") || bool_decide (url = "stub://").

(** The first loop of [dialPartners]: [false] is [os.Exit]. *)
Fixpoint check_rest_only (l : list (string * string)) (stubMode : bool) : bool :=
match l with
| [] => true
| (_, url) :: l' =>
    if no_url url then check_rest_only l' stubMode
    else if stubMode then check_rest_only l' stubMode
    else false
end.

(** The second loop; [None] is [os.Exit]. *)
Fixpoint dial_all (l : list (string * string)) (conns : list (ClientConn * string))
  (clients : Clients P) (stubMode : bool) : option (list (ClientConn * string) * Clients P) :=
match l with
| [] => Some (conns, clients)
| (name, url) :: l' =>
    if no_url url then
      if stubMode then dial_all l' conns clients stubMode else None
    else match dialOnePartner name url clients stubMode with
         | (Err _, _) => None
         | (Ok None, clients') => dial_all l' conns clients' stubMode
         | (Ok (Some cc), clients') => dial_all l' (conns ++ [(cc, name)]) clients' stubMode
         end
end.

Definition dialPartners (c : config.Config) (clients : Clients P) (stubMode : bool)
: option (list (ClientConn * string) * Clients P) :=
if check_rest_only [("payment", config.c_PaymentURL c); ("blockchain", config.c_BlockchainURL c)]
     stubMode
then dial_all [("policy", config.c_PolicyURL c); ("kyt", config.c_KytURL c);
               ("mpc", config.c_MpcURL c); ("ledger", config.c_LedgerURL c)] [] clients stubMode
else None.

(** ** Laws *)

Lemma dialOnePartner_stub name url clients :
exists cc clients', dialOnePartner name url clients true = (Ok cc, clients').
Proof.
unfold dialOnePartner, dialled. repeat case_bool_decide; [..|by eexists _, _].
- destruct (NewPolicy Getenv url) as [[]|]; by eexists _, _.
- destruct (NewKyt Getenv url) as [[]|]; by eexists _, _.
- destruct (NewMpc Getenv url) as [[]|]; by eexists _, _.
- destruct (NewLedger Getenv url) as [[]|]; by eexists _, _.
Qed.

Lemma dial_all_stub l conns clients :
exists r, dial_all l conns clients true = Some r.
Proof.
revert conns clients. induction l as [|[name url] l IH]; intros conns clients; cbn; [by eexists|].
destruct (no_url url); [apply IH|].
destruct (dialOnePartner_stub name url clients) as ([cc|]&clients'&->); apply IH.
Qed.

(** The clients [dialPartners] never replaces. *)
Definition same_rest (c c' : Clients P) : Prop :=
cl_Payment c' = cl_Payment c /\ cl_Blockchain c' = cl_Blockchain c /\ cl_Audit c' = cl_Audit c.

Lemma dialOnePartner_rest name url clients stubMode r clients' :
dialOnePartner name url clients stubMode = (r, clients') -> same_rest clients clients'.
Proof.
unfold dialOnePartner, dialled. intros Hd.
repeat case_bool_decide; [..|by simplify_eq];
  repeat (case_match; simplify_eq); by split_and!.
Qed.

Lemma dial_all_rest l conns clients stubMode conns' clients' :
dial_all l conns clients stubMode = Some (conns', clients') -> same_rest clients clients'.
Proof.
revert conns clients. induction l as [|[name url] l IH]; intros conns clients; cbn.
{ intros. by simplify_eq. }
destruct (no_url url); [destruct stubMode; [apply IH|done]|].
destruct (dialOnePartner name url clients stubMode) as [[[cc|]|err] c1] eqn:Ed; [..|done];
  intros (Ha&Hb&Hc)%IH; apply dialOnePartner_rest in Ed as (?&?&?);
  split_and!; congruence.
Qed.

Lemma dialPartners_stub (c : config.Config) (clients : Clients P) :
exists r, dialPartners c clients true = Some r.
Proof.
unfold dialPartners. cbn [check_rest_only]. destruct (no_url _), (no_url _); apply dial_all_stub.
Qed.

(** In stub mode the process always starts; otherwise it starts exactly
  when no payment or blockchain URL is configured and the four gRPC partners
  can be dialled, and then these four are the adapters on their connections. *)
Theorem dialPartners_spec (c : config.Config) (clients : Clients P) :
(exists r, dialPartners c clients true = Some r) /\
(dialPartners c clients false <> None <->
 no_url (config.c_PaymentURL c) = true /\ no_url (config.c_BlockchainURL c) = true /\
 Forall (fun url => no_url url = false)
   [config.c_PolicyURL c; config.c_KytURL c; config.c_MpcURL c; config.c_LedgerURL c] /\
 exists p k m l c1 c2 c3 c4,
   NewPolicy Getenv (config.c_PolicyURL c) = Ok (p, c1) /\
   NewKyt Getenv (config.c_KytURL c) = Ok (k, c2) /\
   NewMpc Getenv (config.c_MpcURL c) = Ok (m, c3) /\
   NewLedger Getenv (config.c_LedgerURL c) = Ok (l, c4) /\
   dialPartners c clients false =
     Some ([(c1, "policy"); (c2, "kyt"); (c3, "mpc"); (c4, "ledger")],
           set_Ledger l (set_Mpc m (set_Kyt k (set_Policy p clients))))).
Proof.
split.
- apply dialPartners_stub.
- split; [|by intros (_&_&_&?&?&?&?&?&?&?&?&_&_&_&_&->)].
  unfold dialPartners. cbn [check_rest_only].
  destruct (no_url (config.c_PaymentURL c)); [|done].
  destruct (no_url (config.c_BlockchainURL c)); [|done]. cbn [dial_all].
  unfold dialOnePartner, dialled. cbn -[NewPolicy NewKyt NewMpc NewLedger no_url].
  destruct (no_url (config.c_PolicyURL c)) eqn:E1; [done|].
  destruct (NewPolicy Getenv (config.c_PolicyURL c)) as [[p c1]|] eqn:D1; [|done].
  destruct (no_url (config.c_KytURL c)) eqn:E2; [done|].
  destruct (NewKyt Getenv (config.c_KytURL c)) as [[k c2]|] eqn:D2; [|done].
  destruct (no_url (config.c_MpcURL c)) eqn:E3; [done|].
  destruct (NewMpc Getenv (config.c_MpcURL c)) as [[m c3]|] eqn:D3; [|done].
  destruct (no_url (config.c_LedgerURL c)) eqn:E4; [done|].
  destruct (NewLedger Getenv (config.c_LedgerURL c)) as [[l c4]|] eqn:D4; [|done].
  intros _. split_and!; [done..|by repeat constructor|].
  by exists p, k, m, l, c1, c2, c3, c4.
Qed.

(** Whatever the mode and the URLs, the payment and blockchain clients the
  process runs with are those it started from, the in-memory stubs: in
  production too. *)
Lemma payment_stays_stub (c : config.Config) (clients : Clients P) stubMode conns clients' :
dialPartners c clients stubMode = Some (conns, clients') ->
cl_Payment clients' = cl_Payment clients /\ cl_Blockchain clients' = cl_Blockchain clients.
Proof.
unfold dialPartners. destruct (check_rest_only _ _); [|done].
by intros (?&?&?)%dial_all_rest.
Qed.
End Partners.

(** ** A concrete production environment *)

Definition sample_tls : TLSFiles := {|
  KeyPair := string; CertPool := string;
  LoadX509KeyPair cert key := Ok (cert +:+ key);
  ReadFile f := Ok f;
  CertsFromPEM pem := Some pem |}.

Definition refused {P A} (p : P) : result A * P := (Err (New "unavailable"), p).

Definition sample_conn {P} : @GrpcConn P sample_tls := {|
  ClientConn := string;
  NewClient target _ := Ok target;
  NewPolicyRiskEngineClient _ := {| pb.Evaluate _ p := refused p |};
  NewAmlKytScreeningClient _ := {| pb.Screen _ p := refused p |};
  NewMpcSigningServiceClient _ := {| pb.Sign _ p := refused p |};
  NewLedgerAccountingClient _ := {| pb.PostDoubleEntry _ p := refused p |};
  NewPaymentOrchestrationClient _ :=
    {| pb.Authorize _ p := refused p; pb.Capture _ p := refused p;
       pb.VoidAuthorization _ p := refused p; pb.Refund _ p := refused p |};
  NewBlockchainGatewayClient _ :=
    {| pb.Broadcast _ p := refused p; pb.Status _ p := refused p |} |}.

Definition prod_lookup (k : string) : option string :=
  if bool_decide (k ∈ ["DEV_MODE"; "PAYMENT_URL"; "BLOCKCHAIN_URL"]) then None
  else Some (k +:+ "-value").

Definition prod_config : config.Config := fst (config.Load prod_lookup (fun s => s)).

Lemma payment_stays_stub_witness :
  exists conns clients',
    @dialPartners Stub sample_status sample_tls sample_conn (config.Getenv prod_lookup)
      prod_config (stub_clients DefaultStubConfig) false = Some (conns, clients') /\
    length conns = 4%nat /\
    cl_Payment clients' = cl_Payment (stub_clients DefaultStubConfig) /\
    cl_Blockchain clients' = cl_Blockchain (stub_clients DefaultStubConfig).
Proof.
  eexists _, _. split; [vm_compute; reflexivity|]. split; [reflexivity|].
  apply (@payment_stays_stub Stub sample_status sample_tls sample_conn
    (config.Getenv prod_lookup) prod_config (stub_clients DefaultStubConfig) false
    [("POLICY_URL-value", "policy"); ("KYT_URL-value", "kyt"); ("MPC_URL-value", "mpc");
     ("LEDGER_URL-value", "ledger")]).
  vm_compute. reflexivity.
Defined.
