(* ===== verification/Flags.v ===== *)
(** Command lines as Go's [flag] package parses them: the definitions of a flag
    set, [FlagSet.Parse], and what [flag.ExitOnError] makes of its errors. *)

From S2P Require Import Prelude GoStrings.

Local Open Scope string_scope.

Definition minus := byte 45.
Definition equals := byte 61.

(** The value of a flag: [fs.String] or [fs.Bool]. *)
Inductive FlagValue :=
  | FString (s : string)
  | FBool (b : bool).

(** The flags of a set with their defaults, then with their values. *)
Abbreviation Flags := (gmap string FlagValue).

(** [*fs.String(name, ..)] and [*fs.Bool(name, ..)]. *)
Definition flag_string (fs : Flags) (name : string) : string :=
  match fs !! name with Some (FString s) => s | _ => "" end.
Definition flag_bool (fs : Flags) (name : string) : bool :=
  match fs !! name with Some (FBool b) => b | _ => false end.

Inductive Parsed :=
  | PDone (fs : Flags) (args : list string)
  | PHelp
  | PError.

(** [strconv.ParseBool]. *)
Definition ParseBool (s : string) : option bool :=
  if bool_decide (s ∈ ["1"; "t"; "T"; "TRUE"; "true"; "True"]) then Some true
  else if bool_decide (s ∈ ["0"; "f"; "F"; "FALSE"; "false"; "False"]) then Some false
  else None.

(** [s[numMinuses:]] of an argument that is a flag.  [inl] ends the flags: the
    arguments that are left. *)
Definition flag_text (s : string) (rest : list string) : list string + string :=
  match s with
  | String c (String d s') =>
      if negb (Ascii.eqb c minus) then inl (s :: rest)
      else if Ascii.eqb d minus then
        match s' with EmptyString => inl rest | _ => inr s' end
      else inr (String d s')
  | _ => inl (s :: rest)
  end.

(** A name is not empty and starts with neither ['-'] nor ['=']. *)
Definition bad_syntax (name : string) : bool :=
  match name with
  | EmptyString => true
  | String c _ => Ascii.eqb c minus || Ascii.eqb c equals
  end.

(** [FlagSet.Parse]: one argument per round, two when the flag takes the next
    one as its value. *)
Fixpoint Parse (args : list string) (fs : Flags) : Parsed :=
  match args with
  | [] => PDone fs []
  | s :: rest =>
      match flag_text s rest with
      | inl args' => PDone fs args'
      | inr text =>
          if bad_syntax text then PError
          else
            let '(name, value) := match cut_byte equals text with
                                  | Some (n, v) => (n, Some v)
                                  | None => (text, None)
                                  end in
            match fs !! name with
            | None => if bool_decide (name = "help") || bool_decide (name = "h") then PHelp
                      else PError
            | Some (FBool _) =>
                match value with
                | Some v => match ParseBool v with
                            | Some b => Parse rest (<[name := FBool b]> fs)
                            | None => PError
                            end
                | None => Parse rest (<[name := FBool true]> fs)
                end
            | Some (FString _) =>
                match value, rest with
                | Some v, _ => Parse rest (<[name := FString v]> fs)
                | None, v :: rest' => Parse rest' (<[name := FString v]> fs)
                | None, [] => PError
                end
            end
      end
  end.

(** How a command ends: [os.Exit], or [return err]. *)
Inductive Finish :=
  | Exit (code : Z)
  | Finished (err : option error).

(** [flag.ExitOnError]: help exits with 0, an error with 2. *)
Definition parse_or_exit {W} (args : list string) (fs : Flags) (k : Flags -> Go W Finish)
  : Go W Finish :=
  match Parse args fs with
  | PDone fs' _ => k fs'
  | PHelp => ret (Exit 0)
  | PError => ret (Exit 2)
  end.

(** ** Laws *)

(** A flag name as the program declares them. *)
Definition flag_name (n : string) : Prop :=
  free_of equals n = true /\ match n with EmptyString => False | String c _ => c <> minus end.

#[local] Arguments Ascii.eqb : simpl never.
#[local] Arguments String.append !_ _ : simpl nomatch.

(** The argument [--name]. *)
Lemma flag_text_name n rest :
  flag_name n -> flag_text ("--" +:+ n) rest = inr n /\ bad_syntax n = false.
Proof.
  intros [Hf Hn]. destruct n as [|c n]; [done|]. cbn in Hf |- *.
  apply andb_true_iff in Hf as [Hc%negb_true_iff _].
  change (Ascii.Ascii true false true true false true false false) with minus.
  rewrite Ascii.eqb_refl, Hc. cbn. split; [done|]. by rewrite (proj2 (Ascii.eqb_neq c minus) Hn).
Qed.

(** The three ways to give a flag its value. *)
Lemma Parse_string n d v rest fs :
  flag_name n -> fs !! n = Some (FString d) ->
  Parse (("--" +:+ n) :: v :: rest) fs = Parse rest (<[n := FString v]> fs).
Proof.
  intros Hn Hd. destruct (flag_text_name n (v :: rest) Hn) as [Ht Hb]. cbn [Parse].
  rewrite Ht, Hb, cut_byte_free by apply Hn. by rewrite Hd.
Qed.

Lemma Parse_string_eq n d v rest fs :
  flag_name n -> fs !! n = Some (FString d) ->
  Parse (("--" +:+ n +:+ String equals v) :: rest) fs = Parse rest (<[n := FString v]> fs).
Proof.
  intros Hn Hd. cbn [Parse].
  assert (flag_text ("--" +:+ n +:+ String equals v) rest = inr (n +:+ String equals v) /\
    bad_syntax (n +:+ String equals v) = false) as [-> ->].
  { destruct Hn as [Hf Hn]. destruct n as [|c n]; [done|]. cbn in Hf |- *.
    apply andb_true_iff in Hf as [Hc%negb_true_iff _].
    change (Ascii.Ascii true false true true false true false false) with minus.
    rewrite Ascii.eqb_refl, Hc. cbn. split; [done|]. by rewrite (proj2 (Ascii.eqb_neq c minus) Hn). }
  rewrite cut_byte_app by apply Hn. by rewrite Hd.
Qed.

Lemma Parse_bool n d rest fs :
  flag_name n -> fs !! n = Some (FBool d) ->
  Parse (("--" +:+ n) :: rest) fs = Parse rest (<[n := FBool true]> fs).
Proof.
  intros Hn Hd. destruct (flag_text_name n rest Hn) as [Ht Hb]. cbn [Parse].
  rewrite Ht, Hb, cut_byte_free by apply Hn. by rewrite Hd.
Qed.
