(* ===== verification/Sql.v ===== *)
(** PostgreSQL as [internal/store/pg.go] uses it: the tables of
    [migrations/0001_init.up.sql] with their constraints, the forms of statement
    the queries have, and the server.  The meaning of a statement is a relation
    between the content of the tables before and after; the server is a class
    whose laws are the documented behaviour of a transaction block: a statement
    takes effect or fails, a failed one dooms its transaction, and a commit
    publishes the whole transaction or nothing. *)

From S2P Require Import Prelude StateMachine Store.

Local Open Scope Z_scope.

(** ** Values *)

(** The text form of a [UUID] column: what the server reads and what it writes;
    [u] ranges over 128-bit values. *)
Class UuidText := {
  uuid_parse : string -> option UUID;
  uuid_text : UUID -> string;
}.

Class UuidLaws `{UuidText} := {
  uuid_parse_text u : uuid_parse (uuid_text u) = Some u;
  uuid_text_ne u : uuid_text u <> "";
}.

(** JSON: the text [json.Marshal] writes, what a [JSONB] column keeps of it
    ([None]: the server refuses it), and [json.Unmarshal] into a map. *)
Class Json := {
  JsonText : Type;
  Marshal : Payload -> JsonText;
  jsonb : JsonText -> option JsonText;
  json_len : JsonText -> nat;
  Unmarshal : JsonText -> option Payload;
}.

(** A [TIMESTAMPTZ] keeps microseconds. *)
Definition micros (t : Z) : Z := t / 1000 * 1000.

(** ** The schema

    A column of a Go string type holds that type's values.  The columns no query
    reads ([created_at] and [updated_at] outside [transactions]) are left out;
    the columns that may be null but are only written with a value and read
    without a null ([error], [step], [attempt]) have no null here. *)

Record step_row := {
  s_id : UUID; s_tx_id : UUID; s_step_name : Step; s_status : StepStatus; s_attempt : Z;
  s_started_at : option Z; s_finished_at : option Z; s_error : string;
  s_idempotency_key : string }.

Record saga_row `{Json} := {
  g_id : UUID; g_tx_id : UUID; g_current_step : Step; g_state : State;
  g_lease_owner : option string; g_lease_expires_at : option Z; g_payload : JsonText;
  g_version : Z }.

Record event_row `{Json} := {
  e_id : UUID; e_event_id : UUID; e_tx_id : UUID; e_event_type : string; e_step : string;
  e_attempt : Z; e_payload : JsonText; e_created_at : Z; e_published_at : option Z;
  e_status : OutboxStatus; e_dedup_key : string }.

Section Sql.
Context `{Json}.

(** The tables; a row of [transactions] has the columns of [Transaction]. *)
Inductive table : Type -> Type :=
| transactions : table Transaction
| transaction_steps : table step_row
| saga_state : table saga_row
| outbox_events : table event_row.

Record Db := {
db_transactions : list Transaction;
db_steps : list step_row;
db_sagas : list saga_row;
db_outbox : list event_row;
}.

Definition empty_db : Db :=
{| db_transactions := []; db_steps := []; db_sagas := []; db_outbox := [] |}.

Definition rows {r} (t : table r) (db : Db) : list r :=
match t in table r return list r with
| transactions => db_transactions db
| transaction_steps => db_steps db
| saga_state => db_sagas db
| outbox_events => db_outbox db
end.

Definition set_rows {r} (t : table r) : list r -> Db -> Db :=
match t in table r return list r -> Db -> Db with
| transactions => fun l db => {| db_transactions := l; db_steps := db_steps db;
    db_sagas := db_sagas db; db_outbox := db_outbox db |}
| transaction_steps => fun l db => {| db_transactions := db_transactions db; db_steps := l;
    db_sagas := db_sagas db; db_outbox := db_outbox db |}
| saga_state => fun l db => {| db_transactions := db_transactions db; db_steps := db_steps db;
    db_sagas := l; db_outbox := db_outbox db |}
| outbox_events => fun l db => {| db_transactions := db_transactions db; db_steps := db_steps db;
    db_sagas := db_sagas db; db_outbox := l |}
end.

(** Two rows that a [PRIMARY KEY], [UNIQUE] or [UNIQUE INDEX] keeps apart. *)
Definition clash {r} (t : table r) : r -> r -> bool :=
match t in table r return r -> r -> bool with
| transactions => fun a b =>
    (tx_ID a =? tx_ID b) || bool_decide (tx_TxID a = tx_TxID b)
| transaction_steps => fun a b =>
    (s_id a =? s_id b) ||
    (s_tx_id a =? s_tx_id b) && bool_decide (s_step_name a = s_step_name b) &&
      ((s_attempt a =? s_attempt b) ||
       bool_decide (s_idempotency_key a = s_idempotency_key b))
| saga_state => fun a b => (g_id a =? g_id b) || (g_tx_id a =? g_tx_id b)
| outbox_events => fun a b =>
    (e_id a =? e_id b) || (e_event_id a =? e_event_id b) ||
    bool_decide (e_dedup_key a = e_dedup_key b)
end.

Definition unique_in {r} (t : table r) (row : r) (db : Db) : bool :=
negb (existsb (clash t row) (rows t db)).

(** [tx_id UUID NOT NULL REFERENCES transactions(id)]: the id of a transaction
  the row must refer to. *)
Definition reference {r} (t : table r) : r -> option UUID :=
match t in table r return r -> option UUID with
| transactions => fun _ => None
| transaction_steps => fun row => Some (s_tx_id row)
| saga_state => fun row => Some (g_tx_id row)
| outbox_events => fun _ => None
end.

Definition refers {r} (t : table r) (row : r) (db : Db) : bool :=
match reference t row with
| None => true
| Some u => existsb (fun tx => tx_ID tx =? u) (db_transactions db)
end.

(** ** Statements

    [Update] sets the columns of the rows that satisfy [w], given [now()], and
    answers their number; [skip] is [FOR UPDATE SKIP LOCKED].  [Malformed] is a
    statement with a parameter that is no value of its column's type. *)
Inductive stmt : Type -> Type :=
| Insert {r} (t : table r) (row : r) : stmt unit
| Update {r} (t : table r) (set : Z -> r -> r) (w : r -> bool) : stmt nat
| Select {r} (t : table r) (w : r -> bool) (order : option (r -> r -> bool))
    (limit : option nat) (skip : bool) : stmt (list r)
| Malformed {A} : stmt A.

Definition update_rows {r} (now : Z) (set : Z -> r -> r) (w : r -> bool) (l : list r) : list r :=
map (fun row => if w row then set now row else row) l.

Definition limited {r} (limit : option nat) (l : list r) : list r :=
match limit with Some n => take n l | None => l end.

(** [ORDER BY] sorts by a total order. *)
Definition ordered {r} (order : option (r -> r -> bool)) (l : list r) : Prop :=
match order with
| None => True
| Some leb => (forall a b, leb a b = true \/ leb b a = true) -> Sorted (fun a b => leb a b = true) l
end.

(** What a statement that succeeds answers and leaves. *)
Definition sem {A} (s : stmt A) : Db -> A -> Db -> Prop :=
match s in stmt A return Db -> A -> Db -> Prop with
| Insert t row => fun db _ db' =>
    unique_in t row db = true /\ refers t row db = true /\
    db' = set_rows t (rows t db ++ [row]) db
| Update t set w => fun db n db' =>
    n = length (List.filter w (rows t db)) /\
    exists now, db' = set_rows t (update_rows now set w (rows t db)) db
| Select t w order limit skip => fun db ans db' =>
    db' = db /\ exists l, ans = limited limit l /\ ordered order l /\
      if skip then l ⊆+ List.filter w (rows t db) else l ≡ₚ List.filter w (rows t db)
| Malformed => fun _ _ _ => False
end.

(** ** The server *)

(** An error of pgx: the server's, with its SQLSTATE, or another. *)
Inductive sql_error :=
| PgError (code msg : string)
| OtherError (e : error).

(** A connection pool in state [D]: one transaction block at a time for the
  session that runs a unit of work, and queries outside of one. *)
Class Postgres (D : Type) := {
pg_begin : D -> option error * D;
pg_commit : D -> option error * D;
pg_rollback : D -> D;
pg_exec : forall {A}, stmt A -> D -> (sql_error + A) * D;
pg_query : forall {A}, stmt A -> D -> sql_error + A;
}.

(** A session: what is committed, and what the transaction block made of it;
  an aborted block accepts nothing more. *)
Inductive session :=
| Idle (committed : Db)
| Active (committed current : Db)
| Aborted (committed : Db).

Class PostgresLaws (D : Type) `{Postgres D} := {
session_of : D -> session;
begin_spec d c r d' : session_of d = Idle c -> pg_begin d = (r, d') ->
  session_of d' = match r with None => Active c c | Some _ => Idle c end;
exec_spec A (s : stmt A) d c db r d' : session_of d = Active c db -> pg_exec s d = (r, d') ->
  match r with
  | inr a => exists db', sem s db a db' /\ session_of d' = Active c db'
  | inl _ => session_of d' = Aborted c
  end;
(** Only an insertion that breaks a unique constraint is a unique violation. *)
exec_23505 A (s : stmt A) d c db m d' : session_of d = Active c db ->
  pg_exec s d = (inl (PgError "23505" m), d') ->
  match s with Insert t row => unique_in t row db = false | _ => False end;
exec_aborted A (s : stmt A) d c r d' : session_of d = Aborted c -> pg_exec s d = (r, d') ->
  session_of d' = Aborted c /\ exists e, r = inl e;
(** After a commit that fails the transaction is rolled back, or its outcome is
    not known. *)
commit_spec d c db r d' : session_of d = Active c db -> pg_commit d = (r, d') ->
  match r with
  | None => session_of d' = Idle db
  | Some _ => session_of d' = Idle c \/ session_of d' = Idle db
  end;
commit_aborted d c r d' : session_of d = Aborted c -> pg_commit d = (r, d') ->
  session_of d' = Idle c /\ r <> None;
rollback_active d c db : session_of d = Active c db -> session_of (pg_rollback d) = Idle c;
rollback_aborted d c : session_of d = Aborted c -> session_of (pg_rollback d) = Idle c;
query_spec A (s : stmt A) d db a : session_of d = Idle db -> pg_query s d = inr a ->
  sem s db a db;
}.
End Sql.

(** ** A reference server

    One that fails nothing but what the schema forbids; its clock stands. *)

Section Reference.
Context `{Json}.

Definition run_stmt {A} (now : Z) (s : stmt A) : Db -> sql_error + A * Db :=
match s in stmt A return Db -> sql_error + A * Db with
| Insert t row => fun db =>
    if negb (unique_in t row db) then
      inl (PgError "23505" "duplicate key value violates unique constraint")
    else if negb (refers t row db) then
      inl (PgError "23503" "insert violates foreign key constraint")
    else inr (tt, set_rows t (rows t db ++ [row]) db)
| Update t set w => fun db =>
    inr (length (List.filter w (rows t db)),
         set_rows t (update_rows now set w (rows t db)) db)
| Select t w order limit skip => fun db =>
    let l := List.filter w (rows t db) in
    inr (limited limit (match order with Some leb => sort_by leb l | None => l end), db)
| Malformed => fun _ => inl (PgError "22P02" "invalid input syntax")
end.

Record RefPg := { ref_now : Z; ref_session : session }.

Definition set_session (s : session) (d : RefPg) : RefPg :=
{| ref_now := ref_now d; ref_session := s |}.

#[export] Instance RefPg_Postgres : Postgres RefPg := {
pg_begin d := match ref_session d with
              | Idle c => (None, set_session (Active c c) d)
              | _ => (Some (New "transaction in progress"), d) end;
pg_commit d := match ref_session d with
               | Active _ db => (None, set_session (Idle db) d)
               | Aborted c => (Some (Sentinel "commit unexpectedly resulted in rollback"),
                               set_session (Idle c) d)
               | Idle _ => (Some (Sentinel "tx is closed"), d) end;
pg_rollback d := match ref_session d with
                 | Active c _ | Aborted c => set_session (Idle c) d
                 | Idle _ => d end;
pg_exec _ s d := match ref_session d with
                 | Active c db =>
                     match run_stmt (ref_now d) s db with
                     | inl e => (inl e, set_session (Aborted c) d)
                     | inr (a, db') => (inr a, set_session (Active c db') d)
                     end
                 | Aborted c => (inl (PgError "25P02" "current transaction is aborted"), d)
                 | Idle _ => (inl (OtherError (Sentinel "tx is closed")), d) end;
pg_query _ s d := match ref_session d with
                  | Idle db | Active db _ | Aborted db =>
                      match s with
                      | Select _ _ _ _ _ => match run_stmt (ref_now d) s db with
                                            | inl e => inl e | inr (a, _) => inr a end
                      | _ => inl (OtherError (New "not a query"))
                      end
                  end;
}.

Lemma run_stmt_sem {A} now (s : stmt A) db a db' :
run_stmt now s db = inr (a, db') -> sem s db a db'.
Proof.
destruct s as [r t row|r t set w|r t w order limit skip|]; cbn.
- destruct (unique_in t row db); [|done]. destruct (refers t row db); [|done].
  cbn. by intros [= <- <-].
- intros [= <- <-]. split; [done|]. by exists now.
- intros [= <- <-]. split; [done|]. set (l := List.filter w (rows t db)).
  exists (match order with Some leb => sort_by leb l | None => l end). split; [done|].
  assert ((match order with Some leb => sort_by leb l | None => l end) ≡ₚ l) as Hp
    by (destruct order; [apply sort_by_perm|done]).
  split; [|destruct skip; [by apply Permutation_submseteq|done]].
  destruct order as [leb|]; cbn; [|done]. apply sort_by_sorted.
- done.
Qed.

#[export] Instance RefPg_laws : PostgresLaws RefPg.
Proof.
refine {| session_of := ref_session |}.
- intros d c r d' Hd. cbn. rewrite Hd. by intros [= <- <-].
- intros A s d c db r d' Hd. cbn. rewrite Hd.
  destruct (run_stmt (ref_now d) s db) as [e|[a db']] eqn:E; intros [= <- <-]; [done|].
  exists db'. split; [by eapply run_stmt_sem|done].
- intros A s d c db m d' Hd. cbn. rewrite Hd.
  destruct (run_stmt (ref_now d) s db) as [e|[a db']] eqn:E; intros [= -> <-].
  destruct s; cbn in E; try done.
  destruct (unique_in t row db); [|done]. by destruct (refers t row db).
- intros A s d c r d' Hd. cbn. rewrite Hd. intros [= <- <-]. split; [done|]. by eexists.
- intros d c db r d' Hd. cbn. rewrite Hd. by intros [= <- <-].
- intros d c r d' Hd. cbn. rewrite Hd. by intros [= <- <-].
- intros d c db Hd. cbn. by rewrite Hd.
- intros d c Hd. cbn. by rewrite Hd.
- intros A s d db a Hd. cbn. rewrite Hd. intros Hq. destruct s; try done.
  destruct (run_stmt _ _ db) as [e|[a' db']] eqn:E; [done|]. injection Hq as <-.
  pose proof (run_stmt_sem _ _ _ _ _ E) as Hs. cbn in Hs |- *. by destruct Hs as [_ ?].
Defined.
End Reference.
