(* ===== verification/Migrations.v ===== *)
(** The schema migrations ([internal/migrations/migrations.go]) and the command
    that applies them ([cmd/migrate/main.go]).  The texts embedded by
    [go:embed] and the connection are parameters; file [Sql] has what the tables
    of [0001_init.up.sql] hold. *)

From S2P Require Import Prelude GoStrings Flags.

Local Open Scope Z_scope.
Local Open Scope go_scope.

(** [sort.Strings] and its reverse: the order of the bytes. *)
Definition str_leb (a b : string) : bool := String.leb a b.

Definition sort_Strings (l : list string) : list string := sort_by str_leb l.
Definition sort_Reverse (l : list string) : list string := sort_by (fun a b => str_leb b a) l.

(** [pgxpool]: a pool in state [D] that executes a text. *)
Class Pool (D : Type) := {
  pool_New : string -> D -> option error * D;
  pool_Exec : string -> D -> option error * D;
  pool_Close : D -> D;
}.

Section Migrations.
Context {D : Type} `{Pool D} (initUp initDown : string).

Definition upMigrations : gmap string string := {["0001_init.up.sql" := initUp]}.
Definition downMigrations : gmap string string := {["0001_init.down.sql" := initDown]}.

(** The keys of the map in the order Go ranges over them, then sorted. *)
Definition files_of (m : gmap string string) : list string := map fst (map_to_list m).
Definition upFiles : list string := sort_Strings (files_of upMigrations).
Definition downFiles : list string := sort_Reverse (files_of downMigrations).

(** The loop of [Up] and of [Down]. *)
Fixpoint apply_files (m : gmap string string) (files : list string) : Go D (option error) :=
match files with
| [] => ret None
| f :: files' =>
    match m !! f with
    | None => apply_files m files'
    | Some ddl =>
        let! err := (fun d => let '(e, d') := pool_Exec ddl d in (Returned e, d')) in
        match err with
        | Some err => ret (Some (Wrap ("apply " +:+ f +:+ ": ") err ""))
        | None => apply_files m files'
        end
    end
end.

Definition Up : Go D (option error) := apply_files upMigrations upFiles.
Definition Down : Go D (option error) := apply_files downMigrations downFiles.

(** ** [cmd/migrate] *)

Context `{GoStd} (Getenv : string -> string).

(** [run]: the text it prints, or its error. *)
Definition migrate_run (direction : string) : Go D (result string) :=
let dsn := Getenv "DB_URL" in
if bool_decide (dsn = "") then ret (Err (New "DB_URL is required"))
else
  let! err := (fun d => let '(e, d') := pool_New dsn d in (Returned e, d')) in
  match err with
  | Some err => ret (Err (Wrap "pgxpool.New: " err ""))
  | None =>
      let! r :=
        (if bool_decide (direction = "up") then
           let! err := Up in
           ret (match err with Some err => Err err | None => Ok "migrations applied" end)
         else if bool_decide (direction = "down") then
           let! err := Down in
           ret (match err with Some err => Err err | None => Ok "migrations rolled back" end)
         else ret (Err (New ("unknown direction " +:+ strconv_quote direction +:+
                             " (want up or down)")))) in
      let! _ := modify pool_Close in ret r
  end.

(** [main]: the flag, then the run; [log.Fatalf] exits with 1. *)
Definition migrate_main (args : list string) : Go D Z :=
let! f := parse_or_exit args {["direction" := FString "up"]} (fun fs =>
  let! r := migrate_run (flag_string fs "direction") in
  ret (Finished (err_of r))) in
ret (match f with Exit code => code | Finished None => 0 | Finished (Some _) => 1 end).
End Migrations.
