(* ===== verification/PgStore.v ===== *)
(** The PostgreSQL store ([internal/store/pg.go]): every method of [Store] and
    [TxStore] as the statements it sends to the server of file [Sql]. *)

From S2P Require Import Prelude StateMachine Store Partner Steps Lease Executor Migrations Sql.

Local Open Scope Z_scope.
Local Open Scope go_scope.

(** ** Errors *)

Definition ErrNoRows : error := Sentinel "no rows in result set".

(** The text of a [pgconn.PgError]. *)
Definition sql_err (e : sql_error) : error :=
  match e with
  | PgError code msg => New ("ERROR: " +:+ msg +:+ " (SQLSTATE " +:+ code +:+ ")")
  | OtherError e => e
  end.

Definition mapPgErr (e : sql_error) : error :=
  match e with
  | PgError code _ =>
      if bool_decide (code = "23505") then ErrDuplicate
      else if bool_decide (code ∈ ["40001"; "40P01"]) then ErrConflict
      else sql_err e
  | OtherError e => e
  end.

(** [x.ID == (uuid.UUID{})] and [NewID()]. *)
Definition fresh_id (rt : Runtime) (i : nat) (id : UUID) : UUID :=
  if id =? 0 then rt_uuid rt i else id.

Module Pg.
Section PgStore.
Context `{Json} `{UuidText} {D : Type} {PD : Postgres D}.
(** The collation of the database: [step_name] is ordered by it. *)
Context (collate : string -> string -> bool).

(** ** Encoding *)

(** [json.Unmarshal] fails on an empty text too. *)
Definition decodePayload (b : JsonText) : Payload :=
if (json_len b =? 0)%nat then ∅
else match Unmarshal b with Some m => m | None => ∅ end.

(** [EncodeJSON] (a nil map is an empty one here). *)
Definition EncodeJSON (p : Payload) : JsonText := Marshal p.

Definition tx_row (t : Transaction) : Transaction := {|
tx_ID := tx_ID t; tx_TxID := tx_TxID t; tx_UserID := tx_UserID t; tx_QuoteID := tx_QuoteID t;
tx_Amount := tx_Amount t; tx_Asset := tx_Asset t; tx_Rail := tx_Rail t;
tx_DestAddress := tx_DestAddress t; tx_Status := tx_Status t;
tx_CreatedAt := micros (tx_CreatedAt t); tx_UpdatedAt := micros (tx_UpdatedAt t);
tx_Version := tx_Version t |}.

Definition to_step_row (r : StepRow) (tx : UUID) : step_row := {|
s_id := row_ID r; s_tx_id := tx; s_step_name := row_StepName r; s_status := row_Status r;
s_attempt := row_Attempt r; s_started_at := micros <$> row_StartedAt r;
s_finished_at := micros <$> row_FinishedAt r; s_error := row_Error r;
s_idempotency_key := row_IdempotencyKey r |}.

(** [rows.Scan] into a [StepRow]. *)
Definition scan_step (r : step_row) : StepRow := {|
row_ID := s_id r; row_TxID := uuid_text (s_tx_id r); row_StepName := s_step_name r;
row_Status := s_status r; row_Attempt := s_attempt r; row_StartedAt := s_started_at r;
row_FinishedAt := s_finished_at r; row_Error := s_error r;
row_IdempotencyKey := s_idempotency_key r |}.

Definition to_saga_row (g : SagaState) (tx : UUID) (payload : JsonText) : saga_row := {|
g_id := sg_ID g; g_tx_id := tx; g_current_step := sg_CurrentStep g; g_state := sg_State g;
g_lease_owner := Some (sg_LeaseOwner g); g_lease_expires_at := micros <$> sg_LeaseExpiresAt g;
g_payload := payload; g_version := sg_Version g |}.

Definition scanSaga (r : saga_row) : SagaState := {|
sg_ID := g_id r; sg_TxID := uuid_text (g_tx_id r); sg_CurrentStep := g_current_step r;
sg_State := g_state r; sg_LeaseOwner := default "" (g_lease_owner r);
sg_LeaseExpiresAt := g_lease_expires_at r; sg_Payload := decodePayload (g_payload r);
sg_Version := g_version r |}.

Definition to_event_row (e : OutboxEvent) (id event tx : UUID) (payload : JsonText) : event_row := {|
e_id := id; e_event_id := event; e_tx_id := tx; e_event_type := ev_EventType e;
e_step := ev_Step e; e_attempt := ev_Attempt e; e_payload := payload;
e_created_at := micros (ev_CreatedAt e); e_published_at := None; e_status := ev_Status e;
e_dedup_key := ev_DedupKey e |}.

Definition scanEvent (r : event_row) : OutboxEvent := {|
ev_ID := e_id r; ev_EventID := uuid_text (e_event_id r); ev_TxID := uuid_text (e_tx_id r);
ev_EventType := e_event_type r; ev_Step := e_step r; ev_Attempt := e_attempt r;
ev_Payload := decodePayload (e_payload r); ev_CreatedAt := e_created_at r;
ev_PublishedAt := e_published_at r; ev_Status := e_status r; ev_DedupKey := e_dedup_key r |}.

(** A statement with a [UUID] parameter given as a text, with a [JSONB] one. *)
Definition with_uuid {A} (s : string) (k : UUID -> stmt A) : stmt A :=
match uuid_parse s with Some u => k u | None => Malformed end.
Definition with_json {A} (p : Payload) (k : JsonText -> stmt A) : stmt A :=
match jsonb (EncodeJSON p) with Some t => k t | None => Malformed end.

(** ** The statements of the queries *)

Definition insert_transaction (t : Transaction) : stmt unit := Insert transactions (tx_row t).

Definition insert_step (r : StepRow) : stmt unit :=
with_uuid (row_TxID r) (fun u => Insert transaction_steps (to_step_row r u)).

Definition insert_saga (g : SagaState) : stmt unit :=
with_uuid (sg_TxID g) (fun u => with_json (sg_Payload g) (fun p =>
  Insert saga_state (to_saga_row g u p))).

Definition insert_event (e : OutboxEvent) : stmt unit :=
with_uuid (ev_EventID e) (fun event => with_uuid (ev_TxID e) (fun u =>
  with_json (ev_Payload e) (fun p => Insert outbox_events (to_event_row e (ev_ID e) event u p)))).

(** [tx_id=$1 AND step_name=$6 AND attempt=$7]. *)
Definition step_at (u : UUID) (name : Step) (attempt : Z) (r : step_row) : bool :=
(s_tx_id r =? u) && bool_decide (s_step_name r = name) && (s_attempt r =? attempt).

Definition set_step (row : StepRow) (r : step_row) : step_row := {|
s_id := s_id r; s_tx_id := s_tx_id r; s_step_name := s_step_name r; s_status := row_Status row;
s_attempt := s_attempt r; s_started_at := micros <$> row_StartedAt row;
s_finished_at := micros <$> row_FinishedAt row; s_error := row_Error row;
s_idempotency_key := s_idempotency_key r |}.

Definition update_step (row : StepRow) : stmt nat :=
with_uuid (row_TxID row) (fun u => Update transaction_steps (fun _ => set_step row)
  (step_at u (row_StepName row) (row_Attempt row))).

Definition select_step (txID : string) (step : Step) (attempt : Z) : stmt (list step_row) :=
with_uuid txID (fun u => Select transaction_steps (step_at u step attempt) None None false).

Definition update_status (txID : string) (status : State) (version : Z) : stmt nat :=
Update transactions (fun now t => tx_with_status t status (tx_Version t + 1) now)
  (fun t => bool_decide (tx_TxID t = txID) && (tx_Version t =? version)).

Definition set_saga (g : SagaState) (payload : JsonText) (r : saga_row) : saga_row := {|
g_id := g_id r; g_tx_id := g_tx_id r; g_current_step := sg_CurrentStep g; g_state := sg_State g;
g_lease_owner := Some (sg_LeaseOwner g); g_lease_expires_at := micros <$> sg_LeaseExpiresAt g;
g_payload := payload; g_version := g_version r + 1 |}.

Definition update_saga (g : SagaState) : stmt nat :=
with_uuid (sg_TxID g) (fun u => with_json (sg_Payload g) (fun p =>
  Update saga_state (fun _ => set_saga g p)
    (fun r => (g_tx_id r =? u) && (g_version r =? sg_Version g - 1)))).

Definition select_saga (txID : string) : stmt (list saga_row) :=
with_uuid txID (fun u => Select saga_state (fun r => g_tx_id r =? u) None None false).

Definition set_published (at_ : Z) (r : event_row) : event_row := {|
e_id := e_id r; e_event_id := e_event_id r; e_tx_id := e_tx_id r;
e_event_type := e_event_type r; e_step := e_step r; e_attempt := e_attempt r;
e_payload := e_payload r; e_created_at := e_created_at r;
e_published_at := Some (micros at_); e_status := OutboxPublished;
e_dedup_key := e_dedup_key r |}.

Definition update_published (id : string) (at_ : Z) : stmt nat :=
with_uuid id (fun u => Update outbox_events (fun _ => set_published at_)
  (fun r => e_event_id r =? u)).

Definition set_inflight (r : event_row) : event_row := {|
e_id := e_id r; e_event_id := e_event_id r; e_tx_id := e_tx_id r;
e_event_type := e_event_type r; e_step := e_step r; e_attempt := e_attempt r;
e_payload := e_payload r; e_created_at := e_created_at r;
e_published_at := e_published_at r; e_status := OutboxInflight;
e_dedup_key := e_dedup_key r |}.

Definition update_inflight (id : string) : stmt nat :=
with_uuid id (fun u => Update outbox_events (fun _ => set_inflight) (fun r => e_event_id r =? u)).

Definition pending (r : event_row) : bool := bool_decide (e_status r = OutboxPending).
Definition by_created (a b : event_row) : bool := e_created_at a <=? e_created_at b.

Definition select_pending (limit : nat) (skip : bool) : stmt (list event_row) :=
Select outbox_events pending (Some by_created) (Some limit) skip.

(** [ORDER BY attempt, step_name]. *)
Definition by_attempt (a b : step_row) : bool :=
(s_attempt a <? s_attempt b) ||
(s_attempt a =? s_attempt b) && collate (Step_string (s_step_name a)) (Step_string (s_step_name b)).

(** ** [pgTxStore] *)

(** [m.tx.Exec] with its error as [mapPgErr] gives it, and as it is. *)
Definition exec_mapped {A} (s : stmt A) : Tx D A := fun d =>
match pg_exec s d with (inr a, d') => (Ok a, d') | (inl e, d') => (Err (mapPgErr e), d') end.
Definition exec_raw {A} (s : stmt A) : Tx D A := fun d =>
match pg_exec s d with (inr a, d') => (Ok a, d') | (inl e, d') => (Err (sql_err e), d') end.

Fixpoint insert_steps (rt : Runtime) (i : nat) (steps : list StepRow) : Tx D unit :=
(match steps with
 | [] => tx_ret tt
 | r :: steps' =>
     let? _ := exec_mapped (insert_step (row_with_ID r (fresh_id rt i (row_ID r)))) in
     insert_steps rt (S i) steps'
 end)%tx.

Definition ev_with_EventID (e : OutboxEvent) (id : string) : OutboxEvent := {|
ev_ID := ev_ID e; ev_EventID := id; ev_TxID := ev_TxID e; ev_EventType := ev_EventType e;
ev_Step := ev_Step e; ev_Attempt := ev_Attempt e; ev_Payload := ev_Payload e;
ev_CreatedAt := ev_CreatedAt e; ev_PublishedAt := ev_PublishedAt e; ev_Status := ev_Status e;
ev_DedupKey := ev_DedupKey e |}.

(** The fresh ids of an event. *)
Definition identified (rt : Runtime) (i : nat) (e : OutboxEvent) : OutboxEvent :=
let e := ev_with_ID e (fresh_id rt i (ev_ID e)) in
if bool_decide (ev_EventID e = "") then ev_with_EventID e (rt_uuid_string rt i) else e.

Fixpoint insert_events (rt : Runtime) (i : nat) (events : list OutboxEvent) : Tx D unit :=
(match events with
 | [] => tx_ret tt
 | e :: events' =>
     let? _ := exec_mapped (insert_event (identified rt i e)) in
     insert_events rt (S i) events'
 end)%tx.

Definition AppendOutbox (rt : Runtime) (events : list OutboxEvent) : Tx D unit :=
insert_events rt 0 events.

Definition CreateTx (rt : Runtime) (t : Transaction) (steps : list StepRow) (saga : SagaState)
  (events : list OutboxEvent) : Tx D unit :=
(let? _ := exec_mapped (insert_transaction (tx_with_ID t (fresh_id rt 0 (tx_ID t)))) in
 let? _ := insert_steps rt 1 steps in
 let? _ := exec_mapped (insert_saga (sg_with_ID saga (fresh_id rt (1 + length steps) (sg_ID saga)))) in
 insert_events rt (2 + length steps) events)%tx.

Definition InsertStep (rt : Runtime) (row : StepRow) : Tx D unit :=
exec_mapped (insert_step (row_with_ID row (fresh_id rt 0 (row_ID row)))).

Definition UpdateStep (row : StepRow) : Tx D unit :=
(let? n := exec_mapped (update_step row) in
 if (n =? 0)%nat then tx_fail ErrNotFound else tx_ret tt)%tx.

(** [QueryRow]: the first row, [pgx.ErrNoRows] when there is none. *)
Definition LoadStep (txID : string) (step : Step) (attempt : Z) : Tx D StepRow :=
(let? l := exec_raw (select_step txID step attempt) in
 match l with
 | r :: _ => tx_ret (scan_step r)
 | [] => tx_fail ErrNotFound
 end)%tx.

Definition UpdateTransactionStatus (txID : string) (status : State) (version : Z) : Tx D unit :=
(let? n := exec_mapped (update_status txID status version) in
 if (n =? 0)%nat then tx_fail ErrConflict else tx_ret tt)%tx.

Definition SaveSagaState (saga : SagaState) : Tx D unit :=
(let? n := exec_mapped (update_saga saga) in
 if (n =? 0)%nat then tx_fail ErrConflict else tx_ret tt)%tx.

Definition TxLoadSagaState (txID : string) : Tx D SagaState :=
(let? l := exec_raw (select_saga txID) in
 match l with
 | r :: _ => tx_ret (scanSaga r)
 | [] => tx_fail ErrNotFound
 end)%tx.

Fixpoint MarkOutboxPublished (eventIDs : list string) (at_ : Z) : Tx D unit :=
(match eventIDs with
 | [] => tx_ret tt
 | id :: ids =>
     let? _ := exec_mapped (update_published id at_) in MarkOutboxPublished ids at_
 end)%tx.

Fixpoint mark_inflight (events : list OutboxEvent) : Tx D unit :=
(match events with
 | [] => tx_ret tt
 | e :: events' =>
     let? _ := exec_mapped (update_inflight (ev_EventID e)) in mark_inflight events'
 end)%tx.

Definition ClaimOutboxPending (limit : nat) : Tx D (list OutboxEvent) :=
(let? l := exec_raw (select_pending limit true) in
 let out := map scanEvent l in
 let? _ := mark_inflight out in
 tx_ret out)%tx.

(** ** [PgStore] *)

Definition RunInTx {A} (fn : Tx D A) : D -> result A * D := fun d =>
match pg_begin d with
| (Some err, d') => (Err err, d')
| (None, d') =>
    match fn d' with
    | (Err err, d'') => (Err err, pg_rollback d'')
    | (Ok a, d'') =>
        match pg_commit d'' with
        | (Some err, d3) => (Err err, d3)
        | (None, d3) => (Ok a, d3)
        end
    end
end.

Definition query {A} (s : stmt A) (d : D) : result A :=
match pg_query s d with inr a => Ok a | inl e => Err (sql_err e) end.

Definition select_tx (txID : string) : stmt (list Transaction) :=
Select transactions (fun t => bool_decide (tx_TxID t = txID)) None None false.

Definition LoadTx (txID : string) (d : D) : result Transaction :=
match query (select_tx txID) d with
| Ok (t :: _) => Ok t
| Ok [] => Err ErrNotFound
| Err e => Err e
end.

Definition LoadSagaState (txID : string) (d : D) : result SagaState :=
match query (select_saga txID) d with
| Ok (r :: _) => Ok (scanSaga r)
| Ok [] => Err ErrNotFound
| Err e => Err e
end.

Definition select_steps (txID : string) : stmt (list step_row) :=
with_uuid txID (fun u =>
  Select transaction_steps (fun r => s_tx_id r =? u) (Some by_attempt) None false).

Definition ListSteps (txID : string) (d : D) : result (list StepRow) :=
match query (select_steps txID) d with Ok l => Ok (map scan_step l) | Err e => Err e end.

Definition ListOutboxPending (limit : nat) (d : D) : result (list OutboxEvent) :=
match query (select_pending limit false) d with
| Ok l => Ok (map scanEvent l) | Err e => Err e
end.

Definition inflight (r : saga_row) : bool :=
bool_decide (State_string (g_state r) ∉ ["COMPLETED"; "FAILED_COMPENSATED"; "FAILED"]).

Definition ListInflightSagaIDs (d : D) : result (list string) :=
match query (Select saga_state inflight None None false) d with
| Ok l => Ok (map (fun r => uuid_text (g_tx_id r)) l) | Err e => Err e
end.

#[export] Instance PgStore_Store : Store D := {
Store.LoadTx := LoadTx;
Store.LoadSagaState := LoadSagaState;
Store.ListSteps := ListSteps;
Store.ListOutboxPending := ListOutboxPending;
Store.ListInflightSagaIDs := ListInflightSagaIDs;
Store.RunInTx := @RunInTx;
Store.CreateTx := CreateTx;
Store.InsertStep := InsertStep;
Store.UpdateStep := UpdateStep;
Store.LoadStep := LoadStep;
Store.UpdateTransactionStatus _ := UpdateTransactionStatus;
Store.SaveSagaState := SaveSagaState;
Store.TxLoadSagaState := TxLoadSagaState;
Store.AppendOutbox := AppendOutbox;
Store.MarkOutboxPublished := MarkOutboxPublished;
Store.ClaimOutboxPending := ClaimOutboxPending;
}.
End PgStore.

(** ** [NewPgStore]

    The loop until the migrations apply or the deadline passes; [fuel] bounds
    its rounds, half a second apart. *)
Section NewPgStore.
Context {D : Type} `{Pool D} (initUp : string) (env : nat -> Runtime) (dsn : string).

Definition init_error (err : error) : result unit := Err (Wrap "pgstore init: " err "").

(** [pgxpool.New], then the migrations; a pool that cannot be migrated is
  closed. *)
Definition connect : Go D (option error) :=
let! err := (fun d => let '(e, d') := pool_New dsn d in (Returned e, d')) in
match err with
| Some err => ret (Some err)
| None =>
    let! err := Up initUp in
    match err with
    | Some err => let! _ := modify pool_Close in ret (Some err)
    | None => ret None
    end
end.

(** The rounds from reading [k] of the runtime on: [deadline.Err()], then the
  wait for half a second or the deadline. *)
Fixpoint connect_loop (fuel k : nat) : Go D (result unit) :=
match fuel with
| O => diverge
| S fuel' =>
    let! err := connect in
    match err with
    | None => ret (Ok tt)
    | Some err =>
        match rt_ctx (env k), rt_ctx (env (S k)) with
        | None, None => connect_loop fuel' (S (S k))
        | _, _ => ret (init_error err)
        end
    end
end.

Definition NewPgStore (fuel : nat) : Go D (result unit) := connect_loop fuel 0.
End NewPgStore.
End Pg.
