(* ===== verification/PgSim.v ===== *)
(** PostgreSQL against the in-memory store: what it means that tables represent
    a [MemStore], the simulation between units of work on the two, closed under
    the ways the program composes them, and what it gives for [RunInTx]. *)

From S2P Require Import Prelude StateMachine Store Partner Steps Lease Executor Sql PgStore.

Local Open Scope Z_scope.

(** Payloads that come back from a [JSONB] column as they were: their texts are
    valid and they hold no number. *)
Class JsonLaws `{Json} := {
  storable : Payload -> Prop;
  json_roundtrip p t : storable p -> jsonb (Marshal p) = Some t ->
    json_len t <> 0%nat /\ Unmarshal t = Some p;
}.

(** ** Records up to what the server does not keep

    Surrogate ids are drawn by each store, times keep microseconds, and
    [updated_at] is the server's clock. *)

Definition same_time (a b : option Z) : Prop := micros <$> a = micros <$> b.

Record same_tx (t t' : Transaction) : Prop := {
  st_TxID : tx_TxID t = tx_TxID t'; st_UserID : tx_UserID t = tx_UserID t';
  st_QuoteID : tx_QuoteID t = tx_QuoteID t'; st_Amount : tx_Amount t = tx_Amount t';
  st_Asset : tx_Asset t = tx_Asset t'; st_Rail : tx_Rail t = tx_Rail t';
  st_Dest : tx_DestAddress t = tx_DestAddress t'; st_Status : tx_Status t = tx_Status t';
  st_Created : micros (tx_CreatedAt t) = micros (tx_CreatedAt t');
  st_Version : tx_Version t = tx_Version t' }.

Record same_row (r r' : StepRow) : Prop := {
  sr_TxID : row_TxID r = row_TxID r'; sr_Name : row_StepName r = row_StepName r';
  sr_Status : row_Status r = row_Status r'; sr_Attempt : row_Attempt r = row_Attempt r';
  sr_Started : same_time (row_StartedAt r) (row_StartedAt r');
  sr_Finished : same_time (row_FinishedAt r) (row_FinishedAt r');
  sr_Error : row_Error r = row_Error r';
  sr_Key : row_IdempotencyKey r = row_IdempotencyKey r' }.

Lemma micros_idem t : micros (micros t) = micros t.
Proof. unfold micros. by rewrite Z.div_mul. Qed.

Lemma same_time_micros a b : same_time a b -> same_time (micros <$> a) b.
Proof.
  unfold same_time. intros <-. destruct a as [x|]; cbn; [|done]. by rewrite micros_idem.
Qed.

Section Sim.
Context `{GoStd} `{JsonLaws} `{UuidLaws} {D : Type} {PD : Postgres D} {PL : PostgresLaws D}.
Context (collate : string -> string -> bool).

Record same_saga (g g' : SagaState) : Prop := {
sg_same_TxID : sg_TxID g = sg_TxID g'; sg_same_Step : sg_CurrentStep g = sg_CurrentStep g';
sg_same_State : sg_State g = sg_State g'; sg_same_Owner : sg_LeaseOwner g = sg_LeaseOwner g';
sg_same_Expires : same_time (sg_LeaseExpiresAt g) (sg_LeaseExpiresAt g');
sg_same_Payload : storable (sg_Payload g') -> sg_Payload g = sg_Payload g';
sg_same_Version : sg_Version g = sg_Version g' }.

Record same_event (e e' : OutboxEvent) : Prop := {
se_EventID : ev_EventID e = ev_EventID e'; se_TxID : ev_TxID e = ev_TxID e';
se_Type : ev_EventType e = ev_EventType e'; se_Step : ev_Step e = ev_Step e';
se_Attempt : ev_Attempt e = ev_Attempt e';
se_Payload : storable (ev_Payload e') -> ev_Payload e = ev_Payload e';
se_Created : micros (ev_CreatedAt e) = micros (ev_CreatedAt e');
se_Published : same_time (ev_PublishedAt e) (ev_PublishedAt e');
se_Status : ev_Status e = ev_Status e'; se_Dedup : ev_DedupKey e = ev_DedupKey e' }.

(** ** The representation *)

(** Every step row carries the key of its attempt. *)
Definition keyed (r : StepRow) : Prop :=
row_IdempotencyKey r = IdempotencyKey (row_TxID r) (row_StepName r) (row_Attempt r).

Definition steps_of (db : Db) (u : UUID) : list step_row :=
List.filter (fun r => s_tx_id r =? u) (db_steps db).

Definition step_key (r : step_row) : UUID * Step * Z := (s_tx_id r, s_step_name r, s_attempt r).

Record represents (db : Db) (m : MemStore) : Prop := {
rep_txs id : option_Forall2 same_tx
  (find_first (fun t => bool_decide (tx_TxID t = id)) (db_transactions db)) (mem_txs m !! id);
rep_steps u : Forall2 (fun s r => same_row (Pg.scan_step s) r) (steps_of db u)
  (rows_of m (uuid_text u));
rep_sagas u : option_Forall2 (fun g => same_saga (Pg.scanSaga g))
  (find_first (fun g => g_tx_id g =? u) (db_sagas db)) (mem_sagas m !! uuid_text u);
rep_outbox : Forall2 (fun e => same_event (Pg.scanEvent e)) (db_outbox db) (mem_outbox m);
rep_tx_ids : NoDup (map tx_TxID (db_transactions db));
rep_step_keys : NoDup (map step_key (db_steps db));
rep_saga_ids : NoDup (map g_tx_id (db_sagas db));
rep_event_ids : NoDup (map e_event_id (db_outbox db));
rep_keyed : Forall (fun s => keyed (Pg.scan_step s)) (db_steps db);
rep_refers : Forall (fun s => exists t, t ∈ db_transactions db /\ tx_ID t = s_tx_id s) (db_steps db);
}.

(** ** Simulation *)

(** Once its transaction is aborted, a unit of work changes nothing. *)
Definition stays {A} (f : Tx D A) : Prop :=
forall c d, session_of d = Aborted c -> session_of (snd (f d)) = Aborted c.

(** From related states the two units end in related states with results
  related by [R], or errors by [E], unless PostgreSQL aborted the
  transaction. *)
Definition sim {A A'} (R : A -> A' -> Prop) (E : error -> error -> Prop) (f : Tx D A)
  (g : Tx MemStore A') : Prop :=
forall c d db m, session_of d = Active c db -> represents db m ->
  let '(r, d') := f d in
  session_of d' = Aborted c \/
  exists db', session_of d' = Active c db' /\ represents db' (snd (g m)) /\
    match r, fst (g m) with
    | Ok a, Ok a' => R a a'
    | Err e, Err e' => E e e'
    | _, _ => False
    end.

Lemma stays_ret {A} (a : A) : stays (tx_ret a).
Proof. by intros c d. Qed.

Lemma stays_fail {A} e : stays (@tx_fail D A e).
Proof. by intros c d. Qed.

Lemma stays_bind {A B} (f : Tx D A) (k : A -> Tx D B) :
stays f -> (forall a, stays (k a)) -> stays (tx_bind f k).
Proof.
intros Hf Hk c d Hd. unfold tx_bind. specialize (Hf c d Hd). destruct (f d) as [[a|e] d'];
  [by apply Hk|done].
Qed.

Lemma stays_try {A B} (f : Tx D A) (k : result A -> Tx D B) :
stays f -> (forall r, stays (k r)) -> stays (tx_try f k).
Proof.
intros Hf Hk c d Hd. unfold tx_try. specialize (Hf c d Hd). destruct (f d) as [r d']. by apply Hk.
Qed.

Lemma stays_mapped {A} (s : stmt A) : stays (Pg.exec_mapped s).
Proof.
intros c d Hd. unfold Pg.exec_mapped. destruct (pg_exec s d) as [r d'] eqn:E.
destruct (exec_aborted _ s d c r d' Hd E) as [? [e ->]]. done.
Qed.

Lemma stays_raw {A} (s : stmt A) : stays (Pg.exec_raw s).
Proof.
intros c d Hd. unfold Pg.exec_raw. destruct (pg_exec s d) as [r d'] eqn:E.
destruct (exec_aborted _ s d c r d' Hd E) as [? [e ->]]. done.
Qed.

Lemma sim_ret {A A'} (R : A -> A' -> Prop) E a a' : R a a' -> sim R E (tx_ret a) (tx_ret a').
Proof. intros Ha c d db m Hd Hr. cbn. right. by exists db. Qed.

Lemma sim_fail {A A'} (R : A -> A' -> Prop) (E : error -> error -> Prop) e e' :
E e e' -> sim R E (tx_fail e) (tx_fail e').
Proof. intros He c d db m Hd Hr. cbn. right. by exists db. Qed.

Lemma sim_weaken {A A'} (R : A -> A' -> Prop) (E E' : error -> error -> Prop) f g :
(forall e e', E e e' -> E' e e') -> sim R E f g -> sim R E' f g.
Proof.
intros HE Hs c d db m Hd Hr. specialize (Hs c d db m Hd Hr). destruct (f d) as [r d'].
destruct Hs as [|(db'&?&?&Hm)]; [by left|]. right. exists db'. split_and!; [done..|].
destruct r, (fst (g m)); try done. by apply HE.
Qed.

Lemma sim_bind {A A' B B'} (R : A -> A' -> Prop) (R' : B -> B' -> Prop) E f g k k' :
sim R E f g -> (forall a a', R a a' -> sim R' E (k a) (k' a')) -> (forall a, stays (k a)) ->
sim R' E (tx_bind f k) (tx_bind g k').
Proof.
intros Hf Hk Hst c d db m Hd Hr. unfold tx_bind. specialize (Hf c d db m Hd Hr).
destruct (f d) as [[a|e] d1], (g m) as [[a'|e'] m1]; cbn in Hf |- *.
- destruct Hf as [Hf|(db1&Hd1&Hr1&Ha)].
  + specialize (Hst a c d1 Hf). destruct (k a d1) eqn:E1. by left.
  + apply (Hk a a' Ha c d1 db1 m1 Hd1 Hr1).
- destruct Hf as [Hf|(?&?&?&[])]. specialize (Hst a c d1 Hf).
  destruct (k a d1) eqn:E1. by left.
- destruct Hf as [Hf|(?&?&?&[])]. by left.
- destruct Hf as [Hf|(db1&Hd1&Hr1&He)]; [by left|]. right. by exists db1.
Qed.

Lemma sim_try {A A' B B'} (R : A -> A' -> Prop) (R' : B -> B' -> Prop) E E' f g k k' :
sim R E f g ->
(forall a a', R a a' -> sim R' E' (k (Ok a)) (k' (Ok a'))) ->
(forall e e', E e e' -> sim R' E' (k (Err e)) (k' (Err e'))) ->
(forall r, stays (k r)) -> sim R' E' (tx_try f k) (tx_try g k').
Proof.
intros Hf Hok Herr Hst c d db m Hd Hr. unfold tx_try. specialize (Hf c d db m Hd Hr).
destruct (f d) as [r d1], (g m) as [r' m1]; cbn in Hf |- *.
destruct Hf as [Hf|(db1&Hd1&Hr1&Ha)].
- specialize (Hst r c d1 Hf). destruct (k r d1) eqn:E1. by left.
- destruct r as [a|e], r' as [a'|e']; try done.
  + apply (Hok a a' Ha c d1 db1 m1 Hd1 Hr1).
  + apply (Herr e e' Ha c d1 db1 m1 Hd1 Hr1).
Qed.

(** An operation whose outcome is ignored. *)
Lemma sim_ignore {A A' B B'} (R : A -> A' -> Prop) (R' : B -> B' -> Prop) E E' f g k k' :
sim R E f g -> sim R' E' k k' -> stays k ->
sim R' E' (tx_try f (fun _ => k)) (tx_try g (fun _ => k')).
Proof. intros Hf Hk Hst. by apply (sim_try R R' E E'). Qed.

(** A statement of the server: aborted, or its meaning. *)
Lemma exec_mapped_spec {A} (s : stmt A) c d db r d' :
session_of d = Active c db -> Pg.exec_mapped s d = (r, d') ->
(exists e, r = Err e /\ session_of d' = Aborted c) \/
(exists a db', r = Ok a /\ sem s db a db' /\ session_of d' = Active c db').
Proof.
intros Hd. unfold Pg.exec_mapped. destruct (pg_exec s d) as [x d1] eqn:E.
pose proof (exec_spec _ s d c db x d1 Hd E) as Hx.
destruct x as [e|a]; intros [= <- <-]; [left|right]; [by eexists|].
destruct Hx as (db'&?&?). by exists a, db'.
Qed.

Lemma exec_raw_spec {A} (s : stmt A) c d db r d' :
session_of d = Active c db -> Pg.exec_raw s d = (r, d') ->
(exists e, r = Err e /\ session_of d' = Aborted c) \/
(exists a db', r = Ok a /\ sem s db a db' /\ session_of d' = Active c db').
Proof.
intros Hd. unfold Pg.exec_raw. destruct (pg_exec s d) as [x d1] eqn:E.
pose proof (exec_spec _ s d c db x d1 Hd E) as Hx.
destruct x as [e|a]; intros [= <- <-]; [left|right]; [by eexists|].
destruct Hx as (db'&?&?). by exists a, db'.
Qed.

(** ** Whole units of work *)

(** A unit that commits did on PostgreSQL what it does in memory; one that fails
  left the tables as they were, or its commit was not acknowledged. *)
Lemma RunInTx_sim {A A'} (R : A -> A' -> Prop) E (f : Tx D A) (g : Tx MemStore A') d c m :
sim R E f g -> session_of d = Idle c -> represents c m ->
let '(r, d') := Pg.RunInTx f d in
let '(r', m') := Mem.RunInTx g m in
match r with
| Ok a => exists a' db', r' = Ok a' /\ R a a' /\ session_of d' = Idle db' /\ represents db' m'
| Err _ => session_of d' = Idle c \/
    exists a' db', r' = Ok a' /\ session_of d' = Idle db' /\ represents db' m'
end.
Proof.
intros Hs Hd Hr. unfold Pg.RunInTx, Mem.RunInTx.
destruct (pg_begin d) as [[err|] d1] eqn:Eb; pose proof (begin_spec d c _ d1 Hd Eb) as Hd1; cbn in Hd1.
{ destruct (g m) as [[|] ?]; cbn; by left. }
specialize (Hs c d1 c m Hd1 Hr). destruct (f d1) as [r d2], (g m) as [r' m'].
cbn in Hs. destruct Hs as [Hab|(db'&Hact&Hrep&Hres)].
- destruct r as [a|e].
  + destruct (pg_commit d2) as [o d3] eqn:Ec. destruct (commit_aborted d2 c o d3 Hab Ec) as [Hd3 Ho].
    destruct o; [|done]. destruct r'; cbn; by left.
  + destruct r'; cbn; left; by apply rollback_aborted.
- destruct r as [a|e], r' as [a'|e']; cbn; try done.
  + destruct (pg_commit d2) as [o d3] eqn:Ec.
    pose proof (commit_spec d2 c db' o d3 Hact Ec) as Hd3.
    destruct o as [err|]; cbn.
    * destruct Hd3 as [Hd3|Hd3]; [by left|right]. by exists a', db'.
    * by exists a', db'.
  + left. by eapply rollback_active.
Qed.
End Sim.

#[export] Hint Resolve stays_ret stays_fail stays_bind stays_try stays_mapped stays_raw : orch.
