(* ===== verification/PgTables.v ===== *)
(** The effect of single statements on tables that represent a [MemStore]. *)

From S2P Require Import Prelude StateMachine Store Partner Steps Lease Executor Sql PgStore PgSim.

Local Open Scope Z_scope.

(** ** Lists searched and updated by key *)

Section Keys.
Context {A : Type}.
Implicit Types (p q w : A -> bool) (f : A -> A) (l : list A).

(** An update that does not change what the search looks at. *)
Lemma find_first_map p f l : (forall x, p (f x) = p x) ->
find_first p (map f l) = f <$> find_first p l.
Proof. intros Hp. induction l as [|x l IH]; cbn; [done|]. rewrite Hp. by destruct (p x). Qed.

Lemma filter_map_inv p f l : (forall x, p (f x) = p x) ->
List.filter p (map f l) = map f (List.filter p l).
Proof.
intros Hp. induction l as [|x l IH]; cbn; [done|]. rewrite Hp. destruct (p x); cbn; by rewrite IH.
Qed.

Lemma filter_and p q l : List.filter (fun x => p x && q x) l = List.filter q (List.filter p l).
Proof.
induction l as [|x l IH]; cbn; [done|]. destruct (p x); cbn; [|done]. destruct (q x); by rewrite IH.
Qed.

(** A unique key selects at most one row. *)
Lemma filter_key {K} (key : A -> K) p l k :
(forall x, p x = true <-> key x = k) -> NoDup (map key l) ->
List.filter p l = match find_first p l with Some x => [x] | None => [] end.
Proof.
intros Hp. induction l as [|x l IH]; cbn; [done|]. intros [Hx Hl]%NoDup_cons.
destruct (p x) eqn:E; [|by apply IH]. f_equal. rewrite (IH Hl).
destruct (find_first p l) as [y|] eqn:Ey; [|done].
apply find_first_Some in Ey as [Hin Hy]. destruct Hx.
apply Hp in E as ->. apply Hp in Hy as <-. by apply list_elem_of_fmap_2.
Qed.

(** An update of no row. *)
Lemma map_if_none w f l : List.filter w l = [] -> map (fun x => if w x then f x else x) l = l.
Proof.
induction l as [|x l IH]; cbn; [done|]. destruct (w x); [done|]. intros Hl. by rewrite (IH Hl).
Qed.

Lemma map_if_keys {K} (key : A -> K) w f l :
(forall x, key (f x) = key x) -> map key (map (fun x => if w x then f x else x) l) = map key l.
Proof. intros Hk. rewrite map_map. apply map_ext. intros x. by destruct (w x). Qed.

Lemma map_update_keys {K} (key : A -> K) (set : Z -> A -> A) now w l :
(forall x, key (set now x) = key x) -> map key (update_rows now set w l) = map key l.
Proof. intros Hk. by apply map_if_keys. Qed.

Lemma find_first_snoc p l x :
find_first p (l ++ [x]) = match find_first p l with Some y => Some y
                          | None => if p x then Some x else None end.
Proof. exact (find_first_app p l [x]). Qed.

Lemma NoDup_snoc_key {K} (key : A -> K) l x :
NoDup (map key l) -> (forall y, y ∈ l -> key y <> key x) -> NoDup (map key (l ++ [x])).
Proof.
intros Hl Hx. rewrite map_app. apply NoDup_app. split_and!; [done| |apply NoDup_singleton].
intros k (y&->&Hy)%list_elem_of_fmap Hk%list_elem_of_singleton. by apply (Hx y Hy).
Qed.

(** No stored row clashes with a new one. *)
Lemma existsb_free (c : A -> A -> bool) x l :
existsb (c x) l = false -> forall y, y ∈ l -> c x y = false.
Proof.
intros He y Hy. destruct (c x y) eqn:E; [|done]. rewrite <- He. symmetry. apply existsb_exists.
exists y. split; [by apply list_elem_of_In|done].
Qed.
End Keys.

(** ** A table with a unique key against a map *)

Section Keyed.
Context {A B K J : Type} `{EqDecision K} `{Countable J}.
Context (key : A -> K) (at_ : K -> A -> bool) (at_spec : forall k x, at_ k x = true <-> key x = k).
Context (R : A -> B -> Prop) (emb : K -> J) (emb_inj : Inj (=) (=) emb).

(** The row of a key and the value under it in the map go together. *)
Definition mirrors (l : list A) (sm : gmap J B) : Prop :=
forall k, option_Forall2 R (find_first (at_ k) l) (sm !! emb k).

Lemma keyed_snoc l sm x b :
mirrors l sm -> find_first (at_ (key x)) l = None -> R x b ->
mirrors (l ++ [x]) (<[emb (key x) := b]> sm).
Proof.
intros Hm Hn Hx k. rewrite find_first_snoc. destruct (decide (k = key x)) as [->|Hk].
- rewrite Hn, (proj2 (at_spec _ _)), lookup_insert_eq by done. by constructor.
- rewrite lookup_insert_ne by (intros E; by apply emb_inj in E). specialize (Hm k).
  destruct (find_first (at_ k) l); [exact Hm|]. destruct (at_ k x) eqn:E; [|exact Hm].
  apply at_spec in E. by destruct Hk.
Qed.

(** An update of the row of [k], where [q] holds of it. *)
Context (k : K) (q : A -> bool) (set : A -> A) (set_key : forall x, key (set x) = key x).
Local Abbreviation w := (fun x => at_ k x && q x).
Local Abbreviation f := (fun x => if w x then set x else x).

Lemma keyed_find l k' : find_first (at_ k') (map f l) = f <$> find_first (at_ k') l.
Proof.
apply find_first_map. intros x. apply Bool.eq_iff_eq_true. rewrite !at_spec.
by destruct (w x); rewrite ?set_key.
Qed.

Lemma keyed_count l : NoDup (map key l) ->
length (List.filter w l) =
match find_first (at_ k) l with Some x => if q x then 1%nat else 0%nat | None => 0%nat end.
Proof.
intros Hl. rewrite filter_and, (filter_key key (at_ k) l k (at_spec k) Hl).
destruct (find_first (at_ k) l) as [x|]; [|done]. cbn. by destruct (q x).
Qed.

(** The same update on the map, where [q'] holds of the value. *)
Lemma keyed_update l (sm : gmap J B) (q' : B -> bool) (upd : B -> B) :
NoDup (map key l) -> mirrors l sm ->
(forall x b, R x b -> q x = q' b) -> (forall x b, at_ k x = true -> q x = true -> R x b -> R (set x) (upd b)) ->
match sm !! emb k with
| Some b => if q' b then length (List.filter w l) <> 0%nat /\ mirrors (map f l) (<[emb k := upd b]> sm)
            else length (List.filter w l) = 0%nat /\ mirrors (map f l) sm
| None => length (List.filter w l) = 0%nat /\ mirrors (map f l) sm
end.
Proof.
intros Hl Hm Hq Hset. rewrite (keyed_count l Hl). pose proof (Hm k) as Hk.
assert (Hrest : forall k' (sm' : gmap J B), (k' <> k -> sm' !! emb k' = sm !! emb k') ->
  (k' = k -> option_Forall2 R (f <$> find_first (at_ k) l) (sm' !! emb k)) ->
  option_Forall2 R (find_first (at_ k') (map f l)) (sm' !! emb k')).
{ intros k' sm' Ho He. rewrite keyed_find. destruct (decide (k' = k)) as [->|Hne]; [by apply He|].
  rewrite Ho by done. specialize (Hm k'). destruct (find_first (at_ k') l) as [x|] eqn:E; [|exact Hm].
  apply find_first_Some in E as [_ Hx%at_spec]. cbn.
  destruct (at_ k x) eqn:Ek; [|exact Hm]. apply at_spec in Ek. congruence. }
destruct (find_first (at_ k) l) as [x|] eqn:E; inversion Hk as [x0 b Hxb Ex Eb|Ex Eb]; subst.
2:{ split; [done|]. intros k'. apply Hrest; [done|]. intros _. rewrite <- Eb. constructor. }
apply find_first_Some in E as [_ Hx]. rewrite (Hq x b Hxb). cbn in Hrest.
rewrite Hx, (Hq x b Hxb) in Hrest. destruct (q' b) eqn:Ev; cbn in Hrest; (split; [done|]); intros k'.
- apply Hrest; [|intros _; rewrite lookup_insert_eq; constructor; apply Hset; by rewrite ?(Hq x b)].
  intros Hne. by rewrite lookup_insert_ne by (intros Ee; by apply emb_inj in Ee).
- apply Hrest; [done|]. intros _. rewrite <- Eb. by constructor.
Qed.
End Keyed.

(** Pointwise related lists: replacing the first match on one side is the keyed
    update on the other. *)
Lemma Forall2_replace {A B K} (R : A -> B -> Prop) (key : A -> K) w p f y l k :
  Forall2 R l k -> NoDup (map key l) ->
  (forall x x', x ∈ l -> w x = true -> w x' = true -> key x = key x') ->
  (forall x x', w x = true -> key x = key x' -> w x' = true) ->
  (forall a b, R a b -> w a = p b) -> (forall a b, w a = true -> R a b -> R (f a) y) ->
  match replace_first p y k with
  | Some k' => List.filter w l <> [] /\ Forall2 R (map (fun x => if w x then f x else x) l) k'
  | None => List.filter w l = []
  end.
Proof.
  intros Hr. induction Hr as [|a b l k Hab Hr IH]; cbn; [done|].
  intros [Ha Hl]%NoDup_cons Hw Hkey Hwp Hf. rewrite (Hwp a b Hab).
  destruct (p b) eqn:Eb.
  - rewrite <- (Hwp a b Hab) in Eb. split; [done|]. constructor; [by eapply Hf|].
    assert (map (fun x => if w x then f x else x) l = l) as ->; [|done].
    rewrite (map_ext_in _ id), map_id; [done|]. intros x Hx%list_elem_of_In.
    destruct (w x) eqn:Ex; [|done]. destruct Ha.
    rewrite (Hw a x); [|constructor|done..]. by apply list_elem_of_fmap_2.
  - specialize (IH Hl (fun x x' Hx => Hw x x' (list_elem_of_further _ _ _ Hx)) Hkey Hwp Hf).
    destruct (replace_first p y k) as [k'|]; cbn; [|done].
    destruct IH as [Hne IH]. split; [done|]. by constructor.
Qed.

(** A permutation of one of two related lists carries over to the other. *)
Lemma Forall2_perm {A B} (R : A -> B -> Prop) l k r :
  l ≡ₚ k -> Forall2 R k r -> exists r', r' ≡ₚ r /\ Forall2 R l r'.
Proof.
  intros Hp. revert r. induction Hp as [|x l k Hp IH|x y l|l1 l2 l3 H1 IH1 H2 IH2]; intros r Hr.
  - by exists r.
  - apply Forall2_cons_inv_l in Hr as (b&r0&Hb&Hr&->). destruct (IH r0 Hr) as (r'&Hr'&Hf).
    exists (b :: r'). split; [by constructor|by constructor].
  - apply Forall2_cons_inv_l in Hr as (b&r0&Hb&Hr&->).
    apply Forall2_cons_inv_l in Hr as (b'&r1&Hb'&Hr&->).
    exists (b' :: b :: r1). split; [constructor|by repeat constructor].
  - destruct (IH2 r Hr) as (r2&Hr2&Hf2). destruct (IH1 r2 Hf2) as (r1&Hr1&Hf1).
    exists r1. split; [by etrans|done].
Qed.

Section Tables.
Context `{GoStd} `{JsonLaws} `{UuidLaws}.
Implicit Types (db : Db) (m : MemStore).

#[export] Instance uuid_text_inj : Inj (=) (=) uuid_text.
Proof. intros u v E. apply (f_equal uuid_parse) in E. rewrite !uuid_parse_text in E. by simplify_eq. Qed.

Lemma with_uuid_text {A} u (k : UUID -> stmt A) : Pg.with_uuid (uuid_text u) k = k u.
Proof. unfold Pg.with_uuid. by rewrite uuid_parse_text. Qed.

Lemma rows_of_insert m id id' l :
rows_of (set_steps (<[id := l]> (mem_steps m)) m) id' = if decide (id = id') then l else rows_of m id'.
Proof.
unfold rows_of. cbn. case_decide as E; [subst; by rewrite lookup_insert_eq|by rewrite lookup_insert_ne].
Qed.

(** *** Step rows *)

(** New step rows on both sides. *)
Lemma rep_set_steps db m l rows :
represents db m ->
(forall u, Forall2 (fun s r => same_row (Pg.scan_step s) r)
  (List.filter (fun r => s_tx_id r =? u) l) (default [] (rows !! uuid_text u))) ->
NoDup (map step_key l) -> Forall (fun s => keyed (Pg.scan_step s)) l ->
Forall (fun s => exists t, t ∈ db_transactions db /\ tx_ID t = s_tx_id s) l ->
represents (set_rows transaction_steps l db) (set_steps rows m).
Proof. intros [] Hl Hn Hk Hf. by split. Qed.

(** What relates the rows of one transaction. *)
Definition step_related (u : UUID) (s : step_row) (r : StepRow) : Prop :=
s_tx_id s = u /\ keyed (Pg.scan_step s) /\ same_row (Pg.scan_step s) r.

Lemma rep_steps_at db m u : represents db m ->
Forall2 (step_related u) (steps_of db u) (rows_of m (uuid_text u)).
Proof.
intros Hr. pose proof (rep_steps _ _ Hr u) as Hs. unfold steps_of in *.
apply Forall2_same_length_lookup. apply Forall2_same_length_lookup in Hs as [Hlen Hs].
split; [done|]. intros i s r Hsi Hri. pose proof (Hs i s r Hsi Hri) as Hsr.
apply list_elem_of_lookup_2, list_elem_of_In, filter_In in Hsi as [Hin ?].
split; [lia|]. split; [|done]. pose proof (rep_keyed _ _ Hr) as Hk. rewrite Forall_forall in Hk.
apply Hk. by apply list_elem_of_In.
Qed.

Lemma steps_of_keys db m u : represents db m -> NoDup (map step_key (steps_of db u)).
Proof.
intros Hr. pose proof (rep_step_keys _ _ Hr) as Hn. unfold steps_of.
induction (db_steps db) as [|s l IH]; cbn in *; [done|]. apply NoDup_cons in Hn as [Hs Hl].
destruct (s_tx_id s =? u); cbn; [|by apply IH]. apply NoDup_cons. split; [|by apply IH].
intros (s'&E&Hin)%list_elem_of_fmap. apply Hs. rewrite E. apply list_elem_of_fmap_2.
apply list_elem_of_In, filter_In in Hin as [Hin _]. by apply list_elem_of_In.
Qed.

Lemma row_at_same s r k a : same_row (Pg.scan_step s) r ->
Mem.row_at k a r = bool_decide (s_step_name s = k) && (s_attempt s =? a).
Proof. intros [_ Hn _ Ha _ _ _ _]. unfold Mem.row_at. cbn in *. by rewrite <- Hn, <- Ha. Qed.

Lemma step_at_key u k a s : Pg.step_at u k a s = true <-> step_key s = (u, k, a).
Proof.
unfold Pg.step_at, step_key. rewrite !andb_true_iff, bool_decide_eq_true, !Z.eqb_eq.
split; [by intros [[-> ->] ->]|by intros [= -> -> ->]].
Qed.

(** The statements look at the rows of one transaction. *)
Lemma step_at_inside db u k a :
List.filter (Pg.step_at u k a) (db_steps db) = List.filter (Pg.step_at u k a) (steps_of db u).
Proof.
unfold steps_of. rewrite <- filter_and. apply filter_ext. intros s. unfold Pg.step_at.
by destruct (s_tx_id s =? u), (bool_decide _).
Qed.

Lemma select_step_rows db m u k a : represents db m ->
List.filter (Pg.step_at u k a) (db_steps db) =
match find_first (Pg.step_at u k a) (steps_of db u) with Some s => [s] | None => [] end.
Proof.
intros Hr. rewrite <- (filter_key step_key (Pg.step_at u k a) (steps_of db u) (u, k, a)
  (step_at_key u k a) (steps_of_keys db m u Hr)).
apply step_at_inside.
Qed.

Lemma rep_find_step db m u k a : represents db m ->
option_Forall2 (fun s r => same_row (Pg.scan_step s) r)
  (find_first (Pg.step_at u k a) (steps_of db u)) (row_of m (uuid_text u) k a).
Proof.
intros Hr. pose proof (rep_steps_at db m u Hr) as Hs. unfold row_of.
induction Hs as [|s r l l' (Hu&_&Hsr) Hl IH]; cbn; [by constructor|].
rewrite (row_at_same s r k a Hsr). unfold Pg.step_at at 1.
replace (s_tx_id s =? u) with true by lia. cbn [andb].
destruct (bool_decide _ && _); [by constructor|done].
Qed.

(** An update of step rows that keeps what identifies them. *)
Lemma rep_map_steps db m (w : step_row -> bool) (set : step_row -> step_row) rows :
let f := fun s => if w s then set s else s in
represents db m ->
(forall s, step_key (set s) = step_key s /\
   s_idempotency_key (set s) = s_idempotency_key s) ->
(forall u, Forall2 (fun s r => same_row (Pg.scan_step s) r) (map f (steps_of db u))
   (default [] (rows !! uuid_text u))) ->
represents (set_rows transaction_steps (map f (db_steps db)) db) (set_steps rows m).
Proof.
intros f Hr Hset Hrows.
assert (Hf : forall s, step_key (f s) = step_key s /\ s_idempotency_key (f s) = s_idempotency_key s)
  by (intros s; unfold f; by destruct (w s)).
assert (Htx : forall s, s_tx_id (f s) = s_tx_id s)
  by (intros s; exact (f_equal (fun k => fst (fst k)) (proj1 (Hf s)))).
apply rep_set_steps; [done|..].
- intros u. rewrite filter_map_inv by (intros s; by rewrite Htx). apply Hrows.
- rewrite map_map, (map_ext _ step_key) by apply Hf. apply (rep_step_keys _ _ Hr).
- apply Forall_map. eapply Forall_impl; [exact (rep_keyed _ _ Hr)|].
  intros s. unfold keyed. cbn. destruct (Hf s) as [[= -> -> ->] ->]. done.
- apply Forall_map. eapply Forall_impl; [apply (rep_refers _ _ Hr)|]. intros s. cbn. by rewrite Htx.
Qed.

(** The update of one attempt leaves the rows of other transactions alone. *)
Lemma step_at_other db u u' k a set : u' <> u ->
map (fun s => if Pg.step_at u k a s then set s else s) (steps_of db u') = steps_of db u'.
Proof.
intros Hne. rewrite (map_ext_in _ id); [by rewrite map_id|].
intros s [_ Hs]%filter_In. unfold Pg.step_at. by replace (s_tx_id s =? u) with false by lia.
Qed.

(** The row an update writes is the row it was given, in its place. *)
Lemma set_step_related u row row' s r :
same_row row row' -> keyed row -> row_TxID row = uuid_text u ->
Pg.step_at u (row_StepName row) (row_Attempt row) s = true -> step_related u s r ->
step_related u (Pg.set_step row s) row'.
Proof.
intros [] Hkeyed Hid Hs%step_at_key (Hsu&Hks&Hsr). injection Hs as _ Hs1 Hs2. split; [done|].
split; [done|]. unfold keyed in Hks, Hkeyed. cbn in Hks.
split; cbn; try congruence; by apply same_time_micros.
Qed.

(** The rows of the transaction: the update is the replacement of memory. *)
Lemma step_replaced db m u row row' :
let w := Pg.step_at u (row_StepName row) (row_Attempt row) in
represents db m -> row_TxID row = uuid_text u -> same_row row row' -> keyed row ->
match replace_first (Mem.row_at (row_StepName row) (row_Attempt row)) row' (rows_of m (uuid_text u)) with
| Some rows => List.filter w (steps_of db u) <> [] /\
    Forall2 (step_related u) (map (fun s => if w s then Pg.set_step row s else s) (steps_of db u)) rows
| None => List.filter w (steps_of db u) = []
end.
Proof.
intros w Hr Hid Hsame Hkeyed. unfold w.
apply (Forall2_replace _ step_key); [by apply rep_steps_at|by eapply steps_of_keys|..].
- intros x x' _ Hx%step_at_key Hx'%step_at_key. congruence.
- intros x x' Hx%step_at_key Hxx. apply step_at_key. congruence.
- intros s r (Hs&_&Hsr). rewrite (row_at_same s r _ _ Hsr). unfold Pg.step_at.
  by replace (s_tx_id s =? u) with true by lia.
- intros s r. by apply set_step_related.
Qed.

Lemma rep_update_step db m row row' u n db' :
represents db m -> row_TxID row = uuid_text u -> same_row row row' -> keyed row ->
sem (Pg.update_step row) db n db' ->
match Mem.UpdateStep row' m with
| (Ok _, m') => n <> 0%nat /\ represents db' m'
| (Err e, m') => n = 0%nat /\ e = ErrNotFound /\ m' = m /\ represents db' m
end.
Proof.
intros Hr Hid Hsame Hkeyed. unfold Pg.update_step. rewrite Hid, with_uuid_text.
intros [Hn [now ->]]. cbn [rows] in Hn |- *. rewrite (step_at_inside db) in Hn.
pose proof (step_replaced db m u row row' Hr Hid Hsame Hkeyed) as Hrep.
pose proof (fun rows => rep_map_steps db m (Pg.step_at u (row_StepName row) (row_Attempt row))
  (Pg.set_step row) rows Hr (fun _ => conj eq_refl eq_refl)) as Hmap.
unfold Mem.UpdateStep, update_rows.
rewrite <- (sr_Name _ _ Hsame), <- (sr_Attempt _ _ Hsame), <- (sr_TxID _ _ Hsame), Hid.
destruct (replace_first _ row' (rows_of m (uuid_text u))) as [rows|].
- destruct Hrep as [Hne Hrows]. split; [rewrite Hn; by intros ?%nil_length_inv|].
  apply Hmap. intros u'. destruct (decide (u' = u)) as [->|Hu].
  + rewrite lookup_insert_eq. cbn. eapply Forall2_impl; [exact Hrows|]. by intros s r (_&_&?).
  + rewrite lookup_insert_ne by (intros E; by apply uuid_text_inj in E).
    rewrite step_at_other by done. apply (rep_steps _ _ Hr).
- split; [by rewrite Hn, Hrep|]. split; [done|]. split; [done|].
  replace m with (set_steps (mem_steps m) m) by by destruct m. apply Hmap. intros u'.
  destruct (decide (u' = u)) as [->|Hu]; [|rewrite step_at_other by done; apply (rep_steps _ _ Hr)].
  rewrite map_if_none by done. apply (rep_steps _ _ Hr).
Qed.

(** No row clashes with one that an insertion accepts. *)
Lemma unique_free {r} (t : table r) row db :
unique_in t row db = true -> forall y, y ∈ rows t db -> clash t row y = false.
Proof. unfold unique_in. intros Hu%negb_true_iff. by apply existsb_free. Qed.

Lemma refers_tx {r} (t : table r) row db u :
refers t row db = true -> reference t row = Some u ->
exists tx, tx ∈ db_transactions db /\ tx_ID tx = u.
Proof.
unfold refers. intros Hr E. rewrite E in Hr. apply existsb_exists in Hr as (tx&Hin&Htx).
exists tx. split; [by apply list_elem_of_In|lia].
Qed.

Lemma rep_insert_step db m s r db' u :
represents db m -> s_tx_id s = u -> same_row (Pg.scan_step s) r -> keyed (Pg.scan_step s) ->
sem (Insert transaction_steps s) db tt db' ->
row_of m (uuid_text u) (s_step_name s) (s_attempt s) = None /\
represents db' (set_steps (<[uuid_text u := rows_of m (uuid_text u) ++ [r]]> (mem_steps m)) m).
Proof.
intros Hr <- Hs Hk (Hu&Hf&->). pose proof (unique_free _ _ _ Hu) as Hfree. cbn [rows] in *.
assert (Hkeys : forall y, y ∈ db_steps db -> step_key y <> step_key s).
{ intros y Hy E. specialize (Hfree y Hy). cbn in Hfree. unfold step_key in E. injection E as E1 E2 E3.
  rewrite E1, E2, E3, !Z.eqb_refl, bool_decide_eq_true_2 in Hfree by done. cbn in Hfree.
  by destruct (s_id s =? s_id y). }
split.
- pose proof (rep_find_step db m (s_tx_id s) (s_step_name s) (s_attempt s) Hr) as Hrow.
  destruct (find_first _ (steps_of db _)) as [y|] eqn:E; [|by inversion Hrow].
  apply find_first_Some in E as [Hy Hat]. apply step_at_key in Hat.
  destruct (Hkeys y); [|by rewrite Hat]. apply list_elem_of_In, filter_In in Hy as [Hy _].
  by apply list_elem_of_In.
- apply rep_set_steps; [done|..].
  + intros u. rewrite List.filter_app. cbn.
    destruct (Z.eqb_spec (s_tx_id s) u) as [<-|Hne].
    * rewrite lookup_insert_eq. cbn. apply Forall2_app; [apply (rep_steps _ _ Hr)|by apply Forall2_cons].
    * rewrite app_nil_r, lookup_insert_ne by (intros E; by apply uuid_text_inj in E).
      apply (rep_steps _ _ Hr).
  + by apply NoDup_snoc_key; [apply (rep_step_keys _ _ Hr)|].
  + apply Forall_app. split; [apply (rep_keyed _ _ Hr)|by apply Forall_cons].
  + apply Forall_app. split; [apply (rep_refers _ _ Hr)|]. constructor; [|constructor].
    by eapply (refers_tx transaction_steps).
Qed.

(** *** Transactions *)

Lemma rep_set_txs db m l txs :
represents db m ->
(forall id, option_Forall2 same_tx (find_first (fun t => bool_decide (tx_TxID t = id)) l) (txs !! id)) ->
NoDup (map tx_TxID l) ->
(forall t, t ∈ db_transactions db -> exists t', t' ∈ l /\ tx_ID t' = tx_ID t) ->
represents (set_rows transactions l db) (set_txs txs m).
Proof.
intros Hr Hl Hn Hin. pose proof (rep_refers _ _ Hr) as Hrf. destruct Hr. split; try done. cbn.
eapply Forall_impl; [exact Hrf|]. intros s (t&Ht&<-). destruct (Hin t Ht) as (t'&?&?). by exists t'.
Qed.

Lemma rep_find_tx db m id : represents db m ->
List.filter (fun t => bool_decide (tx_TxID t = id)) (db_transactions db) =
match find_first (fun t => bool_decide (tx_TxID t = id)) (db_transactions db) with
| Some t => [t] | None => [] end.
Proof.
intros Hr. apply (filter_key tx_TxID _ _ id); [|apply (rep_tx_ids _ _ Hr)].
intros t. by rewrite bool_decide_eq_true.
Qed.

(** The rows of an identifier. *)
Lemma tx_at id t : bool_decide (tx_TxID t = id) = true <-> tx_TxID t = id.
Proof. apply bool_decide_eq_true. Qed.

Lemma rep_insert_tx db m t t' db' :
represents db m -> same_tx t t' -> sem (Insert transactions t) db tt db' ->
mem_txs m !! tx_TxID t = None /\ (forall s, s ∈ db_steps db -> s_tx_id s <> tx_ID t) /\
represents db' (set_txs (<[tx_TxID t := t']> (mem_txs m)) m).
Proof.
intros Hr Ht (Hu&_&->). pose proof (unique_free _ _ _ Hu) as Hfree. cbn [rows] in *.
assert (Hids : forall y, y ∈ db_transactions db -> tx_ID y <> tx_ID t /\ tx_TxID y <> tx_TxID t).
{ intros y Hy. specialize (Hfree y Hy). cbn in Hfree. apply orb_false_iff in Hfree as [Ha Hb].
  split; [lia|]. apply bool_decide_eq_false in Hb. congruence. }
assert (Hnone : find_first (fun y => bool_decide (tx_TxID y = tx_TxID t)) (db_transactions db) = None).
{ apply find_first_None. intros y Hy. apply bool_decide_eq_false. by apply Hids. }
split; [pose proof (rep_txs _ _ Hr (tx_TxID t)) as Hx; rewrite Hnone in Hx; by inversion Hx|].
split.
- intros s Hs E. pose proof (rep_refers _ _ Hr) as Hrf. rewrite Forall_forall in Hrf.
  destruct (Hrf s Hs) as (y&Hy&Hid). destruct (Hids y Hy) as [Hne _]. by rewrite Hid in Hne.
- apply rep_set_txs; [done|..].
  + apply (keyed_snoc tx_TxID _ tx_at same_tx (fun id : string => id) _); [|done..].
    exact (rep_txs _ _ Hr).
  + apply NoDup_snoc_key; [apply (rep_tx_ids _ _ Hr)|]. intros y Hy. by apply Hids.
  + intros y Hy. exists y. split; [|done]. apply elem_of_app. by left.
Qed.

(** An update that keeps the ids. *)
Lemma rep_map_txs db m (w : Transaction -> bool) (set : Transaction -> Transaction) txs :
represents db m ->
(forall t, tx_TxID (set t) = tx_TxID t /\ tx_ID (set t) = tx_ID t) ->
mirrors (fun id t => bool_decide (tx_TxID t = id)) same_tx (fun id : string => id)
  (map (fun t => if w t then set t else t) (db_transactions db)) txs ->
represents (set_rows transactions (map (fun t => if w t then set t else t) (db_transactions db)) db)
  (set_txs txs m).
Proof.
intros Hr Hset Htxs. apply rep_set_txs; [done|exact Htxs|..].
- rewrite map_if_keys by apply Hset. apply (rep_tx_ids _ _ Hr).
- intros t Ht. eexists. split; [by apply list_elem_of_fmap_2|]. destruct (w t); [apply Hset|done].
Qed.

Lemma rep_update_status db m rt id st v n db' :
represents db m -> sem (Pg.update_status id st v) db n db' ->
match Mem.UpdateTransactionStatus rt id st v m with
| (Ok _, m') => n <> 0%nat /\ represents db' m'
| (Err _, m') => n = 0%nat /\ m' = m /\ represents db' m
end.
Proof.
intros Hr [-> [now ->]]. cbn [rows]. unfold Mem.UpdateTransactionStatus, update_rows.
assert (Hset : forall t, tx_TxID (tx_with_status t st (tx_Version t + 1) now) = tx_TxID t /\
  tx_ID (tx_with_status t st (tx_Version t + 1) now) = tx_ID t) by done.
pose proof (keyed_update tx_TxID _ tx_at same_tx (fun i : string => i) _ id (fun t => tx_Version t =? v)
  (fun t => tx_with_status t st (tx_Version t + 1) now) (fun t => proj1 (Hset t))
  (db_transactions db) (mem_txs m) (fun t => tx_Version t =? v)
  (fun t => tx_with_status t st (v + 1) (rt_now rt)) (rep_tx_ids _ _ Hr) (rep_txs _ _ Hr)) as Hup.
assert (Hm : set_txs (mem_txs m) m = m) by by destruct m.
pose proof (rep_map_txs db m (fun t => bool_decide (tx_TxID t = id) && (tx_Version t =? v))
  (fun t => tx_with_status t st (tx_Version t + 1) now)) as Hmap.
assert (Hsame : forall x b, bool_decide (tx_TxID x = id) = true -> (tx_Version x =? v) = true ->
  same_tx x b -> same_tx (tx_with_status x st (tx_Version x + 1) now)
                         (tx_with_status b st (v + 1) (rt_now rt))).
{ intros x b _ Hv%Z.eqb_eq []. by split; cbn; congruence || lia. }
specialize (Hup (fun x b Hs => f_equal (fun n => n =? v) (st_Version _ _ Hs)) Hsame).
destruct (mem_txs m !! id) as [t|]; [destruct (tx_Version t =? v)|]; cbn [negb];
  destruct Hup as [Hn Hmir]; (split; [done|]); [by apply Hmap|..];
  (split; [done|]); rewrite <- Hm; by apply Hmap.
Qed.

(** *** Sagas *)

Lemma decode_stored q t :
jsonb (Pg.EncodeJSON q) = Some t -> storable q -> Pg.decodePayload t = q.
Proof.
intros E Hq. destruct (json_roundtrip q t Hq E) as [Hl Hu]. unfold Pg.decodePayload.
rewrite Hu. by destruct (json_len t).
Qed.

Lemma rep_set_sagas db m l sagas :
represents db m ->
(forall u, option_Forall2 (fun g => same_saga (Pg.scanSaga g))
   (find_first (fun g => g_tx_id g =? u) l) (sagas !! uuid_text u)) ->
NoDup (map g_tx_id l) ->
represents (set_rows saga_state l db) (set_sagas sagas m).
Proof. intros [] Hl Hn. by split. Qed.

Lemma rep_find_saga db m u : represents db m ->
List.filter (fun g => g_tx_id g =? u) (db_sagas db) =
match find_first (fun g => g_tx_id g =? u) (db_sagas db) with Some g => [g] | None => [] end.
Proof.
intros Hr. apply (filter_key g_tx_id _ _ u); [|apply (rep_saga_ids _ _ Hr)].
intros g. by rewrite Z.eqb_eq.
Qed.

Lemma rep_insert_saga db m r g u db' :
represents db m -> g_tx_id r = u -> same_saga (Pg.scanSaga r) g ->
sem (Insert saga_state r) db tt db' ->
represents db' (set_sagas (<[uuid_text u := g]> (mem_sagas m)) m).
Proof.
intros Hr <- Hs (Hu&_&->). pose proof (unique_free _ _ _ Hu) as Hfree. cbn [rows] in *.
assert (Hids : forall y, y ∈ db_sagas db -> g_tx_id y <> g_tx_id r).
{ intros y Hy. specialize (Hfree y Hy). cbn in Hfree. apply orb_false_iff in Hfree as [Ha Hb]. lia. }
apply rep_set_sagas; [done|..].
- apply (keyed_snoc g_tx_id (fun u r => g_tx_id r =? u) (fun u r => Z.eqb_eq (g_tx_id r) u)
    (fun g => same_saga (Pg.scanSaga g)) uuid_text _); [exact (rep_sagas _ _ Hr)| |done].
  apply find_first_None. intros y Hy%Hids. lia.
- by apply NoDup_snoc_key; [apply (rep_saga_ids _ _ Hr)|].
Qed.

Lemma rep_map_sagas db m (w : saga_row -> bool) (set : saga_row -> saga_row) sagas :
represents db m -> (forall g, g_tx_id (set g) = g_tx_id g) ->
mirrors (fun u g => g_tx_id g =? u) (fun g => same_saga (Pg.scanSaga g)) uuid_text
  (map (fun g => if w g then set g else g) (db_sagas db)) sagas ->
represents (set_rows saga_state (map (fun g => if w g then set g else g) (db_sagas db)) db)
  (set_sagas sagas m).
Proof.
intros Hr Hset Hsagas. apply rep_set_sagas; [done|exact Hsagas|].
rewrite map_if_keys by done. apply (rep_saga_ids _ _ Hr).
Qed.

(** The row an update writes holds the saga it was given. *)
Lemma set_saga_same g g' p u r cur :
sg_TxID g = uuid_text u -> same_saga g g' -> jsonb (Pg.EncodeJSON (sg_Payload g)) = Some p ->
(g_tx_id r =? u) = true -> (g_version r =? sg_Version g - 1) = true ->
same_saga (Pg.scanSaga r) cur ->
same_saga (Pg.scanSaga (Pg.set_saga g p r))
  (sg_advance g' (sg_CurrentStep g') (sg_State g') (sg_Payload g') (sg_Version cur + 1)).
Proof.
intros Hid [Ha Hb Hc Hd He Hp Hg] Ep Eu%Z.eqb_eq Ev Hcur. pose proof (sg_same_Version _ _ Hcur) as Hv.
cbn in Hv. split; cbn; try done.
- by rewrite <- Ha, Hid, Eu.
- by apply same_time_micros.
- intros Hst. rewrite <- (Hp Hst) in Hst |- *. by apply decode_stored.
- lia.
Qed.

Lemma rep_update_saga db m g g' u n db' :
represents db m -> sg_TxID g = uuid_text u -> same_saga g g' ->
sem (Pg.update_saga g) db n db' ->
match Mem.SaveSagaState g' m with
| (Ok _, m') => n <> 0%nat /\ represents db' m'
| (Err _, m') => n = 0%nat /\ m' = m /\ represents db' m
end.
Proof.
intros Hr Hid Hs. unfold Pg.update_saga, Pg.with_json. rewrite Hid, with_uuid_text.
destruct (jsonb (Pg.EncodeJSON (sg_Payload g))) as [p|] eqn:Ep; [|done].
intros [-> [now ->]]. cbn [rows]. unfold Mem.SaveSagaState, update_rows.
assert (sg_TxID g' = uuid_text u) as -> by by rewrite <- (sg_same_TxID _ _ Hs).
rewrite <- (sg_same_Version _ _ Hs).
assert (Hm : set_sagas (mem_sagas m) m = m) by by destruct m.
pose proof (rep_map_sagas db m (fun r => (g_tx_id r =? u) && (g_version r =? sg_Version g - 1))
  (Pg.set_saga g p)) as Hmap.
pose proof (keyed_update g_tx_id (fun u r => g_tx_id r =? u) (fun u r => Z.eqb_eq (g_tx_id r) u)
  (fun g => same_saga (Pg.scanSaga g)) uuid_text uuid_text_inj u
  (fun r => g_version r =? sg_Version g - 1) (Pg.set_saga g p) (fun _ => eq_refl) (db_sagas db)
  (mem_sagas m) (fun cur => sg_Version cur =? sg_Version g - 1)
  (fun cur => sg_advance g' (sg_CurrentStep g') (sg_State g') (sg_Payload g') (sg_Version cur + 1))
  (rep_saga_ids _ _ Hr) (rep_sagas _ _ Hr)
  (fun x b Hx => f_equal (fun v => v =? sg_Version g - 1) (sg_same_Version _ _ Hx))
  (fun x b => set_saga_same g g' p u x b Hid Hs Ep)) as Hup.
destruct (mem_sagas m !! uuid_text u) as [cur|];
  [destruct (sg_Version cur =? sg_Version g - 1)|]; cbn [negb];
  destruct Hup as [Hn Hmir]; (split; [done|]); [by apply Hmap|..];
  (split; [done|]); rewrite <- Hm; by apply Hmap.
Qed.

(** *** Events *)

Lemma rep_set_outbox db m l evs :
represents db m -> Forall2 (fun e => same_event (Pg.scanEvent e)) l evs ->
NoDup (map e_event_id l) ->
represents (set_rows outbox_events l db) (set_outbox evs m).
Proof. intros [] Hl Hn. by split. Qed.

Lemma rep_insert_event db m r e db' :
represents db m -> same_event (Pg.scanEvent r) e -> sem (Insert outbox_events r) db tt db' ->
existsb (fun ex => bool_decide (ev_DedupKey ex = ev_DedupKey e)) (mem_outbox m) = false /\
represents db' (set_outbox (mem_outbox m ++ [e]) m).
Proof.
intros Hr Hs (Hu&_&->). pose proof (unique_free _ _ _ Hu) as Hfree. cbn [rows] in *.
assert (Hids : forall y, y ∈ db_outbox db ->
  e_event_id y <> e_event_id r /\ e_dedup_key y <> e_dedup_key r).
{ intros y Hy. specialize (Hfree y Hy). cbn in Hfree. rewrite !orb_false_iff in Hfree.
  destruct Hfree as [[_ Ha] Hb]. apply bool_decide_eq_false in Hb. split; [lia|congruence]. }
split.
- apply Bool.not_true_is_false. intros (ex&Hex&Hd)%existsb_exists.
  apply list_elem_of_In, list_elem_of_lookup in Hex as [i Hi]. apply bool_decide_eq_true in Hd.
  destruct (Forall2_lookup_r _ _ _ _ _ (rep_outbox _ _ Hr) Hi) as (y&Hy&Hsame).
  destruct (Hids y) as [_ Hne]; [by eapply list_elem_of_lookup_2|]. apply Hne.
  change (e_dedup_key y) with (ev_DedupKey (Pg.scanEvent y)).
  change (e_dedup_key r) with (ev_DedupKey (Pg.scanEvent r)).
  by rewrite (se_Dedup _ _ Hsame), (se_Dedup _ _ Hs), Hd.
- apply rep_set_outbox; [done|..].
  + apply Forall2_app; [apply (rep_outbox _ _ Hr)|by apply Forall2_cons].
  + apply NoDup_snoc_key; [apply (rep_event_ids _ _ Hr)|]. intros y Hy. by apply Hids.
Qed.

(** Marking by id, on events with different ids. *)
Lemma mark_published_same u now at_ l evs :
Forall2 (fun e => same_event (Pg.scanEvent e)) l evs -> NoDup (map e_event_id l) ->
Forall2 (fun e => same_event (Pg.scanEvent e))
  (update_rows now (fun _ => Pg.set_published at_) (fun r => e_event_id r =? u) l)
  (Mem.mark_published (uuid_text u) at_ evs).
Proof.
intros Hl. induction Hl as [|r e l evs Hs Hl IH]; [done|]. cbn [update_rows map Mem.mark_published].
intros [Hr Hn]%NoDup_cons. pose proof (se_EventID _ _ Hs) as Hid. cbn in Hid.
destruct (Z.eqb_spec (e_event_id r) u) as [<-|Hne].
- rewrite bool_decide_eq_true_2 by done. constructor.
  + destruct Hs. split; cbn; try done. unfold same_time. cbn. by rewrite micros_idem.
  + assert (update_rows now (fun _ => Pg.set_published at_)
      (fun r0 => e_event_id r0 =? e_event_id r) l = l) as Eq; [|unfold update_rows in Eq; by rewrite Eq].
    unfold update_rows. rewrite (map_ext_in _ id), map_id; [done|].
    intros y Hy%list_elem_of_In. destruct (Z.eqb_spec (e_event_id y) (e_event_id r)) as [E|]; [|done].
    destruct Hr. rewrite <- E. by apply list_elem_of_fmap_2.
- rewrite bool_decide_eq_false_2 by (rewrite <- Hid; intros E; by apply uuid_text_inj in E).
  constructor; [done|by apply IH].
Qed.

Lemma rep_mark_published db m u at_ n db' :
represents db m -> sem (Pg.update_published (uuid_text u) at_) db n db' ->
represents db' (set_outbox (Mem.mark_published (uuid_text u) at_ (mem_outbox m)) m).
Proof.
intros Hr. unfold Pg.update_published. rewrite with_uuid_text. intros [-> [now ->]].
apply rep_set_outbox; [done|..]; cbn [rows].
- apply mark_published_same; [apply (rep_outbox _ _ Hr)|apply (rep_event_ids _ _ Hr)].
- rewrite map_update_keys by done. apply (rep_event_ids _ _ Hr).
Qed.
End Tables.
