(* ===== verification/PgOps.v ===== *)
(** The methods of the PostgreSQL store simulate those of [MemStore], and so do
    the units of work of the saga executor. *)

From S2P Require Import Prelude StateMachine Store Partner Steps Lease Executor Sql PgStore.
From S2P Require Import PgSim PgTables.

Local Open Scope Z_scope.

Section Ops.
Context `{GoStd} `{JsonLaws} `{UuidLaws} {D : Type} {PD : Postgres D} {PL : PostgresLaws D}.
Implicit Types (m : MemStore).

(** Outcomes that agree in being an error, and in which one. *)
Definition both (e e' : error) : Prop := e = ErrNotFound /\ e' = ErrNotFound.
Definition some_error (e e' : error) : Prop := True.

(** *** Step rows *)

Lemma to_step_row_same row row' u i j :
row_TxID row = uuid_text u -> same_row row row' ->
same_row (Pg.scan_step (Pg.to_step_row (row_with_ID row i) u)) (row_with_ID row' j).
Proof.
intros Hid []. split; cbn; try done; [congruence|by apply same_time_micros..].
Qed.

Lemma sim_InsertStep rt rt' row row' u E :
row_TxID row = uuid_text u -> same_row row row' -> keyed row ->
sim (fun _ _ => True) E (Pg.InsertStep (D := D) rt row) (Mem.InsertStep rt' row').
Proof.
intros Hid Hs Hk c d db m Hd Hr. unfold Pg.InsertStep, Pg.insert_step.
cbn [row_TxID row_with_ID]. rewrite Hid, with_uuid_text.
set (s := Pg.to_step_row _ u). destruct (Pg.exec_mapped _ d) as [r d'] eqn:Ex.
destruct (exec_mapped_spec _ _ _ _ _ _ Hd Ex) as [(e&->&Hab)|([]&db'&->&Hsem&Hact)]; [by left|right].
assert (Hrow : s_step_name s = row_StepName row' /\ s_attempt s = row_Attempt row')
  by (destruct Hs; by split). destruct Hrow as [Hn Ha].
assert (Hid' : row_TxID row' = uuid_text u) by by rewrite <- (sr_TxID _ _ Hs).
destruct (rep_insert_step db m s (row_with_ID row' (Mem.fresh_ID rt' 0 (row_ID row'))) db' u)
  as [Hnone Hrep]; [done|done|by apply to_step_row_same| |exact Hsem|].
{ unfold keyed in *. cbn. by rewrite <- Hid. }
exists db'. unfold Mem.InsertStep. rewrite Hid'. unfold row_of in Hnone. rewrite Hn, Ha in Hnone.
rewrite Hnone. cbn. split_and!; done.
Qed.

Lemma sim_UpdateStep row row' u :
row_TxID row = uuid_text u -> same_row row row' -> keyed row ->
sim (fun _ _ => True) both (Pg.UpdateStep (D := D) row) (Mem.UpdateStep row').
Proof.
intros Hid Hs Hk c d db m Hd Hr. unfold Pg.UpdateStep, tx_bind.
destruct (Pg.exec_mapped _ d) as [r d'] eqn:Ex.
destruct (exec_mapped_spec _ _ _ _ _ _ Hd Ex) as [(e&->&Hab)|(n&db'&->&Hsem&Hact)]; cbn; [by left|].
pose proof (rep_update_step db m row row' u n db' Hr Hid Hs Hk Hsem) as Hup.
destruct (Mem.UpdateStep row' m) as [[a|e] m'].
- destruct Hup as [Hn Hrep]. rewrite (proj2 (Nat.eqb_neq n 0) Hn). cbn. right. by exists db'.
- destruct Hup as (->&->&->&Hrep). cbn. right. by exists db'.
Qed.

Lemma sim_LoadStep u k a :
sim (fun r r' => same_row r r' /\ keyed r /\ row_TxID r = uuid_text u) both
  (Pg.LoadStep (D := D) (uuid_text u) k a) (Mem.LoadStep (uuid_text u) k a).
Proof.
intros c d db m Hd Hr. unfold Pg.LoadStep, Pg.select_step, tx_bind. rewrite with_uuid_text.
destruct (Pg.exec_raw _ d) as [x d'] eqn:Ex.
destruct (exec_raw_spec _ _ _ _ _ _ Hd Ex) as [(e&->&Hab)|(l&db'&->&Hsem&Hact)]; cbn; [by left|].
destruct Hsem as (->&l'&->&_&Hp). cbn [limited rows] in Hp |- *.
rewrite (select_step_rows db m u k a Hr) in Hp.
pose proof (rep_find_step db m u k a Hr) as Hf. unfold Mem.LoadStep. fold (row_of m (uuid_text u) k a).
destruct (find_first (Pg.step_at u k a) (steps_of db u)) as [s|] eqn:E.
- apply Permutation_singleton_r in Hp as ->. inversion Hf as [s0 r Hsr|]; subst. cbn. right.
  exists db. split_and!; [done|done|done| |].
  + apply find_first_Some in E as [Hin _]. pose proof (rep_keyed _ _ Hr) as Hk.
    rewrite Forall_forall in Hk. apply Hk. apply list_elem_of_In, filter_In in Hin as [? _].
    by apply list_elem_of_In.
  + apply find_first_Some in E as [_ Hat%step_at_key]. unfold step_key in Hat. cbn. by simplify_eq.
- apply Permutation_nil_r in Hp as ->. inversion Hf. cbn. right. by exists db.
Qed.

(** *** Versioned updates *)

Lemma sim_UpdateTransactionStatus rt id st v :
sim (fun _ _ => True) some_error (Pg.UpdateTransactionStatus (D := D) id st v)
  (Mem.UpdateTransactionStatus rt id st v).
Proof.
intros c d db m Hd Hr. unfold Pg.UpdateTransactionStatus, tx_bind.
destruct (Pg.exec_mapped _ d) as [r d'] eqn:Ex.
destruct (exec_mapped_spec _ _ _ _ _ _ Hd Ex) as [(e&->&Hab)|(n&db'&->&Hsem&Hact)]; cbn; [by left|].
pose proof (rep_update_status db m rt id st v n db' Hr Hsem) as Hup.
destruct (Mem.UpdateTransactionStatus rt id st v m) as [[a|e] m'].
- destruct Hup as [Hn Hrep]. rewrite (proj2 (Nat.eqb_neq n 0) Hn). cbn. right. by exists db'.
- destruct Hup as (->&->&Hrep). cbn. right. by exists db'.
Qed.

Lemma sim_SaveSagaState g g' u :
sg_TxID g = uuid_text u -> same_saga g g' ->
sim (fun _ _ => True) some_error (Pg.SaveSagaState (D := D) g) (Mem.SaveSagaState g').
Proof.
intros Hid Hs c d db m Hd Hr. unfold Pg.SaveSagaState, tx_bind.
destruct (Pg.exec_mapped _ d) as [r d'] eqn:Ex.
destruct (exec_mapped_spec _ _ _ _ _ _ Hd Ex) as [(e&->&Hab)|(n&db'&->&Hsem&Hact)]; cbn; [by left|].
pose proof (rep_update_saga db m g g' u n db' Hr Hid Hs Hsem) as Hup.
destruct (Mem.SaveSagaState g' m) as [[a|e] m'].
- destruct Hup as [Hn Hrep]. rewrite (proj2 (Nat.eqb_neq n 0) Hn). cbn. right. by exists db'.
- destruct Hup as (->&->&Hrep). cbn. right. by exists db'.
Qed.

Lemma sim_TxLoadSagaState u :
sim same_saga both (Pg.TxLoadSagaState (D := D) (uuid_text u)) (Mem.TxLoadSagaState (uuid_text u)).
Proof.
intros c d db m Hd Hr. unfold Pg.TxLoadSagaState, Pg.select_saga, tx_bind. rewrite with_uuid_text.
destruct (Pg.exec_raw _ d) as [x d'] eqn:Ex.
destruct (exec_raw_spec _ _ _ _ _ _ Hd Ex) as [(e&->&Hab)|(l&db'&->&Hsem&Hact)]; cbn; [by left|].
destruct Hsem as (->&l'&->&_&Hp). cbn [limited rows] in Hp |- *.
rewrite (rep_find_saga db m u Hr) in Hp. pose proof (rep_sagas _ _ Hr u) as Hf.
unfold Mem.TxLoadSagaState, Mem.LoadSagaState.
destruct (find_first (fun g => g_tx_id g =? u) (db_sagas db)) as [g|] eqn:E.
- apply Permutation_singleton_r in Hp as ->. inversion Hf as [g0 g' Hg|]; subst. cbn. right.
  by exists db.
- apply Permutation_nil_r in Hp as ->. inversion Hf. cbn. right. by exists db.
Qed.

(** *** Events *)

(** An event as the program writes it: its ids are UUIDs in canonical form. *)
Definition canonical_event (e : OutboxEvent) : Prop :=
ev_EventID e <> "" /\ ev_PublishedAt e = None /\
exists v u, ev_EventID e = uuid_text v /\ ev_TxID e = uuid_text u.

(** What the loop over the events leaves when the server accepts them. *)
Lemma insert_events_rep rt events : forall i j c d db m r d',
Forall canonical_event events -> session_of d = Active c db -> represents db m ->
Pg.insert_events (D := D) rt i events d = (r, d') ->
(exists e, r = Err e /\ session_of d' = Aborted c) \/
exists db', r = Ok tt /\ session_of d' = Active c db' /\
  Mem.dedup_clash (mem_outbox m) events = false /\
  forall ids, represents db' (set_outbox (mem_outbox m ++
    imap (fun n e => ev_with_ID e (ids (j + n)%nat e)) events) m).
Proof.
induction events as [|e events IH]; intros i j c d db m r d' Hc Hd Hr Hrun; cbn in Hrun.
{ injection Hrun as <- <-. right. exists db. split_and!; [done..|]. intros ids. cbn.
  rewrite app_nil_r. by destruct m. }
apply Forall_cons in Hc as [(Hne&Hpub&v&u&Hev&Htx) Hc]. unfold tx_bind in Hrun.
destruct (Pg.exec_mapped _ d) as [x d1] eqn:Ex.
destruct (exec_mapped_spec _ _ _ _ _ _ Hd Ex) as [(err&->&Hab)|([]&db1&->&Hsem&Hact)].
{ injection Hrun as <- <-. left. by exists err. }
assert (Hins : exists payload, jsonb (Pg.EncodeJSON (ev_Payload e)) = Some payload /\
  sem (Insert outbox_events (Pg.to_event_row e (fresh_id rt i (ev_ID e)) v u payload)) db tt db1).
{ unfold Pg.insert_event, Pg.identified in Hsem. cbn [ev_EventID ev_with_ID] in Hsem.
  rewrite bool_decide_eq_false_2 in Hsem by done. cbn [ev_EventID ev_TxID ev_with_ID] in Hsem.
  rewrite Hev, Htx, !with_uuid_text in Hsem. unfold Pg.with_json in Hsem. cbn in Hsem.
  destruct (jsonb _) as [p|]; [|done]. by exists p. }
destruct Hins as (p&Hp&Hins).
assert (Hsame : forall id, same_event (Pg.scanEvent (Pg.to_event_row e (fresh_id rt i (ev_ID e)) v u p))
  (ev_with_ID e id)).
{ intros id. split; cbn; try done; [intros; by apply decode_stored|by rewrite micros_idem|by rewrite Hpub]. }
destruct (rep_insert_event db m _ (ev_with_ID e 0) db1 Hr (Hsame 0) Hins) as [Hno _].
assert (Hrep1 : forall id, represents db1 (set_outbox (mem_outbox m ++ [ev_with_ID e id]) m))
  by (intros id; by eapply rep_insert_event).
destruct (IH (S i) (S j) c d1 db1 _ r d' Hc Hact (Hrep1 0) Hrun) as [|(db'&->&Hact'&Hclash&_)]; [by left|].
right. exists db'. split_and!; [done|done| |].
- cbn. cbn in Hclash, Hno. rewrite Hno. cbn.
  apply Bool.not_true_is_false. intros (y&Hy&Hex)%existsb_exists.
  assert (Mem.dedup_clash (mem_outbox m ++ [ev_with_ID e 0]) events = true) as Hc'; [|congruence].
  apply existsb_exists. exists y. split; [done|]. rewrite existsb_app, Hex. done.
- intros ids. destruct (IH (S i) (S j) c d1 db1 _ _ d' Hc Hact (Hrep1 (ids j e)) Hrun)
    as [(?&[=]&_)|(db2&_&Hact2&_&Hrep2)].
  assert (db2 = db') as -> by congruence. specialize (Hrep2 ids). cbn [mem_outbox set_outbox] in Hrep2.
  cbn [imap]. rewrite <- app_assoc in Hrep2. rewrite Nat.add_0_r. cbn in Hrep2 |- *.
  erewrite imap_ext in Hrep2; [exact Hrep2|]. intros n y _. cbn. do 2 f_equal. lia.
Qed.

Lemma sim_AppendOutbox rt events E :
Forall canonical_event events ->
sim (fun _ _ => True) E (Pg.AppendOutbox (D := D) rt events) (Mem.AppendOutbox events).
Proof.
intros Hc c d db m Hd Hr. unfold Pg.AppendOutbox.
destruct (Pg.insert_events rt 0 events d) as [r d'] eqn:Ex.
destruct (insert_events_rep rt events 0 0 c d db m r d' Hc Hd Hr Ex)
  as [(e&->&Hab)|(db'&->&Hact&Hclash&Hrep)]; [by left|right].
exists db'. unfold Mem.AppendOutbox. rewrite Hclash. cbn. split_and!; [done| |done].
specialize (Hrep (fun _ e => ev_ID e)). rewrite (imap_ext _ (const id)) in Hrep.
- by rewrite imap_const, list_fmap_id in Hrep.
- intros n e _. by destruct e.
Qed.

Lemma sim_MarkOutboxPublished ids at_ E :
Forall (fun id => exists u, id = uuid_text u) ids ->
sim (fun _ _ => True) E (Pg.MarkOutboxPublished (D := D) ids at_) (Mem.MarkOutboxPublished ids at_).
Proof.
intros Hids c d db m. unfold Mem.MarkOutboxPublished. cbn [fst snd].
revert d db m. induction Hids as [|id ids [u ->] Hids IH]; intros d db m Hd Hr; cbn.
{ right. exists db. split_and!; [done| |done]. by destruct m. }
unfold tx_bind. destruct (Pg.exec_mapped _ d) as [r d'] eqn:Ex.
destruct (exec_mapped_spec _ _ _ _ _ _ Hd Ex) as [(e&->&Hab)|(n&db'&->&Hsem&Hact)]; cbn; [by left|].
exact (IH d' db' _ Hact (rep_mark_published db m u at_ n db' Hr Hsem)).
Qed.

(** *** Creation *)

(** What [CreateTx] is given: records of one transaction under a canonical id. *)
Record creatable (u : UUID) (t : Transaction) (steps : list StepRow) (saga : SagaState)
  (events : list OutboxEvent) : Prop := {
cr_id : tx_TxID t = uuid_text u;
cr_steps : Forall (fun r => row_TxID r = uuid_text u /\ keyed r) steps;
cr_saga : sg_TxID saga = uuid_text u;
cr_events : Forall canonical_event events;
}.

Lemma insert_steps_rep rt steps u : forall i j c d db m r d',
Forall (fun r => row_TxID r = uuid_text u /\ keyed r) steps ->
session_of d = Active c db -> represents db m ->
Pg.insert_steps (D := D) rt i steps d = (r, d') ->
(exists e, r = Err e /\ session_of d' = Aborted c) \/
exists db', r = Ok tt /\ session_of d' = Active c db' /\ forall ids,
  represents db' (set_steps (<[uuid_text u := rows_of m (uuid_text u) ++
    imap (fun n r => row_with_ID r (ids (j + n)%nat r)) steps]> (mem_steps m)) m).
Proof.
induction steps as [|row steps IH]; intros i j c d db m r d' Hc Hd Hr Hrun; cbn in Hrun.
{ injection Hrun as <- <-. right. exists db. split_and!; [done..|]. intros ids. cbn.
  rewrite app_nil_r. replace db with (set_rows transaction_steps (db_steps db) db) by by destruct db.
  apply rep_set_steps; [done| |apply Hr..]. intros u'. unfold rows_of.
  destruct (decide (u = u')) as [<-|Hne]; [rewrite lookup_insert_eq; apply (rep_steps _ _ Hr)|].
  rewrite lookup_insert_ne by (intros E; by apply uuid_text_inj in E). apply (rep_steps _ _ Hr). }
apply Forall_cons in Hc as [[Hid Hk] Hc]. unfold tx_bind in Hrun.
destruct (Pg.exec_mapped _ d) as [x d1] eqn:Ex.
destruct (exec_mapped_spec _ _ _ _ _ _ Hd Ex) as [(err&->&Hab)|([]&db1&->&Hsem&Hact)].
{ injection Hrun as <- <-. left. by exists err. }
unfold Pg.insert_step in Hsem. cbn [row_TxID row_with_ID] in Hsem. rewrite Hid, with_uuid_text in Hsem.
set (s := Pg.to_step_row _ u) in Hsem.
assert (Hrep1 : forall id, represents db1 (set_steps (<[uuid_text u :=
  rows_of m (uuid_text u) ++ [row_with_ID row id]]> (mem_steps m)) m)).
{ intros id. eapply (rep_insert_step db m s); [done|done|by apply to_step_row_same| |done].
  unfold keyed in *. cbn. by rewrite <- Hid. }
destruct (IH (S i) (S j) c d1 db1 _ r d' Hc Hact (Hrep1 0) Hrun) as [|(db'&->&Hact'&_)]; [by left|].
right. exists db'. split_and!; [done|done|]. intros ids.
destruct (IH (S i) (S j) c d1 db1 _ _ d' Hc Hact (Hrep1 (ids j row)) Hrun)
  as [(?&[=]&_)|(db2&_&Hact2&Hrep2)].
assert (db2 = db') as -> by congruence. specialize (Hrep2 ids).
rewrite rows_of_insert, decide_True in Hrep2 by done. cbn [mem_steps set_steps] in Hrep2.
rewrite insert_insert_eq, <- app_assoc in Hrep2. cbn [imap]. rewrite Nat.add_0_r.
cbn [app] in Hrep2. erewrite imap_ext in Hrep2; [exact Hrep2|].
intros n y _. cbn. do 2 f_equal. lia.
Qed.

Lemma to_saga_row_same g u p i j :
sg_TxID g = uuid_text u -> jsonb (Pg.EncodeJSON (sg_Payload g)) = Some p ->
same_saga (Pg.scanSaga (Pg.to_saga_row (sg_with_ID g i) u p)) (sg_with_ID g j).
Proof.
intros Hid Hp. split; cbn; try done; [by apply same_time_micros|intros; by apply decode_stored].
Qed.

Lemma sim_CreateTx rt rt' u t steps saga events E :
creatable u t steps saga events -> fresh_id rt 0 (tx_ID t) = u ->
sim (fun _ _ => True) E (Pg.CreateTx (D := D) rt t steps saga events)
  (Mem.CreateTx rt' t steps saga events).
Proof.
intros [Hid Hsteps Hsaga Hevs] Hu c d db m Hd Hr. unfold Pg.CreateTx, tx_bind.
destruct (Pg.exec_mapped _ d) as [x d1] eqn:Ex.
destruct (exec_mapped_spec _ _ _ _ _ _ Hd Ex) as [(err&->&Hab)|([]&db1&->&Hsem&Hact1)]; cbn; [by left|].
set (t0 := tx_with_ID t (fresh_id rt 0 (tx_ID t))) in *.
destruct (rep_insert_tx db m (Pg.tx_row t0) (tx_with_ID t (Mem.fresh_ID rt' 0 (tx_ID t))) db1 Hr)
  as (Hnone&Hfree&Hr1); [by split; cbn; try done; apply micros_idem|exact Hsem|].
cbn in Hnone, Hfree, Hr1. rewrite Hid in Hnone, Hr1. rewrite Hu in Hfree.
assert (Hempty : rows_of m (uuid_text u) = []).
{ pose proof (rep_steps _ _ Hr u) as Hs. assert (steps_of db u = []) as E0; [|rewrite E0 in Hs; by inversion Hs].
  unfold steps_of. destruct (List.filter _ (db_steps db)) as [|s l] eqn:Ef; [done|].
  assert (In s (s :: l)) as Hin by by left. rewrite <- Ef in Hin. apply filter_In in Hin as [Hin Hs'].
  destruct (Hfree s); [by apply list_elem_of_In|lia]. }
clear Ex. destruct (Pg.insert_steps rt 1 steps d1) as [x1 d2] eqn:Ex.
destruct (insert_steps_rep rt steps u 1 1 c d1 db1 _ x1 d2 Hsteps Hact1 Hr1 Ex)
  as [(err&->&Hab)|(db2&->&Hact2&Hr2)]; cbn; [by left|].
clear Ex. destruct (Pg.exec_mapped _ d2) as [x2 d3] eqn:Ex.
destruct (exec_mapped_spec _ _ _ _ _ _ Hact2 Ex) as [(err&->&Hab)|([]&db3&->&Hsem3&Hact3)]; cbn; [by left|].
unfold Pg.insert_saga in Hsem3. cbn [sg_TxID sg_with_ID sg_Payload] in Hsem3.
rewrite Hsaga, with_uuid_text in Hsem3. unfold Pg.with_json in Hsem3.
destruct (jsonb (Pg.EncodeJSON (sg_Payload saga))) as [p|] eqn:Ep; [|done].
pose proof (rep_insert_saga db2 _
  (Pg.to_saga_row (sg_with_ID saga (fresh_id rt (1 + length steps) (sg_ID saga))) u p) _ u db3
  (Hr2 (fun n r => Mem.fresh_ID rt' n (row_ID r))) eq_refl
  (to_saga_row_same saga u p (fresh_id rt (1 + length steps) (sg_ID saga))
     (Mem.fresh_ID rt' (1 + length steps) (sg_ID saga)) Hsaga Ep) Hsem3) as Hr3.
clear Ex. destruct (Pg.insert_events rt _ events d3) as [x3 d4] eqn:Ex.
destruct (insert_events_rep rt events _ (2 + length steps) c d3 db3 _ x3 d4 Hevs Hact3 Hr3 Ex)
  as [(err&->&Hab)|(db4&->&Hact4&_&Hr4)]; [by left|right].
exists db4. specialize (Hr4 (fun n e => Mem.fresh_ID rt' n (ev_ID e))).
unfold Mem.CreateTx. rewrite Hid, Hnone. cbn. split_and!; [done| |done].
cbn in Hr4. unfold rows_of in Hr4. cbn in Hr4. fold (rows_of m (uuid_text u)) in Hr4.
rewrite Hempty in Hr4. exact Hr4.
Qed.
(** No transaction of the tables has the id [u]. *)
Definition unused (u : UUID) (db : Db) : Prop := Forall (fun t => tx_ID t <> u) (db_transactions db).

(** A row that refers to a transaction that is not there is refused. *)
Lemma insert_refused {r} (t : table r) row u db :
reference t row = Some u -> unused u db -> ~ exists db', sem (Insert t row) db tt db'.
Proof.
intros Hu Hun (db'&_&Hf&_). destruct (refers_tx t row db u Hf Hu) as (tx&Hin&Htx).
unfold unused in Hun. rewrite Forall_forall in Hun. by apply (Hun tx).
Qed.

(** A creation under an id that is not the transaction's own breaks a foreign
  key with its first step row, or with its saga row. *)
Lemma create_refused rt t steps saga events u (d : D) c db r d' :
session_of d = Active c db -> unused u db -> fresh_id rt 0 (tx_ID t) <> u ->
Forall (fun r => row_TxID r = uuid_text u) steps -> sg_TxID saga = uuid_text u ->
Pg.CreateTx rt t steps saga events d = (r, d') ->
(exists e, r = Err e) /\ session_of d' = Aborted c.
Proof.
intros Hd Hu Hne Hsteps Hsaga. unfold Pg.CreateTx, tx_bind.
destruct (Pg.exec_mapped _ d) as [x d1] eqn:Ex.
destruct (exec_mapped_spec _ _ _ _ _ _ Hd Ex) as [(e&->&Hab)|([]&db1&->&Hsem&Hact)].
{ intros [= <- <-]. by eauto. }
destruct Hsem as (_&_&->). set (db1 := set_rows _ _ _) in Hact.
assert (unused u db1) as Hu1.
{ apply (Forall_app _ (db_transactions db)). split; [exact Hu|]. constructor; [exact Hne|constructor]. }
clear Ex. destruct steps as [|row steps]; cbn [Pg.insert_steps].
- unfold tx_ret. destruct (Pg.exec_mapped _ d1) as [x1 d2] eqn:Ex.
  destruct (exec_mapped_spec _ _ _ _ _ _ Hact Ex) as [(e&->&Hab)|([]&db2&->&Hsem&_)].
  { intros [= <- <-]. by eauto. }
  unfold Pg.insert_saga in Hsem. cbn [sg_TxID sg_with_ID sg_Payload] in Hsem.
  rewrite Hsaga, with_uuid_text in Hsem. unfold Pg.with_json in Hsem.
  destruct (jsonb _); [|done]. exfalso.
  eapply (insert_refused saga_state); [|exact Hu1|exists db2; exact Hsem]. done.
- apply Forall_cons in Hsteps as [Hrow _]. unfold tx_bind.
  destruct (Pg.exec_mapped _ d1) as [x1 d2] eqn:Ex.
  destruct (exec_mapped_spec _ _ _ _ _ _ Hact Ex) as [(e&->&Hab)|([]&db2&->&Hsem&_)].
  { intros [= <- <-]. by eauto. }
  unfold Pg.insert_step in Hsem. cbn [row_TxID row_with_ID] in Hsem. rewrite Hrow, with_uuid_text in Hsem.
  exfalso.
  eapply (insert_refused transaction_steps); [|exact Hu1|exists db2; exact Hsem]. done.
Qed.

Lemma create_rolled_back rt t steps saga events u (d : D) c :
session_of d = Idle c -> unused u c -> fresh_id rt 0 (tx_ID t) <> u ->
Forall (fun r => row_TxID r = uuid_text u) steps -> sg_TxID saga = uuid_text u ->
exists e d', Pg.RunInTx (Pg.CreateTx rt t steps saga events) d = (Err e, d') /\
  session_of d' = Idle c.
Proof.
intros Hd Hu Hne Hsteps Hsaga. unfold Pg.RunInTx.
destruct (pg_begin d) as [[e|] d1] eqn:Eb; pose proof (begin_spec d c _ d1 Hd Eb) as Hd1; cbn in Hd1.
{ by exists e, d1. }
destruct (Pg.CreateTx _ _ _ _ _ d1) as [r d2] eqn:Ec.
destruct (create_refused _ _ _ _ _ u d1 c c r d2 Hd1 Hu Hne Hsteps Hsaga Ec) as [[e ->] Hab].
exists e, (pg_rollback d2). split; [done|]. by apply rollback_aborted.
Qed.
End Ops.
