(* ===== verification/PgSaga.v ===== *)
(** The saga on PostgreSQL: every unit of work of the executor, committed there,
    did what it does in memory; and what the foreign keys make of the rows the
    API creates. *)

From S2P Require Import Prelude StateMachine Store Partner Steps Lease Executor Sql PgStore.
From S2P Require Import PgSim PgTables PgOps.

Local Open Scope Z_scope.

(** ** The units of work

    Every closure the program hands to [RunInTx], but for the relay's claim. *)
Inductive saga_unit (P : Type) :=
  | UCreate (t : Transaction) (steps : list StepRow) (saga : SagaState) (events : list OutboxEvent)
  | UBegin (step : StepImpl P) (sc : SagaContext P)
  | USuccess (step : StepImpl P) (sc : SagaContext P) (res : StepResult) (finished : Z)
  | UTerminal (step : StepImpl P) (sc : SagaContext P) (res : StepResult) (finished : Z)
  | UFailure (step : StepImpl P) (sc : SagaContext P) (finished : Z) (err : error)
  | UCompensating (txID : string) (name : Step)
  | UCompensated (txID : string) (name : Step)
  | UCompensationFailed (txID : string) (name : Step) (err : error)
  | UCascade (tx : Transaction) (sg : SagaState) (txID : string) (target : State)
  | UConfirmed (txID : string) (sg : SagaState) (tx : Transaction)
  | UPublished (ids : list string) (at_ : Z).
Arguments UCreate {P}. Arguments UBegin {P}. Arguments USuccess {P}. Arguments UTerminal {P}.
Arguments UFailure {P}. Arguments UCompensating {P}. Arguments UCompensated {P}.
Arguments UCompensationFailed {P}. Arguments UCascade {P}. Arguments UConfirmed {P}.
Arguments UPublished {P}.

Definition unit_result {P} (u : saga_unit P) : Type :=
  match u with UBegin _ _ => bool | _ => unit end.

Definition unit_tx {P S} `{GoStd} `{Store S} (u : saga_unit P) (rt : Runtime) : Tx S (unit_result u) :=
  match u with
  | UCreate t steps saga events => CreateTx rt t steps saga events
  | UBegin step sc => begin_attempt step sc rt
  | USuccess step sc res fin => persist_success step sc res fin rt
  | UTerminal step sc res fin => persist_terminal step sc res fin rt
  | UFailure step sc fin err => record_failure step sc fin err
  | UCompensating id name => compensating_unit id name
  | UCompensated id name => mark_unit id name StepCompensated row_Error
  | UCompensationFailed id name err =>
      mark_unit id name StepFailed (fun _ => "compensation: " +:+ Error err)
  | UCascade tx sg id target => compensated_unit tx sg id target rt
  | UConfirmed id sg tx => confirmed_unit id sg tx rt
  | UPublished ids at_ => MarkOutboxPublished ids at_
  end.

Section Units.
Context `{GoStd} `{JsonLaws} `{UuidLaws} {D : Type} {PD : Postgres D} {PL : PostgresLaws D}.
Context (collate : string -> string -> bool) {P : Type}.

#[local] Instance pg_store : Store D := Pg.PgStore_Store collate.

(** The unit works on the records of the transaction with the canonical id of
  [u]. *)
Definition unit_on (w : saga_unit P) (u : UUID) : Prop :=
match w with
| UCreate t steps saga events => creatable u t steps saga events
| UBegin _ sc | USuccess _ sc _ _ | UTerminal _ sc _ _ | UFailure _ sc _ _ =>
    tx_TxID (sc_Tx sc) = uuid_text u /\ sg_TxID (sc_Saga sc) = uuid_text u
| UCompensating id _ | UCompensated id _ | UCompensationFailed id _ _ => id = uuid_text u
| UCascade _ sg id _ | UConfirmed id sg _ => id = uuid_text u /\ sg_TxID sg = uuid_text u
| UPublished ids _ => Forall (fun id => exists v, id = uuid_text v) ids
end.

(** A creation stores the transaction with [u] as its [id] too. *)
Definition under_own_id (w : saga_unit P) (rt : Runtime) (u : UUID) : Prop :=
match w with UCreate t _ _ _ => fresh_id rt 0 (tx_ID t) = u | _ => True end.

(** What is asked of a unit on the tables [c]: of a creation that draws another
  [id], as those of the API do, that no transaction has the [id] [u]. *)
Definition unit_about (w : saga_unit P) (rt : Runtime) (u : UUID) (c : Db) : Prop :=
unit_on w u /\ (under_own_id w rt u \/ unused u c).

(** The runtime's fresh ids are UUIDs. *)
Definition uuid_runtime (rt : Runtime) : Prop :=
forall i, exists v, rt_uuid_string rt i = uuid_text v.

Lemma attempt_row_keyed_pg (step : StepImpl P) sc st started finished err :
keyed (attempt_row step sc st started finished err).
Proof. done. Qed.

Lemma same_row_refl r : same_row r r.
Proof. by split. Qed.

Lemma same_saga_refl g : same_saga g g.
Proof. by split. Qed.

Lemma stays_if {A} (b : bool) (f g : Tx D A) : stays f -> stays g -> stays (if b then f else g).
Proof. by destruct b. Qed.

Lemma stays_UpdateStep row : stays (Pg.UpdateStep (D := D) row).
Proof. apply stays_bind; [apply stays_mapped|]. intros n. apply stays_if; auto with orch. Qed.

Lemma stays_SaveSagaState g : stays (Pg.SaveSagaState (D := D) g).
Proof. apply stays_bind; [apply stays_mapped|]. intros n. apply stays_if; auto with orch. Qed.

Lemma stays_UpdateStatus id st v : stays (Pg.UpdateTransactionStatus (D := D) id st v).
Proof. apply stays_bind; [apply stays_mapped|]. intros n. apply stays_if; auto with orch. Qed.

Lemma stays_insert_events rt evs : forall i, stays (Pg.insert_events (D := D) rt i evs).
Proof. induction evs; intros i; cbn; auto with orch. Qed.

Lemma stays_AppendOutbox rt evs : stays (Pg.AppendOutbox (D := D) rt evs).
Proof. apply stays_insert_events. Qed.

Lemma stays_InsertStep rt row : stays (Pg.InsertStep (D := D) rt row).
Proof. apply stays_mapped. Qed.

Hint Resolve stays_if stays_UpdateStep stays_SaveSagaState stays_UpdateStatus stays_AppendOutbox
  stays_InsertStep same_row_refl same_saga_refl : orch.

Lemma sim_unit_ret E : sim (fun _ _ => True) E (tx_ret tt : Tx D unit) (tx_ret tt).
Proof. by apply sim_ret. Qed.

(** An update whose outcome is ignored, then something else. *)
Lemma sim_skip {A A' B B'} (R : A -> A' -> Prop) (R' : B -> B' -> Prop) E (f : Tx D A) g k k' :
sim R E f g -> sim R' some_error k k' -> stays k ->
sim R' some_error (tx_try f (fun _ => k)) (tx_try g (fun _ => k')).
Proof. apply sim_ignore. Qed.

Lemma sim_attempt_row (step : StepImpl P) sc st started finished err u :
tx_TxID (sc_Tx sc) = uuid_text u ->
sim (fun _ _ => True) both
  (UpdateStep (S := D) (attempt_row step sc st started finished err))
  (UpdateStep (S := MemStore) (attempt_row step sc st started finished err)).
Proof. intros Hid. by apply (sim_UpdateStep _ _ u). Qed.

Lemma step_event_canonical rt (step : StepImpl P) sc evt fin st u :
uuid_runtime rt -> tx_TxID (sc_Tx sc) = uuid_text u ->
Forall canonical_event [step_event rt step sc evt fin st].
Proof.
intros Hrt Hid. destruct (Hrt 0%nat) as [v Hv]. apply Forall_singleton.
split; [cbn; rewrite Hv; apply uuid_text_ne|]. split; [done|]. by exists v, u.
Qed.

Lemma sim_begin_attempt (step : StepImpl P) sc rt u :
tx_TxID (sc_Tx sc) = uuid_text u ->
sim eq some_error (begin_attempt (S := D) step sc rt) (begin_attempt (S := MemStore) step sc rt).
Proof.
intros Hid. unfold begin_attempt. rewrite Hid.
apply (sim_try (fun r r' => same_row r r' /\ keyed r /\ row_TxID r = uuid_text u) eq both some_error).
- apply sim_LoadStep.
- intros r r' (Hs&_&_). rewrite (sr_Status _ _ Hs). case_bool_decide; [by apply sim_ret|].
  apply (sim_bind (fun _ _ => True)); [| |auto with orch].
  + eapply sim_weaken; [|by apply (sim_attempt_row _ _ _ _ _ _ u)]. done.
  + intros [] [] _. by apply sim_ret.
- intros e e' [-> ->]. cbn. apply (sim_bind (fun _ _ => True)); [| |auto with orch].
  + by apply (sim_InsertStep _ _ _ _ u).
  + intros [] [] _. by apply sim_ret.
- intros [r|e].
  + case_bool_decide; [apply stays_ret|]. apply stays_bind; [apply stays_UpdateStep|auto with orch].
  + destruct (errors_Is e ErrNotFound); [|apply stays_fail].
    apply stays_bind; [apply stays_InsertStep|auto with orch].
Qed.

Lemma sim_persist_success (step : StepImpl P) sc res fin rt u :
uuid_runtime rt -> tx_TxID (sc_Tx sc) = uuid_text u -> sg_TxID (sc_Saga sc) = uuid_text u ->
sim (fun _ _ => True) some_error (persist_success (S := D) step sc res fin rt)
  (persist_success (S := MemStore) step sc res fin rt).
Proof.
intros Hrt Hid Hsg. unfold persist_success.
assert (sg_TxID (saga_after step sc res) = uuid_text u) as Hsg'.
{ unfold saga_after. by destruct (if res_Terminal res then _ else _). }
apply (sim_bind (fun _ _ => True)).
- eapply sim_weaken; [|by apply (sim_attempt_row _ _ _ _ _ _ u)]. done.
- intros [] [] _. destruct (validatePath _ _ _); [by apply sim_fail|].
  apply (sim_bind (fun _ _ => True)); [by apply (sim_SaveSagaState _ _ u)| |].
  + intros [] [] _. apply (sim_bind (fun _ _ => True)); [apply sim_UpdateTransactionStatus| |].
    * intros [] [] _. eapply sim_skip; [|apply sim_unit_ret|apply stays_ret].
      apply (sim_AppendOutbox _ _ some_error). by eapply step_event_canonical.
    * intros []. apply stays_try; [apply stays_AppendOutbox|auto with orch].
  + intros []. apply stays_bind; [apply stays_UpdateStatus|]. intros [].
    apply stays_try; [apply stays_AppendOutbox|auto with orch].
- intros []. destruct (validatePath _ _ _); [apply stays_fail|].
  apply stays_bind; [apply stays_SaveSagaState|]. intros [].
  apply stays_bind; [apply stays_UpdateStatus|]. intros [].
  apply stays_try; [apply stays_AppendOutbox|auto with orch].
Qed.

(** The ends of the units that save a snapshot and ignore what fails. *)
Lemma sim_ignored_end rt g id st v evs u :
sg_TxID g = uuid_text u -> Forall canonical_event evs ->
sim (fun _ _ => True) some_error
  (tx_try (SaveSagaState (S := D) g) (fun _ =>
     tx_try (UpdateTransactionStatus (S := D) rt id st v) (fun _ =>
       tx_try (AppendOutbox (S := D) rt evs) (fun _ => tx_ret tt))))
  (tx_try (SaveSagaState (S := MemStore) g) (fun _ =>
     tx_try (UpdateTransactionStatus (S := MemStore) rt id st v) (fun _ =>
       tx_try (AppendOutbox (S := MemStore) rt evs) (fun _ => tx_ret tt)))).
Proof.
intros Hid Hevs.
assert (stays (tx_try (AppendOutbox (S := D) rt evs) (fun _ => tx_ret tt))) as Hst
  by (apply stays_try; [apply stays_AppendOutbox|auto with orch]).
eapply sim_skip; [by apply (sim_SaveSagaState _ _ u)| |].
- eapply sim_skip; [apply sim_UpdateTransactionStatus| |done].
  eapply sim_skip; [by apply (sim_AppendOutbox _ _ some_error)|apply sim_unit_ret|apply stays_ret].
- by apply stays_try; [apply stays_UpdateStatus|].
Qed.

Lemma sim_persist_terminal (step : StepImpl P) sc res fin rt u :
uuid_runtime rt -> tx_TxID (sc_Tx sc) = uuid_text u -> sg_TxID (sc_Saga sc) = uuid_text u ->
sim (fun _ _ => True) some_error (persist_terminal (S := D) step sc res fin rt)
  (persist_terminal (S := MemStore) step sc res fin rt).
Proof.
intros Hrt Hid Hsg. unfold persist_terminal.
eapply sim_skip; [by apply (sim_attempt_row _ _ _ _ _ _ u)| |].
- destruct (snd (Transition _ _)); [by apply sim_fail|].
  apply (sim_ignored_end _ _ _ _ _ _ u); [done|by eapply step_event_canonical].
- destruct (snd (Transition _ _)); [apply stays_fail|].
  apply stays_try; [apply stays_SaveSagaState|]. intros _.
  apply stays_try; [apply stays_UpdateStatus|]. intros _.
  apply stays_try; [apply stays_AppendOutbox|auto with orch].
Qed.

Lemma row_with_status_same r r' st err err' :
same_row r r' -> err = err' -> same_row (row_with_status r st err) (row_with_status r' st err').
Proof. intros [] ->. by split. Qed.

(** Marking the first row of a step. *)
Lemma sim_remark r r' u st err err' :
same_row r r' -> keyed r -> row_TxID r = uuid_text u -> err = err' ->
sim (fun _ _ => True) some_error
  (tx_try (UpdateStep (S := D) (row_with_status r st err)) (fun _ => tx_ret tt))
  (tx_try (UpdateStep (S := MemStore) (row_with_status r' st err')) (fun _ => tx_ret tt)).
Proof.
intros Hs Hk Hid He. eapply sim_skip; [|apply sim_unit_ret|apply stays_ret].
apply (sim_UpdateStep _ _ u); [done|by apply row_with_status_same|done].
Qed.

Lemma sim_mark_unit name st err u :
(forall r r', same_row r r' -> err r = err r') ->
sim (fun _ _ => True) some_error (mark_unit (S := D) (uuid_text u) name st err)
  (mark_unit (S := MemStore) (uuid_text u) name st err).
Proof.
intros Herr. unfold mark_unit. eapply sim_try; [apply sim_LoadStep|..].
- intros r r' (Hs&Hk&Hid). cbn. rewrite <- (sr_TxID _ _ Hs), Hid.
  rewrite bool_decide_eq_false_2 by apply uuid_text_ne. apply (sim_remark r r' u); auto.
- intros e e' [-> ->]. apply sim_unit_ret.
- intros r. apply stays_if; [apply stays_ret|].
  apply stays_try; [apply stays_UpdateStep|auto with orch].
Qed.

Lemma sim_compensating_unit name u :
sim (fun _ _ => True) some_error (compensating_unit (S := D) (uuid_text u) name)
  (compensating_unit (S := MemStore) (uuid_text u) name).
Proof.
unfold compensating_unit. eapply sim_try; [apply sim_LoadStep|..].
- intros r r' (Hs&Hk&Hid). apply (sim_remark r r' u); [done..|apply (sr_Error _ _ Hs)].
- intros e e' [-> ->]. apply sim_unit_ret.
- intros [r|e]; [|apply stays_ret]. apply stays_try; [apply stays_UpdateStep|auto with orch].
Qed.

Lemma sim_confirmed_unit id sg tx rt u :
uuid_runtime rt -> id = uuid_text u -> sg_TxID sg = uuid_text u ->
sim (fun _ _ => True) some_error (confirmed_unit (S := D) id sg tx rt)
  (confirmed_unit (S := MemStore) id sg tx rt).
Proof.
intros Hrt -> Hsg. unfold confirmed_unit. destruct (snd (Transition _ _)); [by apply sim_fail|].
assert (Forall canonical_event [confirmed_event rt (uuid_text u) sg]) as Hev.
{ destruct (Hrt 0%nat) as [v Hv]. apply Forall_singleton.
  split; [cbn; rewrite Hv; apply uuid_text_ne|]. split; [done|]. by exists v, u. }
assert (stays (tx_try (AppendOutbox (S := D) rt [confirmed_event rt (uuid_text u) sg])
  (fun _ => tx_ret tt))) as Hst by (apply stays_try; [apply stays_AppendOutbox|auto with orch]).
apply (sim_bind (fun _ _ => True)); [by apply (sim_SaveSagaState _ _ u)| |].
- intros [] [] _. apply (sim_bind (fun _ _ => True)); [apply sim_UpdateTransactionStatus| |done].
  intros [] [] _. eapply sim_skip; [|apply sim_unit_ret|apply stays_ret].
  by apply (sim_AppendOutbox _ _ some_error).
- intros []. by apply stays_bind; [apply stays_UpdateStatus|].
Qed.

(** A simulation with results that are equal. *)
Definition refines {A} (f : Tx D A) (g : Tx MemStore A) : Prop :=
exists R : A -> A -> Prop, (forall a b, R a b -> a = b) /\ sim R some_error f g.

Lemma refines_unit (f : Tx D unit) (g : Tx MemStore unit) :
sim (fun _ _ => True) some_error f g -> refines f g.
Proof. intros Hs. exists (fun _ _ => True). split; [by intros [] []|done]. Qed.

Lemma unit_refines (w : saga_unit P) rt u :
unit_on w u -> under_own_id w rt u -> uuid_runtime rt ->
refines (unit_tx (S := D) w rt) (unit_tx (S := MemStore) w rt).
Proof.
intros Ha Hown Hrt. destruct w; cbn in Ha, Hown |- *; [|exists eq; split; [done|]|apply refines_unit..].
- apply refines_unit. by apply (sim_CreateTx _ _ u).
- destruct Ha. by apply (sim_begin_attempt _ _ _ u).
- destruct Ha. by apply (sim_persist_success _ _ _ _ _ u).
- destruct Ha. by apply (sim_persist_terminal _ _ _ _ _ u).
- destruct Ha. eapply sim_weaken; [|by apply (sim_attempt_row _ _ _ _ _ _ u)]. done.
- subst. apply sim_compensating_unit.
- subst. apply sim_mark_unit. intros r r' Hs. apply (sr_Error _ _ Hs).
- subst. by apply sim_mark_unit.
- destruct Ha as [-> Ha]. unfold compensated_unit. apply (sim_ignored_end _ _ _ _ _ _ u); [done|].
  destruct (Hrt 0%nat) as [v Hv]. apply Forall_singleton.
  split; [cbn; rewrite Hv; apply uuid_text_ne|]. split; [done|]. by exists v, u.
- destruct Ha. by apply (sim_confirmed_unit _ _ _ _ u).
- by apply sim_MarkOutboxPublished.
Qed.

(** A unit of work of the saga on the two stores. *)
Lemma unit_committed (w : saga_unit P) rt u (d : D) c m :
unit_about w rt u c -> uuid_runtime rt -> session_of d = Idle c -> represents c m ->
let '(r, d') := RunInTx (unit_tx w rt) d in
let '(r', m') := RunInTx (unit_tx w rt) m in
match r with
| Ok a => r' = Ok a /\ exists c', session_of d' = Idle c' /\ represents c' m'
| Err _ => session_of d' = Idle c \/
    exists a c', r' = Ok a /\ session_of d' = Idle c' /\ represents c' m'
end.
Proof.
intros [Hon Hown] Hrt Hd Hr.
assert (under_own_id w rt u \/ exists e d', Pg.RunInTx (unit_tx (S := D) w rt) d = (Err e, d') /\
  session_of d' = Idle c) as [Hid|(e&d'&E&Hd')].
{ destruct Hown as [Hid|Hun]; [by left|]. destruct w; try (by left). cbn in Hon |- *.
  destruct (decide (fresh_id rt 0 (tx_ID t) = u)) as [Hid|Hne]; [by left|right].
  destruct Hon as [_ Hst Hsg _]. apply (create_rolled_back rt t steps saga events u); [done..| |done].
  eapply Forall_impl; [exact Hst|]. by intros r []. }
2:{ change (RunInTx (unit_tx w rt) d) with (Pg.RunInTx (unit_tx (S := D) w rt) d). rewrite E.
    destruct (RunInTx (unit_tx w rt) m). by left. }
destruct (unit_refines w rt u Hon Hid Hrt) as (R&HR&Hs).
pose proof (RunInTx_sim R some_error _ _ d c m Hs Hd Hr) as Hrun.
change (RunInTx (unit_tx w rt) d) with (Pg.RunInTx (unit_tx (S := D) w rt) d).
change (RunInTx (unit_tx w rt) m) with (Mem.RunInTx (unit_tx (S := MemStore) w rt) m).
destruct (Pg.RunInTx _ d) as [[a|e] d'], (Mem.RunInTx _ m) as [r' m'].
- destruct Hrun as (a'&c'&->&->%HR&?&?). eauto.
- destruct Hrun as [|(a'&c'&->&?&?)]; eauto 10.
Qed.

(** C15: PostgreSQL refines the in-memory store.  Run from tables that represent
    a [MemStore], a unit of work of the saga that returns without an error
    answered what it answers in memory and committed tables that represent the
    memory it leaves; one that returns an error committed nothing, unless the
    commit itself went through unacknowledged.  The creations include those
    that draw another [id] than the [TxID], as the API's do: the foreign keys
    refuse these and nothing is committed. *)
Theorem pg_refines_memstore (w : saga_unit P) rt u (d : D) c m :
unit_about w rt u c -> uuid_runtime rt -> session_of d = Idle c -> represents c m ->
let '(r, d') := RunInTx (unit_tx w rt) d in
let '(r', m') := RunInTx (unit_tx w rt) m in
match r with
| Ok a => r' = Ok a /\ exists c', session_of d' = Idle c' /\ represents c' m'
| Err _ => session_of d' = Idle c \/
    exists a c', r' = Ok a /\ session_of d' = Idle c' /\ represents c' m'
end.
Proof. apply unit_committed. Qed.
End Units.
