(* ===== verification/PgFacts.v ===== *)
(** The PostgreSQL store in the service: what the foreign keys make of the rows
    the API creates, what a claim takes, the start of the store, and a concrete
    server for the witnesses. *)

From S2P Require Import Prelude StateMachine Store StoreFacts Partner Steps Lease Executor Worker.
From S2P Require Import Api Scenario.
From S2P Require Import Returns Sql Migrations PgStore PgSim PgTables PgOps PgSaga.

Local Open Scope Z_scope.
Local Open Scope go_scope.

(** ** Creation through the API

    [transaction_steps.tx_id] and [saga_state.tx_id] refer to
    [transactions.id]; [handleCreate] gives them the [TxID] and leaves the id to
    be drawn. *)

Section Create.
Context `{GoStd} `{UuidLaws} `{Json} {D : Type} {PD : Postgres D} {PL : PostgresLaws D}.
Context (collate : string -> string -> bool).

Context {P L K : Type} `{LeaseManager L} `{Locker K} (env : nat -> Runtime).
Context (order : list (string * string) -> list (string * string)).

#[local] Instance api_store : Store D := Pg.PgStore_Store collate.

Definition store_session (v : Server D P L K) : session := session_of (w_store (n_world (sv_node v))).

(** C19: with the PostgreSQL store no transaction can be created through the API:
    whatever the request, the response is not 201 and the tables stay as they
    are, because the step rows' [tx_id] is not the [id] the transaction is
    inserted under. *)
Theorem pg_creation_fails body (v : Server D P L K) c :
store_session v = Idle c ->
(forall k, exists u, rt_uuid_string (env k) 0 = uuid_text u /\ unused u c /\
   rt_uuid (env (S k)) 0 <> u) ->
exists resp v', handleCreate env order body v = (Returned resp, v') /\
  fst resp <> StatusCreated /\ store_session v' = Idle c.
Proof.
intros Hv Hids. unfold handleCreate. destruct body as [req|]; [|by eexists _, v].
destruct (validateCreate order req); [by eexists _, v|].
destruct v as [[[s [p calls k] l] disp] lk]. unfold store_session in Hv. cbn in Hv.
unfold bind at 1, zoom at 1. cbn [sv_lock].
destruct (LockAcquire (rq_QuoteID req) lk) as [[[rel ok] err] lk1]. cbn [set_lock sv_node].
destruct err; [by eexists _, _|]. destruct ok; cbn [negb]; [|by eexists _, _].
destruct (Hids k) as (u&Htx&Hu&Hne). unfold bind at 1. cbn. rewrite Htx.
destruct (create_rolled_back (env (S k)) (new_tx (uuid_text u) (rt_now (env k)) req)
  (new_steps (uuid_text u)) (new_saga (uuid_text u))
  (new_events (env k) (uuid_text u) (rt_now (env k)) req) u s c Hv Hu) as (e&s'&E&Hs');
  [done|by repeat constructor|done|].
unfold new_steps, StepOrder in E. cbn [map] in E.
unfold bind, on_store, on_node, on_world, run_in_tx, zoom, modify, ret, bind, in_ext, zoom, runtime.
cbn -[Pg.RunInTx Pg.CreateTx]. rewrite E.
destruct (errors_Is e ErrDuplicate); by eexists _, _.
Qed.
End Create.

(** ** Reading outside a unit of work *)

(** [StateOther] stands for the texts that are no state of the machine. *)
Definition proper_state (st : State) : Prop :=
  match st with StateOther s => s ∉ ["COMPLETED"; "FAILED_COMPENSATED"; "FAILED"] | _ => True end.

Lemma not_terminal_text st :
  proper_state st ->
  bool_decide (State_string st ∉ ["COMPLETED"; "FAILED_COMPENSATED"; "FAILED"]) = negb (Terminal st).
Proof.
  destruct st as [| | | | | | | | | | |s]; try (intros _; vm_compute; reflexivity).
  intros Hs. by apply bool_decide_eq_true_2.
Qed.

Section Reads.
Context `{GoStd} `{JsonLaws} `{UuidLaws} {D : Type} {PD : Postgres D} {PL : PostgresLaws D}.
Context (collate : string -> string -> bool).

Lemma query_ok {A} (s : stmt A) (d : D) c a :
session_of d = Idle c -> Pg.query s d = Ok a -> sem s c a c.
Proof.
intros Hd Hq. unfold Pg.query in Hq. destruct (pg_query s d) as [e|b] eqn:E; [done|].
injection Hq as <-. by eapply query_spec.
Qed.

(** The error a query of the server ended with. *)
Definition query_failed {A} (s : stmt A) (d : D) (e : error) : Prop :=
exists q, pg_query s d = inl q /\ e = sql_err q.

Lemma query_err {A} (s : stmt A) (d : D) e : Pg.query s d = Err e -> query_failed s d e.
Proof. unfold Pg.query, query_failed. destruct (pg_query s d) as [q|a]; [|done]. intros [= <-]. by exists q. Qed.

Lemma pg_LoadTx u (d : D) c m :
session_of d = Idle c -> represents c m ->
match Pg.LoadTx (uuid_text u) d with
| Ok t => exists t', Mem.LoadTx (uuid_text u) m = Ok t' /\ same_tx t t'
| Err e => query_failed (Pg.select_tx (uuid_text u)) d e \/
           e = ErrNotFound /\ Mem.LoadTx (uuid_text u) m = Err ErrNotFound
end.
Proof.
intros Hd Hr. unfold Pg.LoadTx.
destruct (Pg.query (Pg.select_tx (uuid_text u)) d) as [l|e] eqn:Eq; [|left; by apply query_err].
apply (query_ok _ _ c) in Eq as [_ (l'&El&_&Hp)]; [|done]. cbn in El. subst l'.
cbn [rows] in Hp. rewrite (rep_find_tx c m _ Hr) in Hp. pose proof (rep_txs _ _ Hr (uuid_text u)) as Hx.
unfold Mem.LoadTx.
destruct (find_first (fun t => bool_decide (tx_TxID t = uuid_text u)) (db_transactions c)) as [t1|].
- apply Permutation_singleton_r in Hp. subst l. inversion Hx as [? t' Hs Ea Eb|]; subst.
  by exists t'.
- apply Permutation_nil_r in Hp. subst l. right. inversion Hx. done.
Qed.

Lemma pg_LoadSagaState u (d : D) c m :
session_of d = Idle c -> represents c m ->
match Pg.LoadSagaState (uuid_text u) d with
| Ok g => exists g', Mem.LoadSagaState (uuid_text u) m = Ok g' /\ same_saga g g'
| Err e => query_failed (Pg.select_saga (uuid_text u)) d e \/
           e = ErrNotFound /\ Mem.LoadSagaState (uuid_text u) m = Err ErrNotFound
end.
Proof.
intros Hd Hr. unfold Pg.LoadSagaState.
destruct (Pg.query (Pg.select_saga (uuid_text u)) d) as [l|e] eqn:Eq; [|left; by apply query_err].
unfold Pg.select_saga in Eq. rewrite with_uuid_text in Eq.
apply (query_ok _ _ c) in Eq as [_ (l'&El&_&Hp)]; [|done]. cbn in El. subst l'.
cbn [rows] in Hp. rewrite (rep_find_saga c m _ Hr) in Hp. pose proof (rep_sagas _ _ Hr u) as Hx.
unfold Mem.LoadSagaState.
destruct (find_first (fun g => g_tx_id g =? u) (db_sagas c)) as [g1|].
- apply Permutation_singleton_r in Hp. subst l. inversion Hx as [? g' Hs Ea Eb|]; subst.
  by exists g'.
- apply Permutation_nil_r in Hp. subst l. right. inversion Hx. done.
Qed.

Lemma pg_ListSteps u (d : D) c m :
session_of d = Idle c -> represents c m ->
match Pg.ListSteps collate (uuid_text u) d with
| Ok l => exists l', l' ≡ₚ rows_of m (uuid_text u) /\ Forall2 same_row l l'
| Err e => query_failed (Pg.select_steps collate (uuid_text u)) d e
end.
Proof.
intros Hd Hr. unfold Pg.ListSteps.
destruct (Pg.query _ d) as [l0|e] eqn:Eq; [|by apply query_err].
unfold Pg.select_steps in Eq. rewrite with_uuid_text in Eq.
apply (query_ok _ _ c) in Eq as [_ (l'&El&_&Hp)]; [|done]. cbn in El. subst l'.
cbn [rows] in Hp. fold (steps_of c u) in Hp.
destruct (Forall2_perm _ _ _ _ Hp (rep_steps _ _ Hr u)) as (k&Hk&Hf).
exists k. split; [done|]. by apply Forall2_fmap_l.
Qed.

Lemma Forall2_filter {A B} (R : A -> B -> Prop) p q l k :
Forall2 R l k -> (forall x y, R x y -> p x = q y) ->
Forall2 R (List.filter p l) (List.filter q k).
Proof.
intros Hl Hpq. induction Hl as [|x y l k Hxy Hl IH]; cbn; [done|].
rewrite (Hpq x y Hxy). destruct (q y); [by constructor|done].
Qed.

Lemma Sorted_Forall2 {A B} (R : A -> B -> Prop) (le : A -> A -> Prop) (le' : B -> B -> Prop) l k :
Forall2 R l k -> (forall x x' y y', R x y -> R x' y' -> le x x' -> le' y y') ->
Sorted le l -> Sorted le' k.
Proof.
intros Hl Hle. induction Hl as [|x y l k Hxy Hl IH]; intros Hs; [constructor|].
apply Sorted_inv in Hs as [Hs Hh]. constructor; [by apply IH|].
destruct Hl as [|x' y' l k Hxy' Hl]; [constructor|]. constructor. inversion Hh; subst. by eapply Hle.
Qed.

Lemma micros_mono a b : a <= b -> micros a <= micros b.
Proof. unfold micros. intros Hab. pose proof (Z.div_le_mono a b 1000 ltac:(lia) Hab). lia. Qed.

Lemma by_created_total a b : Pg.by_created a b = true \/ Pg.by_created b a = true.
Proof. unfold Pg.by_created. rewrite !Z.leb_le. lia. Qed.

(** Event [a] was created no later than [b], as far as the column keeps the time. *)
Definition created_before (a b : OutboxEvent) : Prop :=
micros (ev_CreatedAt a) <= micros (ev_CreatedAt b).

Lemma pg_ListOutboxPending limit (d : D) c m :
session_of d = Idle c -> represents c m ->
match Pg.ListOutboxPending limit d with
| Ok l => exists k, k ≡ₚ List.filter Mem.is_pending (mem_outbox m) /\ Sorted created_before k /\
    Forall2 same_event l (take limit k)
| Err e => query_failed (Pg.select_pending limit false) d e
end.
Proof.
intros Hd Hr. unfold Pg.ListOutboxPending.
destruct (Pg.query _ d) as [l|e] eqn:Eq; [|by apply query_err].
apply (query_ok _ _ c) in Eq as [_ (l'&El&Hsort&Hp)]; [|done]. cbn in El. subst l. cbn [rows ordered] in *.
specialize (Hsort by_created_total).
assert (Forall2 (fun e => same_event (Pg.scanEvent e)) (List.filter Pg.pending (db_outbox c))
  (List.filter Mem.is_pending (mem_outbox m))) as Hf.
{ apply Forall2_filter; [apply (rep_outbox _ _ Hr)|]. intros x y Hs. unfold Pg.pending, Mem.is_pending.
  by rewrite <- (se_Status _ _ Hs). }
destruct (Forall2_perm _ _ _ _ Hp Hf) as (k&Hk&Hlk). exists k. split; [done|]. split.
- eapply Sorted_Forall2; [exact Hlk| |exact Hsort]. unfold created_before, Pg.by_created.
  intros x x' y y' Hx Hx' Hle. rewrite <- (se_Created _ _ Hx), <- (se_Created _ _ Hx'). cbn.
  apply micros_mono. lia.
- cbn [limited]. apply Forall2_fmap_l. by apply Forall2_take.
Qed.

Lemma pg_inflight_terminal g :
proper_state (g_state g) -> Pg.inflight g = negb (Terminal (g_state g)).
Proof. apply not_terminal_text. Qed.

(** A row of the table is the saga memory has under its id. *)
Lemma rep_saga_row c m g :
represents c m -> g ∈ db_sagas c ->
exists sg, mem_sagas m !! uuid_text (g_tx_id g) = Some sg /\ sg_State sg = g_state g.
Proof.
intros Hr Hin. pose proof (rep_sagas _ _ Hr (g_tx_id g)) as Hx.
assert (In g (List.filter (fun g' => g_tx_id g' =? g_tx_id g) (db_sagas c))) as Hg.
{ apply filter_In. split; [by apply list_elem_of_In|apply Z.eqb_refl]. }
rewrite (rep_find_saga c m _ Hr) in Hg.
destruct (find_first (fun g' => g_tx_id g' =? g_tx_id g) (db_sagas c)) as [g1|]; [|done].
destruct Hg as [->|[]]. inversion Hx as [? sg Hs Ea Eb|]; subst. exists sg. split; [done|].
by rewrite <- (sg_same_State _ _ Hs).
Qed.

Lemma pg_ListInflightSagaIDs (d : D) c m :
session_of d = Idle c -> represents c m ->
(forall id sg, mem_sagas m !! id = Some sg -> proper_state (sg_State sg)) ->
match Pg.ListInflightSagaIDs d with
| Ok ids => NoDup ids /\ (forall id, id ∈ ids <-> id ∈ inflight_ids m /\ exists u, id = uuid_text u)
| Err e => query_failed (Select saga_state Pg.inflight None None false) d e
end.
Proof.
intros Hd Hr Hprop. unfold Pg.ListInflightSagaIDs.
destruct (Pg.query _ d) as [l|e] eqn:Eq; [|by apply query_err].
apply (query_ok _ _ c) in Eq as [_ (l'&El&_&Hp)]; [|done]. cbn in El. subst l'. cbn [rows] in Hp.
change (map (fun r => uuid_text (g_tx_id r)) l) with ((fun r => uuid_text (g_tx_id r)) <$> l).
split.
- rewrite Hp. change (fun r => uuid_text (g_tx_id r)) with (uuid_text ∘ g_tx_id).
  rewrite list_fmap_compose. apply NoDup_fmap_2_strong.
  { intros a b _ _. apply uuid_text_inj. }
  eapply sublist_NoDup; [exact (rep_saga_ids _ _ Hr)|].
  clear Hp. induction (db_sagas c) as [|g gs IH]; cbn; [done|].
  destruct (Pg.inflight g); cbn; [by apply sublist_skip|by apply sublist_cons].
- intros id. rewrite list_elem_of_fmap, elem_of_inflight. split.
  + intros (g&->&Hin). rewrite Hp, list_elem_of_In, filter_In, <- list_elem_of_In in Hin.
    destruct Hin as [Hin Ht]. destruct (rep_saga_row c m g Hr Hin) as (sg&Hsg&Hst).
    split; [|by eexists]. exists sg. split; [done|]. rewrite Hst.
    rewrite pg_inflight_terminal in Ht by (rewrite <- Hst; by eapply Hprop). by apply negb_true_iff.
  + intros ((sg&Hsg&Ht)&u&->). pose proof (rep_sagas _ _ Hr u) as Hx. rewrite Hsg in Hx.
    destruct (find_first _ (db_sagas c)) as [g|] eqn:Ef; [|by inversion Hx].
    apply find_first_Some in Ef as [Hin Hu]. apply Z.eqb_eq in Hu. exists g.
    assert (same_saga (Pg.scanSaga g) sg) as Hs by by inversion Hx.
    pose proof (sg_same_State _ _ Hs) as Hst. cbn in Hst. rewrite <- Hu. split; [done|].
    rewrite Hp, list_elem_of_In, filter_In. split; [by apply list_elem_of_In|].
    rewrite pg_inflight_terminal by (rewrite Hst; by eapply Hprop). by rewrite Hst, Ht.
Qed.

(** C34: what each of the five reads of the PostgreSQL store outside a unit of
  work answers is what memory holds: a transaction and a saga as they are,
  [ErrNotFound] only when memory finds none either; the step rows of a
  transaction up to their order; the oldest pending events up to the limit
  (where memory takes the first it appended); and, for the recovery, the sagas
  in flight, each once, when their states are states of the machine.  An error
  is otherwise the error the server answered
  the query with. *)
Theorem pg_reads_refine u limit (d : D) c m :
session_of d = Idle c -> represents c m ->
match Pg.LoadTx (uuid_text u) d with
| Ok t => exists t', Mem.LoadTx (uuid_text u) m = Ok t' /\ same_tx t t'
| Err e => query_failed (Pg.select_tx (uuid_text u)) d e \/
           e = ErrNotFound /\ Mem.LoadTx (uuid_text u) m = Err ErrNotFound
end /\
match Pg.LoadSagaState (uuid_text u) d with
| Ok g => exists g', Mem.LoadSagaState (uuid_text u) m = Ok g' /\ same_saga g g'
| Err e => query_failed (Pg.select_saga (uuid_text u)) d e \/
           e = ErrNotFound /\ Mem.LoadSagaState (uuid_text u) m = Err ErrNotFound
end /\
match Pg.ListSteps collate (uuid_text u) d with
| Ok l => exists l', Mem.ListSteps (uuid_text u) m = Ok l' /\ exists k, k ≡ₚ l' /\ Forall2 same_row l k
| Err e => query_failed (Pg.select_steps collate (uuid_text u)) d e
end /\
match Pg.ListOutboxPending limit d with
| Ok l => exists k, k ≡ₚ List.filter Mem.is_pending (mem_outbox m) /\ Sorted created_before k /\
    Forall2 same_event l (take limit k) /\
    ((0 < limit)%nat -> Mem.ListOutboxPending limit m =
       Ok (take limit (List.filter Mem.is_pending (mem_outbox m))))
| Err e => query_failed (Pg.select_pending limit false) d e
end /\
((forall id sg, mem_sagas m !! id = Some sg -> proper_state (sg_State sg)) ->
 match Pg.ListInflightSagaIDs d with
 | Ok ids => exists ids', Mem.ListInflightSagaIDs m = Ok ids' /\ NoDup ids /\
     forall id, id ∈ ids <-> id ∈ ids' /\ exists v, id = uuid_text v
 | Err e => query_failed (Select saga_state Pg.inflight None None false) d e
 end).
Proof.
intros Hd Hr. split_and!.
- by apply (pg_LoadTx u d c m).
- by apply (pg_LoadSagaState u d c m).
- pose proof (pg_ListSteps u d c m Hd Hr) as Hl. destruct (Pg.ListSteps _ _ d); [|done].
  by eexists.
- pose proof (pg_ListOutboxPending limit d c m Hd Hr) as Hl.
  destruct (Pg.ListOutboxPending _ d); [|done]. destruct Hl as (k&?&?&?). exists k. split_and!; try done.
  intros Hlim. unfold Mem.ListOutboxPending. by rewrite list_pending_take, Nat.sub_0_r.
- intros Hprop. pose proof (pg_ListInflightSagaIDs d c m Hd Hr Hprop) as Hl.
  destruct (Pg.ListInflightSagaIDs d); [|done]. by eexists.
Qed.
End Reads.

(** ** Claiming events *)

Section Claim.
Context `{Json} `{UuidLaws} {D : Type} {PD : Postgres D} {PL : PostgresLaws D}.

(** The rows of [l], by event id. *)
Definition claimed_in (l : list event_row) (r : event_row) : bool :=
existsb (fun x => e_event_id x =? e_event_id r) l.

Definition flip (l : list event_row) (r : event_row) : event_row :=
if claimed_in l r then Pg.set_inflight r else r.

Lemma flip_ids l rows : map e_event_id (map (flip l) rows) = map e_event_id rows.
Proof. rewrite map_map. apply map_ext. intros r. unfold flip. by destruct (claimed_in l r). Qed.

Lemma mark_inflight_spec l : forall (d : D) c db r d',
session_of d = Active c db -> Pg.mark_inflight (map Pg.scanEvent l) d = (r, d') ->
(exists e, r = Err e /\ session_of d' = Aborted c) \/
(r = Ok tt /\ session_of d' = Active c (set_rows outbox_events (map (flip l) (db_outbox db)) db)).
Proof.
induction l as [|x l IH]; intros d c db r d' Hd Hrun; cbn in Hrun.
{ injection Hrun as <- <-. right. split; [done|]. rewrite Hd. f_equal.
  rewrite (map_ext _ id) by done. rewrite map_id. by destruct db. }
unfold tx_bind in Hrun. destruct (Pg.exec_mapped _ d) as [y d1] eqn:Ex.
destruct (exec_mapped_spec _ _ _ _ _ _ Hd Ex) as [(e&->&Hab)|(n&db1&->&Hsem&Hact)].
{ injection Hrun as <- <-. left. by exists e. }
unfold Pg.update_inflight in Hsem. rewrite with_uuid_text in Hsem. destruct Hsem as [_ [now ->]].
destruct (IH d1 c _ r d' Hact Hrun) as [|[-> Hact']]; [by left|right]. split; [done|].
rewrite Hact'. f_equal. cbn. f_equal. unfold update_rows. rewrite map_map. apply map_ext. intros y.
unfold flip, claimed_in. cbn [existsb]. rewrite (Z.eqb_sym (e_event_id y)).
destruct (e_event_id x =? e_event_id y); cbn; [|done]. by destruct (existsb _ l).
Qed.

Lemma Sorted_take {A} (R : A -> A -> Prop) n l : Sorted R l -> Sorted R (take n l).
Proof.
revert n. induction l as [|x l IH]; intros [|n] Hs; cbn; try constructor.
- apply IH. by apply Sorted_inv in Hs as [? _].
- apply Sorted_inv in Hs as [_ Hh]. destruct l, n; cbn; try constructor. by inversion Hh.
Qed.

Lemma Sorted_weaken {A} (R R' : A -> A -> Prop) l :
Sorted R l -> (forall a b, R a b -> R' a b) -> Sorted R' l.
Proof.
intros Hs HR. induction Hs as [|a k Hs IH Hh]; constructor; [done|]. inversion Hh; constructor. auto.
Qed.

(** What one claim did. *)
Lemma claim_once limit (d : D) c evs d' :
session_of d = Idle c -> Pg.RunInTx (Pg.ClaimOutboxPending limit) d = (Ok evs, d') ->
exists l l', evs = map Pg.scanEvent l /\ (length l <= limit)%nat /\
  Sorted (fun a b => e_created_at a <= e_created_at b) l /\
  l `prefix_of` l' /\ l' ⊆+ List.filter Pg.pending (db_outbox c) /\
  session_of d' = Idle (set_rows outbox_events (map (flip l) (db_outbox c)) c).
Proof.
intros Hd. unfold Pg.RunInTx.
destruct (pg_begin d) as [[e|] d1] eqn:Eb; [done|]. pose proof (begin_spec d c _ d1 Hd Eb) as Hd1.
cbn in Hd1. unfold Pg.ClaimOutboxPending, tx_bind.
destruct (Pg.exec_raw _ d1) as [x d2] eqn:Ex.
destruct (exec_raw_spec _ _ _ _ _ _ Hd1 Ex) as [(e&->&Hab)|(l&db2&->&Hsem&Hact)]; [done|].
destruct Hsem as (->&l'&El&Hsort&Hsub). cbn [rows limited ordered] in *.
specialize (Hsort by_created_total).
destruct (Pg.mark_inflight (map Pg.scanEvent l) d2) as [y d3] eqn:Em.
destruct (mark_inflight_spec l d2 c c y d3 Hact Em) as [(e&->&Hab)|[-> Hact3]]; [done|].
unfold tx_ret. destruct (pg_commit d3) as [[e|] d4] eqn:Ec; [done|]. intros [= <- <-].
pose proof (commit_spec d3 c _ _ d4 Hact3 Ec) as Hd4. cbn in Hd4. exists l, l'. subst l.
split_and!; [done|rewrite length_take; lia| |apply prefix_take|done|done].
apply Sorted_take. eapply Sorted_weaken; [exact Hsort|]. unfold Pg.by_created. intros a b Hab. lia.
Qed.

(** C35: a claim that commits takes at most [limit] pending events, the oldest of
  those it saw first, leaves exactly these in flight and every other row as it
  was, and no later claim takes one of them again. *)
Theorem pg_claim limit (d : D) c evs d' :
session_of d = Idle c -> Pg.RunInTx (Pg.ClaimOutboxPending limit) d = (Ok evs, d') ->
exists l l', evs = map Pg.scanEvent l /\ (length l <= limit)%nat /\
  Sorted (fun a b => e_created_at a <= e_created_at b) l /\
  l `prefix_of` l' /\ l' ⊆+ List.filter Pg.pending (db_outbox c) /\
  session_of d' = Idle (set_rows outbox_events (map (flip l) (db_outbox c)) c) /\
  forall limit2 evs2 d2, Pg.RunInTx (Pg.ClaimOutboxPending limit2) d' = (Ok evs2, d2) ->
    forall e, e ∈ evs -> ev_EventID e ∉ map ev_EventID evs2.
Proof.
intros Hd Hrun. destruct (claim_once limit d c evs d' Hd Hrun) as (l&l'&->&Hlen&Hs&Hp&Hsub&Hd').
exists l, l'. split_and!; [done..|]. intros limit2 evs2 d2 Hrun2 e He Hin.
destruct (claim_once limit2 d' _ evs2 d2 Hd' Hrun2) as (l2&l2'&->&_&_&[k ->]&Hsub2&_).
apply list_elem_of_fmap in He as (x&->&Hx).
apply list_elem_of_fmap in Hin as (e2&Hid&He2). apply list_elem_of_fmap in He2 as (y&->&Hy).
cbn in Hid. apply uuid_text_inj in Hid.
assert (In y (List.filter Pg.pending (map (flip l) (db_outbox c)))) as Hiny.
{ apply list_elem_of_In. eapply elem_of_submseteq; [|exact Hsub2]. apply elem_of_app. by left. }
apply filter_In in Hiny as [Hiny Hpend]. apply in_map_iff in Hiny as (r&<-&_).
unfold flip in *. destruct (claimed_in l r) eqn:Ec; [done|].
apply Bool.not_true_iff_false in Ec. apply Ec. apply existsb_exists. exists x.
split; [by apply list_elem_of_In|]. apply Z.eqb_eq. congruence.
Qed.
End Claim.

(** ** The start of the store *)

Section Connect.
Context {D : Type} `{Pool D} (initUp dsn : string) (env : nat -> Runtime).

Lemma apply_files_returns m files (d : D) : exists r d', apply_files m files d = (Returned r, d').
Proof.
revert d. induction files as [|f files IH]; intros d; cbn; [by eexists _, d|].
destruct (m !! f) as [ddl|]; [|apply IH]. unfold bind.
destruct (pool_Exec ddl d) as [[e|] d1]; [by eexists _, d1|apply IH].
Qed.

Lemma connect_returns (d : D) : exists r d', Pg.connect initUp dsn d = (Returned r, d').
Proof.
unfold Pg.connect, bind at 1. destruct (pool_New dsn d) as [[e|] d1]; [by eexists _, d1|].
destruct (apply_files_returns (upMigrations initUp) (upFiles initUp) d1) as (r&d2&E).
unfold bind, Up. rewrite E. by destruct r; eexists _, _.
Qed.

Lemma connect_loop_returns fuel : forall k i (d : D),
(i < 2 * fuel)%nat -> rt_ctx (env (k + i)) <> None ->
exists r d', Pg.connect_loop initUp env dsn fuel k d = (Returned r, d') /\
  match r with
  | Ok _ => exists d0, Pg.connect initUp dsn d0 = (Returned None, d')
  | Err e => exists err, e = Wrap "pgstore init: " err ""
  end.
Proof.
induction fuel as [|fuel IH]; intros k i d Hi Hk; [lia|]. cbn [Pg.connect_loop].
destruct (connect_returns d) as (r&d1&E). unfold bind. rewrite E.
destruct r as [err|]; [|eexists (Ok tt), d1; split; [done|by exists d]].
destruct (rt_ctx (env k)) eqn:Ek; [eexists _, d1; split; [done|by eexists]|].
destruct (rt_ctx (env (S k))) eqn:Ek1; [eexists _, d1; split; [done|by eexists]|].
destruct i as [|[|i]]; [by rewrite Nat.add_0_r in Hk|by rewrite Nat.add_1_r in Hk|].
apply (IH (S (S k)) i d1); [lia|]. by replace (S (S k) + i)%nat with (k + S (S i))%nat by lia.
Qed.

(** [NewPgStore] returns by its deadline, with a store only when the pool
  opened and every migration was applied to it in the same round, and otherwise
  with the last error under [pgstore init]. *)
Theorem NewPgStore_returns n fuel (d : D) :
expires env n -> (n <= 2 * fuel)%nat ->
exists r d', Pg.NewPgStore initUp env dsn fuel d = (Returned r, d') /\
  match r with
  | Ok _ => exists d0, Pg.connect initUp dsn d0 = (Returned None, d')
  | Err e => exists err, e = Wrap "pgstore init: " err ""
  end.
Proof.
intros Hexp Hf. destruct (Hexp 0%nat) as (i&Hi&Hc). apply (connect_loop_returns fuel 0 i d); [lia|done].
Qed.
End Connect.
