(* ===== verification/PgScenario.v ===== *)
(** A concrete PostgreSQL for the witnesses: the reference server of file [Sql],
    binary texts for ids, payloads for JSON. *)

From S2P Require Import Prelude StateMachine Store StoreFacts Partner Steps Lease Executor Worker.
From S2P Require Import Api Scenario.
From S2P Require Import Returns Sql Migrations PgStore PgSim PgTables PgOps PgSaga PgFacts.

Local Open Scope Z_scope.

(** ** Ids and payloads *)

Fixpoint pos_text (p : positive) : string :=
  match p with xH => "1" | xO p => "0" +:+ pos_text p | xI p => "1" +:+ pos_text p end%string.

Fixpoint pos_parse (s : string) : option positive :=
  match s with
  | EmptyString => None
  | String c s' =>
      match s' with
      | EmptyString => Some xH
      | _ => if Ascii.eqb c (Ascii.ascii_of_nat 48) then xO <$> pos_parse s' else xI <$> pos_parse s'
      end
  end.

Definition bin_text (u : Z) : string :=
  match u with Z0 => "z" | Zpos p => "p" +:+ pos_text p | Zneg p => "n" +:+ pos_text p end%string.

Definition bin_parse (s : string) : option Z :=
  match s with
  | String c s' =>
      if Ascii.eqb c (Ascii.ascii_of_nat 122) then Some 0
      else if Ascii.eqb c (Ascii.ascii_of_nat 112) then Zpos <$> pos_parse s'
      else Zneg <$> pos_parse s'
  | EmptyString => None
  end.

#[export] Instance bin_uuid : UuidText := {| uuid_parse := bin_parse; uuid_text := bin_text |}.

Lemma pos_text_parse p : pos_parse (pos_text p) = Some p.
Proof.
  assert (Hs : forall q, exists c s, pos_text q = String c s) by (intros []; by eexists _, _).
  induction p as [p IH|p IH|]; [..|done]; destruct (Hs p) as (c&s&E);
    cbn [pos_text]; rewrite E in IH |- *.
  - change (xI <$> pos_parse (String c s) = Some (xI p)). by rewrite IH.
  - change (xO <$> pos_parse (String c s) = Some (xO p)). by rewrite IH.
Qed.

#[export] Instance bin_uuid_laws : UuidLaws.
Proof.
  split; [|by intros []]. intros [|p|p]; [done|..].
  - change (Zpos <$> pos_parse (pos_text p) = Some (Zpos p)). by rewrite pos_text_parse.
  - change (Zneg <$> pos_parse (pos_text p) = Some (Zneg p)). by rewrite pos_text_parse.
Qed.

#[export] Instance payload_json : Json := {|
  JsonText := Payload; Marshal := id; jsonb := Some; json_len _ := 1%nat; Unmarshal := Some |}.

#[export] Instance payload_json_laws : JsonLaws.
Proof. refine {| storable _ := True |}. by intros p t _ [= <-]. Defined.

(** ** A server without rows *)

Definition pg_rt (n : nat) : Runtime := {|
  rt_now := 1000 + Z.of_nat n; rt_uuid i := 2 * (16 * Z.of_nat n + Z.of_nat i) + 1;
  rt_uuid_string i := bin_text (2 * (16 * Z.of_nat n + Z.of_nat i));
  rt_ctx := None; rt_rand n := n - 1 |}.

Lemma pg_rt_uuid n : uuid_runtime (pg_rt n).
Proof. intros i. by eexists. Qed.

Definition fresh_pg : RefPg := {| ref_now := 7000; ref_session := Idle empty_db |}.

Lemma empty_represents : represents empty_db NewMemStore.
Proof.
  split; cbn; constructor.
Qed.

(** Any order is a collation. *)
Definition any_order (a b : string) : bool := true.

(** ** One transaction, stored under its own id *)

Definition own_id : string := uuid_text 6.

Definition own_tx : Transaction := tx_with_ID (new_tx own_id 1000 demo_req) 6.

Definition own_unit : saga_unit Stub :=
  UCreate own_tx (new_steps own_id) (new_saga own_id) (new_events (pg_rt 1) own_id 1000 demo_req).

Lemma own_unit_about c : unit_about own_unit (pg_rt 2) 6 c.
Proof.
  split; [|by left]. split; [done| |done|].
  - unfold new_steps, StepOrder. cbn [map]. rewrite !Forall_cons. by repeat split.
  - apply Forall_singleton. split; [discriminate|]. split; [done|]. by eexists _, 6.
Qed.

#[export] Instance ref_store : Store RefPg := Pg.PgStore_Store any_order.

Definition own_pg : RefPg := snd (RunInTx (unit_tx own_unit (pg_rt 2)) fresh_pg).
Definition own_mem : MemStore := snd (RunInTx (unit_tx own_unit (pg_rt 2)) NewMemStore).

Lemma own_created : exists c, session_of own_pg = Idle c /\ represents c own_mem.
Proof.
  pose proof (unit_committed any_order own_unit (pg_rt 2) 6 fresh_pg empty_db NewMemStore (own_unit_about _)
    (pg_rt_uuid 2) eq_refl empty_represents) as Hc.
  unfold own_pg, own_mem. change (pg_store any_order) with ref_store in Hc.
  destruct (RunInTx (unit_tx own_unit (pg_rt 2)) fresh_pg) as [r d] eqn:E.
  assert (fst (RunInTx (unit_tx own_unit (pg_rt 2)) fresh_pg) = Ok tt) as Er by by vm_compute.
  rewrite E in Er. cbn in Er. subst r.
  destruct (RunInTx (unit_tx own_unit (pg_rt 2)) NewMemStore) as [r' m]. cbn in Hc |- *.
  destruct Hc as [_ Hc]. exact Hc.
Qed.

(** ** Witnesses *)

Lemma pg_refines_memstore_witness :
  fst (RunInTx (unit_tx own_unit (pg_rt 2)) fresh_pg) = Ok tt /\
  fst (RunInTx (unit_tx own_unit (pg_rt 2)) NewMemStore) = Ok tt /\
  exists c, session_of own_pg = Idle c /\ represents c own_mem.
Proof.
  pose proof (pg_refines_memstore any_order own_unit (pg_rt 2) 6 fresh_pg empty_db NewMemStore
    (own_unit_about _) (pg_rt_uuid 2) eq_refl empty_represents) as Hc.
  split; [vm_compute; reflexivity|]. split; [vm_compute; reflexivity|].
  assert (fst (RunInTx (unit_tx own_unit (pg_rt 2)) fresh_pg) = Ok tt) as Er by by vm_compute.
  unfold own_pg, own_mem. change (pg_store any_order) with ref_store in Hc.
  destruct (RunInTx (unit_tx own_unit (pg_rt 2)) fresh_pg) as [r d].
  destruct (RunInTx (unit_tx own_unit (pg_rt 2)) NewMemStore) as [r' m]. cbn in Er, Hc |- *. subst r.
  destruct Hc as [_ Hc]. exact Hc.
Defined.

Lemma pg_reads_refine_witness :
  (exists t, Pg.LoadTx own_id own_pg = Ok t /\ exists t', Mem.LoadTx own_id own_mem = Ok t' /\ same_tx t t') /\
  (exists l k, Pg.ListOutboxPending 2 own_pg = Ok l /\ Forall2 same_event l (take 2 k) /\
    k ≡ₚ List.filter Mem.is_pending (mem_outbox own_mem)) /\
  (exists ids, Pg.ListInflightSagaIDs own_pg = Ok ids /\ own_id ∈ ids).
Proof.
  destruct own_created as (c&Hc&Hr).
  destruct (pg_reads_refine any_order 6 2 own_pg c own_mem Hc Hr) as (Ht&_&_&Ho&Hi).
  change (uuid_text 6) with own_id in Ht. split_and!.
  - destruct (Pg.LoadTx own_id own_pg) as [t|e] eqn:E; [by exists t|]. vm_compute in E. discriminate E.
  - destruct (Pg.ListOutboxPending 2 own_pg) as [l|e] eqn:E; [|vm_compute in E; discriminate E].
    destruct Ho as (k&Hk&_&Hf&_). by exists l, k.
  - assert (mem_sagas own_mem = {[own_id := sg_with_ID (new_saga own_id) 79]}) as Hsg
      by (vm_compute; reflexivity).
    destruct (Pg.ListInflightSagaIDs own_pg) as [ids|e] eqn:E; [|vm_compute in E; discriminate E].
    destruct Hi as (ids'&Hm&_&Hin).
    { intros id sg. rewrite Hsg. by intros [<- <-]%lookup_singleton_Some. } exists ids. split; [done|]. apply Hin. split; [|by exists 6].
    assert (ids' = inflight_ids own_mem) as -> by (unfold inflight_ids; by rewrite Hm). apply elem_of_inflight.
    eexists. split; vm_compute; reflexivity.
Defined.

Definition pg_server : Server RefPg Stub NoopLease NoopLocker := {|
  sv_node := {| n_world := {| w_store := fresh_pg; w_ext := demo_ext; w_lease := tt |};
                n_disp := worker_New 2 "w" (pg_rt 0) |};
  sv_lock := tt |}.

Lemma pg_creation_fails_witness :
  exists resp v', handleCreate (S := RefPg) pg_rt id (Some demo_req) pg_server = (Returned resp, v') /\
    fst resp <> StatusCreated /\ store_session v' = Idle empty_db.
Proof.
  apply (pg_creation_fails any_order pg_rt id (Some demo_req) pg_server empty_db); [done|].
  intros k. exists (2 * (16 * Z.of_nat k + 0)). split; [done|]. split; [by constructor|].
  cbn. lia.
Defined.

(** The response is 500, and the tables of the server stay empty. *)
Example pg_creation_response :
  fst (handleCreate (S := RefPg) pg_rt id (Some demo_req) pg_server)
  = Returned (writeErr StatusInternalServerError "create tx failed").
Proof. vm_compute. reflexivity. Qed.

Lemma pg_claim_witness :
  exists evs d', Pg.RunInTx (Pg.ClaimOutboxPending 10) own_pg = (Ok evs, d') /\ length evs = 1%nat /\
    forall limit2 evs2 d2, Pg.RunInTx (Pg.ClaimOutboxPending limit2) d' = (Ok evs2, d2) ->
      forall e, e ∈ evs -> ev_EventID e ∉ map ev_EventID evs2.
Proof.
  destruct own_created as (c&Hc&_).
  destruct (Pg.RunInTx (Pg.ClaimOutboxPending 10) own_pg) as [[evs|e] d'] eqn:E.
  - destruct (pg_claim 10 own_pg c evs d' Hc E) as (l&l'&_&_&_&_&_&_&Hagain).
    exists evs, d'. split; [done|]. split; [|exact Hagain].
    assert (match fst (Pg.RunInTx (Pg.ClaimOutboxPending 10) own_pg) with
            | Ok l => length l | Err _ => 0%nat end = 1%nat) as Hl by by vm_compute.
    by rewrite E in Hl.
  - assert (is_Ok (fst (Pg.RunInTx (Pg.ClaimOutboxPending 10) own_pg)) = true) as Hl by by vm_compute.
    by rewrite E in Hl.
Defined.

(** A database that comes up after two refusals. *)
#[export] Instance late_pool : Pool nat := {|
  pool_New _ n := if (n <? 2)%nat then (Some (New "connection refused"), S n) else (None, n);
  pool_Exec _ n := (None, n); pool_Close n := n |}.

Lemma NewPgStore_returns_witness :
  Pg.NewPgStore "ddl" (demo_rt (fun n => Nat.eqb (n mod 10) 9)) "dsn" 5 0%nat = (Returned (Ok tt), 2%nat) /\
  exists r d', Pg.NewPgStore "ddl" ticking_env "dsn" 5 0%nat = (Returned r, d') /\
  match r with
  | Ok _ => exists d0, Pg.connect "ddl" "dsn" d0 = (Returned None, d')
  | Err e => exists err, e = Wrap "pgstore init: " err ""
  end.
Proof.
  split; [vm_compute; reflexivity|].
  apply (NewPgStore_returns "ddl" "dsn" ticking_env 10 5 0%nat); [exact ticking_expires|lia].
Defined.
