(* ===== verification/Orchctl.v ===== *)
(** The operator command ([cmd/orchctl/main.go]): [retry] and [compensate]
    through the REST API, [replay] of a stored saga against stub partners. *)

From S2P Require Import Prelude GoStrings StateMachine Store Partner Steps Lease Executor Worker.
From S2P Require Import Api Settings Boot Flags.

Local Open Scope Z_scope.
Local Open Scope go_scope.

(** ** The HTTP client ([net/http])

    [DefaultClient] over a network in state [N]; the response body is what
    [io.ReadAll] got of it. *)

Record HTTPRequest := {
  hq_Method : string;
  hq_URL : string;
  hq_Header : list (string * string);
  hq_Body : option string;
}.

Record HTTPResponse := { hr_StatusCode : Z; hr_Body : string }.

Class HttpClient (N : Type) := {
  (** The error of [http.NewRequest]: a URL that does not parse. *)
  url_error : string -> option error;
  Do : HTTPRequest -> N -> result HTTPResponse * N;
}.

(** The process: what it printed on its two streams, and the network. *)
Record Ctl (N : Type) := {
  ctl_stdout : list string;
  ctl_stderr : list string;
  ctl_net : N;
}.
Arguments ctl_stdout {N} _.
Arguments ctl_stderr {N} _.
Arguments ctl_net {N} _.

Definition println {N} (s : string) : Go (Ctl N) unit := modify (fun c =>
  {| ctl_stdout := ctl_stdout c ++ [s]; ctl_stderr := ctl_stderr c; ctl_net := ctl_net c |}).
Definition eprintln {N} (s : string) : Go (Ctl N) unit := modify (fun c =>
  {| ctl_stdout := ctl_stdout c; ctl_stderr := ctl_stderr c ++ [s]; ctl_net := ctl_net c |}).
Definition set_net {N} (n : N) (c : Ctl N) : Ctl N :=
  {| ctl_stdout := ctl_stdout c; ctl_stderr := ctl_stderr c; ctl_net := n |}.

(** A computation on a state of its own inside the process. *)
Definition run_on {W V A} (v : V) (m : Go V A) : Go W (A * V) := fun w =>
  match m v with
  | (Returned a, v') => (Returned (a, v'), w)
  | (Panicked, _) => (Panicked, w)
  | (Diverged, _) => (Diverged, w)
  end.

Definition newline : string := String (byte 10) "".

Definition usage_text : string := join newline
  ["orchctl — transaction-orchestrator operational CLI"; ""; "Usage:";
   "  orchctl retry      --tx-id <id> --step <name>";
   "  orchctl compensate  --tx-id <id>";
   "  orchctl replay      --tx-id <id> --dry-run"].

Definition usage {N} : Go (Ctl N) unit := eprintln usage_text.

Section Orchctl.
Context {N PG : Type} `{GoStd} `{HttpClient N} `{Store PG}.
(** The environment; [store.NewPgStore]; [json.Unmarshal] into a map and
  [json.MarshalIndent] of it, [None] when the text is no JSON object. *)
Context (LookupEnv : string -> option string) (NewPgStore : string -> result PG).
Context (indent_object : string -> option string).
(** The readings of the runtime of the replay, the fuel of its run. *)
Context (env : nat -> Runtime) (pf fuel : nat).
Local Abbreviation C := (Ctl N).

Definition envOr (k def : string) : string :=
let v := config.Getenv LookupEnv k in
if bool_decide (v = "") then def else v.

Definition json_header (body : option string) : list (string * string) :=
match body with Some _ => [("Content-Type", "application/json")] | None => [] end.

Definition postJSON (url : string) (body : option string) : Go C (option error) :=
match url_error url with
| Some err => ret (Some err)
| None =>
    let! resp := (fun c =>
      let '(r, n) := Do {| hq_Method := "POST"; hq_URL := url; hq_Header := json_header body;
                           hq_Body := body |} (ctl_net c) in
      (Returned r, set_net n c)) in
    match resp with
    | Err err => ret (Some err)
    | Ok resp =>
        if 400 <=? hr_StatusCode resp then
          ret (Some (New ("HTTP " +:+ itoa (hr_StatusCode resp) +:+ ": " +:+
                          TrimSpace (hr_Body resp))))
        else
          let! _ := println (match indent_object (hr_Body resp) with
                             | Some out => out
                             | None => hr_Body resp
                             end) in
          ret None
    end
end.

Definition default_url : string := envOr "ORCHESTRATOR_URL" "http://localhost:8080".

Definition retry_flags : Flags :=
<["tx-id" := FString ""]> (<["step" := FString ""]> {["url" := FString default_url]}).

Definition retryCmd (args : list string) : Go C Finish :=
parse_or_exit args retry_flags (fun fs =>
  let txID := flag_string fs "tx-id" in
  let step := flag_string fs "step" in
  if bool_decide (txID = "") || bool_decide (step = "") then
    ret (Finished (Some (New "--tx-id and --step are required")))
  else
    let body := "{" +:+ strconv_quote "step" +:+ ":" +:+ strconv_quote step +:+ "}" in
    let! err := postJSON (flag_string fs "url" +:+ "/v1/transactions/" +:+ txID +:+ "/retry")
                  (Some body) in
    ret (Finished err)).

Definition compensate_flags : Flags :=
<["tx-id" := FString ""]> {["url" := FString default_url]}.

Definition compensateCmd (args : list string) : Go C Finish :=
parse_or_exit args compensate_flags (fun fs =>
  let txID := flag_string fs "tx-id" in
  if bool_decide (txID = "") then ret (Finished (Some (New "--tx-id is required")))
  else
    let! err := postJSON (flag_string fs "url" +:+ "/v1/transactions/" +:+ txID +:+ "/compensate")
                  None in
    ret (Finished err)).

(** ** [replay] *)

Definition openStore : result (AnyStore PG) :=
let dsn := config.Getenv LookupEnv "DB_URL" in
if bool_decide (dsn = "") then Ok (InMemory NewMemStore)
else match NewPgStore dsn with
     | Err err => Err err
     | Ok ps => Ok (Postgres ps)
     end.

Definition any_LoadTx (txID : string) (s : AnyStore PG) : result Transaction :=
match s with InMemory m => LoadTx txID m | Postgres p => LoadTx txID p end.
Definition any_ListSteps (txID : string) (s : AnyStore PG) : result (list StepRow) :=
match s with InMemory m => ListSteps txID m | Postgres p => ListSteps txID p end.

(** The rows the replay starts from. *)
Definition seed_tx (now : Z) (tx : Transaction) : Transaction := {|
tx_ID := 0; tx_TxID := tx_TxID tx; tx_UserID := tx_UserID tx; tx_QuoteID := tx_QuoteID tx;
tx_Amount := tx_Amount tx; tx_Asset := tx_Asset tx; tx_Rail := tx_Rail tx;
tx_DestAddress := tx_DestAddress tx; tx_Status := StateCreated; tx_CreatedAt := now;
tx_UpdatedAt := now; tx_Version := 1 |}.

Definition seed_step (txID : string) (st : Step) : StepRow := {|
row_ID := 0; row_TxID := txID; row_StepName := st; row_Status := StepPending;
row_Attempt := 1; row_StartedAt := None; row_FinishedAt := None; row_Error := "";
row_IdempotencyKey := IdempotencyKey txID st 1 |}.

Definition seed_saga (txID : string) : SagaState := {|
sg_ID := 0; sg_TxID := txID; sg_CurrentStep := StepPolicy; sg_State := StateCreated;
sg_LeaseOwner := ""; sg_LeaseExpiresAt := None; sg_Payload := ∅; sg_Version := 1 |}.

Definition seed_events (rt : Runtime) (txID : string) : list OutboxEvent := [{|
ev_ID := 0; ev_EventID := rt_uuid_string rt 0; ev_TxID := txID;
ev_EventType := "transaction.created"; ev_Step := ""; ev_Attempt := 0; ev_Payload := ∅;
ev_CreatedAt := rt_now rt; ev_PublishedAt := None; ev_Status := OutboxPending;
ev_DedupKey := DedupKey txID "transaction.created" "" 0 |}].

(** The world of the replay: an empty [MemStore] and the stub partners. *)
Local Abbreviation R := (World MemStore Stub NoopLease).

Definition replay_world : R := {|
w_store := NewMemStore;
w_ext := {| x_partners := NewStub; x_calls := []; x_tick := 0 |};
w_lease := tt |}.

Definition replay_run (tx : Transaction) : Go R (result unit) :=
let! rt := in_ext (runtime env) in
let! r := run_in_tx env (fun rt' =>
  CreateTx rt' (seed_tx (rt_now rt) tx) (map (seed_step (tx_TxID tx)) StepOrder)
    (seed_saga (tx_TxID tx)) (seed_events rt (tx_TxID tx))) in
match r with
| Err err => ret (Err (Wrap "seed: " err ""))
| Ok _ =>
    let! r := Run env (NewExecutor env (stub_clients DefaultStubConfig) DefaultConfig)
                (tx_TxID tx) "orchctl-replay" pf fuel in
    ret (match r with Ok _ => Ok tt | Err err => Err (Wrap "replay run: " err "") end)
end.

Definition succeeded_as (ps rs : StepRow) : bool :=
bool_decide (row_StepName rs = row_StepName ps) && bool_decide (row_Status rs = StepSucceeded).

(** The persisted rows that succeeded and have no counterpart. *)
Definition mismatches (persisted replayed : list StepRow) : list StepRow :=
List.filter (fun ps => bool_decide (row_Status ps = StepSucceeded) &&
                       negb (existsb (succeeded_as ps) replayed)) persisted.

Fixpoint println_all (l : list string) : Go C unit :=
match l with [] => ret tt | s :: l' => let! _ := println s in println_all l' end.

Definition replayDryRun (txID : string) : Go C (option error) :=
match openStore with
| Err err => ret (Some err)
| Ok s =>
    match any_LoadTx txID s with
    | Err err => ret (Some (Wrap "load tx: " err ""))
    | Ok tx =>
        match any_ListSteps txID s with
        | Err err => ret (Some (Wrap "list steps: " err ""))
        | Ok persistedSteps =>
            let! (r, w) := run_on replay_world (replay_run tx) in
            match r with
            | Err err => ret (Some err)
            | Ok _ =>
                let replayedSteps := match ListSteps (tx_TxID tx) (w_store w) with
                                     | Ok l => l | Err _ => [] end in
                let replayedStatus := match LoadTx (tx_TxID tx) (w_store w) with
                                      | Ok t => State_string (tx_Status t) | Err _ => "" end in
                let! _ := println_all
                  ["replay dry-run complete:";
                   "  persisted final state: " +:+ State_string (tx_Status tx);
                   "  replayed  final state: " +:+ replayedStatus;
                   "  persisted step count: " +:+ itoa (Z.of_nat (length persistedSteps));
                   "  replayed  step count: " +:+ itoa (Z.of_nat (length replayedSteps))] in
                let bad := mismatches persistedSteps replayedSteps in
                let! _ := println_all (map (fun ps =>
                  "  MISMATCH: step " +:+ Step_string (row_StepName ps) +:+
                  " succeeded in persisted but not in replay") bad) in
                match bad with
                | [] => let! _ := println "  step history matches persisted record" in ret None
                | _ => ret (Some (New "replay produced a different step history"))
                end
            end
        end
    end
end.

Definition replay_flags : Flags := <["tx-id" := FString ""]> {["dry-run" := FBool false]}.

Definition replayCmd (args : list string) : Go C Finish :=
parse_or_exit args replay_flags (fun fs =>
  if bool_decide (flag_string fs "tx-id" = "") then
    ret (Finished (Some (New "--tx-id is required")))
  else if negb (flag_bool fs "dry-run") then
    ret (Finished (Some (New "only --dry-run is supported (no-side-effects replay)")))
  else let! err := replayDryRun (flag_string fs "tx-id") in ret (Finished err)).

(** ** The command *)

Definition run (args : list string) : Go C Finish :=
match args with
| [] => let! _ := usage in ret (Finished (Some (New "missing subcommand")))
| cmd :: args' =>
    if bool_decide (cmd = "retry") then retryCmd args'
    else if bool_decide (cmd = "compensate") then compensateCmd args'
    else if bool_decide (cmd = "replay") then replayCmd args'
    else if bool_decide (cmd ∈ ["-h"; "--help"; "help"]) then
      let! _ := usage in ret (Finished None)
    else
      let! _ := usage in
      ret (Finished (Some (New ("unknown subcommand " +:+ strconv_quote cmd))))
end.

(** [main]: the exit code of the process. *)
Definition main (args : list string) : Go C Z :=
let! r := run args in
match r with
| Exit code => ret code
| Finished None => ret 0
| Finished (Some err) => let! _ := eprintln ("orchctl: " +:+ Error err) in ret 1
end.
End Orchctl.
