(* ===== verification/OrchctlFacts.v ===== *)
(** What the operator command does: the verdict of a replay, and its requests
    against the server. *)

From S2P Require Import Prelude GoStrings StateMachine Store Partner Steps Lease Executor SagaLog.
From S2P Require Import ExecutorFacts RunFacts Legality Attempting SagaInv Worker Api ApiFacts Scenario Cooperation.
From S2P Require Import AuthToken Http HttpFacts Settings Boot Flags Orchctl.

Local Open Scope Z_scope.
Local Open Scope go_scope.

Lemma println_all_net {N} l (c : Ctl N) :
  println_all l c = (Returned tt, {| ctl_stdout := ctl_stdout c ++ l;
    ctl_stderr := ctl_stderr c; ctl_net := ctl_net c |}).
Proof.
  revert c. induction l as [|s l IH]; intros c; cbn.
  - rewrite app_nil_r. by destruct c.
  - unfold bind, println, modify. cbn. rewrite IH. cbn. by rewrite <- app_assoc.
Qed.

(** ** Replay *)

Section Replay.
Context `{GoStd} (env : nat -> Runtime) (pf fuel : nat).

(** The request that would have created the transaction. *)
Definition request_of (tx : Transaction) : CreateTxRequest := {|
rq_UserID := tx_UserID tx; rq_QuoteID := tx_QuoteID tx; rq_Amount := tx_Amount tx;
rq_Asset := tx_Asset tx; rq_Rail := tx_Rail tx; rq_DestAddress := tx_DestAddress tx |}.

(** A replay always reaches the end of the saga. *)
Lemma replay_completes tx :
(forall k, rt_ctx (env k) = None) -> (1 <= pf)%nat -> (6 <= fuel)%nat ->
exists w t sg, replay_run env pf fuel tx replay_world = (Returned (Ok tt), w) /\
  stored (tx_TxID tx) (w_store w) t sg /\ tx_Status t = StateCompleted /\
  done_before (tx_TxID tx) (w_store w) 6.
Proof.
intros Hctx Hpf Hf. set (id := tx_TxID tx).
destruct (CreateTx_fresh (env 1%nat) (rt_now (env 0%nat)) (request_of tx) id
  (seed_events (env 0%nat) id) NewMemStore) as (t&sg&rows&E&Ht&Hsg&_&Hrows); [done|].
set (w1 := {| w_store := snd (Mem.CreateTx (env 1%nat) (new_tx id (rt_now (env 0%nat)) (request_of tx))
    (new_steps id) (new_saga id) (seed_events (env 0%nat) id) NewMemStore);
  w_ext := {| x_partners := NewStub; x_calls := []; x_tick := 2 |}; w_lease := tt |} :
  World MemStore Stub NoopLease).
assert (sound t w1) as Hs.
{ unfold w1. rewrite E. by eapply created_sound. }
assert (tx_TxID t = id) as Hid by by rewrite Ht.
destruct (coop_run env (stub_clients DefaultStubConfig) 1 default_stub_cooperative DefaultConfig t
  "orchctl-replay" pf fuel w1 sg) as (w'&sg'&Hrun&Hs'&Hsg'&Hst'&Hd).
all: try done.
- unfold w1. rewrite E, Hid. cbn. by rewrite lookup_insert_eq.
- rewrite Hsg. by eexists.
- rewrite Hsg. intros [=].
- rewrite Hsg. cbn. lia.
- destruct Hs' as (sg0&st&v&u&Hstored&Hst0&_&_). rewrite Hid in *.
  pose proof (stored_sg _ _ _ _ Hstored) as Hsg0. assert (sg0 = sg') as -> by congruence.
  exists w', (tx_with_status t st v u), sg'. split_and!; [|done|cbn; congruence|].
  + change (replay_run env pf fuel tx replay_world) with
      (bind (Run env (NewExecutor env (stub_clients DefaultStubConfig) DefaultConfig) id
        "orchctl-replay" pf fuel) (fun r => ret
          (match r with Ok _ => Ok tt | Err err => Err (Wrap "replay run: " err "") end)) w1).
    unfold bind. by rewrite Hrun.
  + apply Hd. rewrite Hsg. cbn. intros k. lia.
Qed.

End Replay.

Lemma in_StepOrder k : k ∈ StepOrder <-> (step_pos k < 6)%nat.
Proof.
unfold StepOrder. rewrite !elem_of_cons, elem_of_nil. destruct k; cbn; split; try (intros; lia);
  try (intros; tauto). intros [|[|[|[|[|[|]]]]]]; done.
Qed.

(** Every step of the saga has a row that succeeded in the replay. *)
Lemma mismatches_none id s persisted :
done_before id s 6 ->
Forall (fun r => row_Status r = StepSucceeded -> row_StepName r ∈ StepOrder) persisted ->
mismatches persisted (rows_of s id) = [].
Proof.
intros Hd Hp. unfold mismatches. induction Hp as [|ps l Hps Hl IH]; [done|]. cbn.
case_bool_decide as Es; cbn [andb]; [|done].
destruct (Hd (row_StepName ps)) as (r&Hr&Hs); [by apply in_StepOrder, Hps|].
unfold row_of in Hr. apply find_first_Some in Hr as [Hin Hat].
unfold Mem.row_at in Hat. apply andb_true_iff in Hat as [Hn%bool_decide_eq_true _].
assert (existsb (succeeded_as ps) (rows_of s id) = true) as ->; [|done].
apply existsb_exists. exists r. split; [by apply list_elem_of_In|].
unfold succeeded_as. by rewrite Hn, Hs, !bool_decide_eq_true_2.
Qed.

Section ReplayCmd.
Context {N PG : Type} `{GoStd} `{HttpClient N} `{Store PG} (env : nat -> Runtime) (pf fuel : nat).
Context (LookupEnv : string -> option string) (NewPgStore : string -> result PG).

(** C37: a dry-run replay depends on the stored history in nothing but the name
  of a step: whatever a transaction went through (failures, compensation,
  retries), once its record is loaded the replay completes against the stubs
  and finds that its steps match. *)
Theorem replay_always_matches txID s tx rows (c : Ctl N) :
(forall k, rt_ctx (env k) = None) -> (1 <= pf)%nat -> (6 <= fuel)%nat ->
openStore LookupEnv NewPgStore = Ok s -> any_LoadTx txID s = Ok tx ->
any_ListSteps txID s = Ok rows ->
Forall (fun r => row_Status r = StepSucceeded -> row_StepName r ∈ StepOrder) rows ->
exists c', replayDryRun LookupEnv NewPgStore env pf fuel txID c = (Returned None, c') /\
  ctl_net c' = ctl_net c /\
  "  replayed  final state: COMPLETED" ∈ ctl_stdout c' /\
  "  step history matches persisted record" ∈ ctl_stdout c'.
Proof.
intros Hctx Hpf Hf Hopen Hload Hlist Hrows.
destruct (replay_completes env pf fuel tx Hctx Hpf Hf) as (w&t&sg&Hrun&Hst&Hend&Hd).
pose proof (mismatches_none _ _ rows Hd Hrows) as Hmis.
unfold replayDryRun. rewrite Hopen, Hload, Hlist. unfold bind at 1, run_on. rewrite Hrun.
cbn [LoadTx ListSteps MemStore_Store]. unfold Mem.LoadTx, Mem.ListSteps.
rewrite (stored_tx _ _ _ _ Hst), Hmis, Hend. unfold bind. rewrite println_all_net. cbn.
eexists. split; [done|]. cbn. split; [done|]. rewrite !elem_of_app, !elem_of_cons. tauto.
Qed.
End ReplayCmd.

(** ** The operator against the server *)

Section Operator.
Context {S P L K PG : Type} `{GoStd} `{Store S} `{LeaseManager L} `{Locker K} `{GoCrypto}.
Context (senv : nat -> Runtime) (order : list (string * string) -> list (string * string)).
Context (decode_create : string -> option CreateTxRequest) (decode_step : string -> string).
Context (control : option (Control (Server S P L K))) (secret : string) (bypass : bool).
(** The path of a URL that parses, and the encoder of responses. *)
Context (escaped_path : string -> option string) (render : Reply -> string).
Local Abbreviation V := (Server S P L K).
Local Abbreviation srv := (serve senv order decode_create decode_step control secret bypass).

Definition header (name : string) (hs : list (string * string)) : string :=
default "" (snd <$> find_first (fun '(k, _) => bool_decide (k = name)) hs).

Definition to_request (path : string) (q : HTTPRequest) : Request := {|
req_Method := hq_Method q; req_EscapedPath := path;
req_Authorization := header "Authorization" (hq_Header q);
req_RequestID := header "X-Request-ID" (hq_Header q); req_Body := default "" (hq_Body q) |}.

(** The network is the server alone; a handler that panics closes the
  connection. *)
Definition server_client : HttpClient V := {|
url_error u := match escaped_path u with
               | Some _ => None | None => Some (New "parse: invalid URL") end;
Do q v :=
  match escaped_path (hq_URL q) with
  | None => (Err (New "parse: invalid URL"), v)
  | Some p =>
      match srv (to_request p q) v with
      | (Returned rp, v') => (Ok {| hr_StatusCode := rp_Status rp; hr_Body := render rp |}, v')
      | (_, v') => (Err (New "EOF"), v')
      end
  end |}.

(** The endpoints the command posts to. *)
Definition operator_endpoint (e : Endpoint) : Prop :=
match e with ERetry _ | ECompensate _ => endpoint_ok e | _ => False end.

Lemma operator_path_unskipped e r :
operator_endpoint e -> req_EscapedPath r = path_of e -> req_Path r ∉ skipPaths.
Proof.
intros He Hp Hs%skip_cases. unfold req_Path in Hs. rewrite Hp in Hs.
assert (exists x, path_of e = "/v" +:+ x) as [x Ex] by (destruct e; try done; by eexists).
assert (PathUnescape ("/v" +:+ x) = String.append "/v" <$> PathUnescape x) as E.
{ transitivity (String slash <$> (String (byte 118) <$> PathUnescape x)); [reflexivity|].
  by destruct (PathUnescape x). }
rewrite Ex, E in Hs. destruct (PathUnescape x); cbn in Hs;
  destruct Hs as [Hs|[Hs|Hs]]; discriminate Hs.
Qed.

(** A post to an endpoint of the server: refused with authentication on, since
  the command sends no token; the handler's answer with authentication off. *)
Lemma post_endpoint indent e base body (c : Ctl V) :
operator_endpoint e -> escaped_path (base +:+ path_of e) = Some (path_of e) ->
(bypass = false -> exists v' err,
   postJSON (H0 := server_client) indent (base +:+ path_of e) body c =
     (Returned (Some (New err)), set_net v' c) /\
   HasPrefix err "HTTP 401: " = true /\ same_server (ctl_net c) v') /\
(bypass = true -> exists v1, same_server (ctl_net c) v1 /\ forall resp v2,
   handle senv order decode_create decode_step control e (default "" body) v1 =
     (Returned resp, v2) ->
   exists c' err, postJSON (H0 := server_client) indent (base +:+ path_of e) body c =
     (Returned err, c') /\ ctl_net c' = v2 /\ ctl_stderr c' = ctl_stderr c /\
     (err = None <-> (fst resp < 400)%Z)).
Proof.
intros He Hp. unfold postJSON. cbn [url_error Do server_client hq_URL]. rewrite Hp.
unfold bind at 1 3. set (q := {| hq_Method := "POST"; hq_URL := _; hq_Header := _; hq_Body := body |}).
assert (Hun : req_Path (to_request (path_of e) q) ∉ skipPaths)
  by by eapply operator_path_unskipped.
assert (req_Authorization (to_request (path_of e) q) = "") as Ha by by destruct body.
split; intros ->.
- destruct (Middleware_refuses senv secret writeUnauthorized
    (withRequestID senv (dispatch senv order decode_create decode_step control)
       (to_request (path_of e) q)) (to_request (path_of e) q) (ctl_net c)) as (v1&msg&Hs&E); [|done|].
  { intros (tok&cl&Hb&_). by rewrite Ha in Hb. }
  unfold serve. rewrite E. eexists v1, _. split; [done|]. split; [|done].
  apply HasPrefix_true. by eexists.
- destruct (serve_endpoint senv order decode_create decode_step control secret true e
    (to_request (path_of e) q) (ctl_net c)) as (v1&id&Hs&_&E); [by destruct e|by destruct e|done|by left|].
  exists v1. split; [done|]. intros resp v2 Hh. rewrite E.
  change (req_Body (to_request (path_of e) q)) with (default "" body).
  unfold bind. rewrite Hh. cbn. destruct (Z.leb_spec 400 (fst resp)) as [Hc|Hc].
  + eexists _, _. split; [done|]. split_and!; [done|done|]. split; [done|lia].
  + unfold bind, println, modify. cbn. eexists _, _. split; [done|]. split_and!; [done|done|]. split; [lia|done].
Qed.

(** The command line for an endpoint, and the body it posts. *)
Definition operator_line (base step : string) (e : Endpoint) : list string :=
match e with
| ERetry id => ["retry"; "--tx-id"; id; "--step"; step; "--url"; base]
| ECompensate id => ["compensate"; "--tx-id"; id; "--url"; base]
| _ => []
end.

Definition operator_body (step : string) (e : Endpoint) : option string :=
match e with
| ERetry _ => Some ("{" +:+ strconv_quote "step" +:+ ":" +:+ strconv_quote step +:+ "}")
| _ => None
end.

Context `{Store PG} (LookupEnv : string -> option string) (NewPgStore : string -> result PG).
Context (indent : string -> option string) (env : nat -> Runtime) (pf fuel : nat).
Local Abbreviation orchctl :=
(main (H0 := server_client) LookupEnv NewPgStore indent env pf fuel).

(** The flags of the command line reach the request. *)
Lemma orchctl_posts base step e (c : Ctl V) :
operator_endpoint e -> step <> "" ->
orchctl (operator_line base step e) c =
bind (postJSON (H0 := server_client) indent (base +:+ path_of e) (operator_body step e))
  (fun err => match err with
              | None => ret 0
              | Some err => bind (eprintln ("orchctl: " +:+ Error err)) (fun _ => ret 1)
              end) c.
Proof.
intros He Hstep. assert (exists id, (e = ERetry id \/ e = ECompensate id) /\ id <> "") as (id&Hid&Hne).
{ destruct e; try done; exists id; split; [by left|apply He|by right|apply He]. }
assert (flag_name "tx-id" /\ flag_name "step" /\ flag_name "url") as (F1&F2&F3) by done.
unfold main, run. destruct Hid as [-> | ->]; cbn [operator_line].
- change (bool_decide ("retry" = "retry")) with true. cbn iota. unfold retryCmd, parse_or_exit.
  change "--tx-id" with ("--" +:+ "tx-id"). rewrite (Parse_string "tx-id" "") by done.
  change "--step" with ("--" +:+ "step"). rewrite (Parse_string "step" "") by done.
  change "--url" with ("--" +:+ "url").
  rewrite (Parse_string "url" (default_url LookupEnv)) by done. cbn [Parse].
  unfold flag_string. rewrite lookup_insert_eq, !lookup_insert_ne, lookup_insert_eq by done.
  rewrite lookup_insert_ne, lookup_insert_eq by done.
  rewrite !bool_decide_eq_false_2 by done. cbn [orb]. unfold bind.
  change (base +:+ "/v1/transactions/" +:+ id +:+ "/retry") with (base +:+ path_of (ERetry id)).
  cbn [operator_body]. by destruct (postJSON _ _ _ c) as [[[]| |] ?].
- change (bool_decide ("compensate" = "retry")) with false.
  change (bool_decide ("compensate" = "compensate")) with true. cbn iota.
  unfold compensateCmd, parse_or_exit.
  change "--tx-id" with ("--" +:+ "tx-id"). rewrite (Parse_string "tx-id" "") by done.
  change "--url" with ("--" +:+ "url").
  rewrite (Parse_string "url" (default_url LookupEnv)) by done. cbn [Parse].
  unfold flag_string. rewrite lookup_insert_eq, !lookup_insert_ne, lookup_insert_eq by done.
  rewrite bool_decide_eq_false_2 by done. unfold bind.
  change (base +:+ "/v1/transactions/" +:+ id +:+ "/compensate")
    with (base +:+ path_of (ECompensate id)).
  cbn [operator_body]. by destruct (postJSON _ _ _ c) as [[[]| |] ?].
Qed.

(** C36: [orchctl retry] and [orchctl compensate] reach the handler of their
  endpoint only when authentication is off, and then exit with 0 exactly when
  the handler's status is below 400; with authentication on the command, which
  sends no token, exits with 1 and the server is as it was. *)
Theorem orchctl_end_to_end base step e (c : Ctl V) :
operator_endpoint e -> step <> "" -> escaped_path (base +:+ path_of e) = Some (path_of e) ->
(bypass = false -> exists c', orchctl (operator_line base step e) c = (Returned 1, c') /\
   same_server (ctl_net c) (ctl_net c')) /\
(bypass = true -> exists v1, same_server (ctl_net c) v1 /\ forall resp v2,
   handle senv order decode_create decode_step control e (default "" (operator_body step e)) v1 =
     (Returned resp, v2) ->
   exists code c', orchctl (operator_line base step e) c = (Returned code, c') /\
     ctl_net c' = v2 /\ (code = 0 <-> (fst resp < 400)%Z)).
Proof.
intros He Hstep Hp. destruct (post_endpoint indent e base (operator_body step e) c He Hp) as [Hoff Hon].
split.
- intros Hb. destruct (Hoff Hb) as (v'&err&E&_&Hs). rewrite orchctl_posts by done.
  unfold bind. rewrite E. by eexists.
- intros Hb. destruct (Hon Hb) as (v1&Hs&Hh). exists v1. split; [done|]. intros resp v2 E.
  destruct (Hh resp v2 E) as (c'&err&Ep&Hn&_&Hc). rewrite orchctl_posts by done.
  unfold bind. rewrite Ep. destruct err as [err|].
  + eexists 1, _. split; [done|]. split; [done|]. split; [done|]. intros Hlt. by apply Hc in Hlt.
  + eexists 0, _. split; [done|]. split; [done|]. split; [|done]. intros _. by apply Hc.
Qed.
End Operator.

(** ** Concrete runs *)

(** The URLs of a server at [http://h]. *)
Definition sample_path (url : string) : option string := cut_prefix "http://h" url.

Definition sample_client (bypass : bool) : HttpClient (Server MemStore Stub NoopLease NoopLocker) :=
  server_client (H3 := toy_crypto) calm_env id (fun _ => Some demo_req) (fun _ => "POLICY")
    (Some sample_control) "s3cret" bypass sample_path (fun _ => "").

Definition idle : Ctl (Server MemStore Stub NoopLease NoopLocker) :=
  {| ctl_stdout := []; ctl_stderr := []; ctl_net := sample_server |}.

Definition sample_orchctl (bypass : bool) (args : list string) :=
  main (H0 := sample_client bypass) (fun _ => None) (fun _ => Ok NewMemStore) (fun _ => None)
    calm_env 1 6 args idle.

Lemma orchctl_end_to_end_witness :
  (exists c', sample_orchctl false ["retry"; "--tx-id"; "t1"; "--step"; "POLICY"; "--url"; "http://h"]
    = (Returned 1, c') /\ same_server sample_server (ctl_net c')) /\
  (exists v1, same_server sample_server v1 /\ forall resp v2,
    handle calm_env id (fun _ => Some demo_req) (fun _ => "POLICY") (Some sample_control)
      (ERetry "t1") "{step:POLICY}" v1 = (Returned resp, v2) ->
    exists code c',
      sample_orchctl true ["retry"; "--tx-id"; "t1"; "--step"; "POLICY"; "--url"; "http://h"]
        = (Returned code, c') /\ ctl_net c' = v2 /\ (code = 0 <-> (fst resp < 400)%Z)).
Proof.
  assert (operator_endpoint (ERetry "t1")) as He by by unfold operator_endpoint, endpoint_ok, plain.
  pose proof (fun b => orchctl_end_to_end (H3 := toy_crypto) calm_env id (fun _ => Some demo_req)
    (fun _ => "POLICY") (Some sample_control) "s3cret" b sample_path (fun _ => "")
    (fun _ => None) (fun _ => Ok NewMemStore) (fun _ => None) calm_env 1 6 "http://h" "POLICY"
    (ERetry "t1") idle He) as Hw.
  split; [refine (proj1 (Hw false _ _) _)|refine (proj2 (Hw true _ _) _)]; done.
Defined.

(** The retry of a running server exits with 0. *)
Example orchctl_retry_accepted :
  fst (sample_orchctl true ["retry"; "--tx-id=t1"; "--step=POLICY"; "--url=http://h"]) = Returned 0.
Proof. vm_compute. reflexivity. Qed.

(** A command line that does not parse, and one that asks for help. *)
Example orchctl_usage :
  map (fun args => fst (sample_orchctl true args))
    [[]; ["help"]; ["retry"]; ["retry"; "-h"]; ["retry"; "--no"]; ["retry"; "--step"]; ["reply"]]
  = map Returned [1; 0; 1; 0; 2; 2; 1].
Proof. vm_compute. reflexivity. Qed.

(** A transaction that was undone after its payment. *)
Definition undone_store : MemStore := {|
  mem_txs := {["t1" := tx_with_status demo_tx StateFailedCompensated 9 2000]};
  mem_steps := {["t1" := [row_with_status (seed_step "t1" StepPolicy) StepSucceeded "";
    row_with_status (seed_step "t1" StepPayment) StepCompensated "";
    row_with_status (seed_step "t1" StepKyt) StepFailed "blocked"]]};
  mem_sagas := ∅; mem_outbox := [] |}.

Definition db_env (k : string) : option string :=
  if bool_decide (k = "DB_URL") then Some "postgres://db" else None.

Lemma replay_always_matches_witness :
  exists c', replayDryRun db_env (fun _ => Ok undone_store) calm_env 1 6 "t1" idle =
      (Returned None, c') /\ ctl_net c' = sample_server /\
    "  replayed  final state: COMPLETED" ∈ ctl_stdout c' /\
    "  step history matches persisted record" ∈ ctl_stdout c'.
Proof.
  apply (replay_always_matches calm_env 1 6 db_env (fun _ => Ok undone_store) "t1"
    (Postgres undone_store) (tx_with_status demo_tx StateFailedCompensated 9 2000)
    (rows_of undone_store "t1") idle); [done|lia|lia|done|done|done|].
  vm_compute. repeat constructor; intros; repeat constructor.
Defined.

(** Without a database the command looks into an empty store. *)
Lemma replay_in_memory {N PG} `{GoStd} `{Store PG} LookupEnv (NewPgStore : string -> result PG)
  env pf fuel txID (c : Ctl N) :
  config.Getenv LookupEnv "DB_URL" = "" ->
  replayDryRun LookupEnv NewPgStore env pf fuel txID c =
    (Returned (Some (Wrap "load tx: " ErrNotFound "")), c).
Proof. intros Hdb. unfold replayDryRun, openStore. rewrite Hdb. by rewrite bool_decide_eq_true_2. Qed.
