(* ===== verification/System.v ===== *)
(** The whole process: the REST handlers, the workers, crash recovery, manual
    compensation and the outbox relay as the steps of one transition relation
    on a server, each handler one step; and what holds in every state it
    reaches. *)

From S2P Require Import Prelude StateMachine Store StoreFacts Outbox Partner Steps Lease Executor.
From S2P Require Import SagaLog StepsCorrect ExecutorFacts RunFacts Legality CascadeCorrect.
From S2P Require Import Attempting Returns SagaInv Worker Api ApiFacts Frame Scenario.

Local Open Scope go_scope.

(** ** Creation *)

Section Create.
Context {P L K : Type} `{GoStd} `{LeaseManager L} `{Locker K}.
Context (env : nat -> Runtime) (order : list (string * string) -> list (string * string)).
Local Abbreviation V := (Server MemStore P L K).

Definition sv_world (v : V) : World MemStore P L := n_world (sv_node v).

Lemma handleCreate_result body (v : V) :
exists resp v', handleCreate env order body v = (Returned resp, v') /\
  n_disp (sv_node v') = n_disp (sv_node v) /\ w_lease (sv_world v') = w_lease (sv_world v) /\
  no_io (w_ext (sv_world v)) (w_ext (sv_world v')) /\
  (fst resp = StatusBadRequest <->
     match body with None => True | Some req => validateCreate order req <> None end) /\
  ((exists req id, body = Some req /\ validateCreate order req = None /\
      resp = (StatusCreated, BCreated id) /\
      created id req (w_store (sv_world v)) (w_store (sv_world v'))) \/
   (fst resp <> StatusCreated /\ (forall id, snd resp <> BCreated id) /\
      w_store (sv_world v') = w_store (sv_world v))).
Proof.
destruct v as [[[s x l] d] k]. unfold handleCreate, sv_world.
destruct body as [req|]; [|eexists _, _; split; [done|]; split_and!; try done; by right].
destruct (validateCreate order req) as [err|] eqn:Hval;
  [eexists _, _; split; [done|]; split_and!; try done; by right|].
unfold bind at 1, zoom at 1. cbn [sv_lock].
destruct (LockAcquire (rq_QuoteID req) k) as [[[h ok] lerr] k'] eqn:Hlock.
destruct lerr; [eexists _, _; split; [done|]; split_and!; try done; by right|].
destruct ok; [|eexists _, _; split; [done|]; split_and!; try done; by right].
cbn [negb]. unfold bind, on_store, on_node, on_world, in_ext, zoom, runtime, run_in_tx, modify.
cbn -[Mem.CreateTx new_tx new_steps new_saga new_events]. unfold Mem.RunInTx.
set (rt := env (x_tick x)). set (rt' := env (Datatypes.S (x_tick x))).
destruct (mem_txs s !! rt_uuid_string rt 0) as [t|] eqn:Ht.
- rewrite (CreateTx_clash rt' _ _ _ _ _ t Ht). cbn.
  eexists _, _. split; [done|]. split_and!; try done. right. by split_and!.
- destruct (CreateTx_fresh rt' (rt_now rt) req (rt_uuid_string rt 0)
    (new_events rt (rt_uuid_string rt 0) (rt_now rt) req) s Ht)
    as (t&sg&rows&->&->&->&Hnames&Hrows). cbn.
  eexists _, _. split; [done|]. split_and!; try done. left.
  exists req, (rt_uuid_string rt 0). split_and!; [done..|]. split; [done|].
  do 5 eexists. by split_and!.
Qed.

End Create.

(** ** What the other handlers do to the server *)

Section Handlers.
Context {P L K : Type} `{GoStd} `{LeaseManager L} `{Locker K}.
Context (env : nat -> Runtime) (order : list (string * string) -> list (string * string)).
Local Abbreviation V := (Server MemStore P L K).
Local Abbreviation N := (Node MemStore P L).

(** The queues are as the dispatcher made them and hold every id where it
  belongs, and the world of sagas is sound. *)
Record srv_ok (v : V) : Prop := {
srv_world : sys_ok (sv_world v);
srv_disp : disp_ok (n_disp (sv_node v));
srv_routed : routed (n_disp (sv_node v));
}.

(** A relay drain changes nothing but the outbox. *)
Lemma drainOnce_tables {Q} `{Publisher Q} env' (r : Relay) (w w' : RelayWorld MemStore Q) o :
drainOnce env' r w = (o, w') ->
mem_txs (rw_store w') = mem_txs (rw_store w) /\
mem_sagas (rw_store w') = mem_sagas (rw_store w) /\
mem_steps (rw_store w') = mem_steps (rw_store w).
Proof.
destruct w as [s q k]. unfold drainOnce, bind at 1, relay_tx at 1.
cbn [rw_store RunInTx ClaimOutboxPending MemStore_Store]. unfold Mem.RunInTx.
unfold Mem.ClaimOutboxPending at 1. destruct (Mem.claim_pending _ _ _) as [out rest]. cbn.
destruct out as [|ev out]; [intros [= _ <-]; by split_and!|].
unfold bind, zoom. cbn [rw_bus].
destruct (publish_all (rl_SubjectFn r) (ev :: out) q) as [[|i ids] q'];
  [intros [= _ <-]; by split_and!|].
unfold relay_tx. cbn. intros [= _ <-]. by split_and!.
Qed.

Lemma submit_all_ok ids pick d :
disp_ok d -> routed d ->
disp_ok (snd (submit_all ids pick d)) /\ routed (snd (submit_all ids pick d)).
Proof.
revert d. induction ids as [|id ids IH]; intros d Hd Hr; cbn; [done|].
destruct (Submit id pick d) as [d1|] eqn:E; [|done].
destruct (Submit_ok id pick d d1 Hd Hr E). by apply (IH d1).
Qed.

Lemma Stop_ok d : disp_ok d -> routed d -> disp_ok (Stop d) /\ routed (Stop d).
Proof. done. Qed.

Lemma worker_turn_ok (c : Clients P) cfg idx pf fuel (n n' : N) o :
delays_ok cfg -> sys_ok (n_world n) -> disp_ok (n_disp n) -> routed (n_disp n) ->
worker_turn env (NewExecutor env c cfg) idx pf fuel n = (o, n') ->
effect (n_world n) (n_world n') /\ disp_ok (n_disp n') /\ routed (n_disp n') /\
d_Concurrency (n_disp n') = d_Concurrency (n_disp n).
Proof.
intros Hdel Hok Hd Hr Hrun. unfold worker_turn in Hrun.
destruct (receive idx (n_disp n)) as [[id d]|] eqn:Hrec; [|simplify_eq; by split_and!; [apply effect_refl|..]].
destruct (receive_ok idx _ id d Hd Hr Hrec) as (Hd'&Hr'&_). apply receive_conc in Hrec.
unfold bind, on_world, zoom in Hrun. cbn [n_world set_disp] in Hrun.
destruct (Run env _ id (d_Owner d) pf fuel (n_world n)) as [o1 w1] eqn:E.
pose proof (sys_run env c cfg id (d_Owner d) pf fuel _ w1 o1 Hdel Hok E).
destruct o1; unfold ret in Hrun; by simplify_eq.
Qed.

Lemma Recover_ok pick (n n' : N) o :
disp_ok (n_disp n) -> routed (n_disp n) -> Recover pick n = (o, n') ->
n_world n' = n_world n /\ disp_ok (n_disp n') /\ routed (n_disp n') /\
d_Concurrency (n_disp n') = d_Concurrency (n_disp n).
Proof.
intros Hd Hr Hrun. unfold Recover, bind_err, bind, on_world, zoom, reading in Hrun. cbn in Hrun.
destruct n as [w d]. cbn in *.
set (ids := (_ ≫= _)) in Hrun. pose proof (submit_all_ok ids pick d Hd Hr) as [Hd' Hr'].
pose proof (submit_all_conc ids pick d) as Hc. destruct (submit_all ids pick d) as [b d'].
injection Hrun as _ <-. by split_and!.
Qed.

Lemma Retry_ok id step pick (n n' : N) o :
disp_ok (n_disp n) -> routed (n_disp n) -> Retry id step pick n = (o, n') ->
n_world n' = n_world n /\ disp_ok (n_disp n') /\ routed (n_disp n') /\
d_Concurrency (n_disp n') = d_Concurrency (n_disp n).
Proof.
intros Hd Hr Hrun. unfold Retry, bind_err, bind at 1, on_world, zoom, reading in Hrun.
destruct n as [w d]. cbn in *. unfold Mem.LoadSagaState in Hrun.
destruct (mem_sagas (w_store w) !! id) as [sg|]; [|unfold ret in Hrun; by simplify_eq].
destruct (Terminal (sg_State sg)); [unfold ret in Hrun; by simplify_eq|].
unfold bind, submit in Hrun. cbn in Hrun.
destruct (Submit id pick d) as [d'|] eqn:E; unfold ret in Hrun; simplify_eq/=; [|done].
destruct (Submit_ok _ _ _ _ Hd Hr E). apply Submit_conc in E. done.
Qed.

(** A manual compensation: refused when there is no saga under way, and
  otherwise the cascade from the saga's current step. *)
Lemma Compensate_cases (c : Clients P) cfg id (n n' : N) o :
sys_ok (n_world n) ->
Compensate env (NewExecutor env c cfg) id n = (o, n') ->
(n' = n /\ (exists err, o = Returned (Err err)) /\
   forall sg, mem_sagas (w_store (n_world n)) !! id = Some sg -> Terminal (sg_State sg) = true) \/
exists tx sg, stored id (w_store (n_world n)) tx sg /\ Terminal (sg_State sg) = false /\
  effect (n_world n) (n_world n') /\ advanced 8 id tx (n_world n') /\ n_disp n' = n_disp n /\
  cascade_reports id o (n_world n').
Proof.
intros Hok Hrun. destruct n as [w d]. cbn [n_world n_disp] in *.
unfold Compensate, bind_err, bind at 1, on_world at 1, zoom at 1, reading in Hrun.
cbn [n_world LoadSagaState MemStore_Store] in Hrun. unfold Mem.LoadSagaState in Hrun.
destruct (mem_sagas (w_store w) !! id) as [sg|] eqn:Hsg.
2:{ left. injection Hrun as <- <-. split_and!; [done|by eexists|done]. }
destruct (IsFailure (sg_State sg)) eqn:Hf.
{ left. injection Hrun as <- <-. split_and!; [done|by eexists|]. intros sg' [= <-].
  by destruct (sg_State sg). }
destruct (Terminal (sg_State sg)) eqn:Ht.
{ left. injection Hrun as <- <-. split_and!; [done|by eexists|]. by intros sg' [= <-]. }
right. destruct (sys_txs w Hok id sg Hsg) as [tx Htx].
destruct (sys_stored w id tx Hok Htx) as (sg'&Hst&_&Hset).
assert (sg' = sg) as -> by (pose proof (stored_sg _ _ _ _ Hst); congruence).
unfold settled in Hset. rewrite Ht in Hset. destruct Hset as [Hat _ _ _ _].
destruct (StepByName _ (sg_CurrentStep sg)) as [step|] eqn:Hstep.
- unfold on_world, zoom in Hrun. cbn [n_world set_world] in Hrun.
  destruct (compensateCascade env _ id step w) as [o1 w1] eqn:E. injection Hrun as <- <-.
  destruct (sys_compensate env c cfg id w w1 tx sg step o1 Hok Hst Ht Hstep E)
    as (?&?&?). by exists tx, sg.
- destruct (sg_State sg); cbn in Hat; try done; injection Hat as Hat;
    by rewrite <- Hat in Hstep.
Qed.
End Handlers.

(** ** The process as a transition relation *)

Section Process.
Context {P L K : Type} `{GoStd} `{LeaseManager L} `{Locker K}.
Context (env : nat -> Runtime) (order : list (string * string) -> list (string * string)).
Context (c : Clients P) (cfg : Config).
Local Abbreviation V := (Server MemStore P L K).
Local Abbreviation e := (NewExecutor env c cfg).

Definition with_store (s : MemStore) (v : V) : V :=
set_node (set_world (set_store s (sv_world v)) (sv_node v)) v.

(** One handler, one message of a worker, or one drain of a relay, each from its
  start to its end before the next one starts: these are the states of a
  process whose handlers, compensations and worker turns do not overlap.
  [Concurrent] and [Durable] show what is kept when their units of work
  interleave, [Pool] what the goroutines exclude, and [Races] what an overlap
  on one saga breaks.  The arguments that are not inputs of the source are the choices the scheduler,
  the channels and the fuel leave open. *)
Inductive sys_step (v v' : V) : Prop :=
| st_create body o : handleCreate env order body v = (o, v') -> sys_step v v'
| st_get id o : handleGet id v = (o, v') -> sys_step v v'
| st_steps id o : handleSteps id v = (o, v') -> sys_step v v'
| st_retry id body pick o :
    handleRetry (Some (worker_control env e pick)) id body v = (o, v') -> sys_step v v'
| st_compensate id pick o :
    handleCompensate (Some (worker_control env e pick)) id v = (o, v') -> sys_step v v'
| st_work idx pf fuel o : on_node (worker_turn env e idx pf fuel) v = (o, v') -> sys_step v v'
| st_recover pick o : on_node (Recover pick) v = (o, v') -> sys_step v v'
| st_stop : v' = set_node (set_disp (Stop (n_disp (sv_node v))) (sv_node v)) v -> sys_step v v'
| st_drain Q (p : Publisher Q) env' r (q : Q) tick o w' :
    drainOnce env' r {| rw_store := w_store (sv_world v); rw_bus := q; rw_tick := tick |} = (o, w') ->
    v' = with_store (rw_store w') v -> sys_step v v'.

(** A process that starts on an empty store, before any partner was called. *)
Definition initial (v : V) : Prop :=
w_store (sv_world v) = NewMemStore /\ x_calls (w_ext (sv_world v)) = [] /\
exists concurrency owner rt, n_disp (sv_node v) = worker_New concurrency owner rt.

Lemma on_store_reading {A} (f : MemStore -> result A) (v : V) :
on_store (reading f) v = (Returned (f (w_store (sv_world v))), v).
Proof. by destruct v as [[[] ?] ?]. Qed.

Lemma handleGet_keeps id (v v' : V) o : handleGet id v = (o, v') -> v' = v.
Proof.
unfold handleGet, bind. rewrite on_store_reading.
destruct (LoadTx id _) as [tx|err]; [|destruct (errors_Is err _); by intros [= _ <-]].
rewrite on_store_reading.
destruct (match LoadSagaState id _ with Ok _ => _ | Err _ => _ end); [|by intros [= _ <-]].
rewrite on_store_reading. destruct (ListSteps id _); by intros [= _ <-].
Qed.

Lemma handleSteps_keeps id (v v' : V) o : handleSteps id v = (o, v') -> v' = v.
Proof.
unfold handleSteps, bind. rewrite on_store_reading.
destruct (LoadTx id _) as [tx|err]; [|destruct (errors_Is err _); by intros [= _ <-]].
rewrite on_store_reading. destruct (ListSteps id _); by intros [= _ <-].
Qed.

(** A retry leaves the world of sagas alone. *)
Lemma handleRetry_ok id body pick (v v' : V) o :
disp_ok (n_disp (sv_node v)) -> routed (n_disp (sv_node v)) ->
handleRetry (Some (worker_control env e pick)) id body v = (o, v') ->
sv_world v' = sv_world v /\ disp_ok (n_disp (sv_node v')) /\ routed (n_disp (sv_node v')) /\
d_Concurrency (n_disp (sv_node v')) = d_Concurrency (n_disp (sv_node v)).
Proof.
intros Hd Hr. unfold handleRetry, bind.
assert (forall st o1 v1, on_node (Retry id st pick) v = (o1, v1) ->
  sv_world v1 = sv_world v /\ disp_ok (n_disp (sv_node v1)) /\ routed (n_disp (sv_node v1)) /\
  d_Concurrency (n_disp (sv_node v1)) = d_Concurrency (n_disp (sv_node v))) as Hretry.
{ intros st o1 v1. unfold on_node, zoom.
  destruct (Retry id st pick (sv_node v)) as [o2 n2] eqn:E. intros [= _ <-].
  destruct (Retry_ok id st pick (sv_node v) n2 o2 Hd Hr E) as (Hw&?&?&?).
  split_and!; [exact Hw|done..]. }
destruct (bool_decide (body = "")).
- rewrite on_store_reading. cbn [ret].
  destruct (LoadSagaState id (w_store (sv_world v))) as [sg|]; [|by intros [= _ <-]].
  cbn [ct_Retry worker_control].
  destruct (on_node (Retry id (sg_CurrentStep sg) pick) v) as [[[]| |] v1] eqn:E;
    apply Hretry in E; by intros [= _ <-].
- cbn [ret ct_Retry worker_control].
  destruct (on_node (Retry id (Step_of_string body) pick) v) as [[[]| |] v1] eqn:E;
    apply Hretry in E; by intros [= _ <-].
Qed.

Lemma sys_step_effect (v v' : V) :
delays_ok cfg -> srv_ok v -> sys_step v v' ->
effect (sv_world v) (sv_world v') /\ disp_ok (n_disp (sv_node v')) /\ routed (n_disp (sv_node v')) /\
d_Concurrency (n_disp (sv_node v')) = d_Concurrency (n_disp (sv_node v)).
Proof.
intros Hdel [Hw Hd Hr] Hstep. destruct Hstep as [body o Hrun|id o Hrun|id o Hrun|
  id body pick o Hrun|id pick o Hrun|idx pf fuel o Hrun|pick o Hrun| ->|Q p env' r q tick o w' Hrun ->].
- destruct (handleCreate_result env order body v) as (resp&v1&E&Hd1&_&Hio&_&Hout).
  rewrite E in Hrun. injection Hrun as _ <-. split_and!; [|by rewrite Hd1..].
  destruct Hout as [(req&id&_&_&_&Hc)|(_&_&Hs)]; [by eapply eff_created|].
  apply eff_same; [by rewrite Hs..|apply Hio].
- rewrite (handleGet_keeps _ _ _ _ Hrun). split_and!; [apply effect_refl|done..].
- rewrite (handleSteps_keeps _ _ _ _ Hrun). split_and!; [apply effect_refl|done..].
- destruct (handleRetry_ok id body pick v v' o Hd Hr Hrun) as (Ew&?&?&?).
  split_and!; [rewrite Ew; apply effect_refl|done..].
- unfold handleCompensate, bind, worker_control, on_node, zoom in Hrun. cbn [ct_Compensate] in Hrun.
  destruct (Compensate env e id (sv_node v)) as [o1 n1] eqn:E.
  assert (v' = set_node n1 v) as ->.
  { destruct o1 as [[]| |]; unfold ret in Hrun; by injection Hrun as _ <-. }
  destruct (Compensate_cases env c cfg id (sv_node v) n1 o1 Hw E)
    as [(->&_)|(tx&sg&_&_&He&_&Hdisp&_)]; [split_and!; [apply effect_refl|done..]|].
  split_and!; cbn; [done|by rewrite Hdisp..].
- unfold on_node, zoom in Hrun.
  destruct (worker_turn env e idx pf fuel (sv_node v)) as [o1 n1] eqn:E. injection Hrun as _ <-.
  by apply (worker_turn_ok env c cfg idx pf fuel (sv_node v) n1 o1).
- unfold on_node, zoom in Hrun.
  destruct (Recover pick (sv_node v)) as [o1 n1] eqn:E. injection Hrun as _ <-.
  destruct (Recover_ok pick (sv_node v) n1 o1 Hd Hr E) as (Ew&?&?&?).
  split_and!; [unfold sv_world; cbn; rewrite Ew; apply effect_refl|done..].
- split_and!; [apply effect_refl|done..].
- destruct (drainOnce_tables env' r _ w' o Hrun) as (E1&E2&E3).
  split_and!; [by apply eff_same|done..].
Qed.

Lemma sys_step_ok (v v' : V) : delays_ok cfg -> srv_ok v -> sys_step v v' -> srv_ok v'.
Proof.
intros Hd Hok Hs. destruct (sys_step_effect v v' Hd Hok Hs) as (He&?&?&_).
split; [|done|done]. eapply effect_ok; [apply Hok|done].
Qed.

Lemma initial_ok v : initial v -> srv_ok v.
Proof.
intros (Es&Ec&conc&owner&rt&Ed). destruct (New_ok conc owner rt). split; [|by rewrite Ed..].
destruct v as [[[s x l] d] k]. unfold sv_world in *. cbn in *. subst s. by apply sys_init.
Qed.

Lemma reachable_ok v0 v : delays_ok cfg -> initial v0 -> star sys_step v0 v -> srv_ok v.
Proof.
intros Hd Hi Hs. eapply (star_invariant sys_step srv_ok); [|exact Hs|by apply initial_ok].
intros x y ??. by eapply sys_step_ok.
Qed.
End Process.
