(* ===== verification/SystemTheorems.v ===== *)
(** The properties of a whole process whose handlers, compensations and worker
    turns follow one another, in every state it can reach from an empty store:
    the money, the calls, progress, and manual compensations. *)

From S2P Require Import Prelude StateMachine Store StoreFacts Outbox Partner Steps Lease Executor.
From S2P Require Import SagaLog StepsCorrect ExecutorFacts RunFacts Legality CascadeCorrect.
From S2P Require Import Attempting Returns SagaInv Worker Api ApiFacts Frame Scenario System.

Local Open Scope go_scope.

Section Theorems.
Context {P L K : Type} `{GoStd} `{LeaseManager L} `{Locker K}.
Context (env : nat -> Runtime) (order : list (string * string) -> list (string * string)).
Context (c : Clients P) (cfg : Config).
Local Abbreviation V := (Server MemStore P L K).
Local Abbreviation step := (sys_step env order c cfg).

(** The stores and the calls of a server. *)
Definition sv_store (v : V) : MemStore := w_store (sv_world v).
Definition sv_calls (v : V) : list Call := x_calls (w_ext (sv_world v)).

(** What the partners saw of a saga that is in state [st]. *)
Definition money (id : string) (st : State) (l : list Call) : Prop :=
length (captures id l) <= 1 /\ length (broadcasts id l) <= 1 /\
refunds id l `sublist_of` captures id l /\
(st = StateCompleted -> exists cap h j, captures id l = [cap] /\ broadcasts id l = [h] /\
   confirmed h l /\ posts id l = [j] /\ refunds id l = [] /\ clears id l <> [] /\
   passes id l <> []) /\
(st = StateFailedCompensated -> refunds id l = owed (captures id l)).

Lemma settled_money id sg s l : settled id sg s l -> money id (sg_State sg) l.
Proof.
intros Hset. destruct (settled_once id sg s l Hset) as (?&?&?). split_and!; [done..| |];
  intros E; unfold settled in Hset; rewrite E in Hset; cbn in Hset.
- destruct Hset as (?&[cap ?]&?&(h&?&?)&[j ?]&?). exists cap, h, j. by split_and!.
- apply Hset.
Qed.

(** C1: in every state that a process reaches whose handlers, manual
  compensations, worker turns, recoveries and relay drains follow one another
  in any order, with delays other than one nanosecond and whatever the
  partners answer: every stored transaction has a saga in the state its
  status names, with at most one capture, one broadcast and one refund; a
  completed one has exactly one capture, one confirmed broadcast and one
  ledger post and no refund; a compensated one has refunded exactly the
  captures it owes, those answered with an id that is not empty; and an id
  that is not stored had no effect at any partner.  (Where a compensation
  overlaps a run of the same saga this fails: see [Races].) *)
Theorem system_money (v0 v : V) id :
delays_ok cfg -> initial v0 -> star step v0 v ->
(mem_txs (sv_store v) !! id = None -> untouched id (sv_calls v)) /\
(forall tx, mem_txs (sv_store v) !! id = Some tx ->
   exists sg, stored id (sv_store v) tx sg /\ tx_Status tx = sg_State sg /\
     money id (sg_State sg) (sv_calls v)).
Proof.
intros Hd Hi Hs. pose proof (reachable_ok env order c cfg v0 v Hd Hi Hs) as [Hok _ _].
split; [apply (sys_fresh _ Hok)|]. intros tx Htx.
destruct (sys_stored _ id tx Hok Htx) as (sg&Hst&Hsync&Hset).
exists sg. split_and!; [done|done|]. by eapply settled_money.
Qed.

(** C2: where the handlers, manual compensations and worker turns of a process
  follow one another, every partner call it ever made was for a transaction
  that is stored, carried its data, and came after what must precede it. *)
Theorem system_calls_gated (v0 v : V) l1 call l2 :
delays_ok cfg -> initial v0 -> star step v0 v -> sv_calls v = l1 ++ call :: l2 ->
exists tx, mem_txs (sv_store v) !! tx_TxID tx = Some tx /\ enabled tx l1 call.
Proof.
intros Hd Hi Hs. assert (srv_ok v /\ history_ok (sv_world v)) as [_ Hh].
{ eapply (star_invariant step (fun v => srv_ok v /\ history_ok (sv_world v))); [|exact Hs|].
  - intros x y [Hx Hhx] Hxy. split; [by eapply sys_step_ok|].
    destruct (sys_step_effect env order c cfg x y Hd Hx Hxy) as (He&_).
    eapply effect_history; [apply Hx|done|done].
  - split; [by apply initial_ok|]. destruct Hi as (_&Ec&_). intros l1' call' l2' E.
    rewrite Ec in E. by destruct l1'. }
intros E. by eapply Hh.
Qed.

(** Where handlers, compensations and worker turns follow one another, the
  stored sagas move along legal transitions of the lifecycle only. *)
Lemma serialised_progress (v0 v v' : V) id :
delays_ok cfg -> initial v0 -> star step v0 v -> star step v v' ->
progressed id (sv_store v) (sv_store v').
Proof.
intros Hd Hi Hs Hs'. pose proof (reachable_ok env order c cfg v0 v Hd Hi Hs) as Hok.
assert (srv_ok v' /\ progressed id (sv_store v) (sv_store v')) as [_ Hp]; [|exact Hp].
eapply (star_invariant step (fun x => srv_ok x /\ progressed id (sv_store v) (sv_store x)));
  [|exact Hs'|by split].
intros x y [Hx Hpx] Hxy. split; [by eapply sys_step_ok|].
destruct (sys_step_effect env order c cfg x y Hd Hx Hxy) as (He&_).
etrans; [exact Hpx|]. by eapply effect_progressed; [apply Hx|].
Qed.

(** C4: the process makes progress: in any state reached by handlers and worker
  turns that follow one another, with delays other than one nanosecond, a
  worker that receives the id of a stored transaction finishes that saga in
  one turn, provided leases are granted and the context ends. *)
Theorem system_progress (v0 v : V) idx id d tx pf fuel :
delays_ok cfg -> initial v0 -> star step v0 v ->
receive idx (n_disp (sv_node v)) = Some (id, d) -> mem_txs (sv_store v) !! id = Some tx ->
expires env pf -> grants (L := L) -> 9 <= fuel ->
exists v' sg, on_node (worker_turn env (NewExecutor env c cfg) idx pf fuel) v = (Returned true, v') /\
  mem_sagas (sv_store v') !! id = Some sg /\ Terminal (sg_State sg) = true /\
  n_disp (sv_node v') = d.
Proof.
intros Hd Hi Hs Hrec Htx Hexp Hg Hf.
pose proof (reachable_ok env order c cfg v0 v Hd Hi Hs) as [Hok _ _].
pose proof (sys_sound _ Hok id tx Htx) as Hsound.
pose proof (filed_tx _ (sys_filed _ Hok) _ _ Htx) as Hid.
destruct (Run_ends env c cfg tx (d_Owner d) pf fuel 0 (sv_world v) Hd Hexp Hg Hsound)
  as (r&w'&Hrun&Hadv); [lia..|].
destruct (advanced_terminal _ _ _ Hadv) as (sg&Hsg&Ht&_). rewrite Hid in Hrun, Hsg.
exists (set_node (set_world w' (set_disp d (sv_node v))) v), sg.
split; [|by split_and!]. unfold on_node, zoom, worker_turn. rewrite Hrec.
unfold bind, on_world, zoom. cbn [n_world set_disp].
unfold sv_world in Hrun. by rewrite Hrun.
Qed.

(** C5: a manual compensation that nothing overlaps, in a process whose handlers
  and worker turns follow one another, settles a saga under way at once: it is
  answered 202 exactly when the saga is then compensated, every capture that
  was answered with an id that is not empty being refunded, and 409 when a
  compensation failed; on a saga that is over, or an unknown id, it answers
  409 and changes nothing. *)
Theorem manual_compensation (v0 v : V) id pick :
delays_ok cfg -> initial v0 -> star step v0 v ->
let ctl := worker_control env (NewExecutor env c cfg) pick in
exists resp v', handleCompensate (Some ctl) id v = (Returned resp, v') /\
  match mem_sagas (sv_store v) !! id with
  | Some sg =>
      if Terminal (sg_State sg) then fst resp = StatusConflict /\ v' = v
      else exists sg', mem_sagas (sv_store v') !! id = Some sg' /\
             sg_State sg' = (if (fst resp =? StatusAccepted)%Z
                             then StateFailedCompensated else StateFailed) /\
             money id (sg_State sg') (sv_calls v')
  | None => fst resp = StatusConflict /\ v' = v
  end.
Proof.
intros Hd Hi Hs ctl. pose proof (reachable_ok env order c cfg v0 v Hd Hi Hs) as [Hok _ _].
unfold handleCompensate, bind, ctl, worker_control, on_node, zoom. cbn [ct_Compensate].
destruct (Compensate env (NewExecutor env c cfg) id (sv_node v)) as [o n'] eqn:E.
destruct (Compensate_cases env c cfg id (sv_node v) n' o Hok E)
  as [(->&[err ->]&Hterm)|(tx&sg&Hst&Ht&_&Hadv&_&(r&sg'&->&Hsg'&Hstate))].
- exists (writeErr StatusConflict (Error err)), v. split; [by destruct v|].
  unfold sv_store, sv_world. destruct (mem_sagas _ !! id) as [sg|] eqn:Hsg; [|done].
  by rewrite (Hterm sg eq_refl).
- unfold sv_store at 1. unfold sv_world. rewrite (stored_sg _ _ _ _ Hst), Ht.
  destruct Hadv as (sg2&st&v2&u&Hst2&_&_&Hset).
  pose proof (stored_sg _ _ _ _ Hst2) as Heq. rewrite Hsg' in Heq. injection Heq as <-.
  apply settled_money in Hset.
  destruct r as [[]|err]; eexists _, _; (split; [reflexivity|]); by exists sg'.
Qed.
End Theorems.

(** ** A concrete process

    One worker, the stub partners with screening in review, no leases: a
    transaction is created, found by a recovery, and run. *)

Definition review_cfg : StubConfig := {|
  sc_PolicyDecision := PolicyAllow; sc_PolicyError := None;
  sc_KytDecision := KytReview; sc_KytError := None;
  sc_BroadcastInMem := true; sc_BroadcastConfirmed := true; sc_BroadcastError := None;
  sc_SignError := None; sc_AuthorizeError := None; sc_CaptureError := None;
  sc_LedgerError := None |}.

Definition no_order (l : list (string * string)) : list (string * string) := l.
Definition demo_clients : Clients Stub := stub_clients review_cfg.
Definition demo_step := sys_step (K := NoopLocker) (L := NoopLease) ticking_env no_order
  demo_clients DefaultConfig.

Definition demo_v0 : Server MemStore Stub NoopLease NoopLocker := {|
  sv_node := {| n_world := {| w_store := NewMemStore; w_ext := demo_ext; w_lease := tt |};
                n_disp := worker_New 1 "orch" (ticking_env 0) |};
  sv_lock := tt |}.

Definition demo_v1 := snd (handleCreate ticking_env no_order (Some demo_req) demo_v0).
Definition demo_v2 := snd (on_node (Recover true) demo_v1).
Definition demo_v3 := snd (on_node (worker_turn ticking_env
  (NewExecutor ticking_env demo_clients DefaultConfig) 0 10 9) demo_v2).

Lemma demo_initial : initial demo_v0.
Proof. split; [reflexivity|]. split; [reflexivity|]. by exists 1%Z, "orch", (ticking_env 0). Defined.

Lemma demo_to_v1 : star demo_step demo_v0 demo_v1.
Proof. apply star_one. eapply st_create. apply surjective_pairing. Defined.

Lemma demo_to_v2 : star demo_step demo_v0 demo_v2.
Proof.
  etrans; [apply demo_to_v1|]. apply star_one.
  apply (st_recover _ _ _ _ _ _ true (fst (on_node (Recover true) demo_v1))). apply surjective_pairing. Defined.

Lemma demo_v2_v3 : star demo_step demo_v2 demo_v3.
Proof.
  apply star_one. apply (st_work _ _ _ _ _ _ 0 10 9 (fst (on_node (worker_turn ticking_env
    (NewExecutor ticking_env demo_clients DefaultConfig) 0 10 9) demo_v2))).
  apply surjective_pairing.
Defined.

Lemma demo_to_v3 : star demo_step demo_v0 demo_v3.
Proof. etrans; [apply demo_to_v2|apply demo_v2_v3]. Defined.

Lemma demo_stored_v1 : exists tx sg, stored "id-0-0" (sv_store demo_v1) tx sg.
Proof. eexists _, _. split; vm_compute; reflexivity. Defined.

Lemma system_money_witness :
  exists tx sg, mem_txs (sv_store demo_v3) !! "id-0-0" = Some tx /\
    stored "id-0-0" (sv_store demo_v3) tx sg /\ sg_State sg = StateFailedCompensated /\
    money "id-0-0" (sg_State sg) (sv_calls demo_v3).
Proof.
  destruct (system_money ticking_env no_order demo_clients DefaultConfig demo_v0 demo_v3 "id-0-0"
    demo_delays demo_initial demo_to_v3) as [_ Hm].
  destruct (mem_txs (sv_store demo_v3) !! "id-0-0") as [tx|] eqn:E;
    [|vm_compute in E; discriminate E].
  destruct (Hm tx eq_refl) as (sg&Hst&_&Hmoney). exists tx, sg. split; [reflexivity|].
  split; [exact Hst|]. split; [|exact Hmoney].
  pose proof (stored_sg _ _ _ _ Hst) as Hsg. clear - Hsg.
  assert (sg_State <$> mem_sagas (sv_store demo_v3) !! "id-0-0" = Some StateFailedCompensated)
    as Hv by (vm_compute; reflexivity).
  rewrite Hsg in Hv. injection Hv as Hv. exact Hv.
Defined.

Lemma system_calls_gated_witness :
  exists call l2 tx, sv_calls demo_v3 = call :: l2 /\
    mem_txs (sv_store demo_v3) !! tx_TxID tx = Some tx /\ enabled tx [] call.
Proof.
  destruct (sv_calls demo_v3) as [|call l2] eqn:E; [vm_compute in E; discriminate E|].
  destruct (system_calls_gated ticking_env no_order demo_clients DefaultConfig demo_v0 demo_v3
    [] call l2 demo_delays demo_initial demo_to_v3 E) as (tx&Htx&Hen).
  exists call, l2, tx. split; [reflexivity|]. split; [exact Htx|exact Hen].
Defined.

Lemma demo_stored_v2 : exists tx sg, stored "id-0-0" (sv_store demo_v2) tx sg.
Proof. eexists _, _. split; vm_compute; reflexivity. Defined.

Lemma system_progress_witness :
  exists v' sg, on_node (worker_turn ticking_env
      (NewExecutor ticking_env demo_clients DefaultConfig) 0 10 9) demo_v2 = (Returned true, v') /\
    mem_sagas (sv_store v') !! "id-0-0" = Some sg /\ Terminal (sg_State sg) = true.
Proof.
  destruct demo_stored_v2 as (tx&sg&Hst).
  destruct (receive 0 (n_disp (sv_node demo_v2))) as [[id d]|] eqn:E; [|vm_compute in E; discriminate E].
  assert (id = "id-0-0") as -> by (vm_compute in E; injection E as <- _; reflexivity).
  destruct (system_progress ticking_env no_order demo_clients DefaultConfig demo_v0 demo_v2 0
    "id-0-0" d tx 10 9 demo_delays demo_initial demo_to_v2 E (stored_tx _ _ _ _ Hst)
    ticking_expires demo_grants (le_n 9)) as (v'&sg'&H1&H2&H3&_).
  exists v', sg'. split; [exact H1|]. split; [exact H2|exact H3].
Defined.

Lemma manual_compensation_witness :
  let ctl := worker_control ticking_env (NewExecutor ticking_env demo_clients DefaultConfig) true in
  exists resp v' sg, handleCompensate (Some ctl) "id-0-0" demo_v1 = (Returned resp, v') /\
    mem_sagas (sv_store v') !! "id-0-0" = Some sg /\ IsFailure (sg_State sg) = true /\
    money "id-0-0" (sg_State sg) (sv_calls v').
Proof.
  intros ctl. destruct (manual_compensation ticking_env no_order demo_clients DefaultConfig demo_v0
    demo_v1 "id-0-0" true demo_delays demo_initial demo_to_v1) as (resp&v'&Hrun&Hout).
  destruct demo_stored_v1 as (tx&sg&Hst). rewrite (stored_sg _ _ _ _ Hst) in Hout.
  assert (Terminal (sg_State sg) = false) as Ht.
  { pose proof (stored_sg _ _ _ _ Hst) as Hsg. clear - Hsg.
    assert (Terminal ∘ sg_State <$> mem_sagas (sv_store demo_v1) !! "id-0-0" = Some false)
      as Hv by (vm_compute; reflexivity).
    rewrite Hsg in Hv. injection Hv as Hv. exact Hv. }
  rewrite Ht in Hout. destruct Hout as (sg'&Hsg'&Hstate&Hm).
  exists resp, v', sg'. split; [exact Hrun|]. split; [exact Hsg'|]. split; [|exact Hm].
  rewrite Hstate. destruct (_ =? _)%Z; reflexivity.
Defined.
