(* ===== verification/ServiceTheorems.v ===== *)
(** The properties of the dispatcher and of the REST handlers: what a recovery
    queues and when it blocks, what a creation stores and when it is refused,
    and that a created transaction can be read back. *)

From S2P Require Import Prelude StateMachine Store StoreFacts Outbox Partner Steps Lease Executor.
From S2P Require Import SagaLog StepsCorrect ExecutorFacts RunFacts Legality CascadeCorrect.
From S2P Require Import Attempting Returns SagaInv Worker Api ApiFacts Frame Scenario System.
From S2P Require Import SystemTheorems.

Local Open Scope go_scope.

(** ** The queues *)

Definition queue (d : Dispatcher) (p : nat) : list string := default [] (d_partitions d !! p).

(** The ids of [l] that hash to partition [p]. *)
Definition bound_for (d : Dispatcher) (p : nat) (l : list string) : list string :=
  List.filter (fun id => Nat.eqb (partitionOf d id) p) l.

(** Every partition has room for the ids of [l] that hash to it. *)
Definition fits (d : Dispatcher) (l : list string) : Prop :=
  forall p, p < d_Concurrency d -> length (queue d p) + length (bound_for d p l) <= d_Concurrency d.

Lemma queue_bound d p : routed d -> p < d_Concurrency d -> length (queue d p) <= d_Concurrency d.
Proof.
  intros Hr Hp. unfold queue. destruct (d_partitions d !! p) as [q|] eqn:E; [|cbn; lia].
  by apply (Hr p q "" E).
Qed.

(** A submission to a running dispatcher appends to the partition of the id,
    or blocks when that is full. *)
Lemma Submit_running id pick d :
  disp_ok d -> d_stopped d = false ->
  match Submit id pick d with
  | Some d' => d_stopped d' = false /\ d_Concurrency d' = d_Concurrency d /\
      (forall id', partitionOf d' id' = partitionOf d id') /\
      forall p, queue d' p = queue d p ++ bound_for d p [id]
  | None => length (queue d (partitionOf d id)) >= d_Concurrency d
  end.
Proof.
  intros Hok Hs. unfold Submit. rewrite Hs. cbn [negb orb]. rewrite andb_true_r.
  fold (queue d (partitionOf d id)).
  destruct (Nat.ltb_spec (length (queue d (partitionOf d id))) (d_Concurrency d)) as [Hlt|Hge]; [|done].
  split_and!; [done|done|intros id'; apply with_partitions_of; apply length_insert|].
  intros p. unfold queue at 1, bound_for. cbn [d_partitions with_partitions List.filter].
  pose proof (partitionOf_lt d id Hok) as Hp. destruct Hok as [_ Hlen].
  destruct (Nat.eqb_spec (partitionOf d id) p) as [<-|Hne].
  - by rewrite list_lookup_insert_eq by lia.
  - rewrite list_lookup_insert_ne by done. by rewrite app_nil_r.
Qed.

(** What the loop leaves in the queues: everything when it fits, and otherwise
    what comes before the first id whose partition is full by then. *)
Lemma submit_all_running ids pick : forall d,
  disp_ok d -> routed d -> d_stopped d = false ->
  let '(ended, d') := submit_all ids pick d in
  exists sent rest, ids = sent ++ rest /\
    (forall p, p < d_Concurrency d -> queue d' p = queue d p ++ bound_for d p sent) /\
    if ended then fits d ids /\ rest = []
    else ~ fits d ids /\ exists id rest', rest = id :: rest' /\
      d_Concurrency d <= length (queue d' (partitionOf d id)).
Proof.
  induction ids as [|id ids IH]; intros d Hok Hr Hs; cbn [submit_all].
  { exists [], []. split; [done|]. split; [intros p _; by rewrite app_nil_r|]. split; [|done].
    intros p Hp. cbn. rewrite Nat.add_0_r. by apply queue_bound. }
  pose proof (Submit_running id pick d Hok Hs) as Hsub.
  assert (forall p l, bound_for d p (id :: l) = bound_for d p [id] ++ bound_for d p l) as Hcons.
  { intros p l. unfold bound_for. cbn [List.filter]. by destruct (Nat.eqb _ p). }
  destruct (Submit id pick d) as [d1|] eqn:E.
  - destruct Hsub as (Hs1&Hc1&Hp1&Hq1). destruct (Submit_ok id pick d d1 Hok Hr E) as [Hok1 Hr1].
    assert (forall p l, bound_for d1 p l = bound_for d p l) as Hb.
    { intros p l. unfold bound_for. induction l as [|x l IHl]; [done|]. cbn [List.filter].
      by rewrite Hp1, IHl. }
    assert (fits d1 ids <-> fits d (id :: ids)) as Hfits.
    { unfold fits. rewrite Hc1. apply forall_proper. intros p.
      rewrite Hq1, (Hcons p ids), !length_app, Hb. by rewrite Nat.add_assoc. }
    specialize (IH d1 Hok1 Hr1 Hs1). destruct (submit_all ids pick d1) as [ended d'].
    destruct IH as (sent&rest&->&Hq&Hend). rewrite Hc1 in Hq, Hend.
    exists (id :: sent), rest. split; [done|]. split.
    { intros p Hp. by rewrite Hq, Hq1, Hb, (Hcons p sent), app_assoc. }
    destruct ended; [by destruct Hend as [?%Hfits ?]|].
    destruct Hend as (Hf&id'&rest'&Hrest&Hfull). split; [by intros ?%Hfits|].
    exists id', rest'. by rewrite <- Hp1.
  - exists [], (id :: ids). split; [done|]. split; [intros p _; by rewrite app_nil_r|].
    split; [|by exists id, ids].
    intros Hf. specialize (Hf (partitionOf d id) (partitionOf_lt d id Hok)).
    rewrite (Hcons _ ids), length_app in Hf. unfold bound_for at 1 in Hf. cbn [List.filter] in Hf.
    rewrite Nat.eqb_refl in Hf. cbn [length] in Hf. lia.
Qed.

Section Service.
Context {P L K : Type} `{GoStd} `{LeaseManager L} `{Locker K}.
Context (env : nat -> Runtime) (order : list (string * string) -> list (string * string)).
Context (c : Clients P) (cfg : Config).
Local Abbreviation V := (Server MemStore P L K).
Local Abbreviation step := (sys_step env order c cfg).

(** C30: crash recovery queues every saga that is not over exactly once, in the
  partition its id hashes to and behind what is there, and nothing else
  changes, provided every partition has room; when one has not, the
  recovery queues the ids before the first that finds its partition full and
  blocks there for ever unless a worker receives. *)
Theorem recovery_queues (v0 v : V) pick :
delays_ok cfg -> initial v0 -> star step v0 v -> d_stopped (n_disp (sv_node v)) = false ->
let d := n_disp (sv_node v) in
exists ids, NoDup ids /\
  (forall id, id ∈ ids <-> exists sg, mem_sagas (sv_store v) !! id = Some sg /\
                                      Terminal (sg_State sg) = false) /\
  (fits d ids -> exists v', on_node (Recover pick) v = (Returned (Ok tt), v') /\
     sv_world v' = sv_world v /\
     forall p, p < d_Concurrency d ->
       queue (n_disp (sv_node v')) p = queue d p ++ bound_for d p ids) /\
  (~ fits d ids -> exists v' sent id rest, on_node (Recover pick) v = (Diverged, v') /\
     sv_world v' = sv_world v /\ ids = sent ++ id :: rest /\
     (forall p, p < d_Concurrency d ->
        queue (n_disp (sv_node v')) p = queue d p ++ bound_for d p sent) /\
     d_Concurrency d <= length (queue (n_disp (sv_node v')) (partitionOf d id))).
Proof.
intros Hdel Hi Hs Hrun d. pose proof (reachable_ok env order c cfg v0 v Hdel Hi Hs) as [_ Hd Hr].
exists (inflight_ids (sv_store v)). split; [apply inflight_NoDup|].
split; [intros id; apply elem_of_inflight|].
pose proof (submit_all_running (inflight_ids (sv_store v)) pick d Hd Hr Hrun) as Hsub.
assert (on_node (Recover pick) v =
  let '(ended, d') := submit_all (inflight_ids (sv_store v)) pick d in
  (if ended then Returned (Ok tt) else Diverged, set_node (set_disp d' (sv_node v)) v)) as ->.
{ destruct v as [[w dd] k]. unfold on_node, zoom, Recover, bind_err, bind, on_world, zoom, reading.
  cbn. unfold sv_store, sv_world. cbn. unfold d, inflight_ids. cbn.
  by destruct (submit_all _ pick dd). }
destruct (submit_all _ pick d) as [[] d'].
- destruct Hsub as (sent&rest&Hids&Hq&Hf&->). rewrite app_nil_r in Hids. subst sent.
  split; [|done]. intros _. by eexists.
- destruct Hsub as (sent&rest&Hids&Hq&Hf&id&rest'&->&Hfull). split; [done|]. intros _.
  eexists _, sent, id, rest'. by split_and!.
Qed.

(** A worker only ever receives ids of its own partition, so no two
  workers of the process run the same saga at a time; the sagas in a
  partition are run in the order they were queued. *)
Theorem worker_owns_partition (v0 v : V) idx id d :
delays_ok cfg -> initial v0 -> star step v0 v ->
receive idx (n_disp (sv_node v)) = Some (id, d) ->
partitionOf (n_disp (sv_node v)) id = idx /\
(forall idx', idx' <> idx -> id ∉ queue (n_disp (sv_node v)) idx') /\
queue (n_disp (sv_node v)) idx = id :: queue d idx.
Proof.
intros Hdel Hi Hs Hrec. pose proof (reachable_ok env order c cfg v0 v Hdel Hi Hs) as [_ Hd Hr].
destruct (receive_ok idx _ id d Hd Hr Hrec) as (_&_&Hp). split_and!; [done| |].
- intros idx' Hne Hin. unfold queue in Hin.
  destruct (d_partitions (n_disp (sv_node v)) !! idx') as [q|] eqn:E; [|by inversion Hin].
  apply Hne. rewrite <- Hp. symmetry. by apply (Hr idx' q id E).
- unfold receive in Hrec. unfold queue.
  destruct (d_partitions (n_disp (sv_node v)) !! idx) as [[|id' rest]|] eqn:E; simplify_eq.
  cbn. rewrite list_lookup_insert_eq by by eapply lookup_lt_Some. done.
Qed.

(** ** The handlers *)

(** A creation that was answered 201 can be read back at once. *)
Lemma created_get id req (v v' : V) :
created id req (w_store (sv_world v)) (w_store (sv_world v')) ->
exists r, handleGet id v' = (Returned (StatusOK, BTx r), v') /\
  rs_TxID r = id /\ rs_UserID r = rq_UserID req /\ rs_QuoteID r = rq_QuoteID req /\
  rs_Amount r = rq_Amount req /\ rs_Asset r = rq_Asset req /\ rs_Rail r = rq_Rail req /\
  rs_DestAddress r = rq_DestAddress req /\ rs_Status r = State_string StateCreated /\
  rs_State r = State_string StateCreated /\ rs_CurrentStep r = Step_string StepPolicy /\
  rs_Version r = 1%Z /\ map sr_StepName (rs_Steps r) = map Step_string StepOrder.
Proof.
intros [_ (u&w&rows&now&e&E1&E2&E3&Hnames&Hrows&_)]. unfold handleGet, bind.
rewrite !on_store_reading. cbn [LoadTx LoadSagaState ListSteps MemStore_Store].
unfold Mem.LoadTx, Mem.LoadSagaState. rewrite E1, lookup_insert_eq.
rewrite on_store_reading, E2, lookup_insert_eq. cbn beta iota. rewrite on_store_reading.
unfold Mem.ListSteps, rows_of. rewrite E3, lookup_insert_eq. cbn [default from_option].
eexists. split; [reflexivity|]. rewrite <- Hnames. split_and!; try done.
cbn. unfold toStepResponses. rewrite !map_map. by apply map_ext.
Qed.

(** The check of the request refuses exactly the blank fields. *)
Lemma validateCreate_blank req :
(forall l, order l ≡ₚ l) ->
validateCreate order req <> None <->
Exists (fun s => is_blank s = true)
  [rq_UserID req; rq_QuoteID req; rq_Amount req; rq_Asset req; rq_Rail req; rq_DestAddress req].
Proof.
intros Horder. set (fields := [_; _; _; _; _; _]).
assert (fields = map snd (required_fields req)) as -> by done.
transitivity (exists f, f ∈ order (required_fields req) /\ is_blank (snd f) = true).
- unfold validateCreate. split.
  + intros Hm. destruct (List.filter _ _) as [|f l] eqn:E; [done|].
    assert (In f (f :: l)) as Hin by by left. rewrite <- E in Hin.
    apply filter_In in Hin as [Hin Hb]. exists f. rewrite list_elem_of_In. destruct f. done.
  + intros ([k s]&Hin&Hb). destruct (List.filter _ _) as [|f l] eqn:E; [|done].
    assert (In (k, s) []) as []. rewrite <- E. apply filter_In.
    by rewrite list_elem_of_In in Hin.
- rewrite Exists_exists. split.
  + intros (f&Hin&Hb). exists (snd f). split; [|done]. apply list_elem_of_fmap. exists f.
    by rewrite <- Horder.
  + intros (s&(f&->&Hin)%list_elem_of_fmap&Hb). exists f. by rewrite Horder.
Qed.

(** C29: a creation is answered 400 exactly when the body does not decode or a
  field is blank; it is answered 201 exactly when it stored the transaction,
  which [GET] then returns with the fields of the request, in state
  [CREATED] with its six steps in order; every other answer leaves the
  store as it was.  No partner is called and no worker is told: the
  queues are the same. *)
Theorem creation_outcome body (v : V) :
(forall l, order l ≡ₚ l) ->
exists resp v', handleCreate env order body v = (Returned resp, v') /\
  sv_calls v' = sv_calls v /\ n_disp (sv_node v') = n_disp (sv_node v) /\
  (fst resp = StatusBadRequest <->
     match body with
     | None => True
     | Some req => Exists (fun s => is_blank s = true)
         [rq_UserID req; rq_QuoteID req; rq_Amount req; rq_Asset req; rq_Rail req;
          rq_DestAddress req]
     end) /\
  match resp with
  | (_, BCreated id) => fst resp = StatusCreated /\ mem_txs (sv_store v) !! id = None /\
      exists req r, body = Some req /\ handleGet id v' = (Returned (StatusOK, BTx r), v') /\
        rs_TxID r = id /\ rs_UserID r = rq_UserID req /\ rs_QuoteID r = rq_QuoteID req /\
        rs_Amount r = rq_Amount req /\ rs_Asset r = rq_Asset req /\ rs_Rail r = rq_Rail req /\
        rs_DestAddress r = rq_DestAddress req /\ rs_State r = State_string StateCreated /\
        map sr_StepName (rs_Steps r) = map Step_string StepOrder
  | _ => fst resp <> StatusCreated /\ sv_store v' = sv_store v
  end.
Proof.
intros Horder. destruct (handleCreate_result env order body v) as (resp&v'&Hrun&Hd&_&[_ Hio]&H400&Hout).
exists resp, v'. split; [done|]. split; [done|]. split; [done|]. split.
- rewrite H400. destruct body as [req|]; [|done]. by rewrite validateCreate_blank.
- destruct Hout as [(req&id&->&_&->&Hc)|(Hne&Hno&Hs)].
  + split; [done|]. split; [apply Hc|]. exists req.
    destruct (created_get id req v v' Hc) as (r&Hget&?&?&?&?&?&?&?&_&?&_&_&?).
    exists r. by split_and!.
  + destruct resp as [code []]; try done. by destruct (Hno txID).
Qed.
End Service.

(** ** Witnesses *)

Lemma recovery_queues_witness :
  exists v', on_node (Recover true) demo_v1 = (Returned (Ok tt), v') /\
    queue (n_disp (sv_node v')) 0 = ["id-0-0"].
Proof.
  destruct (recovery_queues ticking_env no_order demo_clients DefaultConfig demo_v0 demo_v1 true
    demo_delays demo_initial demo_to_v1 eq_refl) as (ids&Hn&Hin&Hfits&_).
  assert (ids = ["id-0-0"]) as ->.
  { apply Permutation_singleton_r, NoDup_Permutation; [exact Hn|apply NoDup_singleton|].
    intros id. rewrite Hin, list_elem_of_singleton.
    assert (mem_sagas (sv_store demo_v1) =
      {["id-0-0" := sg_with_ID (new_saga "id-0-0") 8]}) as -> by reflexivity.
    split.
    - intros (sg&[<- _]%lookup_singleton_Some&_). reflexivity.
    - intros ->. eexists. split; reflexivity. }
  destruct Hfits as (v'&Hrun&_&Hq).
  - intros p Hp. change (p < 1)%nat in Hp. assert (p = 0%nat) as -> by lia.
    vm_compute. lia.
  - exists v'. split; [exact Hrun|]. rewrite Hq by (vm_compute; lia). vm_compute. reflexivity.
Defined.

Lemma worker_owns_partition_witness :
  exists id d, receive 0 (n_disp (sv_node demo_v2)) = Some (id, d) /\
    partitionOf (n_disp (sv_node demo_v2)) id = 0%nat /\
    queue (n_disp (sv_node demo_v2)) 0 = id :: queue d 0.
Proof.
  destruct (receive 0 (n_disp (sv_node demo_v2))) as [[id d]|] eqn:E; [|vm_compute in E; discriminate E].
  destruct (worker_owns_partition ticking_env no_order demo_clients DefaultConfig demo_v0 demo_v2 0
    id d demo_delays demo_initial demo_to_v2 E) as (H1&_&H2).
  exists id, d. split; [reflexivity|]. split; [exact H1|exact H2].
Defined.

Lemma creation_outcome_witness :
  exists resp v', handleCreate ticking_env no_order (Some demo_req) demo_v0 = (Returned resp, v') /\
    fst resp = StatusCreated /\ n_disp (sv_node v') = n_disp (sv_node demo_v0).
Proof.
  destruct (creation_outcome ticking_env no_order (Some demo_req) demo_v0 (fun l => reflexivity l))
    as (resp&v'&Hrun&_&Hd&_).
  exists resp, v'. split; [exact Hrun|]. split; [|exact Hd].
  assert (fst (handleCreate ticking_env no_order (Some demo_req) demo_v0) =
    Returned (StatusCreated, BCreated "id-0-0")) as Hv by (vm_compute; reflexivity).
  rewrite Hrun in Hv. injection Hv as ->. reflexivity.
Defined.
