(* ===== verification/Pool.v ===== *)
(** The worker pool ([internal/worker/worker.go]: [Start], [worker], [Stop]):
    goroutines that receive from their partition and run sagas, next to the
    handlers of the server.  A receive and the run it leads to are two steps. *)

From S2P Require Import Prelude StateMachine Store Outbox Partner Steps Lease Executor SagaLog.
From S2P Require Import StepsCorrect ExecutorFacts RunFacts Legality Attempting Returns SagaInv.
From S2P Require Import Worker Api ApiFacts Frame Scenario System SystemTheorems.
From stdpp Require Import relations.

Local Open Scope go_scope.

(** Where a goroutine of [worker] is: in its [select], in [Executor.Run], or
    returned. *)
Inductive Goroutine :=
  | Waiting
  | Running (txID : string)
  | Exited.

#[export] Instance Goroutine_eq_dec : EqDecision Goroutine.
Proof. solve_decision. Defined.

(** The server, the goroutines with the partition each was started on, the
    wait group, and whether the context is done. *)
Record Pool (V : Type) := {
  pl_server : V;
  pl_workers : list (nat * Goroutine);
  pl_wg : nat;
  pl_cancelled : bool;
}.
Arguments pl_server {V} _.
Arguments pl_workers {V} _.
Arguments pl_wg {V} _.
Arguments pl_cancelled {V} _.

Definition set_server {V} (v : V) (p : Pool V) : Pool V :=
  {| pl_server := v; pl_workers := pl_workers p; pl_wg := pl_wg p;
     pl_cancelled := pl_cancelled p |}.
Definition set_worker {V} (j : nat) (g : nat * Goroutine) (p : Pool V) : Pool V :=
  {| pl_server := pl_server p; pl_workers := <[j := g]> (pl_workers p); pl_wg := pl_wg p;
     pl_cancelled := pl_cancelled p |}.

(** [defer d.wg.Done()]. *)
Definition exit {V} (j idx : nat) (p : Pool V) : Pool V :=
  {| pl_server := pl_server p; pl_workers := <[j := (idx, Exited)]> (pl_workers p);
     pl_wg := pl_wg p - 1; pl_cancelled := pl_cancelled p |}.

Section Pool.
Context {P L K : Type} `{GoStd} `{LeaseManager L} `{Locker K}.
Context (env : nat -> Runtime) (order : list (string * string) -> list (string * string)).
Context (c : Clients P) (cfg : Config).
Local Abbreviation V := (Server MemStore P L K).
Local Abbreviation e := (NewExecutor env c cfg).

Definition pl_disp (p : Pool V) : Dispatcher := n_disp (sv_node (pl_server p)).

Definition no_workers (v : V) : Pool V :=
{| pl_server := v; pl_workers := []; pl_wg := 0; pl_cancelled := false |}.

(** [Start]: a goroutine per partition. *)
Definition Start (p : Pool V) : Pool V :=
let n := d_Concurrency (pl_disp p) in
{| pl_server := pl_server p;
   pl_workers := pl_workers p ++ map (fun i => (i, Waiting)) (seq 0 n);
   pl_wg := pl_wg p + n; pl_cancelled := pl_cancelled p |}.

(** The steps of the goroutines.  When several cases of the [select] are ready
  any of them may be taken. *)
Inductive worker_step (p : Pool V) : Pool V -> Prop :=
| ws_stop j idx :
    pl_workers p !! j = Some (idx, Waiting) -> d_stopped (pl_disp p) = true ->
    worker_step p (exit j idx p)
| ws_done j idx :
    pl_workers p !! j = Some (idx, Waiting) -> pl_cancelled p = true ->
    worker_step p (exit j idx p)
| ws_receive j idx txID d :
    pl_workers p !! j = Some (idx, Waiting) -> receive idx (pl_disp p) = Some (txID, d) ->
    worker_step p (set_worker j (idx, Running txID)
      (set_server (set_node (set_disp d (sv_node (pl_server p))) (pl_server p)) p))
| ws_run j idx txID pf fuel r v :
    pl_workers p !! j = Some (idx, Running txID) ->
    on_node (on_world (Run env e txID (d_Owner (pl_disp p)) pf fuel)) (pl_server p) =
      (Returned r, v) ->
    worker_step p (set_worker j (idx, Waiting) (set_server v p)).

(** The handlers of the other goroutines, as in [sys_step]. *)
Inductive handler_step (v v' : V) : Prop :=
| hs_create body o : handleCreate env order body v = (o, v') -> handler_step v v'
| hs_get id o : handleGet id v = (o, v') -> handler_step v v'
| hs_steps id o : handleSteps id v = (o, v') -> handler_step v v'
| hs_retry id body pick o :
    handleRetry (Some (worker_control env e pick)) id body v = (o, v') -> handler_step v v'
| hs_compensate id pick o :
    handleCompensate (Some (worker_control env e pick)) id v = (o, v') -> handler_step v v'
| hs_recover pick o : on_node (Recover pick) v = (o, v') -> handler_step v v'
| hs_drain Q (pub : Publisher Q) env' r (q : Q) tick o w' :
    drainOnce env' r {| rw_store := w_store (sv_world v); rw_bus := q; rw_tick := tick |} = (o, w') ->
    v' = with_store (rw_store w') v -> handler_step v v'.

Inductive pool_step (p : Pool V) : Pool V -> Prop :=
| ps_worker p' : worker_step p p' -> pool_step p p'
| ps_handler v : handler_step (pl_server p) v -> pool_step p (set_server v p)
| ps_close : pool_step p (set_server
    (set_node (set_disp (Stop (pl_disp p)) (sv_node (pl_server p))) (pl_server p)) p)
| ps_cancel : pool_step p {| pl_server := pl_server p; pl_workers := pl_workers p;
    pl_wg := pl_wg p; pl_cancelled := true |}.

(** The goroutines are told to return; [wg.Wait] lets [Stop] return once the
  wait group is at zero. *)
Definition closing (p : Pool V) : Prop := d_stopped (pl_disp p) = true \/ pl_cancelled p = true.
Definition all_done (p : Pool V) : Prop := pl_wg p = 0.

(** ** Invariants *)

Definition live (g : nat * Goroutine) : bool :=
match snd g with Exited => false | _ => true end.

(** One goroutine per partition; what runs belongs to the partition of its
  goroutine; the wait group counts the goroutines that have not returned. *)
Record pool_ok (p : Pool V) : Prop := {
po_server : srv_ok (pl_server p);
po_parts : NoDup (map fst (pl_workers p));
po_range : Forall (fun g => fst g < d_Concurrency (pl_disp p)) (pl_workers p);
po_running : forall idx txID, (idx, Running txID) ∈ pl_workers p ->
  partitionOf (pl_disp p) txID = idx;
po_wg : pl_wg p = length (List.filter live (pl_workers p));
}.

Lemma handler_sys v v' : handler_step v v' -> sys_step env order c cfg v v'.
Proof.
intros [body o Hr|id o Hr|id o Hr|id body pick o Hr|id pick o Hr|pick o Hr|Q pub env' r q tick o w' Hr E].
- exact (st_create _ _ _ _ _ _ body o Hr).
- exact (st_get _ _ _ _ _ _ id o Hr).
- exact (st_steps _ _ _ _ _ _ id o Hr).
- exact (st_retry _ _ _ _ _ _ id body pick o Hr).
- exact (st_compensate _ _ _ _ _ _ id pick o Hr).
- exact (st_recover _ _ _ _ _ _ pick o Hr).
- exact (st_drain _ _ _ _ _ _ Q pub env' r q tick o w' Hr E).
Qed.

(** What a step does to the server. *)
Lemma pool_step_effect (p p' : Pool V) :
delays_ok cfg -> srv_ok (pl_server p) -> pool_step p p' ->
effect (sv_world (pl_server p)) (sv_world (pl_server p')) /\ disp_ok (pl_disp p') /\
routed (pl_disp p') /\ d_Concurrency (pl_disp p') = d_Concurrency (pl_disp p).
Proof.
intros Hdel Hok Hs. pose proof Hok as [Hw Hd Hr].
destruct Hs as [p' Hs|v Hs| |].
- destruct Hs as [j idx Hj Hs|j idx Hj Hs|j idx txID d Hj Hrec|j idx txID pf fuel r v Hj Hrun].
  1,2: split_and!; [apply effect_refl|done..].
  + destruct (receive_ok idx _ txID d Hd Hr Hrec) as (?&?&_). apply receive_conc in Hrec.
    split_and!; [apply effect_refl|done..].
  + unfold on_node, on_world, zoom in Hrun. destruct (pl_server p) as [[w d] k] eqn:E.
    cbn in Hrun. unfold sv_world, pl_disp in *. rewrite E in *. cbn in *.
    destruct (Run env e txID _ pf fuel w) as [o1 w1] eqn:Er. injection Hrun as _ <-. cbn.
    split_and!; [by eapply sys_run|done..].
- apply (sys_step_effect env order c cfg); [done|done|by apply handler_sys].
- split_and!; [apply effect_refl|done..].
- split_and!; [apply effect_refl|done..].
Qed.

(** Replacing a goroutine by one on the same partition. *)
Lemma set_same_part (l : list (nat * Goroutine)) j idx g g' :
l !! j = Some (idx, g) -> map fst (<[j := (idx, g')]> l) = map fst l.
Proof.
intros Hj. change (fst <$> <[j := (idx, g')]> l = fst <$> l). rewrite list_fmap_insert. apply list_insert_id. by rewrite list_lookup_fmap, Hj.
Qed.

Lemma set_live (l : list (nat * Goroutine)) j idx g g' :
l !! j = Some (idx, g) -> live (idx, g) = true ->
length (List.filter live (<[j := (idx, g')]> l)) =
  if live (idx, g') then length (List.filter live l) else length (List.filter live l) - 1.
Proof.
revert j. induction l as [|x l IH]; intros [|j]; [done|done| |].
- intros [= ->] Hl. change (<[0 := (idx, g')]> ((idx, g) :: l)) with ((idx, g') :: l).
  cbn [List.filter]. rewrite Hl. destruct (live (idx, g')); cbn [length]; lia.
- intros Hj Hl. cbn in Hj. specialize (IH j Hj Hl).
  change (<[S j := (idx, g')]> (x :: l)) with (x :: <[j := (idx, g')]> l). cbn [List.filter].
  destruct (live x); [|done]. cbn [length]. rewrite IH.
  assert (0 < length (List.filter live l)).
  { assert (In (idx, g) (List.filter live l)) as Hin
      by (apply filter_In; split; [by eapply list_elem_of_In, list_elem_of_lookup_2|done]).
    destruct (List.filter live l); [done|cbn; lia]. }
  destruct (live (idx, g')); lia.
Qed.

(** One goroutine changes. *)
Lemma pool_ok_worker (p : Pool V) v j idx g g' wg cancelled :
pool_ok p -> srv_ok v -> d_Concurrency (n_disp (sv_node v)) = d_Concurrency (pl_disp p) ->
pl_workers p !! j = Some (idx, g) -> live (idx, g) = true ->
(forall txID, g' = Running txID -> partitionOf (pl_disp p) txID = idx) ->
wg = (if live (idx, g') then pl_wg p else pl_wg p - 1) ->
pool_ok {| pl_server := v; pl_workers := <[j := (idx, g')]> (pl_workers p); pl_wg := wg;
           pl_cancelled := cancelled |}.
Proof.
intros [Hsrv Hparts Hrange Hrun Hwg] Hv Hc Hj Hl Hg' ->.
assert (Hpart : forall txID, partitionOf (n_disp (sv_node v)) txID = partitionOf (pl_disp p) txID).
{ intros txID. unfold partitionOf. destruct Hv as [_ [_ ->] _], Hsrv as [_ [_ E] _].
  unfold pl_disp in *. by rewrite E, Hc. }
split; cbn; [done| | | |].
- by rewrite (set_same_part _ _ _ _ _ Hj).
- apply Forall_insert; [eapply Forall_impl; [exact Hrange|]; intros x; by rewrite <- Hc|].
  cbn. unfold pl_disp at 1. cbn. rewrite Hc. rewrite Forall_lookup in Hrange. exact (Hrange _ _ Hj).
- intros idx' txID Hin. unfold pl_disp. cbn. rewrite Hpart.
  apply list_elem_of_lookup in Hin as [i Hi]. destruct (decide (i = j)) as [->|Hne].
  + rewrite list_lookup_insert_eq in Hi by by eapply lookup_lt_Some. injection Hi as -> ->. by apply Hg'.
  + rewrite list_lookup_insert_ne in Hi by done. apply Hrun. by eapply list_elem_of_lookup_2.
- rewrite (set_live _ _ _ _ _ Hj Hl). by rewrite Hwg.
Qed.

Lemma pool_ok_server (p : Pool V) v cancelled :
pool_ok p -> srv_ok v -> d_Concurrency (n_disp (sv_node v)) = d_Concurrency (pl_disp p) ->
pool_ok {| pl_server := v; pl_workers := pl_workers p; pl_wg := pl_wg p; pl_cancelled := cancelled |}.
Proof.
intros [Hsrv Hparts Hrange Hrun Hwg] Hv Hc. split; cbn; try done.
- eapply Forall_impl; [exact Hrange|]. intros x. unfold pl_disp. cbn. by rewrite Hc.
- intros idx txID Hin. rewrite <- (Hrun idx txID Hin). unfold partitionOf, pl_disp. cbn.
  destruct Hv as [_ [_ ->] _], Hsrv as [_ [_ E] _]. unfold pl_disp in *. by rewrite E, Hc.
Qed.

Lemma pool_step_ok (p p' : Pool V) : delays_ok cfg -> pool_ok p -> pool_step p p' -> pool_ok p'.
Proof.
intros Hdel Hok Hs. pose proof Hok as [Hsrv _ _ _ _].
destruct (pool_step_effect p p' Hdel Hsrv Hs) as (He&Hd&Hr&Hc).
assert (srv_ok (pl_server p')) as Hv by (split; [eapply effect_ok; [apply Hsrv|done]|done|done]).
destruct Hs as [p' Hs|v Hs| |]; [|by apply pool_ok_server..].
destruct Hs as [j idx Hj Hs|j idx Hj Hs|j idx txID d Hj Hrec|j idx txID pf fuel r v Hj Hrun].
1,2: by eapply (pool_ok_worker p).
- eapply (pool_ok_worker p); [done..| |done]. intros ? [= <-].
  destruct Hsrv as [_ Hd0 Hr0]. apply (receive_ok idx _ txID d Hd0 Hr0 Hrec).
- by eapply (pool_ok_worker p).
Qed.

(** The pool [run] starts with. *)
Lemma Start_ok v : initial v -> pool_ok (Start (no_workers v)).
Proof.
intros Hi. pose proof (initial_ok v Hi) as Hv. split; cbn; [done| | | |].
- rewrite map_map. cbn. rewrite map_id. apply NoDup_ListNoDup, seq_NoDup.
- apply Forall_map, Forall_forall. intros i Hin%list_elem_of_In%in_seq. cbn. unfold pl_disp in *. cbn in *. lia.
- intros idx txID (i&Hin&_)%list_elem_of_fmap. done.
- assert (forall n a, length (List.filter live (map (fun i => (i, Waiting)) (seq a n))) = n) as ->; [|done].
  intros n. induction n as [|n IH]; intros a; cbn; [done|by rewrite IH].
Qed.

Lemma reachable_pool v p : delays_ok cfg -> initial v -> star pool_step (Start (no_workers v)) p ->
pool_ok p.
Proof.
intros Hdel Hi Hs. eapply (star_invariant pool_step pool_ok); [|exact Hs|by apply Start_ok].
intros x y ??. by eapply pool_step_ok.
Qed.

(** When runs and handlers are single steps the money invariant of the process
  holds although a receive and its run are separate steps. *)
Lemma pool_money v p id :
delays_ok cfg -> initial v -> star pool_step (Start (no_workers v)) p ->
forall tx, mem_txs (w_store (sv_world (pl_server p))) !! id = Some tx ->
  exists sg, stored id (w_store (sv_world (pl_server p))) tx sg /\ tx_Status tx = sg_State sg /\
    money id (sg_State sg) (x_calls (w_ext (sv_world (pl_server p)))).
Proof.
intros Hdel Hi Hs tx Htx. pose proof (reachable_pool v p Hdel Hi Hs) as [[Hok _ _] _ _ _ _].
destruct (sys_stored _ id tx Hok Htx) as (sg&Hst&Hsync&Hset).
exists sg. split_and!; [done|done|]. by eapply settled_money.
Qed.

(** ** No saga is run twice at a time

    For this neither a run nor a handler has to be one step: at any moment the
    store, the partners, the leases and the lock may change in any way
    ([at_world]), a run may end ([at_return]), and a retry or a recovery may
    make one of its submissions ([at_submit]). *)
Inductive any_step (p : Pool V) : Pool V -> Prop :=
| at_exit j idx :
    pl_workers p !! j = Some (idx, Waiting) -> any_step p (exit j idx p)
| at_receive j idx txID d :
    pl_workers p !! j = Some (idx, Waiting) -> receive idx (pl_disp p) = Some (txID, d) ->
    any_step p (set_worker j (idx, Running txID)
      (set_server (set_node (set_disp d (sv_node (pl_server p))) (pl_server p)) p))
| at_return j idx txID :
    pl_workers p !! j = Some (idx, Running txID) -> any_step p (set_worker j (idx, Waiting) p)
| at_submit txID pick d :
    Submit txID pick (pl_disp p) = Some d ->
    any_step p (set_server (set_node (set_disp d (sv_node (pl_server p))) (pl_server p)) p)
| at_world v : n_disp (sv_node v) = pl_disp p -> any_step p (set_server v p)
| at_close : any_step p (set_server
    (set_node (set_disp (Stop (pl_disp p)) (sv_node (pl_server p))) (pl_server p)) p)
| at_cancel : any_step p {| pl_server := pl_server p; pl_workers := pl_workers p;
    pl_wg := pl_wg p; pl_cancelled := true |}.

(** What these steps keep: the queues, and one goroutine per partition that
  runs only what belongs there. *)
Record pool_routed (p : Pool V) : Prop := {
pr_disp : disp_ok (pl_disp p);
pr_routed : routed (pl_disp p);
pr_parts : NoDup (map fst (pl_workers p));
pr_running : forall idx txID, (idx, Running txID) ∈ pl_workers p -> partitionOf (pl_disp p) txID = idx;
}.

Lemma partitionOf_same d d' id :
disp_ok d -> disp_ok d' -> d_Concurrency d' = d_Concurrency d -> partitionOf d' id = partitionOf d id.
Proof. intros [_ E] [_ E'] Hc. unfold partitionOf. by rewrite E, E', Hc. Qed.

(** One goroutine and the dispatcher change. *)
Lemma pool_routed_worker (p : Pool V) v j idx g g' wg cancelled :
pool_routed p -> disp_ok (n_disp (sv_node v)) -> routed (n_disp (sv_node v)) ->
d_Concurrency (n_disp (sv_node v)) = d_Concurrency (pl_disp p) ->
pl_workers p !! j = Some (idx, g) ->
(forall txID, g' = Running txID -> partitionOf (pl_disp p) txID = idx) ->
pool_routed {| pl_server := v; pl_workers := <[j := (idx, g')]> (pl_workers p); pl_wg := wg;
               pl_cancelled := cancelled |}.
Proof.
intros [Hd Hr Hparts Hrun] Hd' Hr' Hc Hj Hg'. split; cbn; [done|done| |].
- by rewrite (set_same_part _ _ _ _ _ Hj).
- intros idx' txID Hin. unfold pl_disp. cbn. rewrite (partitionOf_same _ _ txID Hd Hd' Hc).
  apply list_elem_of_lookup in Hin as [i Hi]. destruct (decide (i = j)) as [->|Hne].
  + rewrite list_lookup_insert_eq in Hi by by eapply lookup_lt_Some. injection Hi as -> ->. by apply Hg'.
  + rewrite list_lookup_insert_ne in Hi by done. apply Hrun. by eapply list_elem_of_lookup_2.
Qed.

Lemma pool_routed_server (p : Pool V) v cancelled :
pool_routed p -> disp_ok (n_disp (sv_node v)) -> routed (n_disp (sv_node v)) ->
d_Concurrency (n_disp (sv_node v)) = d_Concurrency (pl_disp p) ->
pool_routed {| pl_server := v; pl_workers := pl_workers p; pl_wg := pl_wg p; pl_cancelled := cancelled |}.
Proof.
intros [Hd Hr Hparts Hrun] Hd' Hr' Hc. split; cbn; [done|done|done|].
intros idx txID Hin. unfold pl_disp. cbn. rewrite (partitionOf_same _ _ txID Hd Hd' Hc). by apply Hrun.
Qed.

Lemma any_step_routed (p p' : Pool V) : pool_routed p -> any_step p p' -> pool_routed p'.
Proof.
intros Hok Hs. pose proof Hok as [Hd Hr _ _].
destruct Hs as [j idx Hj|j idx txID d Hj Hrec|j idx txID Hj|txID pick d Hsub|v Hv| |].
- by eapply (pool_routed_worker p).
- destruct (receive_ok idx _ txID d Hd Hr Hrec) as (Hd'&Hr'&Hid). apply receive_conc in Hrec.
  eapply (pool_routed_worker p); [done..|]. by intros ? [= <-].
- by eapply (pool_routed_worker p).
- destruct (Submit_ok txID pick _ d Hd Hr Hsub). apply Submit_conc in Hsub. by apply pool_routed_server.
- apply pool_routed_server; by rewrite ?Hv.
- by apply pool_routed_server.
- by apply pool_routed_server.
Qed.

Lemma any_reachable v p : initial v -> star any_step (Start (no_workers v)) p -> pool_routed p.
Proof.
intros Hi Hs. eapply (star_invariant any_step pool_routed); [|exact Hs|].
- intros x y ??. by eapply any_step_routed.
- pose proof (Start_ok v Hi) as [[_ Hd Hr] Hparts _ Hrun _]. by split.
Qed.

(** *** What the handlers do to the dispatcher *)

Lemma Recover_disp pick (n n' : Node MemStore P L) o :
Recover pick n = (o, n') -> exists ids, n_disp n' = snd (submit_all ids pick (n_disp n)).
Proof.
unfold Recover, bind_err, bind, on_world, zoom, reading. cbn. destruct n as [w d].
set (ids := (_ ≫= _)). exists ids. cbn in *. destruct (submit_all ids pick d) as [b d'].
by match goal with E : _ = (o, n') |- _ => injection E as _ <- end.
Qed.

Lemma Retry_disp id step pick (n n' : Node MemStore P L) o :
Retry id step pick n = (o, n') ->
n_disp n' = n_disp n \/ exists d, Submit id pick (n_disp n) = Some d /\ n_disp n' = d.
Proof.
unfold Retry, bind_err, bind at 1, on_world, zoom, reading. destruct n as [w d]. cbn.
destruct (Mem.LoadSagaState id (w_store w)) as [sg|err]; [|intros [= _ <-]; by left].
destruct (Terminal (sg_State sg)); [intros [= _ <-]; by left|].
unfold bind, submit. cbn. destruct (Submit id pick d) as [d'|]; intros [= _ <-]; [right; by exists d'|by left].
Qed.

Lemma Compensate_disp (ex : Executor P) id (n n' : Node MemStore P L) o :
Compensate env ex id n = (o, n') -> n_disp n' = n_disp n.
Proof.
unfold Compensate, bind_err, bind at 1, on_world at 1, zoom at 1, reading. destruct n as [w d]. cbn.
destruct (Mem.LoadSagaState id (w_store w)) as [sg|err]; [|by intros [= _ <-]].
destruct (IsFailure (sg_State sg)); [by intros [= _ <-]|].
destruct (Terminal (sg_State sg)); [by intros [= _ <-]|].
destruct (StepByName ex (sg_CurrentStep sg)) as [step|]; [|by intros [= _ <-]].
unfold on_world, zoom. cbn [n_world set_world]. destruct (compensateCascade env ex id step w) as [o1 w1]. by intros [= _ <-].
Qed.

Lemma handleRetry_disp id body pick (v v' : V) o :
handleRetry (Some (worker_control env e pick)) id body v = (o, v') ->
n_disp (sv_node v') = n_disp (sv_node v) \/
exists d, Submit id pick (n_disp (sv_node v)) = Some d /\ n_disp (sv_node v') = d.
Proof.
assert (forall st o1 v1, on_node (Retry id st pick) v = (o1, v1) ->
  n_disp (sv_node v1) = n_disp (sv_node v) \/
  exists d, Submit id pick (n_disp (sv_node v)) = Some d /\ n_disp (sv_node v1) = d) as Hretry.
{ intros st o1 v1. unfold on_node, zoom. destruct (Retry id st pick (sv_node v)) as [o2 n2] eqn:E.
  intros [= _ <-]. by apply (Retry_disp id st pick _ _ o2). }
unfold handleRetry, bind. destruct (bool_decide (body = "")).
- rewrite on_store_reading. cbn [ret].
  destruct (LoadSagaState id (w_store (sv_world v))) as [sg|]; [|intros [= _ <-]; by left].
  cbn [ct_Retry worker_control].
  destruct (on_node (Retry id (sg_CurrentStep sg) pick) v) as [[[]| |] v1] eqn:E;
    apply Hretry in E; by intros [= _ <-].
- cbn [ret ct_Retry worker_control].
  destruct (on_node (Retry id (Step_of_string body) pick) v) as [[[]| |] v1] eqn:E;
    apply Hretry in E; by intros [= _ <-].
Qed.

Lemma handleCompensate_disp id pick (v v' : V) o :
handleCompensate (Some (worker_control env e pick)) id v = (o, v') ->
n_disp (sv_node v') = n_disp (sv_node v).
Proof.
unfold handleCompensate, bind. cbn [ct_Compensate worker_control]. unfold on_node, zoom.
destruct (Compensate env e id (sv_node v)) as [o1 n1] eqn:E. apply (Compensate_disp e) in E.
destruct o1 as [[]| |]; by intros [= _ <-].
Qed.

(** *** Its steps cover those of the pool *)

Lemma any_disp (p : Pool V) v d :
star any_step p (set_server (set_node (set_disp d (sv_node (pl_server p))) (pl_server p)) p) ->
n_disp (sv_node v) = d -> star any_step p (set_server v p).
Proof.
intros Hs <-. etrans; [exact Hs|]. apply star_one.
exact (at_world (set_server (set_node (set_disp (n_disp (sv_node v)) (sv_node (pl_server p))) (pl_server p)) p)
  v eq_refl).
Qed.

Lemma any_submits ids pick : forall p : Pool V,
star any_step p (set_server (set_node (set_disp (snd (submit_all ids pick (pl_disp p)))
  (sv_node (pl_server p))) (pl_server p)) p).
Proof.
induction ids as [|id ids IH]; intros p; cbn [submit_all].
- apply star_one. by apply at_world.
- destruct (Submit id pick (pl_disp p)) as [d1|] eqn:E; [|apply star_one; by apply at_world].
  eapply star_step; [by apply (at_submit p id pick d1)|].
  exact (IH (set_server (set_node (set_disp d1 (sv_node (pl_server p))) (pl_server p)) p)).
Qed.

Lemma handler_any (p : Pool V) v : handler_step (pl_server p) v -> star any_step p (set_server v p).
Proof.
assert (forall v, n_disp (sv_node v) = pl_disp p -> star any_step p (set_server v p)) as Hsame.
{ intros v' E. apply star_one. by apply at_world. }
intros [body o Hr|id o Hr|id o Hr|id body pick o Hr|id pick o Hr|pick o Hr|Q pub env' r q tick o w' Hr E].
- destruct (handleCreate_result env order body (pl_server p)) as (resp&v'&E&Hd&_).
  rewrite Hr in E. injection E as _ <-. by apply Hsame.
- apply handleGet_keeps in Hr as ->. by apply Hsame.
- apply handleSteps_keeps in Hr as ->. by apply Hsame.
- destruct (handleRetry_disp id body pick (pl_server p) v o Hr)
    as [E|(d&Hsub&E)]; [by apply Hsame|].
  apply (any_disp p v d); [|done]. apply star_one. by eapply at_submit.
- apply handleCompensate_disp in Hr. by apply Hsame.
- assert (exists ids, n_disp (sv_node v) = snd (submit_all ids pick (pl_disp p))) as [ids E].
  { unfold on_node, zoom in Hr. destruct (Recover pick _) as [o1 n1] eqn:Er. injection Hr as _ <-.
    exact (Recover_disp pick _ _ _ Er). }
  apply (any_disp p v _ (any_submits ids pick p)). done.
- subst v. by apply Hsame.
Qed.

Lemma pool_any (p p' : Pool V) : pool_step p p' -> star any_step p p'.
Proof.
intros [p1 Hs|v Hs| |]; [|by apply handler_any|apply star_one, at_close|apply star_one, at_cancel].
destruct Hs as [j idx Hj Hs|j idx Hj Hs|j idx txID d Hj Hrec|j idx txID pf fuel r v Hj Hrun].
1,2: by apply star_one, at_exit.
- apply star_one. by apply at_receive.
- eapply star_step; [by apply (at_return p j idx txID)|]. apply star_one.
  apply (at_world (set_worker j (idx, Waiting) p) v).
  unfold on_node, on_world, zoom in Hrun. unfold pl_disp. cbn. destruct (pl_server p) as [[w d] k].
  cbn in *. destruct (Run env e txID _ pf fuel w). by injection Hrun as _ <-.
Qed.

(** C13: between a start and the end, whatever the goroutines and the handlers
  do and however they overlap, piece by piece: a saga runs only on the
  goroutine of the partition its id hashes to, and two goroutines of the pool
  never run the same saga. *)
Theorem pool_exclusive v p id :
initial v -> star any_step (Start (no_workers v)) p ->
(forall j idx, pl_workers p !! j = Some (idx, Running id) -> idx = partitionOf (pl_disp p) id) /\
(forall j j' idx idx', pl_workers p !! j = Some (idx, Running id) ->
   pl_workers p !! j' = Some (idx', Running id) -> j = j').
Proof.
intros Hi Hs. destruct (any_reachable v p Hi Hs) as [_ _ Hparts Hrun].
assert (forall j idx, pl_workers p !! j = Some (idx, Running id) -> idx = partitionOf (pl_disp p) id) as Hidx.
{ intros j idx Hj. symmetry. by eapply Hrun, list_elem_of_lookup_2. }
split; [done|]. intros j j' idx idx' Hj Hj'.
eapply (NoDup_lookup (map fst (pl_workers p))); [exact Hparts|..];
  change (map fst (pl_workers p)) with (fst <$> pl_workers p); rewrite list_lookup_fmap.
- rewrite Hj. cbn. by rewrite (Hidx _ _ Hj).
- rewrite Hj'. cbn. by rewrite (Hidx _ _ Hj').
Qed.

(** ** The pool stops *)

(** What the goroutines can still do when nothing is submitted any more. *)
Definition work (g : nat * Goroutine) : nat :=
match snd g with Exited => 0 | Waiting => 1 | Running _ => 2 end.
Definition queued (d : Dispatcher) : nat := sum_list (map length (d_partitions d)).
Definition left (p : Pool V) : nat := 2 * queued (pl_disp p) + sum_list (map work (pl_workers p)).

Lemma sum_insert {A} (f : A -> nat) (l : list A) j x y :
l !! j = Some x -> sum_list (map f (<[j := y]> l)) + f x = sum_list (map f l) + f y.
Proof.
revert j. induction l as [|z l IH]; intros [|j]; [done|done| |]; cbn [lookup].
- intros [= ->]. change (<[0 := y]> (x :: l)) with (y :: l). cbn. lia.
- intros Hj. change (<[S j := y]> (z :: l)) with (z :: <[j := y]> l). cbn in Hj |- *.
  specialize (IH j Hj). lia.
Qed.

Lemma receive_queued idx d txID d' :
receive idx d = Some (txID, d') -> queued d = S (queued d').
Proof.
unfold receive, queued. destruct (d_partitions d !! idx) as [[|id rest]|] eqn:E; [done| |done].
intros [= _ <-]. cbn. pose proof (sum_insert length _ _ _ rest E) as Hs. cbn in Hs. lia.
Qed.

(** Every step of a goroutine uses up some of it. *)
Lemma worker_step_left p p' : worker_step p p' -> S (left p') = left p.
Proof.
intros [j idx Hj Hs|j idx Hj Hs|j idx txID d Hj Hrec|j idx txID pf fuel r v Hj Hrun];
  unfold left; cbn.
- pose proof (sum_insert work _ _ _ (idx, Exited) Hj) as E. cbn in E. unfold pl_disp in *. cbn. lia.
- pose proof (sum_insert work _ _ _ (idx, Exited) Hj) as E. cbn in E. unfold pl_disp in *. cbn. lia.
- pose proof (sum_insert work _ _ _ (idx, Running txID) Hj) as E. cbn in E.
  apply receive_queued in Hrec. unfold pl_disp in *. cbn. lia.
- pose proof (sum_insert work _ _ _ (idx, Waiting) Hj) as E. cbn in E.
  assert (n_disp (sv_node v) = pl_disp p) as Ed.
  { unfold on_node, on_world, zoom in Hrun. unfold pl_disp. destruct (pl_server p) as [[w d] k]. cbn in *.
    destruct (Run env e txID _ pf fuel w). by injection Hrun as _ <-. }
  change (pl_disp (set_worker j (idx, Waiting) (set_server v p))) with (n_disp (sv_node v)).
  rewrite Ed. lia.
Qed.

Lemma worker_steps_left n p p' : nsteps worker_step n p p' -> n + left p' = left p.
Proof.
induction 1 as [|n x y z Hs _ IH]; [done|]. apply worker_step_left in Hs. lia.
Qed.

(** As long as the wait group is not at zero some goroutine can go on. *)
Lemma worker_goes_on p pf :
delays_ok cfg -> expires env pf -> grants (L := L) -> pool_ok p ->
closing p -> ~ all_done p -> exists p', worker_step p p'.
Proof.
intros Hdel Hexp Hgr [[Hok _ _] _ _ _ Hwg] Hst Hne. unfold all_done in Hne.
destruct (List.filter live (pl_workers p)) as [|[idx g] l] eqn:E; [cbn in Hwg; lia|].
assert (In (idx, g) (List.filter live (pl_workers p))) as Hin by (rewrite E; by left).
apply filter_In in Hin as [Hin Hl]. apply list_elem_of_In, list_elem_of_lookup in Hin as [j Hj].
destruct g as [|txID|]; [| |done].
{ destruct Hst as [Hst|Hst]; eexists; [by eapply ws_stop|by eapply ws_done]. }
set (v := pl_server p) in *. set (w := sv_world v).
assert (exists r w', Run env e txID (d_Owner (pl_disp p)) pf 9 w = (Returned r, w')) as (r&w'&Hrun).
{ destruct (mem_txs (w_store w) !! txID) as [tx|] eqn:Htx.
  - pose proof (sys_sound _ Hok txID tx Htx) as Hsound.
    pose proof (filed_tx _ (sys_filed _ Hok) _ _ Htx) as <-.
    destruct (Run_ends env c cfg tx (d_Owner (pl_disp p)) pf 9 0 w Hdel Hexp Hgr Hsound)
      as (r&w'&Hrun&_); [lia..|]. by exists r, w'.
  - exists (Err ErrNotFound), w. by apply (Run_unknown env). }
eexists. eapply (ws_run p j idx txID pf 9 r (set_node (set_world w' (sv_node v)) v)); [done|].
unfold on_node, on_world, zoom. unfold w, sv_world in Hrun. fold v. by rewrite Hrun.
Qed.

Lemma worker_step_stopped p p' : worker_step p p' ->
d_stopped (pl_disp p') = d_stopped (pl_disp p) /\ pl_cancelled p' = pl_cancelled p.
Proof.
intros [j idx Hj Hs|j idx Hj Hs|j idx txID d Hj Hrec|j idx txID pf fuel r v Hj Hrun];
  try done; (split; [|done]).
- unfold receive in Hrec. destruct (d_partitions _ !! idx) as [[|]|]; [done| |done].
  by injection Hrec as _ <-.
- unfold on_node, on_world, zoom in Hrun. unfold pl_disp. destruct (pl_server p) as [[w d] k]. cbn in *.
  destruct (Run env e txID _ pf fuel w). by injection Hrun as _ <-.
Qed.

Lemma closing_step p p' : worker_step p p' -> closing p -> closing p'.
Proof. intros [Hd Hc]%worker_step_stopped. unfold closing. by rewrite Hd, Hc. Qed.

Lemma pool_stops_from n : forall p pf,
delays_ok cfg -> expires env pf -> grants (L := L) -> pool_ok p ->
closing p -> left p <= n -> exists p', rtc worker_step p p' /\ all_done p'.
Proof.
induction n as [n IH] using lt_wf_ind. intros p pf Hdel Hexp Hgr Hok Hst Hn.
destruct (decide (pl_wg p = 0)) as [Hz|Hz]; [by exists p|].
destruct (worker_goes_on p pf Hdel Hexp Hgr Hok Hst Hz) as [p1 Hs].
pose proof (worker_step_left _ _ Hs) as Hl.
destruct (IH (left p1) ltac:(lia) p1 pf Hdel Hexp Hgr) as (p'&Hr&Hp').
- eapply pool_step_ok; [done|exact Hok|by apply ps_worker].
- by eapply closing_step.
- done.
- exists p'. split; [by eapply rtc_l|done].
Qed.

(** No call of [Run] on this saga returns, whatever the fuel. *)
Definition never_returns (p : Pool V) (txID : string) : Prop :=
forall pf fuel r v,
  on_node (on_world (Run env e txID (d_Owner (pl_disp p)) pf fuel)) (pl_server p) <> (Returned r, v).

(** Where nothing moves any more, what is left is runs that do not return. *)
Lemma at_rest (p : Pool V) j idx g :
closing p -> (forall p2, ~ worker_step p p2) -> pl_workers p !! j = Some (idx, g) ->
g = Exited \/ exists txID, g = Running txID /\ never_returns p txID.
Proof.
intros Hst Hno Hj. destruct g as [|txID|]; [| |by left].
- exfalso. destruct Hst as [Hst|Hst]; eapply Hno; [by eapply ws_stop|by eapply ws_done].
- right. exists txID. split; [done|]. intros pf fuel r v Hrun. eapply Hno. by eapply ws_run.
Qed.

Lemma closing_steps p p' : rtc worker_step p p' -> closing p -> closing p'.
Proof. induction 1 as [|x y z Hxy _ IH]; [done|]. intros Hst. apply IH. by eapply closing_step. Qed.

(** C14: once [stop] is closed or the context is done, and nothing more is
  submitted, the goroutines make at most [left p] steps more, in whatever
  order, and where none can make another they have all returned but for those
  in a run that does not return.  When leases are granted, the context ends,
  no delay is one nanosecond (so that no back-off panics) and a run or a
  handler, once begun, is not overlapped, every run returns: as long as
  [wg.Wait] blocks one of the goroutines can make a step, and they all return,
  so that [Stop] does too.  (Without a context that ends it may block: see
  [stop_blocks].) *)
Theorem pool_stops v p :
initial v -> star pool_step (Start (no_workers v)) p -> closing p ->
(forall n p', nsteps worker_step n p p' -> n <= left p) /\
(forall p', rtc worker_step p p' -> (forall p2, ~ worker_step p' p2) ->
   forall j idx g, pl_workers p' !! j = Some (idx, g) ->
     g = Exited \/ exists txID, g = Running txID /\ never_returns p' txID) /\
(forall pf, delays_ok cfg -> expires env pf -> grants (L := L) ->
   (forall p', rtc worker_step p p' -> ~ all_done p' -> exists p2, worker_step p' p2) /\
   (exists p', rtc worker_step p p' /\ all_done p')).
Proof.
intros Hi Hs Hst. split_and!.
- intros n p' Hn%worker_steps_left. lia.
- intros p' Hr Hno j idx g Hj. apply (at_rest p' j idx g); [by eapply closing_steps|done..].
- intros pf Hdel Hexp Hgr. pose proof (reachable_pool v p Hdel Hi Hs) as Hok. split.
  + intros p' Hr Hns. assert (pool_ok p') as Hok'.
    { clear Hns Hs Hst. induction Hr as [|x y z Hxy _ IH]; [done|]. apply IH.
      eapply pool_step_ok; [done|exact Hok|by apply ps_worker]. }
    eapply worker_goes_on; [done..|by eapply closing_steps|done].
  + by eapply pool_stops_from.
Qed.

(** [Stop] drops what is queued: a goroutine may return while its partition
  holds sagas, and then nobody runs them before the next recovery. *)
Lemma stop_drops_queue p j idx :
pl_workers p !! j = Some (idx, Waiting) -> d_stopped (pl_disp p) = true ->
worker_step p (exit j idx p) /\ d_partitions (pl_disp (exit j idx p)) = d_partitions (pl_disp p).
Proof. intros Hj Hs. split; [by apply ws_stop|done]. Qed.
End Pool.

(** ** A concrete pool

    One goroutine; a transaction is created and found by a recovery. *)

Definition demo_pool_step := pool_step ticking_env no_order demo_clients DefaultConfig
  (K := NoopLocker) (L := NoopLease).

(** A goroutine that is in its [select] takes the head of its queue. *)
Definition take_head (j idx : nat) (p : Pool (Server MemStore Stub NoopLease NoopLocker)) :=
  match receive idx (pl_disp p) with
  | Some (txID, d) => set_worker j (idx, Running txID)
      (set_server (set_node (set_disp d (sv_node (pl_server p))) (pl_server p)) p)
  | None => p
  end.

Lemma take_head_step p j idx :
  pl_workers p !! j = Some (idx, Waiting) -> receive idx (pl_disp p) <> None ->
  demo_pool_step p (take_head j idx p).
Proof.
  intros Hj Hr. unfold take_head. destruct (receive idx (pl_disp p)) as [[txID d]|] eqn:E; [|done].
  apply ps_worker. by apply ws_receive.
Defined.

(** Created, then recovered, on the goroutines of [p]. *)
Definition recovered (p : Pool (Server MemStore Stub NoopLease NoopLocker)) := set_server demo_v2 p.

Lemma recovered_steps p : pl_server p = demo_v0 -> star demo_pool_step p (recovered p).
Proof.
  intros E. eapply (star_step _ _ (set_server demo_v1 p)).
  - apply (ps_handler _ _ _ _ p demo_v1). rewrite E.
    apply (hs_create _ _ _ _ _ _ (Some demo_req) (fst (handleCreate ticking_env no_order (Some demo_req) demo_v0))).
    apply surjective_pairing.
  - apply star_one. apply (ps_handler _ _ _ _ (set_server demo_v1 p) demo_v2).
    apply (hs_recover _ _ _ _ _ _ true (fst (on_node (Recover true) demo_v1))).
    apply surjective_pairing.
Defined.

Definition demo_pool := Start (no_workers demo_v0).
Definition demo_running := take_head 0 0 (recovered demo_pool).

Lemma demo_pool_running : star demo_pool_step demo_pool demo_running.
Proof.
  etrans; [by apply recovered_steps|]. apply star_one, take_head_step; [reflexivity|].
  vm_compute. discriminate.
Defined.

Lemma demo_any_running :
  star (any_step (P := Stub) (L := NoopLease) (K := NoopLocker)) demo_pool demo_running.
Proof.
  pose proof demo_pool_running as Hs. revert Hs. unfold demo_pool_step. induction 1 as [|x y z Hxy _ IH]; [done|].
  etrans; [by eapply pool_any|exact IH].
Defined.

Lemma pool_exclusive_witness :
  pl_workers demo_running = [(0, Running "id-0-0")] /\ partitionOf (pl_disp demo_running) "id-0-0" = 0.
Proof.
  split; [vm_compute; reflexivity|].
  destruct (pool_exclusive demo_v0 demo_running "id-0-0" demo_initial demo_any_running) as [Hidx _].
  symmetry. apply (Hidx 0 0). vm_compute. reflexivity.
Defined.

(** The saga runs when [stop] is closed. *)
Definition demo_closed := set_server
  (set_node (set_disp (Stop (pl_disp demo_running)) (sv_node (pl_server demo_running)))
     (pl_server demo_running)) demo_running.

Lemma pool_stops_witness :
  left demo_closed = 2 /\
  exists p', rtc (worker_step ticking_env demo_clients DefaultConfig) demo_closed p' /\ all_done p'.
Proof.
  split; [vm_compute; reflexivity|].
  refine (proj2 (proj2 (proj2 (pool_stops ticking_env no_order demo_clients DefaultConfig demo_v0
    demo_closed demo_initial _ _)) 10 demo_delays ticking_expires demo_grants)).
  - etrans; [exact demo_pool_running|]. apply star_one, ps_close.
  - left. reflexivity.
Defined.

(** [Start] is not idempotent: started twice, the pool has two goroutines on a
    partition, and after a retry request both run the same saga. *)
Definition started_twice := take_head 0 0 (recovered (Start demo_pool)).
Definition retried_twice := set_server
  (snd (handleRetry (Some (worker_control ticking_env
     (NewExecutor ticking_env demo_clients DefaultConfig) true)) "id-0-0" "" (pl_server started_twice)))
  started_twice.

Lemma double_start_runs_twice :
  exists p, star demo_pool_step (Start demo_pool) p /\
    pl_workers p = [(0, Running "id-0-0"); (0, Running "id-0-0")].
Proof.
  exists (take_head 1 0 retried_twice). split; [|vm_compute; reflexivity].
  etrans; [by apply recovered_steps|].
  eapply star_step; [apply (take_head_step _ 0 0); [reflexivity|vm_compute; discriminate]|].
  eapply star_step; [|apply star_one, take_head_step; [vm_compute; reflexivity|vm_compute; discriminate]].
  apply (ps_handler _ _ _ _ started_twice). eapply hs_retry. apply surjective_pairing.
Qed.

(** A pool that stops with a saga in its queue. *)
Definition dropped := exit 0 0
  (set_server (set_node (set_disp (Stop (pl_disp (recovered demo_pool))) (sv_node demo_v2)) demo_v2)
     (recovered demo_pool)).

Lemma stops_with_queue :
  star demo_pool_step demo_pool dropped /\ all_done dropped /\
  d_partitions (pl_disp dropped) = [["id-0-0"]].
Proof.
  split; [|vm_compute; split; reflexivity]. etrans; [by apply recovered_steps|].
  eapply star_step; [apply ps_close|]. apply star_one, ps_worker. by apply ws_stop.
Qed.

(** *** A run that waits for a lease

    [main.go] calls [Stop] before it cancels the context: while another replica
    holds the lease of a saga the goroutine that runs it goes on asking for it,
    and [Stop] does not return. *)

Section Waits.
Context {P : Type} `{GoStd} (env : nat -> Runtime).
Local Abbreviation W := (World MemStore P InMem.InMemoryLease).

Lemma run_waits (e : Executor P) id owner other pf fuel tx sg : forall w : W,
(forall n, rt_ctx (env n) = None) ->
stored id (w_store w) tx sg -> Terminal (sg_State sg) = false ->
StepByName e (sg_CurrentStep sg) <> None ->
InMem.iml_locks (w_lease w) !! InMem.key id = Some other ->
exists w', Run env e id owner pf fuel w = (Diverged, w').
Proof.
induction fuel as [|fuel IH]; intros w Hctx Hst Ht Hstep Hlock; cbn [Run]; [by eexists|].
assert (exists w1, run_iter env e id owner pf w = (Returned Continue, w1) /\
  w_store w1 = w_store w /\ w_lease w1 = w_lease w) as (w1&E&E1&E2).
{ unfold run_iter, bind, reading. cbn [LoadTx LoadSagaState MemStore_Store].
  unfold Mem.LoadTx, Mem.LoadSagaState. rewrite (stored_tx _ _ _ _ Hst), (stored_sg _ _ _ _ Hst), Ht.
  destruct (StepByName e (sg_CurrentStep sg)) as [step|]; [|done].
  unfold zoom. cbn [Acquire InMemoryLease_LeaseManager]. unfold InMem.Acquire. rewrite Hlock.
  cbn [negb]. unfold modify, wait_or_done, in_ext, bind, zoom, runtime, ret.
  rewrite Hctx. eexists. split; [reflexivity|]. by destruct w. }
unfold bind. rewrite E. apply IH; [done|by rewrite E1|done|done|by rewrite E2].
Qed.
End Waits.

(** One goroutine; the lease of the transaction is another replica's. *)
Definition held_lease : InMem.InMemoryLease :=
  snd (InMem.Acquire "id-0-0" "other-replica" 0 (InMem.NewInMemory 0)).
Definition held_v0 : Server MemStore Stub InMem.InMemoryLease NoopLocker := {|
  sv_node := {| n_world := {| w_store := NewMemStore; w_ext := demo_ext; w_lease := held_lease |};
                n_disp := worker_New 1 "orch" (calm_env 0) |};
  sv_lock := tt |}.
Definition held_v1 := snd (handleCreate calm_env no_order (Some demo_req) held_v0).
Definition held_v2 := snd (on_node (Recover true) held_v1).
Definition held_running : Pool (Server MemStore Stub InMem.InMemoryLease NoopLocker) :=
  match receive 0 (n_disp (sv_node held_v2)) with
  | Some (txID, d) => set_worker 0 (0, Running txID)
      (set_server (set_node (set_disp d (sv_node held_v2)) held_v2) (Start (no_workers held_v0)))
  | None => Start (no_workers held_v0)
  end.
Definition held_closed := set_server
  (set_node (set_disp (Stop (pl_disp held_running)) (sv_node (pl_server held_running)))
     (pl_server held_running)) held_running.

(** [Stop] was called, and no goroutine can make a step. *)
Lemma stop_blocks :
  star (pool_step calm_env no_order demo_clients DefaultConfig) (Start (no_workers held_v0)) held_closed /\
  closing held_closed /\ pl_wg held_closed = 1 /\
  forall p, ~ worker_step calm_env demo_clients DefaultConfig held_closed p.
Proof.
  assert (pl_workers held_closed = [(0, Running "id-0-0")]) as Hw by (vm_compute; reflexivity).
  split; [|split; [left; vm_compute; reflexivity|split; [vm_compute; reflexivity|]]].
  - eapply (star_step _ _ (set_server held_v1 (Start (no_workers held_v0)))).
    { apply (ps_handler _ _ _ _ (Start (no_workers held_v0)) held_v1).
      apply (hs_create _ _ _ _ _ _ (Some demo_req)
        (fst (handleCreate calm_env no_order (Some demo_req) held_v0))).
      apply surjective_pairing. }
    eapply (star_step _ _ (set_server held_v2 (Start (no_workers held_v0)))).
    { apply (ps_handler _ _ _ _ (set_server held_v1 (Start (no_workers held_v0))) held_v2).
      apply (hs_recover _ _ _ _ _ _ true (fst (on_node (Recover true) held_v1))).
      apply surjective_pairing. }
    eapply (star_step _ _ held_running); [|apply star_one, ps_close].
    apply ps_worker. unfold held_running.
    destruct (receive 0 (n_disp (sv_node held_v2))) as [[txID d]|] eqn:E; [|vm_compute in E; discriminate E].
    by apply (ws_receive _ _ _ (set_server held_v2 (Start (no_workers held_v0))) 0 0 txID d).
  - assert (forall txID pf fuel, txID = "id-0-0" -> exists w', Run calm_env
      (NewExecutor calm_env demo_clients DefaultConfig) txID (d_Owner (pl_disp held_closed)) pf fuel
      (sv_world (pl_server held_closed)) = (Diverged, w')) as Hwait.
    { intros ? pf fuel ->. eapply (run_waits _ _ _ _ "other-replica" _ _
        (tx_with_ID (new_tx "id-0-0" 1000 demo_req) 1) (sg_with_ID (new_saga "id-0-0") 8));
        [reflexivity|split; vm_compute; reflexivity|reflexivity|discriminate|vm_compute; reflexivity]. }
    clear - Hw Hwait. revert Hw Hwait. generalize held_closed. intros q Hw Hwait p Hs.
    assert (forall j idx g, pl_workers q !! j = Some (idx, g) -> g = Running "id-0-0") as Hrun.
    { intros [|[|j]] idx g; rewrite Hw; [by intros [= _ <-]|done|done]. }
    destruct Hs as [j idx Hj Hd|j idx Hj Hd|j idx txID d Hj Hr|j idx txID pf fuel r v Hj Hr];
      apply Hrun in Hj; try discriminate Hj. injection Hj as ->.
    destruct (Hwait "id-0-0" pf fuel eq_refl) as [w' E].
    unfold on_node, on_world, zoom in Hr. unfold sv_world in E. by rewrite E in Hr.
Qed.
