(* ===== verification/Startup.v ===== *)
(** The start of the process ([run] of [cmd/orchestrator/main.go]), from the
    environment to the server it serves, and what a server that serves was
    started with. *)

From S2P Require Import Prelude GoStrings StateMachine Store Outbox Partner Steps Lease RedisLease.
From S2P Require Import Scenario Executor Returns Worker Api Publishers AuthToken Http Grpc Settings Boot System.

Local Open Scope Z_scope.
Local Open Scope go_scope.

(** ** The lease manager *)

(** The value of the variable [leaseMgr]. *)
Inductive AnyLease (R : Type) :=
  | LNoop (l : NoopLease)
  | LRedis (l : Rds.RedisLease R).
Arguments LNoop {R} l.
Arguments LRedis {R} l.

(** A method call on the interface value goes to the manager it holds. *)
Definition AnyLease_Acquire {R} `{Redis R} (txID owner : string) (ttl : Z) (l : AnyLease R)
  : (option nat * bool * option error) * AnyLease R :=
  match l with
  | LNoop n => let '((_, ok, err), n') := Acquire txID owner ttl n in ((None, ok, err), LNoop n')
  | LRedis r => let '(out, r') := Rds.Acquire txID owner ttl r in (out, LRedis r')
  end.

Definition AnyLease_Release {R} `{Redis R} (h : option nat) (l : AnyLease R) : AnyLease R :=
  match l with
  | LNoop n => LNoop (@Release NoopLease NoopLease_LeaseManager tt n)
  | LRedis r => LRedis (Rds.Release h r)
  end.

#[export] Instance AnyLease_LeaseManager {R} `{Redis R} : LeaseManager (AnyLease R) := {
  Handle := option nat;
  Acquire := AnyLease_Acquire;
  Release := AnyLease_Release;
}.

(** The lease [run] installs; [server] is the Redis the URL names. *)
Definition lease_of {R} `{Redis R} (c : config.Config) (server : R) : AnyLease R :=
  if bool_decide (config.c_RedisURL c = "") then LNoop tt
  else match Rds.NewRedisLease server (config.c_LeaseTTLOffset c) with
       | (rl, None) => LRedis rl
       | (_, Some _) => LNoop tt
       end.

(** [NewRedisLease] never returns an error, so the fallback is dead. *)
Lemma lease_never_falls_back {R} `{Redis R} (c : config.Config) (server : R) :
  config.c_RedisURL c <> "" -> exists rl, lease_of c server = LRedis rl.
Proof. intros Hurl. unfold lease_of. rewrite bool_decide_false by done. by eexists. Qed.

(** ** [run] *)

(** How [run] goes on: it returns an error before anything runs, a partner
    makes the process exit, the recovery blocks, [log.Fatal] ends a process
    whose workers run, or it serves. *)
Inductive Start (A B : Type) :=
  | NotStarted (err : error)
  | Exited
  | Blocked
  | Killed (b : B)
  | Serving (a : A).
Arguments NotStarted {A B} err.
Arguments Exited {A B}.
Arguments Blocked {A B}.
Arguments Killed {A B} b.
Arguments Serving {A B} a.

(** A process that serves on the store type [S]: its executor, the server, the
    relay with its publisher unless the bus was refused, and the handler. *)
Record Process (S P L K : Type) := {
  ps_exec : Executor P;
  ps_server : Server S P L K;
  ps_relay : option (AnyPublisher * Relay);
  ps_handler : Request -> Go (Server S P L K) Reply;
}.
Arguments ps_exec {S P L K} _.
Arguments ps_server {S P L K} _.
Arguments ps_relay {S P L K} _.
Arguments ps_handler {S P L K} _.

Section Run.
Context `{GoStd} {GC : GoCrypto} (env : nat -> Runtime).
Context (order : list (string * string) -> list (string * string)).
Context (decode_create : string -> option CreateTxRequest) (decode_step : string -> string).
Context (LookupEnv : string -> option string) (ToLower : string -> string).
Local Abbreviation Getenv := (config.Getenv LookupEnv).

Definition devMode : bool := bool_decide (Getenv "DEV_MODE" = "1").

(** The relay [run] starts: an error of the publisher only disables it. *)
Definition relay_of (c : config.Config) : option (AnyPublisher * Relay) :=
match NewPublisher (config.c_EventBusURL c) with
| Err _ => None
| Ok pub => Some (pub, NewRelay (config.c_OutboxBatchSize c)
                         (int64 (config.c_OutboxPollIntervalMS c * Millisecond)))
end.

Section OnStore.
Context {S G R : Type} {ST : Store S} {RD : Redis R} {GS : GrpcStatus} {TL : TLSFiles}
  {CN : GrpcConn (Stub * G)}.
Local Abbreviation P := (Stub * G)%type.
(** [pick] is the choice of [select] in a [Submit]. *)
Context (pick : bool).
Local Abbreviation L := (AnyLease R).
Local Abbreviation V := (Server S P L NoopLocker).

(** The server [run] builds before the recovery; [worker.New] reads the clock
  for the name of its owner. *)
Definition new_server (s : S) (g : G) (redis : R) (c : config.Config) : V :=
let x := boot_ext g in
let '(_, x') := runtime env x in
{| sv_node :=
     {| n_world := {| w_store := s; w_ext := x'; w_lease := lease_of c redis |};
        n_disp := worker_New (config.c_WorkerConcurrency c) "" (env (x_tick x)) |};
   sv_lock := tt |}.

(** [run] from [api.NewService] to the listening server. *)
Definition run_on (s : S) (g : G) (redis : R) (c : config.Config)
  : Start (Process S P L NoopLocker) V :=
match dialPartners Getenv c stubs (devMode || bool_decide (Getenv "ENABLE_STUB_PARTNERS" = "1")) with
| None => Exited
| Some (_, clients) =>
    let exec := NewExecutor env clients (exec_config c) in
    match on_node (Recover pick) (new_server s g redis c) with
    | (Returned _, v) =>
        match Mux env order decode_create decode_step (Some (worker_control env exec pick)) Getenv with
        | None => Killed v
        | Some handler =>
            Serving {| ps_exec := exec; ps_server := v; ps_relay := relay_of c;
                       ps_handler := handler |}
        end
    | (_, _) => Blocked
    end
end.
End OnStore.

Section Start.
Context {PG G R : Type} {ST : Store PG} {RD : Redis R} {GS : GrpcStatus} {TL : TLSFiles}
  {CN : GrpcConn (Stub * G)}.
Local Abbreviation P := (Stub * G)%type.
Context (pick : bool) (NewPgStore : string -> result PG).
Local Abbreviation L := (AnyLease R).

(** The whole start: a process on one of the two stores. *)
Definition run (g : G) (redis : R)
  : Start (Process MemStore P L NoopLocker) (Server MemStore P L NoopLocker) +
    Start (Process PG P L NoopLocker) (Server PG P L NoopLocker) :=
match config.Load LookupEnv ToLower with
| (_, Some err) => inl (NotStarted err)
| (c, None) =>
    match open_store NewPgStore c devMode with
    | Err err => inl (NotStarted err)
    | Ok (InMemory s) => inl (run_on pick s g redis c)
    | Ok (Postgres s) => inr (run_on pick s g redis c)
    end
end.
End Start.

(** ** What a server that serves was started with *)

Section Facts.
Context {S G R : Type} {ST : Store S} {RD : Redis R} {GS : GrpcStatus} {TL : TLSFiles}
  {CN : GrpcConn (Stub * G)}.
Local Abbreviation P := (Stub * G)%type.
Context (pick : bool).
Local Abbreviation L := (AnyLease R).
Local Abbreviation V := (Server S P L NoopLocker).

(** The secret and the bypass the handler checks with. *)
Definition guarded (p : Process S P L NoopLocker) : Prop :=
exists secret bypass, SecretFromEnv Getenv = Some (secret, bypass) /\
  ps_handler p = serve env order decode_create decode_step
    (Some (worker_control env (ps_exec p) pick)) secret bypass.

Lemma run_on_serving (s : S) (g : G) (redis : R) (c : config.Config)
  (p : Process S P L NoopLocker) :
run_on pick s g redis c = Serving p ->
guarded p /\ ps_relay p = relay_of c /\
(exists r, on_node (Recover pick) (new_server s g redis c) = (Returned r, ps_server p)) /\
exists conns clients stubMode, dialPartners Getenv c stubs stubMode = Some (conns, clients) /\
  ps_exec p = NewExecutor env clients (exec_config c).
Proof.
unfold run_on, guarded, Mux. set (sm := devMode || _).
destruct (dialPartners Getenv c stubs sm) as [[conns clients]|] eqn:Ed; [|done].
destruct (on_node (Recover pick) (new_server s g redis c)) as [[r| |] v] eqn:Er; [|done..].
destruct (SecretFromEnv Getenv) as [[secret bypass]|]; [|done].
intros [= <-]. cbn. split_and!; [by exists secret, bypass|done|by exists r|].
by exists conns, clients, sm.
Qed.

Lemma run_on_goes_on (s : S) (g : G) (redis : R) (c : config.Config) :
match run_on pick s g redis c with
| NotStarted _ => False
| Blocked => forall r, fst (on_node (Recover pick) (new_server s g redis c)) <> Returned r
| _ => True
end.
Proof.
unfold run_on. destruct (dialPartners Getenv c stubs _) as [[conns clients]|]; [|done].
destruct (on_node (Recover pick) (new_server s g redis c)) as [[r| |] v]; [|done..].
unfold Mux. by destruct (SecretFromEnv Getenv) as [[]|].
Qed.

(** Without a secret and outside [DEV_MODE] the process is killed, but after
  the recovery ran and the workers were started. *)
Lemma run_on_killed (s : S) (g : G) (redis : R) (c : config.Config) r (v : V) :
SecretFromEnv Getenv = None ->
dialPartners Getenv c stubs (devMode || bool_decide (Getenv "ENABLE_STUB_PARTNERS" = "1")) <> None ->
on_node (Recover pick) (new_server s g redis c) = (Returned r, v) ->
run_on pick s g redis c = Killed v.
Proof.
unfold run_on, Mux. intros -> Hd Hr.
destruct (dialPartners _ _ _ _) as [[conns clients]|]; [|done]. by rewrite Hr.
Qed.
End Facts.

Section Start_facts.
Context {PG G R : Type} {ST : Store PG} {RD : Redis R} {GS : GrpcStatus} {TL : TLSFiles}
  {CN : GrpcConn (Stub * G)}.
Local Abbreviation P := (Stub * G)%type.
Context (pick : bool) (NewPgStore : string -> result PG).
Local Abbreviation L := (AnyLease R).

(** The handler lets a request through only with a token under a secret that
  is set, unless the process was started for development. *)
Definition authenticated {S} {SS : Store S} (p : Process S P L NoopLocker) : Prop :=
let h := serve env order decode_create decode_step
           (Some (worker_control env (ps_exec p) pick)) in
(Getenv "SERVICE_TOKEN_SECRET" <> "" /\ ps_handler p = h (Getenv "SERVICE_TOKEN_SECRET") false) \/
(Getenv "DEV_MODE" = "1" /\ Getenv "SERVICE_TOKEN_SECRET" = "" /\ ps_handler p = h "" true).

(** The executor has the configured retries and delays, none of which makes a
  back-off panic, and the one [partner.Stub] the process makes for payments and
  the blockchain. *)
Definition executor_started (e : Executor P) : Prop :=
exists clients, e = NewExecutor env clients (exec_config (fst (config.Load LookupEnv ToLower))) /\
  delays_ok (ex_Cfg e) /\
  cl_Payment clients = cl_Payment (stubs (G := G)) /\
  cl_Blockchain clients = cl_Blockchain (stubs (G := G)).

Lemma guarded_authenticated {S} {SS : Store S} (p : Process S P L NoopLocker) :
guarded pick p -> authenticated p.
Proof.
intros (secret&bypass&Hs&Hp). unfold authenticated, SecretFromEnv in *.
destruct (bool_decide_reflect (Getenv "SERVICE_TOKEN_SECRET" = "")) as [E|E]; cbn in Hs.
- case_bool_decide; [|done]. injection Hs as <- <-. by right.
- injection Hs as <- <-. by left.
Qed.

Lemma run_on_started {S} {SS : Store S} (s : S) (g : G) (redis : R) p :
let c := fst (config.Load LookupEnv ToLower) in
run_on pick s g redis c = Serving p ->
authenticated p /\ executor_started (ps_exec p) /\ ps_relay p = relay_of c.
Proof.
intros c (Hg&Hr&_&conns&clients&sm&Hd&He)%run_on_serving.
split; [by apply guarded_authenticated|]. split; [|done].
apply payment_stays_stub in Hd as [Hp Hb]. exists clients.
split_and!; [done| |done|done]. rewrite He. apply exec_config_delays.
Qed.

Lemma Load_bus (c : config.Config) :
config.Load LookupEnv ToLower = (c, None) ->
Getenv "EVENT_BUS_URL" <> "" /\ c = config.loaded LookupEnv ToLower.
Proof.
unfold config.Load. cbn. case_bool_decide; cbn; intros E; [done|]. by injection E as <-.
Qed.

Lemma new_server_recovers (g : G) (redis : R) (c : config.Config) :
on_node (Recover pick) (new_server NewMemStore g redis c) =
  (Returned (Ok tt), new_server NewMemStore g redis c).
Proof. done. Qed.

(** C38: whatever the environment, a process that serves has an event bus URL,
  checks its callers unless DEV_MODE=1, runs sagas with the configured
  executor, payments and broadcasts going to the in-memory [partner.Stub] with
  its default configuration, and keeps its records in memory only under
  DEV_MODE=1 without a DB_URL. *)
Theorem served_process (g : G) (redis : R) :
match run pick NewPgStore g redis with
| inl (Serving p) =>
    Getenv "EVENT_BUS_URL" <> "" /\ Getenv "DEV_MODE" = "1" /\ Getenv "DB_URL" = "" /\
    authenticated p /\ executor_started (ps_exec p)
| inr (Serving p) =>
    Getenv "EVENT_BUS_URL" <> "" /\ Getenv "DB_URL" <> "" /\
    (exists s, NewPgStore (Getenv "DB_URL") = Ok s) /\
    authenticated p /\ executor_started (ps_exec p)
| inl (Blocked) => False
| inr (NotStarted _) => False
| _ => True
end.
Proof.
unfold run. destruct (config.Load LookupEnv ToLower) as [c [err|]] eqn:El; [done|].
pose proof (f_equal fst El) as Hc. cbn [fst] in Hc.
apply Load_bus in El as [Hbus ->].
pose proof (@run_on_started) as Hrun. unfold executor_started in *. rewrite Hc in Hrun |- *.
unfold open_store. case_bool_decide as Edb; cbn in Edb.
- unfold devMode. case_bool_decide as Edev; cbn [negb]; [|done].
  pose proof (run_on_goes_on pick NewMemStore g redis (config.loaded LookupEnv ToLower)) as Hg.
  rewrite new_server_recovers in Hg.
  destruct (run_on _ _ _ _ _) as [| | | |p] eqn:Er; try done.
  + by destruct (Hg (Ok tt)).
  + destruct (Hrun _ _ _ _ _ _ Er) as (?&?&_). by split_and!.
- cbn. destruct (NewPgStore _) as [s|err] eqn:Ep; [|done].
  pose proof (run_on_goes_on pick s g redis (config.loaded LookupEnv ToLower)) as Hg.
  destruct (run_on _ _ _ _ _) as [| | | |p] eqn:Er; try done.
  destruct (Hrun _ _ _ _ _ _ Er) as (?&?&_). split_and!; [done|done|by exists s|done|done].
Qed.

End Start_facts.
End Run.

(** ** Concrete starts *)

Definition dev_lookup (k : string) : option string :=
  if bool_decide (k = "DEV_MODE") then Some "1"
  else if bool_decide (k = "EVENT_BUS_URL") then Some "memory://"
  else if bool_decide (k = "REDIS_URL") then Some "localhost:6379" else None.

(** Everything is set for production but the secret. *)
Definition secretless_lookup (k : string) : option string :=
  if bool_decide (k = "SERVICE_TOKEN_SECRET") then None else prod_lookup k.

(** The start on a database that holds the store [s]. *)
Definition start_of (lookup : string -> option string) (s : MemStore) :=
  run (GC := toy_crypto) (GS := sample_status) (TL := sample_tls) (CN := sample_conn) calm_env id
    (fun _ => None) id lookup id true (fun _ => Ok s) tt (∅ : RedisMap).

(** The queues of a process that was killed, and of one that serves. *)
Definition queues_after (lookup : string -> option string) (s : MemStore)
  : option (bool * list (list string)) :=
  match start_of lookup s with
  | inl (Killed v) | inr (Killed v) => Some (false, d_partitions (n_disp (sv_node v)))
  | inl (Serving p) | inr (Serving p) =>
      Some (true, d_partitions (n_disp (sv_node (ps_server p))))
  | _ => None
  end.

(** A production start without SERVICE_TOKEN_SECRET dies, but only after the
    unfinished saga of the database was queued and the workers were started. *)
Example killed_after_recovery :
  exists qs, queues_after secretless_lookup demo_store = Some (false, qs) /\ concat qs = ["t1"].
Proof. eexists. split; [vm_compute; reflexivity|reflexivity]. Qed.

(** With the secret it serves, although no event leaves the outbox: the bus URL
    is not one the relay knows. *)
Example serves_without_relay :
  match start_of prod_lookup demo_store with
  | inr (Serving p) => ps_relay p = None
  | _ => False
  end.
Proof. vm_compute. reflexivity. Qed.

(** Production serves without REDIS_URL too, on leases that exclude nobody. *)
Example serves_without_lease :
  match start_of (fun k => if bool_decide (k = "REDIS_URL") then None else prod_lookup k) demo_store with
  | inr (Serving p) => w_lease (n_world (sv_node (ps_server p))) = LNoop tt
  | _ => False
  end.
Proof. vm_compute. reflexivity. Qed.

