(* ===== verification/Lifecycle.v ===== *)
(** The life of the process ([main] and [run] of [cmd/orchestrator/main.go]):
    what it opens, in which order its deferred calls close it again, and with
    which code it exits. *)

From S2P Require Import Prelude GoStrings StateMachine Store Outbox Partner Steps Lease RedisLease.
From S2P Require Import Scenario Executor Worker Api Publishers AuthToken Http Grpc Settings Boot System Startup.

Local Open Scope Z_scope.
Local Open Scope go_scope.

(** ** Parts, their order and the deferred calls *)

(** What [run] opens or starts; the HTTP server stands for its handlers. *)
Inductive Part := Context | PgPool | PartnerConns | RedisClient | Workers | Bus | RelayLoop | HttpServer.

#[export] Instance Part_eq_dec : EqDecision Part.
Proof. solve_decision. Defined.

Inductive Event := Up (p : Part) | Down (p : Part).

#[export] Instance Event_eq_dec : EqDecision Event.
Proof. solve_decision. Defined.

#[export] Instance Up_inj : Inj (=) (=) Up.
Proof. by intros x y [= ->]. Qed.

#[export] Instance Down_inj : Inj (=) (=) Down.
Proof. by intros x y [= ->]. Qed.

(** What happened, and the parts whose closing is deferred, the last one
    first. *)
Record Frame := { fr_trace : list Event; fr_defers : list Part }.

Definition record (evs : list Event) (f : Frame) : Frame :=
  {| fr_trace := fr_trace f ++ evs; fr_defers := fr_defers f |}.

(** The call that opens or starts a part, and [defer] of the one that closes
    it. *)
Definition opens (p : Part) : Frame -> Frame := record [Up p].
Definition defers (p : Part) (f : Frame) : Frame :=
  {| fr_trace := fr_trace f; fr_defers := p :: fr_defers f |}.

(** How the process goes on once it serves: the error [ListenAndServe] returns,
    unless it goes on listening, the result of [srv.Shutdown], unless no
    signal comes, and which closing calls return ([Dispatcher.Stop] and
    [Relay.Stop] wait for goroutines). *)
Record Ending := {
  en_listen : option error;
  en_signal : option (option error);
  en_closes : Part -> bool }.

(** The deferred calls, the last one deferred first, up to one that blocks;
    whether they all return. *)
Fixpoint unwind (closes : Part -> bool) (ds : list Part) : list Event * bool :=
  match ds with
  | [] => ([], true)
  | p :: ds' =>
      if closes p then let '(tr, ended) := unwind closes ds' in (Down p :: tr, ended)
      else ([], false)
  end.

(** [return] from [run]: the deferred calls, then the exit with the code; no
    code means that the process is still there. *)
Definition returns (e : Ending) (code : Z) (f : Frame) : list Event * option Z :=
  let '(tr, ended) := unwind (en_closes e) (fr_defers f) in
  (fr_trace f ++ tr, if ended then Some code else None).

(** [toString] of arguments as [%v] shows them: the loop puts a space before
    all but the first; [fmtPrintln] prints it with a line feed. *)
Fixpoint toString_from (i : nat) (s : string) (a : list string) : string :=
  match a with
  | [] => s
  | v :: rest => toString_from (S i) ((if (0 <? i)%nat then s +:+ " " else s) +:+ v) rest
  end.
Definition toString (a : list string) : string := toString_from 0 "" a.

(** From [go func() { srv.ListenAndServe() }] to the end of [run]. *)
Definition serve_until (e : Ending) (f : Frame) : list Event * option Z :=
  let f := record [Up HttpServer] f in
  let f := match en_listen e with
           | None => f
           | Some err => record [Down HttpServer; Down Context] f
           end in
  match en_signal e with
  | None => (fr_trace f, None)
  | Some shutdown =>
      let f := match en_listen e, shutdown with
               | None, None => record [Down HttpServer] f
               | _, _ => f
               end in
      returns e 0 f
  end.

Section Main.
Context `{GoStd} (env : nat -> Runtime).
Context (LookupEnv : string -> option string) (ToLower : string -> string).
Local Abbreviation Getenv := (config.Getenv LookupEnv).

Section OnStore.
Context {S G R : Type} {ST : Store S} {RD : Redis R} {GS : GrpcStatus} {TL : TLSFiles}
  {CN : GrpcConn (Stub * G)}.
Context (pick : bool).

(** [run] from [api.NewService] on. *)
Definition life_on (s : S) (g : G) (redis : R) (c : config.Config) (e : Ending) (f : Frame)
  : list Event * option Z :=
match dialPartners Getenv c (stubs (G := G))
        (devMode LookupEnv || bool_decide (Getenv "ENABLE_STUB_PARTNERS" = "1")) with
| None => (fr_trace f, Some 1)
| Some _ =>
    let f := opens PartnerConns f in
    let f := defers PartnerConns f in
    let f := match lease_of c redis with
             | LRedis _ => let f := opens RedisClient f in defers RedisClient f
             | LNoop _ => f
             end in
    match on_node (Recover pick) (new_server env s g redis c) with
    | (Returned _, _) =>
        let f := opens Workers f in
        let f := defers Workers f in
        let f := match relay_of c with
                 | None => f
                 | Some _ =>
                     let f := opens Bus f in
                     let f := defers Bus f in
                     let f := opens RelayLoop f in
                     defers RelayLoop f
                 end in
        match SecretFromEnv Getenv with
        | None => (fr_trace f, Some 1)
        | Some _ => serve_until e f
        end
    | (_, _) => (fr_trace f, None)
    end
end.
End OnStore.

Section Life.
Context {PG G R : Type} {ST : Store PG} {RD : Redis R} {GS : GrpcStatus} {TL : TLSFiles}
  {CN : GrpcConn (Stub * G)}.
Context (pick : bool) (NewPgStore : string -> result PG).

(** [main]: an error of [run] becomes the exit code 1. *)
Definition main (g : G) (redis : R) (e : Ending) : list Event * option Z :=
let f := opens Context {| fr_trace := []; fr_defers := [] |} in
let f := defers Context f in
match config.Load LookupEnv ToLower with
| (_, Some err) => returns e 1 f
| (c, None) =>
    match open_store NewPgStore c (devMode LookupEnv) with
    | Err err => returns e 1 f
    | Ok (InMemory s) => life_on pick s g redis c e f
    | Ok (Postgres s) =>
        let f := opens PgPool f in
        let f := defers PgPool f in
        life_on pick s g redis c e f
    end
end.
End Life.
End Main.

(** ** What is opened is closed in the reverse order *)

(** The parts of a process with configuration [c], in the order of their
    opening. *)
Definition parts `{GoStd} (c : config.Config) : list Part :=
  [Context] ++ (if bool_decide (config.c_DBURL c = "") then [] else [PgPool]) ++ [PartnerConns] ++
  (if bool_decide (config.c_RedisURL c = "") then [] else [RedisClient]) ++ [Workers] ++
  (match NewPublisher (config.c_EventBusURL c) with Ok _ => [Bus; RelayLoop] | Err _ => [] end) ++
  [HttpServer].

(** The parts [ps] came up in their order, and the last one deferred is the
    last one opened. *)
Definition opened (ps : list Part) (f : Frame) : Prop :=
  fr_trace f = map Up ps /\ fr_defers f = reverse ps.

Lemma opened_next p ps f : opened ps f -> opened (ps ++ [p]) (defers p (opens p f)).
Proof.
  unfold opened, defers, opens, record. cbn [fr_trace fr_defers]. intros [-> ->].
  by rewrite map_app, reverse_app.
Qed.

Lemma unwind_all closes ds tr : unwind closes ds = (tr, true) -> tr = map Down ds.
Proof.
  revert tr. induction ds as [|p ds IH]; intros tr; cbn; [by intros [= <-]|].
  destruct (closes p); [|done]. destruct (unwind closes ds) as [tr' b]. intros [= <- ->].
  by rewrite (IH tr').
Qed.

Lemma unwind_closes closes ds : (forall p, closes p = true) -> unwind closes ds = (map Down ds, true).
Proof. intros Hc. induction ds as [|p ds IH]; cbn; [done|]. by rewrite Hc, IH. Qed.

(** The order in which parts can come up. *)
Definition rank (p : Part) : nat :=
  match p with
  | Context => 0 | PgPool => 1 | PartnerConns => 2 | RedisClient => 3 | Workers => 4
  | Bus => 5 | RelayLoop => 6 | HttpServer => 7
  end.

(** What is up came up in that order. *)
Fixpoint ranked (n : nat) (l : list Part) : Prop :=
  match l with [] => True | p :: l' => (rank p < n)%nat /\ ranked (rank p) l' end.

Lemma ranked_mono n m l : ranked n l -> (n <= m)%nat -> ranked m l.
Proof. destruct l as [|p l]; cbn; [done|]. intros [??] ?. split; [lia|done]. Qed.

Lemma ranked_below n l p : ranked n l -> p ∈ l -> (rank p < n)%nat.
Proof.
  revert n. induction l as [|q l IH]; intros n; [by intros _ ?%not_elem_of_nil|]. cbn. intros [Hq Hl].
  intros [->|Hp]%elem_of_cons; [done|]. specialize (IH _ Hl Hp). lia.
Qed.

Lemma ranked_nodup n l : ranked n l -> NoDup l.
Proof.
  revert n. induction l as [|q l IH]; intros n; [constructor|]. cbn. intros [Hq Hl].
  constructor; [|by eapply IH]. intros Hin. pose proof (ranked_below _ _ _ Hl Hin). lia.
Qed.

(** [x] happens, and [y] later on. *)
Definition precedes {A} (x y : A) (l : list A) : Prop := exists a b c, l = a ++ x :: b ++ y :: c.

Lemma precedes_map {A B} (f : A -> B) x y l : precedes x y l -> precedes (f x) (f y) (map f l).
Proof. intros (a&b&c&->). exists (map f a), (map f b), (map f c). by rewrite map_app; cbn; rewrite map_app. Qed.

Lemma precedes_app {A} (x y : A) l k m : precedes x y l -> precedes x y (k ++ l ++ m).
Proof. intros (a&b&c&->). exists (k ++ a), b, (c ++ m). by rewrite <- !app_assoc; cbn; rewrite <- app_assoc. Qed.

Lemma precedes_rev {A} (x y : A) l : precedes x y l -> precedes y x (reverse l).
Proof.
  intros (a&b&c&->). exists (reverse c), (reverse b), (reverse a).
  by rewrite reverse_app, reverse_cons, reverse_app, reverse_cons, <- !app_assoc.
Qed.

Lemma ranked_precedes n l u r :
  ranked n l -> u ∈ l -> r ∈ l -> (rank r < rank u)%nat -> precedes u r l.
Proof.
  revert n. induction l as [|q l IH]; intros n; [by intros _ ?%not_elem_of_nil|]. cbn. intros [_ Hl].
  intros [->|Hu]%elem_of_cons [->|Hr]%elem_of_cons Hlt; [lia|..].
  - apply list_elem_of_split in Hr as (b&c&->). by exists [], b, c.
  - pose proof (ranked_below _ _ _ Hl Hu). lia.
  - destruct (IH _ Hl Hu Hr Hlt) as (a&b&c&->). by exists (q :: a), b, c.
Qed.

(** The components each part calls while it is up. *)
Definition uses (u r : Part) : bool :=
  match u, r with
  | HttpServer, (PgPool | PartnerConns | RedisClient | Workers) => true
  | Workers, (Context | PgPool | PartnerConns | RedisClient) => true
  | RelayLoop, (Context | PgPool | Bus) => true
  | _, _ => false
  end.

Lemma uses_rank u r : uses u r = true -> (rank r < rank u)%nat.
Proof. destruct u, r; cbn; intros; (done || lia). Qed.

(** What a process with the parts [ps] that closes down has done in the end:
    it opened them in their order and closed each in the reverse order, and the
    order is one in which a part comes after those it uses. *)
Definition closed_down (ps : list Part) (tr : list Event) : Prop :=
  tr = map Up ps ++ map Down (reverse ps) /\ NoDup tr /\
  (forall p, p ∈ ps -> precedes (Up p) (Down p) tr) /\
  (forall p q, precedes p q ps -> precedes (Up p) (Up q) tr /\ precedes (Down q) (Down p) tr) /\
  forall u r, uses u r = true -> u ∈ ps -> r ∈ ps -> precedes r u ps.

Lemma ranked_closed_down n ps :
  ranked n (reverse ps) -> closed_down ps (map Up ps ++ map Down (reverse ps)).
Proof.
  intros Hl. pose proof (ranked_nodup _ _ Hl) as Hn. split; [done|]. split_and!.
  - apply NoDup_app. split_and!.
    + apply (NoDup_fmap_2 Up). by rewrite <- (reverse_Permutation ps).
    + intros ev (p&->&_)%list_elem_of_fmap (q&?&_)%list_elem_of_fmap. done.
    + by apply (NoDup_fmap_2 Down).
  - intros p Hp. assert (p ∈ reverse ps) as Hp' by by rewrite elem_of_reverse.
    apply list_elem_of_split in Hp as (a&b&Ea), Hp' as (a'&b'&Eb). rewrite Eb, Ea.
    rewrite !map_app. cbn [map]. exists (map Up a), (map Up b ++ map Down a'), (map Down b').
    by rewrite <- !app_assoc.
  - intros p q Hpq. split.
    + by apply (precedes_app _ _ _ [] (map Down (reverse ps))), precedes_map.
    + pose proof (precedes_app (Down q) (Down p) (map Down (reverse ps)) (map Up ps) []) as E.
      rewrite app_nil_r in E. by apply E, precedes_map, precedes_rev.
  - intros u r Hur Hu Hr. apply uses_rank in Hur.
    rewrite <- (reverse_involutive ps). apply precedes_rev.
    by apply (ranked_precedes n); [|apply elem_of_reverse..|].
Qed.

Lemma parts_ranked `{GoStd} c : ranked 8 (reverse (parts c)).
Proof.
  unfold parts. destruct (bool_decide (config.c_DBURL c = "")), (bool_decide (config.c_RedisURL c = "")),
    (NewPublisher (config.c_EventBusURL c)); cbn; repeat split; lia.
Qed.

Section Facts.
Context `{GoStd} {GC : GoCrypto} (env : nat -> Runtime).
Context (LookupEnv : string -> option string) (ToLower : string -> string).

Section OnStore.
Context {S G R : Type} {ST : Store S} {RD : Redis R} {GS : GrpcStatus} {TL : TLSFiles}
  {CN : GrpcConn (Stub * G)}.
Context (order : list (string * string) -> list (string * string)).
Context (decode_create : string -> option CreateTxRequest) (decode_step : string -> string).
Context (pick : bool).

(** The code the process exits with, from how its start goes on, when the
  closing calls return. *)
Definition exit_code {A B} (st : Start A B) (e : Ending) : option Z :=
match st with
| NotStarted _ | Exited | Killed _ => Some 1
| Blocked => None
| Serving _ => match en_signal e with Some _ => Some 0 | None => None end
end.

Lemma life_on_code (s : S) (g : G) (redis : R) (c : config.Config) (e : Ending) (f : Frame) :
(forall p, en_closes e p = true) ->
snd (life_on env LookupEnv pick s g redis c e f) =
exit_code (run_on env order decode_create decode_step LookupEnv pick s g redis c) e.
Proof.
intros Hc. unfold life_on, run_on, Mux. destruct (dialPartners _ _ _ _) as [[conns clients]|]; [|done].
destruct (on_node _ _) as [[r| |] v]; [|done..].
destruct (SecretFromEnv _) as [[secret bypass]|]; [|done]. unfold serve_until, returns.
cbn [exit_code]. destruct (en_signal e) as [sh|]; [|done]. by rewrite unwind_closes.
Qed.

(** The trace of a process that listens until a signal comes, is shut down in
  time and exits. *)
Lemma serve_until_closed ps (e : Ending) (f : Frame) :
opened ps f -> en_listen e = None -> en_signal e = Some None ->
snd (serve_until e f) = Some 0 ->
fst (serve_until e f) = map Up (ps ++ [HttpServer]) ++ map Down (reverse (ps ++ [HttpServer])).
Proof.
intros [Ht Hd] He Hs. unfold serve_until, returns. rewrite He, Hs. cbn [record fr_trace fr_defers].
destruct (unwind _ _) as [tr []] eqn:Eu; [|done]. intros _. apply unwind_all in Eu as ->. cbn [fst].
by rewrite Ht, Hd, reverse_app, map_app, <- !app_assoc.
Qed.

Lemma life_on_closed ps (s : S) (g : G) (redis : R) (c : config.Config) (e : Ending) (f : Frame) :
opened ps f -> en_listen e = None -> en_signal e = Some None ->
snd (life_on env LookupEnv pick s g redis c e f) = Some 0 ->
let all := ps ++ [PartnerConns] ++
  (if bool_decide (config.c_RedisURL c = "") then [] else [RedisClient]) ++ [Workers] ++
  (match NewPublisher (config.c_EventBusURL c) with Ok _ => [Bus; RelayLoop] | Err _ => [] end) ++
  [HttpServer] in
fst (life_on env LookupEnv pick s g redis c e f) = map Up all ++ map Down (reverse all).
Proof.
intros Hf He Hs. unfold life_on. destruct (dialPartners _ _ _ _); [|done].
apply (opened_next PartnerConns) in Hf. unfold lease_of.
set (f1 := defers PartnerConns _) in *. set (f2 := match _ with LRedis _ => _ | LNoop _ => _ end).
assert (opened (ps ++ [PartnerConns] ++
  if bool_decide (config.c_RedisURL c = "") then [] else [RedisClient]) f2) as Hf2.
{ unfold f2. destruct (bool_decide (config.c_RedisURL c = "")); [done|].
  rewrite app_assoc. by apply (opened_next RedisClient). }
clearbody f2. destruct (on_node _ _) as [[r| |] v]; [|done..].
apply (opened_next Workers) in Hf2. set (f3 := defers Workers _) in *. unfold relay_of.
match goal with |- context [serve_until e ?f] => set (f4 := f) end.
set (rest := match NewPublisher _ with Ok _ => _ | Err _ => _ end).
assert (opened (((ps ++ [PartnerConns] ++
  if bool_decide (config.c_RedisURL c = "") then [] else [RedisClient]) ++ [Workers]) ++ rest) f4) as Hf4.
{ unfold f4, rest. destruct (NewPublisher _); [|by rewrite app_nil_r].
  apply (opened_next Bus), (opened_next RelayLoop) in Hf2. by rewrite <- app_assoc in Hf2. }
clearbody f4. destruct (SecretFromEnv _); [|done]. intros Hc.
rewrite (serve_until_closed _ e f4 Hf4 He Hs Hc). by rewrite <- !app_assoc.
Qed.
End OnStore.

Section Life.
Context (order : list (string * string) -> list (string * string)).
Context (decode_create : string -> option CreateTxRequest) (decode_step : string -> string).
Context {PG G R : Type} {ST : Store PG} {RD : Redis R} {GS : GrpcStatus} {TL : TLSFiles}
  {CN : GrpcConn (Stub * G)}.
Context (pick : bool) (NewPgStore : string -> result PG).
Local Abbreviation life := (main env LookupEnv ToLower pick NewPgStore).
Local Abbreviation start :=
(Startup.run env order decode_create decode_step LookupEnv ToLower pick NewPgStore).

(** When its closing calls return, the process exits with 1 exactly when its
  start fails or kills it, with 0 exactly when it serves and gets a signal, and
  otherwise never: a start that blocks and, whatever [ListenAndServe] returns,
  a process that serves stay until a signal comes. *)
Theorem main_code (g : G) (redis : R) (e : Ending) :
(forall p, en_closes e p = true) ->
snd (life g redis e) = match start g redis with inl st => exit_code st e | inr st => exit_code st e end.
Proof.
intros Hc. unfold main, Startup.run, returns. rewrite unwind_closes by done.
destruct (config.Load LookupEnv ToLower) as [c [err|]]; [done|].
destruct (open_store _ _ _) as [[s|s]|err]; [by apply life_on_code..|done].
Qed.

(** C39: a process that listens until a signal comes, whose requests end in
  time and that exits, opened the parts its configuration asks for in the
  order of [main.go], each once, and closed each of them in exactly the
  reverse order: the HTTP server stops first, then the relay before its
  publisher, the workers, the lease client, the partner connections and the
  database.  In particular no part is closed while one that uses it is up. *)
Theorem shutdown_order (g : G) (redis : R) (e : Ending) :
en_listen e = None -> en_signal e = Some None -> snd (life g redis e) = Some 0 ->
closed_down (parts (config.loaded LookupEnv ToLower)) (fst (life g redis e)).
Proof.
intros He Hs Hc.
assert (fst (life g redis e) = map Up (parts (config.loaded LookupEnv ToLower)) ++
  map Down (reverse (parts (config.loaded LookupEnv ToLower)))) as ->;
  [|apply (ranked_closed_down 8), parts_ranked].
revert Hc. unfold main. set (f := defers Context _). assert (opened [Context] f) as Hf by done.
destruct (config.Load LookupEnv ToLower) as [c [err|]] eqn:El.
{ unfold returns. by destruct (unwind _ _) as [? []]. }
apply Load_bus in El as [_ ->]. unfold open_store.
destruct (bool_decide (config.c_DBURL (config.loaded LookupEnv ToLower) = "")) eqn:Edb.
- destruct (devMode LookupEnv); cbn [negb]; [|unfold returns; by destruct (unwind _ _) as [? []]].
  intros Hc. rewrite (life_on_closed pick [Context] _ _ _ _ e f Hf He Hs Hc).
  unfold parts. by rewrite Edb.
- destruct (NewPgStore _) as [s|err]; [|unfold returns; by destruct (unwind _ _) as [? []]].
  intros Hc. apply (opened_next PgPool) in Hf.
  rewrite (life_on_closed pick _ _ _ _ _ e _ Hf He Hs Hc). unfold parts. by rewrite Edb.
Qed.

(** A port that is taken cancels the context of the workers and of the relay
  and leaves the process there, serving nothing, until somebody signals it. *)
Lemma listen_error_hangs (g : G) (redis : R) err p :
start g redis = inl (Serving p) ->
let e := {| en_listen := Some err; en_signal := None; en_closes := fun _ => true |} in
snd (life g redis e) = None /\ exists tr, fst (life g redis e) = tr ++ [Down HttpServer; Down Context].
Proof.
intros Hst e. rewrite main_code, Hst by done. split; [done|].
unfold main, Startup.run in *. destruct (config.Load LookupEnv ToLower) as [c [er|]]; [done|].
destruct (open_store _ _ _) as [[s|s]|er]; [|done|done]. injection Hst as Hst. revert Hst.
unfold life_on, run_on, Mux. destruct (dialPartners _ _ _ _) as [[conns clients]|]; [|done].
destruct (on_node _ _) as [[r| |] v]; [|done..].
destruct (SecretFromEnv _) as [[secret bypass]|]; [|done]. intros _. by eexists.
Qed.
End Life.
End Facts.

Lemma toString_concat a : toString a = String.concat " " a.
Proof.
  assert (forall a s i, toString_from (S i) s a =
    match a with [] => s | _ => s +:+ " " +:+ String.concat " " a end) as Hfrom.
  { clear a. induction a as [|v a IH]; intros s i; [done|]. cbn [toString_from].
    rewrite IH. destruct a as [|v' a]; cbn [Nat.ltb Nat.leb String.concat].
    - by rewrite append_assoc.
    - by rewrite !append_assoc. }
  unfold toString. destruct a as [|v a]; [done|]. cbn [toString_from]. rewrite Hfrom.
  by destruct a.
Qed.

(** ** Concrete lives *)

Definition life_of (lookup : string -> option string) (s : MemStore) (e : Ending) :=
  main (GS := sample_status) (TL := sample_tls) (CN := sample_conn) calm_env
    lookup id true (fun _ => Ok s) tt (∅ : RedisMap) e.

Definition signalled : Ending :=
  {| en_listen := None; en_signal := Some None; en_closes := fun _ => true |}.

(** A development process with Redis and the in-memory bus. *)
Lemma shutdown_order_witness :
  fst (life_of dev_lookup demo_store signalled) =
    map Up [Context; PartnerConns; RedisClient; Workers; Bus; RelayLoop; HttpServer] ++
    map Down [HttpServer; RelayLoop; Bus; Workers; RedisClient; PartnerConns; Context] /\
  closed_down (parts (config.loaded dev_lookup id)) (fst (life_of dev_lookup demo_store signalled)).
Proof.
  split; [vm_compute; reflexivity|].
  apply (shutdown_order (GS := sample_status) (TL := sample_tls) (CN := sample_conn) calm_env
    dev_lookup id true (fun _ => Ok demo_store) tt (∅ : RedisMap) signalled eq_refl eq_refl).
  vm_compute. reflexivity.
Defined.

(** Without a secret a production process exits with 1 and closes nothing. *)
Example secretless_life :
  life_of secretless_lookup demo_store signalled =
    (map Up [Context; PgPool; PartnerConns; RedisClient; Workers], Some 1).
Proof. vm_compute. reflexivity. Qed.

(** A port that is taken: the process has given up its workers and stays. *)
Example taken_port_life :
  let '(tr, code) := life_of dev_lookup demo_store
    {| en_listen := Some (New "address already in use"); en_signal := None;
       en_closes := fun _ => true |} in
  code = None /\ last tr = Some (Down Context).
Proof. vm_compute. split; reflexivity. Qed.

(** While [Dispatcher.Stop] waits for a worker the process stays, its context
    not cancelled: the deferred [cancel] comes after it. *)
Example stop_blocks_life :
  life_of dev_lookup demo_store
    {| en_listen := None; en_signal := Some None;
       en_closes := fun p => negb (bool_decide (p = Workers)) |} =
    (map Up [Context; PartnerConns; RedisClient; Workers; Bus; RelayLoop; HttpServer] ++
     map Down [HttpServer; RelayLoop; Bus], None).
Proof. vm_compute. reflexivity. Qed.
