(* ===== verification/Concurrent.v ===== *)
(** Executors that run next to each other ([internal/saga/saga.go] under the
    goroutines of [internal/worker/worker.go] and the handlers of
    [internal/api/api.go]): what the version checks of the store guarantee for
    any interleaving of units of work, and that every run and every cascade
    over a store others write to is made of such units. *)

From S2P Require Import Prelude StateMachine Store StoreFacts Outbox Partner Steps Lease Executor SagaLog.
From S2P Require Import ExecutorFacts RunFacts Legality Worker Api ApiFacts Scenario.

Local Open Scope Z_scope.
Local Open Scope go_scope.

(** ** A store others write to, too

    For each unit of work a turn says what happens to it: nothing, somebody
    else changes the store first, the unit is lost with an error before it
    does anything (a connection that breaks, a serialization failure), or
    somebody else changes the store between the reads that follow it. *)

Inductive Turn :=
  | Undisturbed
  | Meanwhile (f : MemStore -> MemStore)
  | Lost (err : error)
  | Torn (f : MemStore -> MemStore).

(** [sh_old] is what the transaction is read from when others have changed the
    store since; [sh_met] are the memories the interferences met. *)
Record Shared := {
  sh_mem : MemStore; sh_old : option MemStore; sh_turns : list Turn; sh_met : list MemStore }.

Definition on_mem {A} (op : Tx MemStore A) : Tx Shared A := fun s =>
  let '(r, m) := op (sh_mem s) in
  (r, {| sh_mem := m; sh_old := sh_old s; sh_turns := sh_turns s; sh_met := sh_met s |}).

Definition Shared_RunInTx {A} (fn : Tx Shared A) (s : Shared) : result A * Shared :=
  let unit_on m turns met := fn {| sh_mem := m; sh_old := None; sh_turns := turns; sh_met := met |} in
  match sh_turns s with
  | Meanwhile f :: rest => unit_on (f (sh_mem s)) rest (sh_met s ++ [sh_mem s])
  | Lost err :: rest =>
      (Err err, {| sh_mem := sh_mem s; sh_old := None; sh_turns := rest; sh_met := sh_met s |})
  | Torn f :: rest =>
      let '(r, s') := unit_on (sh_mem s) rest (sh_met s) in
      (r, {| sh_mem := f (sh_mem s'); sh_old := Some (sh_mem s'); sh_turns := sh_turns s';
             sh_met := sh_met s' ++ [sh_mem s'] |})
  | Undisturbed :: rest => unit_on (sh_mem s) rest (sh_met s)
  | [] => unit_on (sh_mem s) [] (sh_met s)
  end.

#[export] Instance Shared_Store : Store Shared := {
  LoadTx id s := Mem.LoadTx id (default (sh_mem s) (sh_old s));
  LoadSagaState id s := Mem.LoadSagaState id (sh_mem s);
  ListSteps id s := Mem.ListSteps id (sh_mem s);
  ListOutboxPending n s := Mem.ListOutboxPending n (sh_mem s);
  ListInflightSagaIDs s := Mem.ListInflightSagaIDs (sh_mem s);
  RunInTx := @Shared_RunInTx;
  CreateTx rt t steps sg evs := on_mem (Mem.CreateTx rt t steps sg evs);
  InsertStep rt row := on_mem (Mem.InsertStep rt row);
  UpdateStep row := on_mem (Mem.UpdateStep row);
  LoadStep id n a := on_mem (Mem.LoadStep id n a);
  UpdateTransactionStatus rt id st v := on_mem (Mem.UpdateTransactionStatus rt id st v);
  SaveSagaState sg := on_mem (Mem.SaveSagaState sg);
  TxLoadSagaState id := on_mem (Mem.TxLoadSagaState id);
  AppendOutbox _ evs := on_mem (Mem.AppendOutbox evs);
  MarkOutboxPublished ids at_ := on_mem (Mem.MarkOutboxPublished ids at_);
  ClaimOutboxPending n := on_mem (Mem.ClaimOutboxPending n);
}.

(** ** What the version checks guarantee

    Any number of executors, cascades and handlers read sagas and run units of
    work on the snapshots they have read, in any order, with or without leases. *)

Section Board.
Context {P : Type} `{GoStd}.

(** The store and every snapshot somebody has read. *)
Record Board := { bd_store : MemStore; bd_seen : list SagaState }.

(** A unit of work that leaves the sagas alone. *)
Definition keeps {A} (u : Tx MemStore A) : Prop := forall s, mem_sagas (snd (u s)) = mem_sagas s.

(** The states a saga in state [from] may be given. *)
Definition may_follow (from to : State) : Prop :=
star legal from to \/ to = StateFailed \/ to = StateFailedCompensated.

(** The units of work of the executor, with the snapshot each is computed from
  when it writes the saga.  [MemStore] takes its mutex per method, so a unit
  may also be interrupted after each of them: the methods are units, too. *)
Inductive executor_unit : option SagaState -> forall A, Tx MemStore A -> Prop :=
| eu_begin (step : StepImpl P) sc rt : executor_unit None bool (begin_attempt step sc rt)
| eu_success (step : StepImpl P) sc res fin rt :
    executor_unit (Some (sc_Saga sc)) unit (persist_success step sc res fin rt)
| eu_terminal (step : StepImpl P) sc res fin rt :
    executor_unit (Some (sc_Saga sc)) unit (persist_terminal step sc res fin rt)
| eu_failure (step : StepImpl P) sc fin err :
    executor_unit None unit (record_failure step sc fin err)
| eu_compensating id name : executor_unit None unit (compensating_unit id name)
| eu_mark id name status err : executor_unit None unit (mark_unit id name status err)
| eu_compensated tx sg id target rt :
    target = StateFailed \/ target = StateFailedCompensated ->
    executor_unit (Some sg) unit (compensated_unit tx sg id target rt)
| eu_confirmed id sg tx rt : executor_unit (Some sg) unit (confirmed_unit id sg tx rt)
| eu_save sg nxt st pl :
    may_follow (sg_State sg) st ->
    executor_unit (Some sg) unit (Mem.SaveSagaState (sg_advance sg nxt st pl (sg_Version sg + 1)))
| eu_other A (u : Tx MemStore A) : keeps u -> executor_unit None A u.

(** The units of work the program has, named one by one: those above, and the
  other methods of the store, on which the handlers and the relay work. *)
Inductive program_unit : option SagaState -> forall A, Tx MemStore A -> Prop :=
| pu_begin (step : StepImpl P) sc rt : program_unit None bool (begin_attempt step sc rt)
| pu_success (step : StepImpl P) sc res fin rt :
    program_unit (Some (sc_Saga sc)) unit (persist_success step sc res fin rt)
| pu_terminal (step : StepImpl P) sc res fin rt :
    program_unit (Some (sc_Saga sc)) unit (persist_terminal step sc res fin rt)
| pu_failure (step : StepImpl P) sc fin err :
    program_unit None unit (record_failure step sc fin err)
| pu_compensating id name : program_unit None unit (compensating_unit id name)
| pu_mark id name status err : program_unit None unit (mark_unit id name status err)
| pu_compensated tx sg id target rt :
    target = StateFailed \/ target = StateFailedCompensated ->
    program_unit (Some sg) unit (compensated_unit tx sg id target rt)
| pu_confirmed id sg tx rt : program_unit (Some sg) unit (confirmed_unit id sg tx rt)
| pu_save sg nxt st pl :
    may_follow (sg_State sg) st ->
    program_unit (Some sg) unit (Mem.SaveSagaState (sg_advance sg nxt st pl (sg_Version sg + 1)))
| pu_insert rt row : program_unit None unit (Mem.InsertStep rt row)
| pu_update row : program_unit None unit (Mem.UpdateStep row)
| pu_status rt id st v : program_unit None unit (Mem.UpdateTransactionStatus rt id st v)
| pu_append evs : program_unit None unit (Mem.AppendOutbox evs)
| pu_published ids at_ : program_unit None unit (Mem.MarkOutboxPublished ids at_)
| pu_claim n : program_unit None (list OutboxEvent) (Mem.ClaimOutboxPending n).

(** A step of the program: somebody loads a saga, runs a unit of work on a
  snapshot that was loaded, or creates a transaction. *)
Inductive program_step (b : Board) : Board -> Prop :=
| ps_load id sg :
    Mem.LoadSagaState id (bd_store b) = Ok sg ->
    program_step b {| bd_store := bd_store b; bd_seen := sg :: bd_seen b |}
| ps_unit from A (u : Tx MemStore A) r s :
    program_unit from A u -> (forall sg, from = Some sg -> sg ∈ bd_seen b) ->
    Mem.RunInTx u (bd_store b) = (r, s) ->
    program_step b {| bd_store := s; bd_seen := bd_seen b |}
| ps_create rt t steps sg evs r s :
    tx_TxID t = sg_TxID sg -> mem_sagas (bd_store b) !! sg_TxID sg = None ->
    Mem.RunInTx (Mem.CreateTx rt t steps sg evs) (bd_store b) = (r, s) ->
    program_step b {| bd_store := s; bd_seen := bd_seen b |}.

(** A step of anybody; its label is the snapshot the unit is computed from. *)
Inductive board_step (b : Board) : option SagaState -> Board -> Prop :=
| bs_load id sg :
    Mem.LoadSagaState id (bd_store b) = Ok sg ->
    board_step b None {| bd_store := bd_store b; bd_seen := sg :: bd_seen b |}
| bs_unit from A (u : Tx MemStore A) r s :
    executor_unit from A u -> (forall sg, from = Some sg -> sg ∈ bd_seen b) ->
    Mem.RunInTx u (bd_store b) = (r, s) ->
    board_step b from {| bd_store := s; bd_seen := bd_seen b |}
| bs_create rt t steps sg evs r s :
    tx_TxID t = sg_TxID sg -> mem_sagas (bd_store b) !! sg_TxID sg = None ->
    Mem.RunInTx (Mem.CreateTx rt t steps sg evs) (bd_store b) = (r, s) ->
    board_step b None {| bd_store := s; bd_seen := bd_seen b |}.

(** How a saga that is written relates to the one it replaces. *)
Definition succeeds (sg sg' : SagaState) : Prop :=
sg_TxID sg' = sg_TxID sg /\ sg_Version sg' = sg_Version sg + 1 /\
may_follow (sg_State sg) (sg_State sg').

(** A unit leaves the sagas alone or writes the one it is computed from, and
  that only when the version it was read at is still the stored one. *)
Definition saves (from : option SagaState) (s s' : MemStore) : Prop :=
mem_sagas s' = mem_sagas s \/
exists sg cur sg', from = Some sg /\ mem_sagas s !! sg_TxID sg = Some cur /\
  sg_Version cur = sg_Version sg /\ mem_sagas s' = <[sg_TxID sg := sg']> (mem_sagas s) /\
  succeeds sg sg'.

(** *** Units of work by their parts *)

Definition saving {A} (from : option SagaState) (u : Tx MemStore A) : Prop :=
forall s, saves from s (snd (u s)).

Lemma keeps_saving {A} from (u : Tx MemStore A) : keeps u -> saving from u.
Proof. intros Hu s. left. apply Hu. Qed.

Lemma saves_same from s0 s s' s'' :
mem_sagas s = mem_sagas s0 -> mem_sagas s'' = mem_sagas s' -> saves from s s' -> saves from s0 s''.
Proof. unfold saves. intros -> ->. done. Qed.

Lemma keeps_ret {A} (a : A) : keeps (tx_ret a). Proof. done. Qed.
Lemma keeps_fail {A} err : keeps (@tx_fail MemStore A err). Proof. done. Qed.

Lemma keeps_try {A B} (m : Tx MemStore A) (k : result A -> Tx MemStore B) :
keeps m -> (forall r, keeps (k r)) -> keeps (tx_try m k).
Proof.
intros Hm Hk s. unfold tx_try. specialize (Hm s). destruct (m s) as [r s1].
cbn in Hm. by rewrite (Hk r s1).
Qed.

Lemma keeps_bind {A B} (m : Tx MemStore A) (k : A -> Tx MemStore B) :
keeps m -> (forall a, keeps (k a)) -> keeps (tx_bind m k).
Proof.
intros Hm Hk s. unfold tx_bind. specialize (Hm s). destruct (m s) as [[a|err] s1]; [|done].
cbn in Hm. by rewrite (Hk a s1).
Qed.

Lemma saving_after_try {A B} from (m : Tx MemStore A) (k : result A -> Tx MemStore B) :
keeps m -> (forall r, saving from (k r)) -> saving from (tx_try m k).
Proof.
intros Hm Hk s. unfold tx_try. specialize (Hm s). destruct (m s) as [r s1].
exact (saves_same _ _ s1 _ _ Hm eq_refl (Hk r s1)).
Qed.

Lemma saving_after_bind {A B} from (m : Tx MemStore A) (k : A -> Tx MemStore B) :
keeps m -> (forall a, saving from (k a)) -> saving from (tx_bind m k).
Proof.
intros Hm Hk s. unfold tx_bind. specialize (Hm s). destruct (m s) as [[a|err] s1]; [|by left].
exact (saves_same _ _ s1 _ _ Hm eq_refl (Hk a s1)).
Qed.

Lemma saving_try {A B} from (m : Tx MemStore A) (k : result A -> Tx MemStore B) :
saving from m -> (forall r, keeps (k r)) -> saving from (tx_try m k).
Proof.
intros Hm Hk s. unfold tx_try. specialize (Hm s). destruct (m s) as [r s1].
exact (saves_same _ _ s s1 _ eq_refl (Hk r s1) Hm).
Qed.

Lemma saving_bind {A B} from (m : Tx MemStore A) (k : A -> Tx MemStore B) :
saving from m -> (forall a, keeps (k a)) -> saving from (tx_bind m k).
Proof.
intros Hm Hk s. unfold tx_bind. specialize (Hm s). destruct (m s) as [[a|err] s1]; [|done].
exact (saves_same _ _ s s1 _ eq_refl (Hk a s1) Hm).
Qed.

(** *** The operations *)

Lemma keeps_UpdateStep row : keeps (Mem.UpdateStep row).
Proof. intros s. apply UpdateStep_same_tables. Qed.

Lemma keeps_InsertStep rt row : keeps (Mem.InsertStep rt row).
Proof.
intros s. pose proof (InsertStep_spec rt row s) as Hs. destruct (row_of _ _ _ _).
- by rewrite Hs.
- destruct Hs as (s'&id0&->&(_&E&_)&_). done.
Qed.

Lemma keeps_LoadStep id n a : keeps (Mem.LoadStep id n a).
Proof. intros s. unfold Mem.LoadStep. by destruct (find_first _ _). Qed.

Lemma keeps_UpdateStatus rt id st v : keeps (Mem.UpdateTransactionStatus rt id st v).
Proof. intros s. rewrite UpdateTransactionStatus_spec. by repeat case_match. Qed.

Lemma keeps_AppendOutbox evs : keeps (Mem.AppendOutbox evs).
Proof. intros s. apply AppendOutbox_tables. Qed.

Lemma keeps_MarkOutboxPublished ids at_ : keeps (Mem.MarkOutboxPublished ids at_).
Proof. done. Qed.

Lemma keeps_ClaimOutboxPending n : keeps (Mem.ClaimOutboxPending n).
Proof. intros s. unfold Mem.ClaimOutboxPending. by destruct (Mem.claim_pending _ _ _). Qed.

Lemma saving_SaveSagaState sg nxt st pl :
may_follow (sg_State sg) st -> saving (Some sg) (Mem.SaveSagaState (sg_advance sg nxt st pl (sg_Version sg + 1))).
Proof.
intros Hst s. rewrite SaveSagaState_spec. cbn [sg_TxID sg_Version sg_advance].
destruct (mem_sagas s !! sg_TxID sg) as [cur|] eqn:Hcur; [|by left].
destruct (Z.eqb_spec (sg_Version sg + 1) (sg_Version cur + 1)) as [E|E]; [|by left].
right. eexists sg, cur, _. split_and!; [done|done|lia|done|]. by split_and!.
Qed.
End Board.

Create HintDb keeping.
#[local] Hint Resolve keeps_ret keeps_fail keeps_try keeps_bind keeps_UpdateStep keeps_InsertStep keeps_LoadStep
  keeps_UpdateStatus keeps_AppendOutbox keeps_MarkOutboxPublished keeps_ClaimOutboxPending : keeping.

(** A unit of work that no save is part of. *)
Ltac keep := cbn [LoadStep InsertStep UpdateStep SaveSagaState UpdateTransactionStatus AppendOutbox MemStore_Store];
  repeat first
  [ apply keeps_try; [|intros ?] | apply keeps_bind; [|intros ?]
  | solve [eauto with keeping] | case_match ].

Section Guarantee.
Context {P : Type} `{GoStd}.

Lemma executor_unit_saves from A (u : Tx MemStore A) :
executor_unit (P := P) from A u -> saving from u.
Proof.
intros [step sc rt|step sc res fin rt|step sc res fin rt|step sc fin err|id name|id name status err
  |tx sg id target rt Ht|id sg tx rt|sg nxt st pl Hst|A' u' Hk].
1, 4, 5, 6, 10: apply keeps_saving.
- unfold begin_attempt. keep.
- unfold record_failure. keep.
- unfold compensating_unit. keep.
- unfold mark_unit. keep.
- exact Hk.
- unfold persist_success. apply saving_after_bind; [keep|intros _].
  destruct (validatePath _ _ _) as [err|] eqn:Hp; [by apply keeps_saving|].
  apply saving_bind; [|intros _; keep]. unfold saga_after in *.
  destruct (if res_Terminal res then _ else _) as [nxt st]. cbn in Hp.
  apply saving_SaveSagaState. left. by eapply validatePath_legal.
- unfold persist_terminal. apply saving_after_try; [keep|intros _]. cbn [sg_State sg_advance].
  destruct (snd (Transition _ _)) as [err|] eqn:Ht; [by apply keeps_saving|].
  apply saving_try; [|intros _; keep]. apply saving_SaveSagaState. left.
  by apply star_one, Transition_ok_legal.
- unfold compensated_unit. apply saving_try; [|intros _; keep]. by apply saving_SaveSagaState; right.
- unfold confirmed_unit. cbn [sg_State sg_advance].
  destruct (snd (Transition _ _)) as [err|] eqn:Ht; [by apply keeps_saving|].
  apply saving_bind; [|intros _; keep]. apply saving_SaveSagaState. left.
  by apply star_one, Transition_ok_legal.
- by apply saving_SaveSagaState.
Qed.

(** Every snapshot that was read is the stored saga or has an older version. *)
Record board_ok (b : Board) : Prop := {
bo_filed : forall id sg, mem_sagas (bd_store b) !! id = Some sg -> sg_TxID sg = id;
bo_seen : forall sg, sg ∈ bd_seen b -> exists cur, mem_sagas (bd_store b) !! sg_TxID sg = Some cur /\
  (sg_Version sg < sg_Version cur \/ sg = cur);
}.

(** What a step does to one saga. *)
Definition overwrites (b : Board) (from : option SagaState) (b' : Board) (id : string) : Prop :=
exists sg sg', mem_sagas (bd_store b) !! id = Some sg /\ from = Some sg /\
  mem_sagas (bd_store b') !! id = Some sg' /\ succeeds sg sg'.

(** The tables of the sagas after a step. *)
Lemma board_step_sagas b from b' :
board_step (P := P) b from b' ->
saves from (bd_store b) (bd_store b') /\ (forall sg, from = Some sg -> sg ∈ bd_seen b) \/
exists id sg, mem_sagas (bd_store b) !! id = None /\ sg_TxID sg = id /\
  mem_sagas (bd_store b') = <[id := sg]> (mem_sagas (bd_store b)).
Proof.
intros [id0 sg _|from' A u r s Hu Hfrom Hrun|rt t steps sg evs r s Hid Hnew Hrun]; cbn.
- left. split; [by left|done].
- left. split; [|done]. pose proof (executor_unit_saves from' A u Hu (bd_store b)) as Hsv.
  unfold Mem.RunInTx, Mem.Commit, Mem.Rollback in Hrun.
  destruct (u (bd_store b)) as [[a|err] s1]; by injection Hrun as _ <-.
- unfold Mem.RunInTx, Mem.CreateTx in Hrun. destruct (mem_txs _ !! _).
  + injection Hrun as _ <-. left. split; [by left|done].
  + injection Hrun as _ <-. right. exists (tx_TxID t). eexists. cbn. split_and!; [by rewrite Hid|..|done].
    done.
Qed.

Lemma board_step_cases b from b' :
board_ok b -> board_step (P := P) b from b' -> forall id,
mem_sagas (bd_store b') !! id = mem_sagas (bd_store b) !! id \/
(mem_sagas (bd_store b) !! id = None /\
   exists sg, mem_sagas (bd_store b') !! id = Some sg /\ sg_TxID sg = id) \/
overwrites b from b' id.
Proof.
intros [Hfiled Hseen] [[Hsv Hfrom]|(id0&sg0&Hn&Hid0&E)]%board_step_sagas id.
- destruct Hsv as [E|(sg&cur&sg'&->&Hcur&Hv&E&Hsu)]; [left; by rewrite E|].
  destruct (decide (sg_TxID sg = id)) as [<-|Hne]; [|left; by rewrite E, lookup_insert_ne].
  destruct (Hseen sg (Hfrom sg eq_refl)) as (cur'&Hcur'&[Hlt|<-]); [simplify_eq; lia|].
  right; right. exists sg, sg'. by rewrite E, lookup_insert_eq.
- destruct (decide (id0 = id)) as [<-|Hne]; [|left; by rewrite E, lookup_insert_ne].
  right; left. split; [done|]. exists sg0. by rewrite E, lookup_insert_eq.
Qed.

Lemma board_step_ok b from b' : board_ok b -> board_step (P := P) b from b' -> board_ok b'.
Proof.
intros Hok Hs. pose proof (board_step_cases b from b' Hok Hs) as Hcases. destruct Hok as [Hfiled Hseen].
assert (forall id sg, mem_sagas (bd_store b) !! id = Some sg ->
  exists cur, mem_sagas (bd_store b') !! id = Some cur /\ (sg_Version sg < sg_Version cur \/ sg = cur)) as Hmono.
{ intros id sg Hsg. destruct (Hcases id) as [E|[[E _]|(sg0&sg'&E&_&E'&_&Hv&_)]]; [|congruence|].
  - exists sg. rewrite E. by split; [|right].
  - exists sg'. simplify_eq. split; [done|left; lia]. }
split.
- intros id sg' Hsg'. destruct (Hcases id) as [E|[(E&sg1&E'&Hid)|(sg&sg1&E&_&E'&Hid&_)]]; simplify_eq.
  + apply Hfiled. by rewrite <- E.
  + done.
  + rewrite Hid. by apply Hfiled.
- intros sg Hsg. assert (sg ∈ bd_seen b \/ exists id, mem_sagas (bd_store b) !! id = Some sg) as [Hin|[id Hid]].
  { destruct Hs as [id0 sg0 Hl| |]; [|by left..]. cbn in Hsg. apply elem_of_cons in Hsg as [->|?]; [right|by left].
    exists id0. unfold Mem.LoadSagaState in Hl. destruct (mem_sagas _ !! _); [by injection Hl as <-|done]. }
  + destruct (Hseen sg Hin) as (cur&Hcur&Hv). destruct (Hmono _ _ Hcur) as (cur'&Hcur'&Hv').
    exists cur'. split; [done|]. destruct Hv as [Hv| ->], Hv' as [Hv'| ->]; [left; lia|by left|by left|by right].
  + rewrite (Hfiled _ _ Hid). by apply Hmono.
Qed.

(** The steps of everybody, whoever makes them. *)
Definition anybody (b b' : Board) : Prop := exists from, board_step (P := P) b from b'.

Lemma program_unit_executor from A (u : Tx MemStore A) :
program_unit (P := P) from A u -> executor_unit (P := P) from A u.
Proof. intros []; try (apply eu_other; eauto with keeping; fail); by econstructor. Qed.

Lemma program_step_anybody b b' : program_step (P := P) b b' -> anybody b b'.
Proof.
intros [id sg Hl|from A u r s Hu%program_unit_executor Hfrom Hr|rt t steps sg evs r s Hid Hn Hr].
- exists None. by eapply bs_load.
- exists from. by eapply bs_unit.
- exists None. by eapply bs_create.
Qed.

(** C11: however many executors, cascades and handlers interleave their units of
  work, with stale snapshots and without leases, no saga update is lost: a
  unit that changes a stored saga was computed from exactly the saga it
  replaces, raises its version by one and moves it along the lifecycle or
  into a failure state; so of two units computed from one version at most one
  is stored, and no snapshot that was read is ever newer than the store. *)
Theorem no_lost_update s b from b' :
(forall id sg, mem_sagas s !! id = Some sg -> sg_TxID sg = id) ->
star anybody {| bd_store := s; bd_seen := [] |} b -> board_step (P := P) b from b' ->
(forall id, mem_sagas (bd_store b') !! id = mem_sagas (bd_store b) !! id \/
   mem_sagas (bd_store b) !! id = None \/ overwrites b from b' id) /\
(forall sg, sg ∈ bd_seen b -> exists cur, mem_sagas (bd_store b) !! sg_TxID sg = Some cur /\
   (sg_Version sg < sg_Version cur \/ sg = cur)).
Proof.
intros Hs Hstar Hstep. assert (board_ok b) as Hok.
{ eapply (star_invariant anybody board_ok); [|exact Hstar|].
  - intros x y ? [l ?]. by eapply board_step_ok.
  - split; [done|]. intros sg ?%not_elem_of_nil. done. }
split; [|apply Hok]. intros id.
destruct (board_step_cases b from b' Hok Hstep id) as [E|[[E _]|E]]; [by left|by right; left|by right; right].
Qed.
End Guarantee.

(** Two executors read the same saga and execute its first step; the second
    success is refused. *)
Definition policy_step : StepImpl Stub := NewPolicyStep (cl_Policy (stub_clients DefaultStubConfig)).
Definition policy_context : SagaContext Stub :=
  {| sc_Tx := demo_tx; sc_Saga := demo_saga; sc_Attempt := 1; sc_Partners := None |}.
Definition policy_result : StepResult :=
  {| res_State := StatePolicyChecked; res_PayloadMerge := ∅; res_Terminal := false |}.
Definition policy_success : Tx MemStore unit :=
  persist_success policy_step policy_context policy_result 5 (calm_env 3).

Definition read_board : Board := {| bd_store := demo_store; bd_seen := [demo_saga] |}.
Definition saved_board : Board :=
  {| bd_store := snd (Mem.RunInTx policy_success demo_store); bd_seen := [demo_saga] |}.

Lemma success_step s :
  board_step (P := Stub) {| bd_store := s; bd_seen := [demo_saga] |} (Some demo_saga)
    {| bd_store := snd (Mem.RunInTx policy_success s); bd_seen := [demo_saga] |}.
Proof.
  eapply (bs_unit {| bd_store := s; bd_seen := [demo_saga] |} (Some demo_saga)).
  - exact (eu_success policy_step policy_context policy_result 5 (calm_env 3)).
  - intros sg [= <-]. by left.
  - apply surjective_pairing.
Defined.

Lemma no_lost_update_witness :
  overwrites read_board (Some demo_saga) saved_board "t1" /\
  fst (Mem.RunInTx policy_success (bd_store saved_board)) = Err ErrConflict.
Proof.
  split; [|vm_compute; reflexivity].
  destruct (no_lost_update (P := Stub) demo_store read_board (Some demo_saga) saved_board) as [Hc _].
  - exact (filed_sg _ demo_filed).
  - apply star_one. exists None. apply (bs_load {| bd_store := demo_store; bd_seen := [] |} "t1"). reflexivity.
  - apply success_step.
  - destruct (Hc "t1") as [E|[E|E]]; [vm_compute in E; discriminate..|exact E].
Defined.

(** ** The executor keeps to these steps

    A run over a store that others write to by such steps is itself made of
    such steps, so that runs can be put next to each other. *)

(** A unit of work on the shared store that is one on its memory. *)
Definition lifted {A} (u : Tx Shared A) (v : Tx MemStore A) : Prop := forall s, u s = on_mem v s.

Lemma lifted_ret {A} (a : A) : lifted (tx_ret a) (tx_ret a).
Proof. by intros []. Qed.

Lemma lifted_fail {A} err : lifted (@tx_fail Shared A err) (tx_fail err).
Proof. by intros []. Qed.

Lemma lifted_try {A B} (m : Tx Shared A) m' (k : result A -> Tx Shared B) k' :
  lifted m m' -> (forall r, lifted (k r) (k' r)) -> lifted (tx_try m k) (tx_try m' k').
Proof.
  intros Hm Hk s. unfold tx_try. rewrite (Hm s). unfold on_mem.
  destruct (m' (sh_mem s)) as [r mem]. by rewrite (Hk r).
Qed.

Lemma lifted_bind {A B} (m : Tx Shared A) m' (k : A -> Tx Shared B) k' :
  lifted m m' -> (forall a, lifted (k a) (k' a)) -> lifted (tx_bind m k) (tx_bind m' k').
Proof.
  intros Hm Hk s. unfold tx_bind. rewrite (Hm s). unfold on_mem.
  destruct (m' (sh_mem s)) as [[a|err] mem]; [by rewrite (Hk a)|done].
Qed.

Ltac lift := repeat first
  [ apply lifted_try; [|intros ?] | apply lifted_bind; [|intros ?] | apply lifted_ret | apply lifted_fail
  | solve [by intros ?] | case_match ].

Section Party.
Context {P L : Type} `{GoStd} `{LeaseManager L} (env : nat -> Runtime).
Local Abbreviation W := (World Shared P L).

(** The steps the others make; they have those of the program among them. *)
Variable moves : Board -> Board -> Prop.
Hypothesis moves_program : forall b b', program_step (P := P) b b' -> moves b b'.

(** Others change the store by these steps only. *)
Definition turn_ok (t : Turn) : Prop :=
match t with
| Meanwhile f | Torn f => forall m seen, exists seen', seen ⊆ seen' /\
    star moves {| bd_store := m; bd_seen := seen |} {| bd_store := f m; bd_seen := seen' |}
| _ => True
end.

Definition turns_ok (w : W) : Prop := Forall turn_ok (sh_turns (w_store w)).

(** From [w] to [w'] the memory moved by such steps that need the
  snapshots [K] only. *)
Definition on_board (K : list SagaState) (w w' : W) : Prop :=
turns_ok w -> forall seen, K ⊆ seen ->
turns_ok w' /\ exists seen', seen ⊆ seen' /\
  star moves {| bd_store := sh_mem (w_store w); bd_seen := seen |}
    {| bd_store := sh_mem (w_store w'); bd_seen := seen' |}.

#[local] Instance on_board_preorder K : PreOrder (on_board K).
Proof.
split.
- intros w Hw seen _. split; [done|]. by exists seen.
- intros w1 w2 w3 H12 H23 Hw seen HK. destruct (H12 Hw seen HK) as (Hw2&seen2&Hs2&Hr2).
  destruct (H23 Hw2 seen2) as (Hw3&seen3&Hs3&Hr3); [by etrans|]. split; [done|].
  exists seen3. split; [by etrans|by etrans].
Qed.

Lemma on_board_same K w w' : w_store w' = w_store w -> on_board K w w'.
Proof. intros E Hw seen _. unfold turns_ok. rewrite E. split; [done|]. by exists seen. Qed.

Lemma respects_elsewhere {A} K (m : Go W A) : (forall w, w_store (snd (m w)) = w_store w) -> respects (on_board K) m.
Proof. intros Hm w. by apply on_board_same. Qed.

Lemma in_ext_elsewhere {A} K (m : Go (Ext P) A) : respects (on_board K) (in_ext m : Go W A).
Proof. apply respects_elsewhere. intros w. unfold in_ext, zoom. by destruct (m (w_ext w)). Qed.

(** What was loaded may be used afterwards. *)
Lemma respects_load {A} K id (k : result SagaState -> Go W A) :
(forall sg, respects (on_board (sg :: K)) (k (Ok sg))) -> (forall err, respects (on_board K) (k (Err err))) ->
respects (on_board K) (let! r := reading (LoadSagaState id) in k r).
Proof.
intros Hok Herr w. unfold bind, reading. cbn [LoadSagaState Shared_Store].
destruct (Mem.LoadSagaState id (sh_mem (w_store w))) as [sg|err] eqn:E; [|apply Herr].
intros Hw seen HK. destruct (Hok sg w Hw (sg :: seen)) as (Hw'&seen'&Hs&Hr).
{ intros x. rewrite !elem_of_cons. intros [->|?]; [by left|right; by apply HK]. }
split; [done|]. exists seen'. split; [intros x Hx; apply Hs; by right|].
eapply star_step; [|exact Hr]. apply moves_program. by apply (ps_load {| bd_store := _; bd_seen := seen |} id).
Qed.

(** One unit of work. *)
Lemma respects_unit {A} K from (u : Runtime -> Tx Shared A) (v : Runtime -> Tx MemStore A) :
(forall rt, lifted (u rt) (v rt)) -> (forall rt, program_unit (P := P) from A (v rt)) ->
(forall sg, from = Some sg -> sg ∈ K) -> respects (on_board K) (run_in_tx env u : Go W (result A)).
Proof.
intros Hl Hu HK. unfold run_in_tx. apply respects_bind; [apply _|apply in_ext_elsewhere|].
intros rt w Hw seen Hseen. destruct w as [[m old turns met] x l].
assert (forall m0 turns0 met0 seen0, K ⊆ seen0 ->
  let s' := snd (u rt {| sh_mem := m0; sh_old := None; sh_turns := turns0; sh_met := met0 |}) in
  star moves {| bd_store := m0; bd_seen := seen0 |}
    {| bd_store := sh_mem s'; bd_seen := seen0 |} /\ sh_turns s' = turns0) as Hunit.
{ intros m0 turns0 met0 seen0 HK0. rewrite (Hl rt). unfold on_mem. cbn [sh_mem sh_old sh_turns sh_met].
  destruct (v rt m0) as [r m1] eqn:Ev. split; [|done]. apply star_one, moves_program.
  eapply (ps_unit {| bd_store := m0; bd_seen := seen0 |} from A (v rt) r); [apply Hu| |].
  - intros sg Hsg. apply HK0. by apply HK.
  - unfold Mem.RunInTx, Mem.Commit, Mem.Rollback. cbn. rewrite Ev. by destruct r. }
unfold turns_ok in Hw. cbn [RunInTx Shared_Store w_store sh_turns] in Hw |- *. unfold Shared_RunInTx.
cbn [sh_turns sh_mem sh_met].
destruct turns as [|[|f|err|f] turns]; try (apply Forall_cons in Hw as [Hf Hw]).
- destruct (Hunit m [] met seen Hseen) as [Hr Ht]. destruct (u rt _) as [r s']. cbn in *.
  unfold turns_ok. cbn. rewrite Ht. split; [done|]. by exists seen.
- destruct (Hunit m turns met seen Hseen) as [Hr Ht]. destruct (u rt _) as [r s']. cbn in *.
  unfold turns_ok. cbn. rewrite Ht. split; [done|]. by exists seen.
- destruct (Hf m seen) as (seen1&Hs1&Hr1).
  destruct (Hunit (f m) turns (met ++ [m]) seen1) as [Hr Ht]; [by etrans|].
  destruct (u rt _) as [r s']. cbn in *. unfold turns_ok. cbn. rewrite Ht. split; [done|].
  exists seen1. split; [done|by etrans].
- cbn. split; [done|]. by exists seen.
- destruct (Hunit m turns met seen Hseen) as [Hr Ht]. destruct (u rt _) as [r s']. cbn in *.
  destruct (Hf (sh_mem s') seen) as (seen1&Hs1&Hr1). unfold turns_ok. cbn. rewrite Ht. split; [done|].
  exists seen1. split; [done|by etrans].
Qed.

(** *** The functions of the executor *)

Lemma runStepOnce_board K (e : Executor P) step (sc : SagaContext P) :
sc_Saga sc ∈ K -> respects (on_board K) (runStepOnce env e step sc : Go W _).
Proof.
intros HK. unfold runStepOnce. apply respects_bind_err; [apply _| |].
{ eapply respects_unit; [|intros rt; apply (pu_begin step sc rt)|done]. intros rt. unfold begin_attempt. lift. }
intros [|]; [apply respects_ret; apply _|]. apply respects_bind; [apply _|apply in_ext_elsewhere|].
intros [res err]. apply respects_bind; [apply _|apply in_ext_elsewhere|]. intros rt0.
destruct err as [err|].
- destruct (res_Terminal res).
  + apply respects_bind; [apply _| |intros ?; apply respects_ret; apply _]. unfold persistTerminal.
    eapply respects_unit; [|intros rt; apply (pu_terminal step sc res)|intros sg [= <-]; exact HK].
    intros rt. unfold persist_terminal. lift.
  + apply respects_bind; [apply _| |intros _; apply respects_bind; [apply _| |intros ?; apply respects_ret; apply _]].
    * eapply respects_unit; [|intros rt; apply (pu_failure step sc (rt_now rt0) err)|done].
      intros rt. by intros ?.
    * unfold audit. destruct (ex_Clients e) as [[? ? ? ? ? ? [a|]]|]; try (apply respects_ret; apply _).
      apply in_ext_elsewhere.
- eapply respects_unit; [|intros rt; apply (pu_success step sc res (rt_now rt0))|intros sg [= <-]; exact HK].
  intros rt. unfold persist_success. lift.
Qed.

Lemma waiting_board K (e : Executor P) attempt :
respects (on_board K) (backoff env e attempt : Go W _) /\ respects (on_board K) (wait_or_done env : Go W _).
Proof.
split.
- unfold backoff. case_match; [apply respects_panic; apply _|].
  apply respects_bind; [apply _|apply in_ext_elsewhere|intros ?; apply respects_ret; apply _].
- unfold wait_or_done. apply respects_bind; [apply _|apply in_ext_elsewhere|intros ?; apply respects_ret; apply _].
Qed.

Lemma retry_loop_board K (e : Executor P) step (sc : SagaContext P) n attempt lastErr :
sc_Saga sc ∈ K -> respects (on_board K) (retry_loop env e step sc n attempt lastErr : Go W _).
Proof.
intros HK. revert attempt lastErr. induction n as [|n IH]; intros attempt lastErr; cbn [retry_loop];
  [apply respects_ret; apply _|].
apply respects_bind; [apply _|by apply runStepOnce_board|]. intros [[]|err]; [apply respects_ret; apply _|].
case_match; [apply respects_ret; apply _|]. destruct (waiting_board K e attempt) as [Hb Hw].
apply respects_bind; [apply _|done|]. intros _. apply respects_bind; [apply _|done|].
intros [cerr|]; [apply respects_ret; apply _|apply IH].
Qed.

Lemma compensate_steps_board K (e : Executor P) tx sg id steps :
respects (on_board K) (compensate_steps env e tx sg id steps : Go W _).
Proof.
induction steps as [|step rest IH]; cbn [compensate_steps]; [apply respects_ret; apply _|].
assert (forall name status err, respects (on_board K) (mark_row env id name status err : Go W _)) as Hmark.
{ intros name status err. unfold mark_row. eapply respects_unit; [|intros rt; apply (pu_mark id name status err)|done].
  intros rt. unfold mark_unit. lift. }
apply respects_bind; [apply _| |].
{ unfold mark_compensating.
  eapply respects_unit; [|intros rt; apply (pu_compensating id (Name step))|done].
  intros rt. unfold compensating_unit. lift. }
intros _. apply respects_bind; [apply _|apply in_ext_elsewhere|].
intros [err|]; (apply respects_bind; [apply _|apply Hmark|]); intros ?; [apply respects_ret; apply _|exact IH].
Qed.

Lemma respects_read {A} K (f : Shared -> A) : respects (on_board K) (reading f : Go W A).
Proof. by apply respects_elsewhere. Qed.

Lemma compensateCascade_board K (e : Executor P) id step :
respects (on_board K) (compensateCascade env e id step : Go W _).
Proof.
unfold compensateCascade, bind_err at 1. apply respects_load; [|intros err; apply respects_ret; apply _].
intros sg. apply respects_bind_err; [apply _|apply respects_read|]. intros tx.
destruct (index_of _ _) as [i|]; [|apply respects_ret; apply _].
apply respects_bind; [apply _|apply compensate_steps_board|]. intros compErr.
apply respects_bind; [apply _| |intros ?; apply respects_ret; apply _].
unfold persist_compensated.
eapply respects_unit; [|intros rt; apply (pu_compensated tx sg id)|intros sg0 [= <-]; by left].
- intros rt. unfold compensated_unit. lift.
- destruct compErr; [by left|by right].
Qed.

Lemma advanceToConfirmed_board K (e : Executor P) id pf :
respects (on_board K) (advanceToConfirmed env e id pf : Go W _).
Proof.
unfold advanceToConfirmed. destruct (ex_Clients e) as [[? ? ? ? [client|] ? ?]|]; try (apply respects_ret; apply _).
unfold bind_err at 1. apply respects_load; [|intros err; apply respects_ret; apply _]. intros sg.
case_match; [apply respects_ret; apply _|].
induction pf as [|pf IH]; cbn [poll_confirmed]; [apply respects_diverge; apply _|].
apply respects_bind; [apply _|apply in_ext_elsewhere|]. intros st. case_match.
- unfold persistConfirmedInline. apply respects_bind_err; [apply _|apply respects_read|]. intros tx.
  eapply respects_unit; [|intros rt; apply (pu_confirmed id sg tx)|intros sg0 [= <-]; by left].
  intros rt. unfold confirmed_unit. lift.
- apply respects_bind; [apply _|apply (waiting_board _ e 1)|].
  intros [cerr|]; [apply respects_ret; apply _|exact IH].
Qed.

Lemma run_iter_board K (e : Executor P) id owner pf : respects (on_board K) (run_iter env e id owner pf : Go W _).
Proof.
unfold run_iter. apply respects_bind; [apply _|apply respects_read|].
intros [tx|err]; [|apply respects_ret; apply _]. apply respects_load; [|intros err; apply respects_ret; apply _].
intros sg. case_match; [apply respects_ret; apply _|].
destruct (StepByName e _) as [step|]; [|apply respects_ret; apply _].
apply respects_bind; [apply _| |].
{ apply respects_elsewhere. intros w. unfold zoom. by destruct (Acquire _ _ _ _) as [r l']. }
intros [[release ok] [err|]]; [apply respects_ret; apply _|].
assert (forall f : W -> W, (forall w, w_store (f w) = w_store w) -> respects (on_board (sg :: K)) (modify f)) as Hmod.
{ intros f Hf. apply respects_elsewhere. intros w. apply Hf. }
destruct ok; cbn [negb].
- apply respects_bind; [apply _| |].
  { unfold runStepWithRetry. apply retry_loop_board. by left. }
  intros r. apply respects_bind; [apply _|by apply Hmod|]. intros _. destruct r as [[]|err].
  + apply respects_bind; [apply _|apply respects_read|]. intros sg2. cbn zeta.
    generalize (match sg2 with Ok g => sg_State g | Err _ => StateOther "" end). intros st2.
    destruct (Terminal st2); [apply respects_ret; apply _|]. case_bool_decide; [|apply respects_ret; apply _].
    apply respects_bind; [apply _|apply advanceToConfirmed_board|intros ?; apply respects_ret; apply _].
  + apply respects_bind; [apply _|apply compensateCascade_board|intros ?; apply respects_ret; apply _].
- apply respects_bind; [apply _|by apply Hmod|]. intros _.
  apply respects_bind; [apply _|apply (waiting_board _ e 1)|].
  intros [cerr|]; apply respects_ret; apply _.
Qed.

(** A run or a cascade moves the memory by steps of the program only. *)
Lemma executor_steps (e : Executor P) id (w : W) :
turns_ok w ->
let reached w' := exists seen, star moves {| bd_store := sh_mem (w_store w); bd_seen := [] |}
                                 {| bd_store := sh_mem (w_store w'); bd_seen := seen |} in
(forall owner pf fuel, reached (snd (Run env e id owner pf fuel w))) /\
(forall step, reached (snd (compensateCascade env e id step w))).
Proof.
intros Hw reached. assert (forall A (m : Go W A), respects (on_board []) m -> reached (snd (m w))) as Hall.
{ intros A m Hr. destruct (Hr w Hw []) as (_&seen&_&Hs); [done|]. by exists seen. }
split; [|intros step; apply Hall, compensateCascade_board]. intros owner pf fuel. apply Hall. clear -moves_program.
induction fuel as [|fuel IH]; cbn [Run]; [apply respects_diverge; apply _|].
apply respects_bind; [apply _|apply run_iter_board|]. intros [r|]; [apply respects_ret; apply _|exact IH].
Qed.
End Party.

Section Anybody.
Context {P L : Type} `{GoStd} `{LeaseManager L} (env : nat -> Runtime).
Local Abbreviation W := (World Shared P L).

(** C12: a run or a cascade, whatever its steps, partners and leases are and
  whatever others do to the store between its units of work, moves the store
  by steps of the board only; so what holds of the board holds of any number
  of runs and cascades put next to each other. *)
Theorem executor_on_board (e : Executor P) id (w : W) :
turns_ok (anybody (P := P)) w ->
let reached w' := exists seen, star (anybody (P := P)) {| bd_store := sh_mem (w_store w); bd_seen := [] |}
                                 {| bd_store := sh_mem (w_store w'); bd_seen := seen |} in
(forall owner pf fuel, reached (snd (Run env e id owner pf fuel w))) /\
(forall step, reached (snd (compensateCascade env e id step w))).
Proof. apply executor_steps, program_step_anybody. Qed.
End Anybody.

(** A run during which somebody marks its first step as being compensated. *)
Lemma executor_on_board_witness :
  let w := {| w_store := {| sh_mem := demo_store; sh_turns := [Undisturbed; Undisturbed;
                 Meanwhile (fun m => snd (Mem.RunInTx (compensating_unit "t1" StepPolicy) m))]; sh_met := []; sh_old := None |};
              w_ext := demo_ext; w_lease := tt |} in
  let w' := snd (Run calm_env (demo_exec calm_env DefaultStubConfig) "t1" "a" 10 12 w) in
  sg_State <$> mem_sagas (sh_mem (w_store w')) !! "t1" = Some StateCompleted /\
  exists seen, star (anybody (P := Stub)) {| bd_store := demo_store; bd_seen := [] |}
                 {| bd_store := sh_mem (w_store w'); bd_seen := seen |}.
Proof.
  intros w w'. split; [vm_compute; reflexivity|].
  refine (proj1 (executor_on_board calm_env (demo_exec calm_env DefaultStubConfig) "t1" w _) "a" 10%nat 12%nat).
  repeat constructor. intros m seen. exists seen. split; [done|].
  apply star_one. exists None.
  apply (bs_unit {| bd_store := m; bd_seen := seen |} None unit (compensating_unit "t1" StepPolicy)
    (fst (Mem.RunInTx (compensating_unit "t1" StepPolicy) m))).
  - apply eu_compensating.
  - discriminate.
  - apply surjective_pairing.
Defined.
