(* ===== verification/Durable.v ===== *)
(** What outlasts every interleaving: the records of a transaction, however the
    units of work of executors, cascades and handlers
    ([internal/saga/saga.go], [internal/api/api.go], [internal/outbox/relay.go])
    are put next to each other on one [MemStore], and what is more where the
    handlers follow one another. *)

From S2P Require Import Prelude StateMachine Store StoreFacts Outbox Partner Steps Lease Executor SagaLog.
From S2P Require Import ExecutorFacts RunFacts Attempting Returns Legality SagaInv Worker Api ApiFacts Frame Scenario System SystemTheorems.
From S2P Require Import Concurrent.

Local Open Scope Z_scope.
Local Open Scope go_scope.

(** [sg'] is a later version of [sg]: it keeps its transaction, a saga that
    differs has a higher version, and its state comes later in the lifecycle or
    is that of a failed or a compensated saga. *)
Definition saga_later (sg sg' : SagaState) : Prop :=
  sg_TxID sg' = sg_TxID sg /\ (sg' = sg \/ sg_Version sg < sg_Version sg') /\
  may_follow (sg_State sg) (sg_State sg').

(** What is stored of transaction [id] stays stored, in a later version. *)
Definition outlasts (id : string) (s s' : MemStore) : Prop :=
  forall tx sg, stored id s tx sg ->
  exists tx' sg', stored id s' tx' sg' /\ later tx tx' /\ saga_later sg sg'.

(** A saga that is over moves to no other state along the lifecycle. *)
Lemma star_legal_terminal st st' : Terminal st = true -> star legal st st' -> st' = st.
Proof. intros Ht Hs. destruct Hs as [|x y z Hxy _]; [done|]. apply legal_not_terminal in Hxy. congruence. Qed.

Lemma may_follow_refl st : may_follow st st.
Proof. left. reflexivity. Qed.

Lemma may_follow_trans a b c : may_follow a b -> may_follow b c -> may_follow a c.
Proof.
  intros Hab [Hbc|Hc]; [|by right].
  destruct Hab as [Hab|[-> | ->]]; [left; by etrans|right; left|right; right];
    by eapply star_legal_terminal.
Qed.

#[export] Instance saga_later_preorder : PreOrder saga_later.
Proof.
  split.
  - intros sg. split_and!; [done|by left|apply may_follow_refl].
  - intros x y z (E&Hv&Hm) (E'&Hv'&Hm'). split_and!; [congruence| |by eapply may_follow_trans].
    destruct Hv as [->|Hv], Hv' as [->|Hv']; [by left|by right|by right|right; lia].
Qed.

(** The transactions stay, in later versions. *)
Definition txs_later (s s' : MemStore) : Prop :=
  forall id tx, mem_txs s !! id = Some tx -> exists tx', mem_txs s' !! id = Some tx' /\ later tx tx'.

#[export] Instance txs_later_preorder : PreOrder txs_later.
Proof.
  split.
  - intros s id tx Htx. exists tx. split; [done|apply later_refl].
  - intros x y z Hxy Hyz id tx Htx. destruct (Hxy id tx Htx) as (tx2&Htx2&Hl).
    destruct (Hyz id tx2 Htx2) as (tx3&Htx3&Hl'). exists tx3. split; [done|by eapply later_trans].
Qed.

Lemma txs_later_same s s' : mem_txs s' = mem_txs s -> txs_later s s'.
Proof. intros E id tx Htx. exists tx. rewrite E. split; [done|apply later_refl]. Qed.

(** A unit of work that loses no transaction. *)
Definition ages {A} (u : Tx MemStore A) : Prop := forall s, txs_later s (snd (u s)).

Lemma ages_ret {A} (a : A) : ages (tx_ret a).
Proof. intros s. reflexivity. Qed.
Lemma ages_fail {A} err : ages (@tx_fail MemStore A err).
Proof. intros s. reflexivity. Qed.

Lemma ages_try {A B} (m : Tx MemStore A) (k : result A -> Tx MemStore B) :
  ages m -> (forall r, ages (k r)) -> ages (tx_try m k).
Proof. intros Hm Hk s. unfold tx_try. specialize (Hm s). destruct (m s) as [r s1]. etrans; [exact Hm|apply Hk]. Qed.

Lemma ages_bind {A B} (m : Tx MemStore A) (k : A -> Tx MemStore B) :
  ages m -> (forall a, ages (k a)) -> ages (tx_bind m k).
Proof.
  intros Hm Hk s. unfold tx_bind. specialize (Hm s). destruct (m s) as [[a|err] s1]; [|exact Hm].
  etrans; [exact Hm|apply Hk].
Qed.

Lemma ages_UpdateStatus rt id st v : ages (Mem.UpdateTransactionStatus rt id st v).
Proof.
  intros s. unfold Mem.UpdateTransactionStatus. destruct (mem_txs s !! id) as [t|] eqn:Ht; [|reflexivity].
  destruct (Z.eqb_spec (tx_Version t) v) as [<-|]; [|reflexivity]. intros id' tx Htx. cbn.
  destruct (decide (id' = id)) as [->|]; [|rewrite lookup_insert_ne by done; exists tx; split; [done|apply later_refl]].
  rewrite lookup_insert_eq. simplify_eq. eexists. split; [done|]. split; [done|right; cbn; lia].
Qed.

Lemma ages_tables {A} (u : Tx MemStore A) : (forall s, mem_txs (snd (u s)) = mem_txs s) -> ages u.
Proof. intros Hu s. by apply txs_later_same. Qed.

Lemma ages_UpdateStep row : ages (Mem.UpdateStep row).
Proof. apply ages_tables. intros s. apply UpdateStep_same_tables. Qed.

Lemma ages_InsertStep rt row : ages (Mem.InsertStep rt row).
Proof. apply ages_tables. intros s. unfold Mem.InsertStep. by case_match. Qed.

Lemma ages_LoadStep id n a : ages (Mem.LoadStep id n a).
Proof. apply ages_tables. intros s. unfold Mem.LoadStep. by case_match. Qed.

Lemma ages_SaveSagaState g : ages (Mem.SaveSagaState g).
Proof. apply ages_tables. intros s. rewrite SaveSagaState_spec. by repeat case_match. Qed.

Lemma ages_AppendOutbox evs : ages (Mem.AppendOutbox evs).
Proof. apply ages_tables. intros s. apply AppendOutbox_tables. Qed.

Lemma ages_MarkOutboxPublished ids at_ : ages (Mem.MarkOutboxPublished ids at_).
Proof. by apply ages_tables. Qed.

Lemma ages_ClaimOutboxPending n : ages (Mem.ClaimOutboxPending n).
Proof. apply ages_tables. intros s. unfold Mem.ClaimOutboxPending. by destruct (Mem.claim_pending _ _ _). Qed.

Create HintDb ageing.
#[local] Hint Resolve ages_ret ages_fail ages_UpdateStatus ages_UpdateStep ages_InsertStep ages_LoadStep
  ages_SaveSagaState ages_AppendOutbox ages_MarkOutboxPublished ages_ClaimOutboxPending : ageing.

(** A unit of work by its parts. *)
Ltac age := cbn [LoadStep InsertStep UpdateStep SaveSagaState UpdateTransactionStatus AppendOutbox MemStore_Store];
  repeat first
  [ solve [eauto with ageing] | apply ages_try; [|intros ?] | apply ages_bind; [|intros ?] | case_match ].

Section Durable.
Context {P : Type} `{GoStd}.

Lemma program_unit_ages from A (u : Tx MemStore A) : program_unit (P := P) from A u -> ages u.
Proof.
intros [step sc rt|step sc res fin rt|step sc res fin rt|step sc fin err|id name|id name status err
  |tx sg id target rt Ht|id sg tx rt|sg nxt st pl Hst|rt row|row|rt id st v|evs|ids at_|n];
  [unfold begin_attempt|unfold persist_success|unfold persist_terminal|unfold record_failure
  |unfold compensating_unit|unfold mark_unit|unfold compensated_unit|unfold confirmed_unit|..]; age.
Qed.

Lemma program_step_txs b b' : program_step (P := P) b b' -> txs_later (bd_store b) (bd_store b').
Proof.
intros [id sg Hl|from A u r s Hu Hfrom Hr|rt t steps sg evs r s Hid Hn Hr]; cbn; [reflexivity| |].
- pose proof (program_unit_ages from A u Hu (bd_store b)) as Ha.
  unfold Mem.RunInTx, Mem.Commit, Mem.Rollback in Hr. destruct (u (bd_store b)) as [[a|err] s1];
    by injection Hr as _ <-.
- unfold Mem.RunInTx, Mem.CreateTx in Hr. destruct (mem_txs _ !! _) eqn:Ht; injection Hr as _ <-; [reflexivity|].
  intros id tx Htx. cbn. exists tx. rewrite lookup_insert_ne by congruence. split; [done|apply later_refl].
Qed.

(** One step, on a board whose snapshots are not newer than its store. *)
Lemma program_step_outlasts id b b' :
board_ok b -> program_step (P := P) b b' -> outlasts id (bd_store b) (bd_store b').
Proof.
intros Hok Hstep tx sg Hst.
destruct (program_step_txs b b' Hstep id tx (stored_tx _ _ _ _ Hst)) as (tx'&Htx'&Hl).
destruct (program_step_anybody b b' Hstep) as [from Hb]. destruct Hst as [Htx Hsg Htid Hsid].
assert (tx_TxID tx' = id) as Htid' by (destruct Hl as [-> _]; exact Htid).
destruct (board_step_cases b from b' Hok Hb id) as [E|[[E _]|(sg0&sg'&E&_&E'&Hid&Hv&Hm)]]; [|congruence|].
- exists tx', sg. split; [split; [done|congruence|done..]|]. split; [done|reflexivity].
- simplify_eq. exists tx', sg'. split; [split; [done..|congruence]|]. split; [done|]. split_and!; [congruence|right; lia|done].
Qed.

#[local] Instance outlasts_preorder id : PreOrder (outlasts id).
Proof.
split.
- intros s tx sg Hst. exists tx, sg. split; [done|]. split; [apply later_refl|reflexivity].
- intros s1 s2 s3 H12 H23 tx sg Hst. destruct (H12 tx sg Hst) as (tx2&sg2&Hst2&Hl2&Hs2).
  destruct (H23 tx2 sg2 Hst2) as (tx3&sg3&Hst3&Hl3&Hs3). exists tx3, sg3.
  split; [done|]. split; [by eapply later_trans|by etrans].
Qed.

Lemma program_outlasts id b b' :
board_ok b -> star (program_step (P := P)) b b' -> board_ok b' /\ outlasts id (bd_store b) (bd_store b').
Proof.
intros Hok Hs. eapply (star_invariant program_step (fun x => board_ok x /\ outlasts id (bd_store b) (bd_store x)));
  [|exact Hs|by split].
intros x y [Hx Hl] Hxy. split.
- destruct (program_step_anybody x y Hxy) as [from Hb]. by eapply board_step_ok.
- etrans; [exact Hl|by apply program_step_outlasts].
Qed.

(** A board nobody has read from yet. *)
Lemma unread_ok s : (forall id sg, mem_sagas s !! id = Some sg -> sg_TxID sg = id) ->
  board_ok {| bd_store := s; bd_seen := [] |}.
Proof. intros Hs. split; [exact Hs|]. intros sg ?%not_elem_of_nil. done. Qed.
End Durable.

Section Records.
Context {P L K : Type} `{GoStd} `{LeaseManager L} `{Locker K} (env : nat -> Runtime).
Context (order : list (string * string) -> list (string * string)) (c : Clients P) (cfg : Config).

(** C3: no transaction is ever lost.  However loads, units of work and creations
  interleave on a [MemStore] that started empty, and with stale snapshots:
  a stored transaction stays stored with the business fields it was created
  with, the versions of its records only grow, and its saga is in a state that
  comes later in the lifecycle or in one of the two failure states.  A run and
  a cascade, whatever the partners and leases do and whatever others do
  by such steps between its units of work, keeps to this.  Where the handlers,
  manual compensations and worker turns of a process follow one another, the
  moves of the saga are legal transitions throughout. *)
Theorem records_durable id :
(forall b b', star (program_step (P := P)) {| bd_store := NewMemStore; bd_seen := [] |} b ->
   star (program_step (P := P)) b b' -> outlasts id (bd_store b) (bd_store b')) /\
(forall e txid (w : World Shared P L),
   (forall i sg, mem_sagas (sh_mem (w_store w)) !! i = Some sg -> sg_TxID sg = i) ->
   turns_ok (program_step (P := P)) w ->
   (forall owner pf fuel, outlasts id (sh_mem (w_store w)) (sh_mem (w_store (snd (Run env e txid owner pf fuel w))))) /\
   (forall step, outlasts id (sh_mem (w_store w)) (sh_mem (w_store (snd (compensateCascade env e txid step w)))))) /\
(forall v0 v v' : Server MemStore P L K, delays_ok cfg -> initial v0 ->
   star (sys_step env order c cfg) v0 v -> star (sys_step env order c cfg) v v' ->
   progressed id (sv_store v) (sv_store v')).
Proof.
split_and!.
- intros b b' Hb Hb'. eapply program_outlasts; [|exact Hb'].
  eapply (program_outlasts id); [|exact Hb]. by apply unread_ok.
- intros e txid w Hf Hw.
  destruct (executor_steps env program_step (fun _ _ Hs => Hs) e txid w Hw) as [Hrun Hcas].
  split.
  + intros owner pf fuel. destruct (Hrun owner pf fuel) as [seen Hs].
    eapply (program_outlasts id) in Hs as [_ Ho]; [exact Ho|by apply unread_ok].
  + intros step. destruct (Hcas step) as [seen Hs].
    eapply (program_outlasts id) in Hs as [_ Ho]; [exact Ho|by apply unread_ok].
- intros v0 v v'. apply serialised_progress.
Qed.
End Records.

(** A transaction is created, and then its status is written. *)
Definition born_board : Board :=
  {| bd_store := snd (Mem.RunInTx (Mem.CreateTx (calm_env 0) demo_tx [] demo_saga []) NewMemStore); bd_seen := [] |}.
Definition grown_board : Board :=
  {| bd_store := snd (Mem.RunInTx
       (Mem.UpdateTransactionStatus (calm_env 1) "t1" StatePolicyChecked 1) (bd_store born_board));
     bd_seen := [] |}.

Lemma born_steps : star (program_step (P := Stub)) {| bd_store := NewMemStore; bd_seen := [] |} born_board.
Proof.
  apply star_one. apply (ps_create {| bd_store := NewMemStore; bd_seen := [] |} (calm_env 0) demo_tx [] demo_saga []
    (fst (Mem.RunInTx (Mem.CreateTx (calm_env 0) demo_tx [] demo_saga []) NewMemStore)));
    [reflexivity..|apply surjective_pairing].
Defined.

Lemma grown_steps : star (program_step (P := Stub)) born_board grown_board.
Proof.
  apply star_one. eapply (ps_unit born_board None unit).
  - apply (pu_status (calm_env 1) "t1" StatePolicyChecked 1).
  - discriminate.
  - apply surjective_pairing.
Defined.

Lemma records_durable_witness :
  (exists tx tx' sg sg', stored "t1" (bd_store born_board) tx sg /\ stored "t1" (bd_store grown_board) tx' sg' /\
     later tx tx' /\ tx_Status tx' = StatePolicyChecked) /\
  let w := {| w_store := {| sh_mem := demo_store; sh_turns := [Undisturbed; Undisturbed;
                 Meanwhile (fun m => snd (Mem.RunInTx (compensating_unit "t1" StepPolicy) m))]; sh_met := []; sh_old := None |};
              w_ext := demo_ext; w_lease := tt |} in
  outlasts "t1" demo_store
    (sh_mem (w_store (snd (Run calm_env (demo_exec calm_env DefaultStubConfig) "t1" "a" 10 12 w)))) /\
  progressed "id-0-0" (sv_store demo_v2) (sv_store demo_v3).
Proof.
  destruct (records_durable (P := Stub) (L := NoopLease) (K := NoopLocker) ticking_env no_order
    demo_clients DefaultConfig "t1") as (Hb&_&_).
  destruct (records_durable (P := Stub) (L := NoopLease) (K := NoopLocker) calm_env no_order
    demo_clients DefaultConfig "t1") as (_&Hr&_).
  destruct (records_durable (P := Stub) (L := NoopLease) (K := NoopLocker) ticking_env no_order
    demo_clients DefaultConfig "id-0-0") as (_&_&Hp). split.
  - assert (exists tx sg, stored "t1" (bd_store born_board) tx sg) as (tx&sg&Hst)
      by (eexists _, _; split; vm_compute; reflexivity).
    destruct (Hb _ _ born_steps grown_steps tx sg Hst) as (tx'&sg'&Hst'&Hl&_).
    exists tx, tx', sg, sg'. split; [exact Hst|]. split; [exact Hst'|]. split; [exact Hl|].
    pose proof (stored_tx _ _ _ _ Hst') as Htx'. vm_compute in Htx'. injection Htx' as <-. reflexivity.
  - intros w. split; [|exact (Hp demo_v0 demo_v2 demo_v3 demo_delays demo_initial demo_to_v2 demo_v2_v3)].
    refine (proj1 (Hr (demo_exec calm_env DefaultStubConfig) "t1" w _ _) "a" 10%nat 12%nat).
    + exact (filed_sg _ demo_filed).
    + repeat constructor. intros m seen. exists seen. split; [done|].
      apply star_one. apply (ps_unit {| bd_store := m; bd_seen := seen |} None unit (compensating_unit "t1" StepPolicy)
        (fst (Mem.RunInTx (compensating_unit "t1" StepPolicy) m))).
      * apply pu_compensating.
      * discriminate.
      * apply surjective_pairing.
Defined.
