(* ===== verification/Bystanders.v ===== *)
(** Work on other transactions ([internal/saga/saga.go] next to itself on one
    store): a run between whose units of work others change the store, but not
    the records of its transaction, does what it does alone. *)

From S2P Require Import Prelude StateMachine Store StoreFacts Outbox Partner Steps Lease Executor SagaLog.
From S2P Require Import ExecutorFacts RunFacts Attempting Returns Legality SagaInv Worker Api ApiFacts Scenario.
From S2P Require Import Concurrent.

Local Open Scope Z_scope.
Local Open Scope go_scope.

(** The two stores hold the same records of transaction [id]. *)
Definition agree (id : string) (s s' : MemStore) : Prop :=
  mem_txs s !! id = mem_txs s' !! id /\ mem_sagas s !! id = mem_sagas s' !! id /\
  mem_steps s !! id = mem_steps s' !! id.

#[export] Instance agree_equiv id : Equivalence (agree id).
Proof.
  split; [done|by intros s s' (?&?&?)|]. intros x y z (?&?&?) (?&?&?). split_and!; congruence.
Qed.

(** The records filed under [id] carry [id]. *)
Record own (id : string) (s : MemStore) : Prop := {
  own_tx : forall tx, mem_txs s !! id = Some tx -> tx_TxID tx = id;
  own_sg : forall sg, mem_sagas s !! id = Some sg -> sg_TxID sg = id;
  own_rows : Forall (fun r => row_TxID r = id) (rows_of s id) }.

Lemma own_agree id s s' : agree id s s' -> own id s -> own id s'.
Proof.
  intros (Et&Eg&Er) [Ht Hg Hr]. split; [by rewrite <- Et|by rewrite <- Eg|].
  unfold rows_of in *. by rewrite <- Er.
Qed.

(** A unit of work that depends on and keeps to the records of [id]. *)
Definition local {A} (id : string) (u : Tx MemStore A) : Prop := forall s s',
  own id s -> agree id s s' ->
  fst (u s) = fst (u s') /\ agree id (snd (u s)) (snd (u s')) /\ own id (snd (u s)).

Lemma local_ret {A} id (a : A) : local id (tx_ret a).
Proof. by intros s s' Ho Ha. Qed.

Lemma local_fail {A} id err : local id (@tx_fail MemStore A err).
Proof. by intros s s' Ho Ha. Qed.

Lemma local_try {A B} id (m : Tx MemStore A) (k : result A -> Tx MemStore B) :
  local id m -> (forall r, local id (k r)) -> local id (tx_try m k).
Proof.
  intros Hm Hk s s' Ho Ha. destruct (Hm s s' Ho Ha) as (E&Ha1&Ho1). unfold tx_try.
  destruct (m s) as [r s1], (m s') as [r' s1']. cbn in *. subst r'. by apply Hk.
Qed.

Lemma local_bind {A B} id (m : Tx MemStore A) (k : A -> Tx MemStore B) :
  local id m -> (forall a, local id (k a)) -> local id (tx_bind m k).
Proof.
  intros Hm Hk s s' Ho Ha. destruct (Hm s s' Ho Ha) as (E&Ha1&Ho1). unfold tx_bind.
  destruct (m s) as [r s1], (m s') as [r' s1']. cbn in *. subst r'. destruct r; [by apply Hk|done].
Qed.

Lemma rows_of_agree id s s' : agree id s s' -> rows_of s id = rows_of s' id.
Proof. intros (_&_&Er). unfold rows_of. by rewrite Er. Qed.

(** A row that was loaded belongs to the transaction. *)
Lemma local_load {B} id n a (k : result StepRow -> Tx MemStore B) :
  (forall r, row_TxID r = id -> local id (k (Ok r))) -> (forall err, local id (k (Err err))) ->
  local id (tx_try (Mem.LoadStep id n a) k).
Proof.
  intros Hok Herr s s' Ho Ha. unfold tx_try, Mem.LoadStep, rows_of.
  assert (mem_steps s !! id = mem_steps s' !! id) as Er by apply Ha. rewrite <- Er.
  destruct (find_first _ _) as [r|] eqn:Ef; [|by apply Herr]. apply Hok; [|done..].
  apply find_first_Some in Ef as [Hin _]. pose proof (own_rows _ _ Ho) as Hr.
  rewrite Forall_forall in Hr. by apply Hr.
Qed.

(** Nobody looks at what appending events answers. *)
Lemma local_append {B} id evs (k : Tx MemStore B) :
  local id k -> local id (tx_try (Mem.AppendOutbox evs) (fun _ => k)).
Proof.
  intros Hk s s' Ho Ha. unfold tx_try, Mem.AppendOutbox.
  destruct (Mem.dedup_clash (mem_outbox s) evs), (Mem.dedup_clash (mem_outbox s') evs);
    (apply Hk; [eapply own_agree; [|exact Ho]; done|exact Ha]).
Qed.

Lemma local_UpdateStep id row : row_TxID row = id -> local id (Mem.UpdateStep row).
Proof.
  intros Hid s s' Ho Ha. pose proof Ha as (Et&Eg&Er). unfold Mem.UpdateStep. rewrite Hid, (rows_of_agree id s s') by done.
  destruct (replace_first _ _ _) as [rows|] eqn:E; cbn; [|by split].
  split; [done|]. split; [split_and!; [done..|by cbn; rewrite !lookup_insert_eq]|].
  destruct Ho as [Ht Hg Hr]. split; [done..|]. unfold rows_of at 1. cbn. rewrite lookup_insert_eq. cbn.
  rewrite (rows_of_agree id s s') in Hr by done. by eapply replace_first_Forall.
Qed.

Lemma local_InsertStep id rt row : row_TxID row = id -> local id (Mem.InsertStep rt row).
Proof.
  intros Hid s s' Ho Ha. pose proof Ha as (Et&Eg&Er). unfold Mem.InsertStep. rewrite Hid, (rows_of_agree id s s') by done.
  destruct (find_first _ _) as [r|] eqn:E; cbn; [by split|].
  split; [done|]. split; [split_and!; [done..|by cbn; rewrite !lookup_insert_eq]|].
  destruct Ho as [Ht Hg Hr]. split; [done..|]. unfold rows_of at 1. cbn. rewrite lookup_insert_eq. cbn.
  rewrite (rows_of_agree id s s') in Hr by done. apply Forall_app. split; [done|]. by repeat constructor.
Qed.

Lemma local_UpdateStatus id rt st v : local id (Mem.UpdateTransactionStatus rt id st v).
Proof.
  intros s s' Ho Ha. pose proof Ha as (Et&Eg&Er). unfold Mem.UpdateTransactionStatus. rewrite <- Et.
  destruct (mem_txs s !! id) as [t|] eqn:Ht; [|by split]. destruct (negb _); [by split|].
  split; [done|]. split; [split_and!; [by cbn; rewrite !lookup_insert_eq|done..]|].
  destruct Ho as [Ho Hg Hr]. split; [|done..]. cbn. rewrite lookup_insert_eq. intros tx [= <-]. exact (Ho t Ht).
Qed.

Lemma local_SaveSagaState id g : sg_TxID g = id -> local id (Mem.SaveSagaState g).
Proof.
  intros Hid s s' Ho Ha. pose proof Ha as (Et&Eg&Er). unfold Mem.SaveSagaState. rewrite Hid, <- Eg.
  destruct (mem_sagas s !! id) as [cur|] eqn:Hg; [|by split]. destruct (negb _); [by split|].
  split; [done|]. split; [split_and!; [done|by cbn; rewrite !lookup_insert_eq|done]|].
  destruct Ho as [Ht Ho Hr]. split; [done| |done]. cbn. rewrite lookup_insert_eq. by intros sg [= <-].
Qed.

Create HintDb locality.
#[local] Hint Resolve local_ret local_fail local_UpdateStep local_InsertStep local_UpdateStatus
  local_SaveSagaState : locality.

(** A unit of work by its parts. *)
Ltac localise := cbn [LoadStep InsertStep UpdateStep SaveSagaState UpdateTransactionStatus AppendOutbox MemStore_Store];
  repeat first
  [ discriminate | solve [eauto with locality] | solve [apply local_UpdateStep; cbn; congruence]
  | apply local_append | apply local_load; [intros ? ?|intros ?]
  | apply local_try; [|intros ?] | apply local_bind; [|intros ?] | case_match ].

(** ** Runs *)

Section Alone.
Context {P L : Type} `{GoStd} `{LeaseManager L} (env : nat -> Runtime) (id : string).
Local Abbreviation WS := (World Shared P L).
Local Abbreviation WM := (World MemStore P L).

(** What happens to a unit of work has nothing to do with [id]: nobody loses it,
  and the others leave the records of [id] as they are. *)
Definition spares (t : Turn) : Prop :=
match t with
| Undisturbed => True
| Meanwhile f | Torn f => forall m, agree id m (f m)
| Lost _ => False
end.

(** A world others write to and a private one that are the same to [id]. *)
Record alike (w : WS) (w' : WM) : Prop := {
al_turns : Forall spares (sh_turns (w_store w));
al_mem : agree id (sh_mem (w_store w)) (w_store w');
al_old : forall m, sh_old (w_store w) = Some m -> agree id m (w_store w');
al_own : own id (w_store w');
al_ext : w_ext w = w_ext w';
al_lease : w_lease w = w_lease w' }.

Definition mirrors {A} (m : Go WS A) (m' : Go WM A) : Prop := forall w w', alike w w' ->
fst (m w) = fst (m' w') /\ alike (snd (m w)) (snd (m' w')).

Lemma mirrors_ret {A} (a : A) : mirrors (ret a) (ret a).
Proof. done. Qed.

Lemma mirrors_diverge {A} : mirrors (@diverge _ A) diverge.
Proof. done. Qed.

Lemma mirrors_panic {A} : mirrors (@panic _ A) panic.
Proof. done. Qed.

Lemma mirrors_bind {A B} (m : Go WS A) m' (k : A -> Go WS B) k' :
mirrors m m' -> (forall a, mirrors (k a) (k' a)) -> mirrors (bind m k) (bind m' k').
Proof.
intros Hm Hk w w' Hw. destruct (Hm w w' Hw) as [E Hw1]. unfold bind.
destruct (m w) as [o w1], (m' w') as [o' w1']. cbn in *. subst o'.
destruct o; [by apply Hk|done|done].
Qed.

Lemma mirrors_bind_err {A B} (m : Go WS (result A)) m' (k : A -> Go WS (result B)) k' :
mirrors m m' -> (forall a, mirrors (k a) (k' a)) -> mirrors (bind_err m k) (bind_err m' k').
Proof. intros Hm Hk. apply mirrors_bind; [done|]. intros [a|err]; [apply Hk|apply mirrors_ret]. Qed.

Lemma mirrors_ext {A} (m : Go (Ext P) A) : mirrors (in_ext m) (in_ext m).
Proof.
intros w w' [Ht Hm Ho Hw Ex El]. unfold in_ext, zoom. rewrite Ex.
destruct (m (w_ext w')) as [o x]. by split.
Qed.

Lemma mirrors_lease {A} (m : Go L A) : mirrors (zoom w_lease set_lease m) (zoom w_lease set_lease m).
Proof.
intros w w' [Ht Hm Ho Hw Ex El]. unfold zoom. rewrite El.
destruct (m (w_lease w')) as [o l]. by split.
Qed.

Lemma mirrors_release (h : Handle) :
mirrors (modify (fun w => set_lease (Release h (w_lease w)) w)) (modify (fun w => set_lease (Release h (w_lease w)) w)).
Proof. intros w w' [Ht Hm Ho Hw Ex El]. split; [done|]. cbn. rewrite El. by split. Qed.

(** What is read belongs to the transaction. *)
Lemma mirrors_read_tx {A} (k : result Transaction -> Go WS A) k' :
(forall tx, tx_TxID tx = id -> mirrors (k (Ok tx)) (k' (Ok tx))) ->
(forall err, mirrors (k (Err err)) (k' (Err err))) ->
mirrors (let! r := reading (LoadTx id) in k r) (let! r := reading (LoadTx id) in k' r).
Proof.
intros Hok Herr w w' Hw. unfold bind, reading. cbn [LoadTx Shared_Store MemStore_Store]. unfold Mem.LoadTx.
assert (mem_txs (default (sh_mem (w_store w)) (sh_old (w_store w))) !! id = mem_txs (w_store w') !! id) as E.
{ destruct (sh_old (w_store w)) as [m|] eqn:Eo; [by apply (al_old w w' Hw)|by apply (al_mem w w' Hw)]. }
rewrite E. destruct (mem_txs (w_store w') !! id) as [tx|] eqn:Etx; [|by apply Herr].
apply Hok; [|done]. by apply (own_tx _ _ (al_own _ _ Hw)).
Qed.

Lemma mirrors_read_sg {A} (k : result SagaState -> Go WS A) k' :
(forall sg, sg_TxID sg = id -> mirrors (k (Ok sg)) (k' (Ok sg))) ->
(forall err, mirrors (k (Err err)) (k' (Err err))) ->
mirrors (let! r := reading (LoadSagaState id) in k r) (let! r := reading (LoadSagaState id) in k' r).
Proof.
intros Hok Herr w w' Hw. unfold bind, reading. cbn [LoadSagaState Shared_Store MemStore_Store]. unfold Mem.LoadSagaState.
assert (mem_sagas (sh_mem (w_store w)) !! id = mem_sagas (w_store w') !! id) as E by apply (al_mem w w' Hw).
rewrite E. destruct (mem_sagas (w_store w') !! id) as [sg|] eqn:Esg; [|by apply Herr].
apply Hok; [|done]. by apply (own_sg _ _ (al_own _ _ Hw)).
Qed.

(** A unit of work ran on both sides; what is left are the memories. *)
Ltac unit_ran Hs :=
  match type of Hs with let '(_, _) := ?a in let '(_, _) := ?b in _ => destruct a as [r s], b as [r' s'] end;
  destruct Hs as (->&Eo&Et&Ha&Hos); split; [done|]; split; cbn; [by rewrite Et| | |done..].

Lemma mirrors_unit {A} (u : Runtime -> Tx Shared A) (v : Runtime -> Tx MemStore A) :
(forall rt, lifted (u rt) (v rt)) -> (forall rt, local id (v rt)) ->
mirrors (run_in_tx env u) (run_in_tx env v).
Proof.
intros Hl Hv. unfold run_in_tx. apply mirrors_bind; [apply mirrors_ext|]. intros rt w w' Hw.
destruct w as [[m old turns met] x l], w' as [m' x' l'], Hw as [Ht Hm Ho Hw Ex El]. cbn in *. subst x' l'.
assert (forall m1, agree id m1 m' -> let '(r, s1) := v rt m1 in let '(r', s') := v rt m' in
  r = r' /\ agree id s1 s' /\ own id s') as Hunit.
{ intros m1 Ha. assert (own id m1) as Ho1 by (eapply own_agree; [symmetry|]; done).
  destruct (Hv rt m1 m' Ho1 Ha) as (E&Ha'&Ho'). destruct (v rt m1) as [r s1], (v rt m') as [r' s']. cbn in *.
  split_and!; [done..|]. by eapply own_agree. }
unfold Mem.RunInTx, Mem.Commit, Mem.Rollback, Shared_RunInTx. cbn.
assert (forall m1 turns1 met1, agree id m1 m' -> Forall spares turns1 ->
  let '(r, s) := u rt {| sh_mem := m1; sh_old := None; sh_turns := turns1; sh_met := met1 |} in
  let '(r', s') := match v rt m' with (Ok a, s'') => (Ok a, s'') | (Err e, s'') => (Err e, s'') end in
  r = r' /\ sh_old s = None /\ sh_turns s = turns1 /\ agree id (sh_mem s) s' /\ own id s') as Hshared.
{ intros m1 turns1 met1 Ha Hturns. rewrite (Hl rt). unfold on_mem. cbn. specialize (Hunit m1 Ha).
  destruct (v rt m1) as [r s1], (v rt m') as [[a|e] s']; by destruct Hunit as (->&?&?). }
destruct turns as [|[|f|err|f] turns]; try (apply Forall_cons in Ht as [Hf Ht]).
- specialize (Hshared m [] met Hm Ht). unit_ran Hshared; [done|by rewrite Eo].
- specialize (Hshared m turns met Hm Ht). unit_ran Hshared; [done|by rewrite Eo].
- assert (agree id (f m) m') as Hfm by (etrans; [symmetry; apply Hf|exact Hm]).
  specialize (Hshared (f m) turns (met ++ [m]) Hfm Ht). unit_ran Hshared; [done|by rewrite Eo].
- done.
- specialize (Hshared m turns met Hm Ht). unit_ran Hshared; [|by intros m0 [= <-]].
  etrans; [symmetry; apply Hf|exact Ha].
Qed.

(** *** The functions of the executor *)

Lemma mirrors_mark (name : Step) status (err : StepRow -> string) :
mirrors (mark_row env id name status err) (mark_row env id name status err).
Proof. apply mirrors_unit; intros rt; unfold mark_unit; [lift|localise]. Qed.

Lemma mirrors_wait (e : Executor P) attempt :
mirrors (backoff env e attempt) (backoff env e attempt) /\ mirrors (wait_or_done env) (wait_or_done env).
Proof.
split.
- unfold backoff. case_match; [apply mirrors_panic|].
  apply mirrors_bind; [apply mirrors_ext|intros ?; apply mirrors_ret].
- apply mirrors_bind; [apply mirrors_ext|intros ?; apply mirrors_ret].
Qed.

Section Attempt.
Context (step : StepImpl P) (sc : SagaContext P).
Hypothesis tx_here : tx_TxID (sc_Tx sc) = id.
Hypothesis sg_here : sg_TxID (sc_Saga sc) = id.

Lemma local_begin_attempt rt : local id (begin_attempt step sc rt).
Proof. unfold begin_attempt. rewrite tx_here. localise. Qed.

Lemma local_persist_success res fin rt : local id (persist_success step sc res fin rt).
Proof.
unfold persist_success. rewrite tx_here.
assert (sg_TxID (saga_after step sc res) = id) by (unfold saga_after; by repeat case_match).
localise.
Qed.

Lemma local_persist_terminal res fin rt : local id (persist_terminal step sc res fin rt).
Proof. unfold persist_terminal. rewrite tx_here. localise. Qed.

Lemma runStepOnce_mirrors (e : Executor P) : mirrors (runStepOnce env e step sc) (runStepOnce env e step sc).
Proof.
unfold runStepOnce. apply mirrors_bind_err.
{ apply mirrors_unit; intros rt; [unfold begin_attempt; lift|apply local_begin_attempt]. }
intros [|]; [apply mirrors_ret|]. apply mirrors_bind; [apply mirrors_ext|]. intros [res err].
apply mirrors_bind; [apply mirrors_ext|]. intros rt0. destruct err as [err|].
- destruct (res_Terminal res).
  + apply mirrors_bind; [|intros ?; apply mirrors_ret].
    apply mirrors_unit; intros rt; [unfold persist_terminal; lift|apply local_persist_terminal].
  + apply mirrors_bind; [|intros _; apply mirrors_bind; [|intros ?; apply mirrors_ret]].
    * apply mirrors_unit; intros rt; [by intros ?|]. by apply local_UpdateStep.
    * unfold audit. destruct (ex_Clients e) as [[? ? ? ? ? ? [a|]]|]; try apply mirrors_ret. apply mirrors_ext.
- apply mirrors_unit; intros rt; [unfold persist_success; lift|apply local_persist_success].
Qed.
End Attempt.

Lemma retry_loop_mirrors (e : Executor P) step (sc : SagaContext P) n attempt lastErr :
tx_TxID (sc_Tx sc) = id -> sg_TxID (sc_Saga sc) = id ->
mirrors (retry_loop env e step sc n attempt lastErr) (retry_loop env e step sc n attempt lastErr).
Proof.
intros Ht Hg. revert attempt lastErr. induction n as [|n IH]; intros attempt lastErr; cbn [retry_loop];
  [apply mirrors_ret|].
apply mirrors_bind; [by apply runStepOnce_mirrors|]. intros [[]|err]; [apply mirrors_ret|].
case_match; [apply mirrors_ret|]. destruct (mirrors_wait e attempt) as [Hb Hw].
apply mirrors_bind; [done|]. intros _. apply mirrors_bind; [done|].
intros [cerr|]; [apply mirrors_ret|apply IH].
Qed.

Lemma compensate_steps_mirrors (e : Executor P) tx sg steps :
mirrors (compensate_steps env e tx sg id steps) (compensate_steps env e tx sg id steps).
Proof.
induction steps as [|step rest IH]; cbn [compensate_steps]; [apply mirrors_ret|].
apply mirrors_bind; [apply mirrors_unit; intros rt; unfold compensating_unit; [lift|localise]|].
intros _. apply mirrors_bind; [apply mirrors_ext|].
intros [err|]; (apply mirrors_bind; [apply mirrors_mark|]); intros ?; [apply mirrors_ret|exact IH].
Qed.

Lemma compensateCascade_mirrors (e : Executor P) step :
mirrors (compensateCascade env e id step) (compensateCascade env e id step).
Proof.
unfold compensateCascade. unfold bind_err at 1 3. apply mirrors_read_sg; [|intros err; apply mirrors_ret].
intros sg Hsg. unfold bind_err at 1 2. apply mirrors_read_tx; [|intros err; apply mirrors_ret]. intros tx Htx.
destruct (index_of _ _) as [i|]; [|apply mirrors_ret].
apply mirrors_bind; [apply compensate_steps_mirrors|]. intros compErr.
apply mirrors_bind; [|intros ?; apply mirrors_ret].
apply mirrors_unit; intros rt; unfold compensated_unit; [lift|localise].
Qed.

Lemma advanceToConfirmed_mirrors (e : Executor P) pf :
mirrors (advanceToConfirmed env e id pf) (advanceToConfirmed env e id pf).
Proof.
unfold advanceToConfirmed. destruct (ex_Clients e) as [[? ? ? ? [client|] ? ?]|]; try apply mirrors_ret.
unfold bind_err at 1 2. apply mirrors_read_sg; [|intros err; apply mirrors_ret]. intros sg Hsg.
case_match; [apply mirrors_ret|].
induction pf as [|pf IH]; cbn [poll_confirmed]; [apply mirrors_diverge|].
apply mirrors_bind; [apply mirrors_ext|]. intros st. case_match.
- unfold persistConfirmedInline, bind_err. apply mirrors_read_tx; [|intros err; apply mirrors_ret]. intros tx Htx.
  apply mirrors_unit; intros rt; unfold confirmed_unit; [lift|localise].
- apply mirrors_bind; [apply (mirrors_wait e 1)|]. intros [cerr|]; [apply mirrors_ret|exact IH].
Qed.

Lemma run_iter_mirrors (e : Executor P) owner pf :
mirrors (run_iter env e id owner pf) (run_iter env e id owner pf).
Proof.
unfold run_iter. apply mirrors_read_tx; [|intros err; apply mirrors_ret]. intros tx Htx.
apply mirrors_read_sg; [|intros err; apply mirrors_ret]. intros sg Hsg.
case_match; [apply mirrors_ret|]. destruct (StepByName e _) as [step|]; [|apply mirrors_ret].
apply mirrors_bind; [apply mirrors_lease|]. intros [[release ok] [err|]]; [apply mirrors_ret|].
destruct ok; cbn [negb].
- apply mirrors_bind; [by apply retry_loop_mirrors|]. intros r. apply mirrors_bind; [apply mirrors_release|].
  intros _. destruct r as [[]|err].
  + assert (forall st2, mirrors
      (if Terminal st2 then ret (Executor.Stop (Ok tt))
       else if bool_decide (st2 = StateBroadcasted)
            then let! _ := advanceToConfirmed env e id pf in ret Continue else ret Continue)
      (if Terminal st2 then ret (Executor.Stop (Ok tt))
       else if bool_decide (st2 = StateBroadcasted)
            then let! _ := advanceToConfirmed env e id pf in ret Continue else ret Continue)) as Hrest.
    { intros st2. destruct (Terminal st2); [apply mirrors_ret|]. case_bool_decide; [|apply mirrors_ret].
      apply mirrors_bind; [apply advanceToConfirmed_mirrors|intros ?; apply mirrors_ret]. }
    apply mirrors_read_sg; [intros sg2 _|intros err]; apply Hrest.
  + apply mirrors_bind; [apply compensateCascade_mirrors|intros ?; apply mirrors_ret].
- apply mirrors_bind; [apply mirrors_release|]. intros _.
  apply mirrors_bind; [apply (mirrors_wait e 1)|]. intros [cerr|]; apply mirrors_ret.
Qed.

(** Whatever others do to other transactions between its units of work, a run
  answers what it answers alone, calls the partners as it does alone, and
  leaves the same records of its transaction; and so does a cascade. *)
Lemma run_unaffected (e : Executor P) owner pf fuel :
mirrors (Run env e id owner pf fuel) (Run env e id owner pf fuel) /\
forall step, mirrors (compensateCascade env e id step) (compensateCascade env e id step).
Proof.
split; [|apply compensateCascade_mirrors]. induction fuel as [|fuel IH]; cbn [Run]; [apply mirrors_diverge|].
apply mirrors_bind; [apply run_iter_mirrors|]. intros [r|]; [apply mirrors_ret|exact IH].
Qed.
End Alone.

(** Between the units of work of a run of [t1], and between the reads that follow
    one, somebody works on [t2]. *)
Definition add_row (a : Z) (m : MemStore) : MemStore :=
  snd (Mem.RunInTx (Mem.InsertStep (calm_env 91)
    {| row_ID := 0; row_TxID := "t2"; row_StepName := StepPolicy; row_Status := StepPending; row_Attempt := a;
       row_StartedAt := None; row_FinishedAt := None; row_Error := ""; row_IdempotencyKey := "" |}) m).

Lemma add_row_agree a m : agree "t1" m (add_row a m).
Proof.
  unfold add_row, Mem.RunInTx, Mem.InsertStep. cbn. destruct (find_first _ _); cbn; [done|].
  split_and!; [done..|]. cbn. by rewrite lookup_insert_ne.
Qed.

Definition busy_world : World Shared Stub NoopLease :=
  {| w_store := {| sh_mem := demo_store; sh_old := None; sh_met := [];
                   sh_turns := [Undisturbed; Meanwhile (add_row 1); Torn (add_row 2)] |};
     w_ext := demo_ext; w_lease := tt |}.

(** The run of [t1] does what it does alone: the partners see the same calls, and
    it completes. *)
Lemma run_beside_others :
  let beside := Run calm_env (demo_exec calm_env DefaultStubConfig) "t1" "owner" 10 9 busy_world in
  let alone := Run calm_env (demo_exec calm_env DefaultStubConfig) "t1" "owner" 10 9 demo_world in
  fst beside = fst alone /\ x_calls (w_ext (snd beside)) = x_calls (w_ext (snd alone)) /\
  sg_State <$> mem_sagas (sh_mem (w_store (snd beside))) !! "t1" = Some StateCompleted /\
  length (rows_of (sh_mem (w_store (snd beside))) "t2") = 2%nat.
Proof.
  intros beside alone.
  assert (alike "t1" busy_world demo_world) as Halike.
  { split; [|done|done| |done|done].
    - repeat (apply Forall_cons; split; [first [exact I|intros m; apply add_row_agree]|]). by apply Forall_nil.
    - split; [exact (filed_tx _ demo_filed _)|exact (filed_sg _ demo_filed _)|]. vm_compute. by repeat constructor. }
  destruct (proj1 (run_unaffected calm_env "t1" (demo_exec calm_env DefaultStubConfig) "owner" 10 9) _ _ Halike)
    as [Eo [_ _ _ _ Ex _]].
  split; [exact Eo|]. split; [exact (f_equal x_calls Ex)|]. split; vm_compute; reflexivity.
Qed.
