(* ===== verification/Races.v ===== *)
(** What the version checks do not guarantee: runs of the executor
    ([internal/saga/saga.go]) over a store that others write to, in which money
    is taken twice, refunded twice or never refunded. *)

From S2P Require Import Prelude StateMachine Store Partner Steps Lease Executor SagaLog.
From S2P Require Import Worker Api Scenario Concurrent.

Local Open Scope Z_scope.
Local Open Scope go_scope.

(** ** Two parties on one saga *)

Definition party_world (tick : nat) (m : MemStore) : World MemStore Stub NoopLease :=
  {| w_store := m; w_ext := {| x_partners := NewStub; x_calls := []; x_tick := tick |}; w_lease := tt |}.

(** The first party: a worker that runs the saga of the demo transaction while
    the turns happen. *)
Definition first_party (turns : list Turn) :=
  Run calm_env (demo_exec calm_env DefaultStubConfig) "t1" "a" 10 12
    {| w_store := {| sh_mem := demo_store; sh_turns := turns; sh_met := []; sh_old := None |};
       w_ext := demo_ext; w_lease := tt |}.

(** What the partners and the store saw of both. *)
Record Seen := { se_captures : nat; se_refunds : nat; se_state : option State }.

Definition seen_of (calls : list Call) (m : MemStore) : Seen :=
  {| se_captures := length (captures "t1" calls); se_refunds := length (refunds "t1" calls);
     se_state := sg_State <$> mem_sagas m !! "t1" |}.

Definition first_seen (turns : list Turn) : Seen :=
  let w := snd (first_party turns) in seen_of (x_calls (w_ext w)) (sh_mem (w_store w)).

(** The calls a second party makes from the memory it met. *)
Definition both_seen (turns : list Turn) (second : MemStore -> World MemStore Stub NoopLease) : Seen :=
  let w := snd (first_party turns) in
  seen_of (x_calls (w_ext w) ++ concat (map (fun m => x_calls (w_ext (second m))) (sh_met (w_store w))))
    (sh_mem (w_store w)).

(** Left alone, a capture and a completed saga. *)
Example alone : first_seen [] = {| se_captures := 1; se_refunds := 0; se_state := Some StateCompleted |}.
Proof. vm_compute. reflexivity. Qed.

(** The unit of work that persists the success of the payment is the fourth of
    the run. *)
Definition at_payment_persist (t : Turn) : list Turn := [Undisturbed; Undisturbed; Undisturbed; t].
Definition before_payment (t : Turn) : list Turn := [Undisturbed; Undisturbed; t].

(** A success that cannot be persisted once is executed again, and the saga
    completes with two captures. *)
Lemma lost_persist_captures_twice :
  first_seen (at_payment_persist (Lost (New "serialization failure"))) =
  {| se_captures := 2; se_refunds := 0; se_state := Some StateCompleted |}.
Proof. vm_compute. reflexivity. Qed.

(** The second party: an operator compensates the saga ([Control.Compensate]
    takes no lease). *)
Definition operator (m : MemStore) : World MemStore Stub NoopLease :=
  n_world (snd (Worker.Compensate calm_env (demo_exec calm_env DefaultStubConfig) "t1"
    {| n_world := party_world 100 m; n_disp := worker_New 1 "b" (calm_env 99) |})).

Definition operator_meanwhile : Turn := Meanwhile (fun m => w_store (operator m)).

(** An operator compensates after the capture and before it is persisted: the
    cascade finds no capture to refund, the worker cannot persist its success,
    captures again with every retry, and none of it is ever refunded. *)
Lemma compensation_overlaps_capture :
  both_seen (at_payment_persist operator_meanwhile) operator =
  {| se_captures := 5; se_refunds := 0; se_state := Some StateFailedCompensated |}.
Proof. vm_compute. reflexivity. Qed.

(** Both refund: the worker's cascade has read the saga when the operator
    compensates it. *)
Definition rejecting : StubConfig := {|
  sc_PolicyDecision := PolicyAllow; sc_PolicyError := None;
  sc_KytDecision := KytReject; sc_KytError := None;
  sc_BroadcastInMem := true; sc_BroadcastConfirmed := true; sc_BroadcastError := None;
  sc_SignError := None; sc_AuthorizeError := None; sc_CaptureError := None; sc_LedgerError := None |}.

Definition rejected_party (turns : list Turn) :=
  Run calm_env (demo_exec calm_env rejecting) "t1" "a" 10 12
    {| w_store := {| sh_mem := demo_store; sh_turns := turns; sh_met := []; sh_old := None |};
       w_ext := demo_ext; w_lease := tt |}.

Lemma compensations_overlap :
  let w := snd (rejected_party (repeat Undisturbed 6 ++ [operator_meanwhile])) in
  let both := seen_of (x_calls (w_ext w) ++
                concat (map (fun m => x_calls (w_ext (operator m))) (sh_met (w_store w))))
                (sh_mem (w_store w)) in
  both = {| se_captures := 1; se_refunds := 2; se_state := Some StateFailedCompensated |}.
Proof. vm_compute. reflexivity. Qed.

(** Another replica whose first authorization is answered with a transient
    error, so that its payment succeeds in the second attempt. *)
Definition flaky_clients : Clients Stub :=
  let c := stub_clients DefaultStubConfig in
  {| cl_Policy := cl_Policy c;
     cl_Payment := match cl_Payment c with
       | None => None
       | Some p => Some {|
           Authorize := fun req st =>
             if (AuthorizeCalls st =? 0)%nat
             then (Err ErrTransient, snd (Authorize p req st)) else Authorize p req st;
           Capture := Capture p; VoidAuthorization := VoidAuthorization p; Refund := Refund p |}
       end;
     cl_Kyt := cl_Kyt c; cl_Mpc := cl_Mpc c; cl_Blockchain := cl_Blockchain c;
     cl_Ledger := cl_Ledger c; cl_Audit := cl_Audit c |}.

Definition replica (m : MemStore) : World MemStore Stub NoopLease :=
  snd (Run calm_env (NewExecutor calm_env flaky_clients DefaultConfig) "t1" "b" 10 12
    (party_world 100 m)).

(** The replica holds the lease from start to end while the first party waits
    for it; but [Run] read its snapshot before it asked for the lease. *)
Definition replica_meanwhile : Turn := Meanwhile (fun m => w_store (replica m)).

(** The saga is captured by both, although only one of them holds the lease at
    any time. *)
Lemma stale_snapshot_captures_twice :
  both_seen (before_payment replica_meanwhile) replica =
  {| se_captures := 2; se_refunds := 0; se_state := Some StateCompleted |}.
Proof. vm_compute. reflexivity. Qed.

(** When the second authorization is declined the first party compensates the
    completed saga: the customer keeps the asset and gets the money back. *)
Definition declining : StubConfig := {|
  sc_PolicyDecision := PolicyAllow; sc_PolicyError := None;
  sc_KytDecision := KytClear; sc_KytError := None;
  sc_BroadcastInMem := true; sc_BroadcastConfirmed := true; sc_BroadcastError := None;
  sc_SignError := None; sc_AuthorizeError := Some (New "declined"); sc_CaptureError := None;
  sc_LedgerError := None |}.

Lemma completed_saga_compensated :
  let w := snd (Run calm_env (demo_exec calm_env declining) "t1" "a" 10 12
    {| w_store := {| sh_mem := demo_store; sh_turns := before_payment replica_meanwhile; sh_met := []; sh_old := None |};
       w_ext := demo_ext; w_lease := tt |}) in
  let both := concat (map (fun m => x_calls (w_ext (replica m))) (sh_met (w_store w))) ++ x_calls (w_ext w) in
  seen_of both (sh_mem (w_store w)) =
    {| se_captures := 1; se_refunds := 1; se_state := Some StateFailedCompensated |} /\
  length (broadcasts "t1" both) = 1%nat /\ length (posts "t1" both) = 1%nat.
Proof. vm_compute. repeat split; reflexivity. Qed.

(** The other way round: the saga has paid when the operator compensates it,
    and a worker completes it before the cascade persists its end. *)
Definition demo_turn (w : World MemStore Stub NoopLease) : World MemStore Stub NoopLease :=
  snd (run_iter calm_env (demo_exec calm_env DefaultStubConfig) "t1" "a" 10 w).
Definition paid_world : World MemStore Stub NoopLease := demo_turn (demo_turn demo_world).

Definition worker_completes (m : MemStore) : World MemStore Stub NoopLease :=
  snd (Run calm_env (demo_exec calm_env DefaultStubConfig) "t1" "a" 10 12 (party_world 200 m)).

Definition overtaken_operator :=
  Worker.Compensate calm_env (demo_exec calm_env DefaultStubConfig) "t1"
    {| n_world :=
         {| w_store := {| sh_mem := w_store paid_world;
                          sh_turns := repeat Undisturbed 6 ++
                                      [Meanwhile (fun m => w_store (worker_completes m))];
                          sh_met := []; sh_old := None |};
            w_ext := w_ext (party_world 100 (w_store paid_world)); w_lease := tt : NoopLease |};
       n_disp := worker_New 1 "b" (calm_env 99) |}.

(** The operator is told that the saga is compensated, and the payment was
    refunded; the conflict at the end of the cascade is ignored and the saga is
    COMPLETED, with the asset delivered. *)
Lemma refunded_saga_completes :
  sg_State <$> mem_sagas (w_store paid_world) !! "t1" = Some StatePaymentCaptured /\
  fst overtaken_operator = Returned (Ok tt) /\
  let w := n_world (snd overtaken_operator) in
  let calls := x_calls (w_ext paid_world) ++ x_calls (w_ext w) ++
               concat (map (fun m => x_calls (w_ext (worker_completes m))) (sh_met (w_store w))) in
  seen_of calls (sh_mem (w_store w)) =
    {| se_captures := 1; se_refunds := 1; se_state := Some StateCompleted |} /\
  length (broadcasts "t1" calls) = 1%nat.
Proof. vm_compute. repeat split; reflexivity. Qed.

(** A torn read: a replica finishes the first step between the two reads of a
    turn, so that the worker holds the old transaction with the new saga.  It
    has the lease from here on, captures, saves the saga and fails on the
    version of the transaction; every retry captures again. *)
Definition replica_policy (m : MemStore) : World MemStore Stub NoopLease :=
  snd (run_iter calm_env (demo_exec calm_env DefaultStubConfig) "t1" "b" 10 (party_world 100 m)).

Definition torn_party :=
  Run calm_env (demo_exec calm_env DefaultStubConfig) "t1" "a" 10 12
    {| w_store := {| sh_mem := w_store (replica_policy demo_store); sh_old := Some demo_store;
                     sh_turns := []; sh_met := [] |};
       w_ext := demo_ext; w_lease := tt |}.


Lemma torn_read_captures :
  let w := snd torn_party in
  fst torn_party = Returned (Ok tt) /\
  seen_of (x_calls (w_ext w)) (sh_mem (w_store w)) =
    {| se_captures := 5; se_refunds := 1; se_state := Some StateFailedCompensated |}.
Proof. vm_compute. split; reflexivity. Qed.
