(* ===== verification/Deviations.v ===== *)
(** Behaviours of the code that differ from what its comments and documents
    say, as theorems about the same definitions. *)

From S2P Require Import Prelude StateMachine Store StoreFacts Outbox Partner Steps Lease Executor.
From S2P Require Import SagaLog StepsCorrect ExecutorFacts RunFacts Legality CascadeCorrect.
From S2P Require Import Attempting Returns SagaInv Worker Api ApiFacts Frame Scenario Poller.
From S2P Require Import SagaTheorems.

Local Open Scope go_scope.

(** A context that ends at reading [k] and stays ended. *)
Definition ending_env (k : nat) : nat -> Runtime := demo_rt (fun n => Nat.leb k n).

(** What the partners saw of [t1] and the state its saga ended in. *)
Definition seen_of (w : World MemStore Stub NoopLease) :=
  let l := x_calls (w_ext w) in
  (captures "t1" l, broadcasts "t1" l, posts "t1" l, refunds "t1" l,
   sg_State <$> mem_sagas (w_store w) !! "t1").

(** The wait for the confirmation ends with the context: [Run] goes on with the
    ledger step, whose transition is illegal, and the cascade refunds a payment
    whose transaction was broadcast and posted to the ledger. *)
Lemma broadcast_then_refunded :
  let r := demo_run (ending_env 20) unconfirmed_stub in
  fst r = Returned (Ok tt) /\
  seen_of (snd r) = (["cap-t1"], ["0xhash-t1"], ["jrn-t1"], ["cap-t1"],
                     Some StateFailedCompensated).
Proof. vm_compute. split; reflexivity. Qed.

(** Without the end of the context in the back-off the ledger is posted as
    often as the step is retried. *)
Lemma ledger_posted_five_times :
  let r := demo_run (demo_rt (fun n => Nat.eqb n 20)) unconfirmed_stub in
  seen_of (snd r) = (["cap-t1"], ["0xhash-t1"], repeat "jrn-t1" 5, ["cap-t1"],
                     Some StateFailedCompensated).
Proof. vm_compute. reflexivity. Qed.

(** The step a retry names makes no difference. *)
Lemma retry_ignores_step {S P L} `{Store S} id step1 step2 pick (n : Node S P L) :
  Retry id step1 pick n = Retry id step2 pick n.
Proof. reflexivity. Qed.

(** A policy decision that is neither [allow] nor [deny] passes. *)
Lemma unknown_policy_passes {P} (client : Policy P) (sc : SagaContext P) x d reason p :
  d <> PolicyDeny ->
  Evaluate client
    {| pr_TxID := tx_TxID (sc_Tx sc); pr_UserID := tx_UserID (sc_Tx sc);
       pr_QuoteID := tx_QuoteID (sc_Tx sc); pr_Amount := tx_Amount (sc_Tx sc);
       pr_Asset := tx_Asset (sc_Tx sc); pr_Rail := tx_Rail (sc_Tx sc);
       pr_DestAddress := tx_DestAddress (sc_Tx sc) |} (x_partners x) =
    (Ok {| pp_Decision := d; pp_Reason := reason |}, p) ->
  exists x', PolicyStep_Execute (Some client) sc x =
    (Returned (advance_to StatePolicyChecked {["policy_reason" := AString reason]}, None), x').
Proof.
  intros Hd E. unfold PolicyStep_Execute, bind, invoke. rewrite E. cbn.
  destruct d; [by eexists|done|by eexists].
Qed.

(** The stub, but for a payment service that answers a capture without an id and
    a screening that asks for a review. *)
Definition anonymous_captures : Clients Stub :=
  let c := stub_clients review_stub in
  {| cl_Policy := cl_Policy c;
     cl_Payment := Some {| Authorize := StubOps.Authorize review_stub;
       Capture := fun req p => (Ok {| CaptureID := "" |}, snd (StubOps.Capture review_stub req p));
       VoidAuthorization := StubOps.VoidAuthorization; Refund := StubOps.Refund |};
     cl_Kyt := cl_Kyt c; cl_Mpc := cl_Mpc c; cl_Blockchain := cl_Blockchain c;
     cl_Ledger := cl_Ledger c; cl_Audit := cl_Audit c |}.

(** A capture that is answered without an id is kept: the compensation takes it
    for one that was not made and voids the authorization. *)
Lemma capture_without_id_kept :
  let r := Run calm_env (NewExecutor calm_env anonymous_captures DefaultConfig) "t1" "owner" 10 9 demo_world in
  fst r = Returned (Ok tt) /\
  seen_of (snd r) = ([""], [], [], [], Some StateFailedCompensated).
Proof. vm_compute. split; reflexivity. Qed.
